(** * scraper-leilao-caixa: a shallow embedding of the scraper's core

    The development follows the TypeScript sources file by file:
    - [JsString], [JsNumber]: the fragments of the JavaScript string and
      number built-ins the sources call ([trim], [replace], [split],
      [includes], [Number], [Number.isFinite], [Number.isInteger]);
    - [Models]: [src/models.ts] ([parseBrazilianNumber], [parseBRL]);
    - [Dom]: the cheerio queries the parsers issue, over a parsed tree;
    - [SearchResponse], [ListPage], [DetailPage]: [src/parsers/*];
    - [Http]: [src/caixa/httpClient.ts] (retry loop, backoff, rate limiter);
    - [Caixa]: [src/caixa/search.ts], [listPage.ts], [detail.ts];
    - [Scrape]: [src/fs-api/writeCsv.ts] and [src/scrape.ts];
    - [RetryTrace]: the backoffs of a request of [src/caixa/httpClient.ts];
    - [Run]: the requests and the files of a run of [src/scrape.ts];
    - [CsvText]: reading back the text of [src/fs-api/writeCsv.ts];
    - [Latin1], [ListFields], [FirstLine], [DetailFields]: the fields the
      two parsers of [src/parsers/parseListPage.ts] read from the text of a
      card and of a detail page;
    - [Server]: the file names and the job log of [src/server.ts].

    Strings are sequences of code units below 256 (Latin-1), but for
    [FirstLine], where they are sequences of UTF-16 code units; numbers are
    IEEE binary64 values in the [spec_float] representation of the Standard
    Library, promises are run in submission order. *)

From Stdlib Require Import Bool Arith ZArith Lia List Ascii String.
From Stdlib Require Import QArith Qround.
From Stdlib Require Import Permutation Sorted.
From Stdlib Require Import SpecFloat.
From Stdlib Require Import DecimalString DecimalNat.
From Stdlib Require Import OrdersEx.
Import ListNotations.

Close Scope Q_scope.
Local Open Scope nat_scope.
Local Open Scope string_scope.
Local Open Scope list_scope.

(** ** Results of functions that may throw *)

Inductive Result (A : Type) : Type :=
| Ok (a : A)
| Throw (message : string).
Arguments Ok {A} a.
Arguments Throw {A} message.

Definition isOk {A} (r : Result A) : bool :=
  match r with Ok _ => true | Throw _ => false end.

Definition bindR {A B} (r : Result A) (k : A -> Result B) : Result B :=
  match r with
  | Ok a => k a
  | Throw m => Throw m
  end.

(** ** JavaScript strings *)

Module JsString.
Local Open Scope string_scope.

(** WhiteSpace and LineTerminator code units below 256: TAB, LF, VT, FF, CR,
    SP and NBSP.  [String.prototype.trim] and the regular expression class
    [\s] share this set. *)
Definition isWhiteSpace (c : ascii) : bool :=
  let n := nat_of_ascii c in
  (((9 <=? n) && (n <=? 13)) || (n =? 32) || (n =? 160))%nat.

Definition isDigit (c : ascii) : bool :=
  let n := nat_of_ascii c in ((48 <=? n) && (n <=? 57))%nat.

Definition isEmpty (s : string) : bool :=
  match s with EmptyString => true | String _ _ => false end.

(** A string is truthy when it is not empty. *)
Definition truthy (s : string) : bool := negb (isEmpty s).

Fixpoint forallb (p : ascii -> bool) (s : string) : bool :=
  match s with
  | EmptyString => true
  | String c r => p c && forallb p r
  end.

Fixpoint existsb (p : ascii -> bool) (s : string) : bool :=
  match s with
  | EmptyString => false
  | String c r => p c || existsb p r
  end.

Fixpoint count (p : ascii -> bool) (s : string) : nat :=
  match s with
  | EmptyString => 0
  | String c r => (if p c then 1 else 0) + count p r
  end.

Fixpoint filter (p : ascii -> bool) (s : string) : string :=
  match s with
  | EmptyString => EmptyString
  | String c r => if p c then String c (filter p r) else filter p r
  end.

Fixpoint takeWhile (p : ascii -> bool) (s : string) : string :=
  match s with
  | EmptyString => EmptyString
  | String c r => if p c then String c (takeWhile p r) else EmptyString
  end.

Fixpoint dropWhile (p : ascii -> bool) (s : string) : string :=
  match s with
  | EmptyString => EmptyString
  | String c r => if p c then dropWhile p r else s
  end.

Definition trimStart (s : string) : string := dropWhile isWhiteSpace s.

Fixpoint trimEnd (s : string) : string :=
  match s with
  | EmptyString => EmptyString
  | String c r =>
      let r' := trimEnd r in
      if isWhiteSpace c && isEmpty r' then EmptyString else String c r'
  end.

(** [s.trim()] *)
Definition trim (s : string) : string := trimEnd (trimStart s).

(** [s.startsWith(p)] *)
Fixpoint startsWith (p s : string) : bool :=
  match p, s with
  | EmptyString, _ => true
  | String a p', String b s' => Ascii.eqb a b && startsWith p' s'
  | String _ _, EmptyString => false
  end.

(** [s.includes(sub)] *)
Fixpoint includes (sub s : string) : bool :=
  startsWith sub s ||
  match s with
  | EmptyString => false
  | String _ r => includes sub r
  end.

Fixpoint drop (n : nat) (s : string) : string :=
  match n, s with
  | O, _ => s
  | S n', String _ r => drop n' r
  | S _, EmptyString => EmptyString
  end.

(** [s.replace(/c/g, "")] for a single code unit [c]. *)
Definition removeAll (c : ascii) (s : string) : string :=
  filter (fun x => negb (Ascii.eqb x c)) s.

(** [s.replace(c, d)] for single code units: only the first [c] is replaced. *)
Fixpoint replaceFirst (c d : ascii) (s : string) : string :=
  match s with
  | EmptyString => EmptyString
  | String x r => if Ascii.eqb x c then String d r else String x (replaceFirst c d r)
  end.

(** [s.split(c)] for a single code unit separator: never the empty list. *)
Fixpoint split (c : ascii) (s : string) : list string :=
  match s with
  | EmptyString => [EmptyString]
  | String x r =>
      if Ascii.eqb x c then EmptyString :: split c r
      else match split c r with
           | [] => [String x EmptyString]
           | h :: t => String x h :: t
           end
  end.

(** [parts.join(sep)] *)
Fixpoint join (sep : string) (parts : list string) : string :=
  match parts with
  | [] => EmptyString
  | [p] => p
  | p :: rest => p ++ sep ++ join sep rest
  end.

(** [s.replace(/\s+/g, " ")]: [inRun] tells that the previous code unit was
    white space, already replaced. *)
Fixpoint collapseFrom (inRun : bool) (s : string) : string :=
  match s with
  | EmptyString => EmptyString
  | String c r =>
      if isWhiteSpace c
      then (if inRun then collapseFrom true r else String " " (collapseFrom true r))
      else String c (collapseFrom false r)
  end.

Definition collapseSpaces (s : string) : string := collapseFrom false s.

(** *** Facts on the string functions *)

Lemma takeWhile_dropWhile (p : ascii -> bool) (s : string) :
  takeWhile p s ++ dropWhile p s = s.
Proof.
  induction s as [|c r IH]; simpl; [reflexivity|].
  destruct (p c); simpl; [now rewrite IH | reflexivity].
Qed.

Lemma takeWhile_all (p : ascii -> bool) (s : string) :
  forallb p s = true -> takeWhile p s = s.
Proof.
  induction s as [|c r IH]; simpl; [reflexivity|].
  intros H. apply andb_true_iff in H as [Hc Hr]. rewrite Hc. now rewrite IH.
Qed.

Lemma dropWhile_all (p : ascii -> bool) (s : string) :
  forallb p s = true -> dropWhile p s = EmptyString.
Proof.
  induction s as [|c r IH]; simpl; [reflexivity|].
  intros H. apply andb_true_iff in H as [Hc Hr]. rewrite Hc. now apply IH.
Qed.

Lemma takeWhile_app (p : ascii -> bool) (a b : string) :
  forallb p a = true -> takeWhile p (a ++ b) = a ++ takeWhile p b.
Proof.
  induction a as [|c r IH]; simpl; [reflexivity|].
  intros H. apply andb_true_iff in H as [Hc Hr]. rewrite Hc. now rewrite IH.
Qed.

Lemma dropWhile_app (p : ascii -> bool) (a b : string) :
  forallb p a = true -> dropWhile p (a ++ b) = dropWhile p b.
Proof.
  induction a as [|c r IH]; simpl; [reflexivity|].
  intros H. apply andb_true_iff in H as [Hc Hr]. rewrite Hc. now apply IH.
Qed.

Lemma dropWhile_idem (p : ascii -> bool) (s : string) :
  dropWhile p (dropWhile p s) = dropWhile p s.
Proof.
  induction s as [|c r IH]; simpl; [reflexivity|].
  destruct (p c) eqn:Hc; [exact IH | simpl; now rewrite Hc].
Qed.

Lemma forallb_app (p : ascii -> bool) (a b : string) :
  forallb p (a ++ b) = forallb p a && forallb p b.
Proof.
  induction a as [|c r IH]; simpl; [reflexivity|].
  now rewrite IH, andb_assoc.
Qed.

Lemma existsb_app (p : ascii -> bool) (a b : string) :
  existsb p (a ++ b) = existsb p a || existsb p b.
Proof.
  induction a as [|c r IH]; simpl; [reflexivity|].
  now rewrite IH, orb_assoc.
Qed.

Lemma forallb_impl (p q : ascii -> bool) (s : string) :
  (forall c, p c = true -> q c = true) -> forallb p s = true -> forallb q s = true.
Proof.
  intros Hpq. induction s as [|c r IH]; simpl; [reflexivity|].
  intros H. apply andb_true_iff in H as [Hc Hr].
  now rewrite (Hpq _ Hc), IH.
Qed.

Lemma forallb_existsb_false (p q : ascii -> bool) (s : string) :
  (forall c, p c = true -> q c = false) -> forallb p s = true -> existsb q s = false.
Proof.
  intros Hpq. induction s as [|c r IH]; simpl; [reflexivity|].
  intros H. apply andb_true_iff in H as [Hc Hr].
  now rewrite (Hpq _ Hc), IH.
Qed.

Lemma existsb_count (p : ascii -> bool) (s : string) :
  existsb p s = true <-> 1 <= count p s.
Proof.
  induction s as [|c r IH]; simpl.
  - split; [discriminate | lia].
  - destruct (p c); simpl; [split; [lia | reflexivity] | exact IH].
Qed.

Lemma count_app (p : ascii -> bool) (a b : string) :
  count p (a ++ b) = count p a + count p b.
Proof.
  induction a as [|c r IH]; simpl; [reflexivity|]. rewrite IH. lia.
Qed.

Lemma trimEnd_empty_allWs (s : string) :
  trimEnd s = EmptyString -> forallb isWhiteSpace s = true.
Proof.
  induction s as [|c r IH]; simpl; [reflexivity|].
  destruct (isWhiteSpace c) eqn:Hc; simpl.
  - destruct (trimEnd r) eqn:Hr; simpl; [intros _; now apply IH | discriminate].
  - discriminate.
Qed.

Lemma trimEnd_allWs (s : string) :
  forallb isWhiteSpace s = true -> trimEnd s = EmptyString.
Proof.
  induction s as [|c r IH]; simpl; [reflexivity|].
  intros H. apply andb_true_iff in H as [Hc Hr]. now rewrite Hc, (IH Hr).
Qed.

Lemma trimEnd_noWs (s : string) :
  existsb isWhiteSpace s = false -> trimEnd s = s.
Proof.
  induction s as [|c r IH]; simpl; [reflexivity|].
  intros H. apply orb_false_iff in H as [Hc Hr]. now rewrite Hc, (IH Hr).
Qed.

Lemma trimStart_noWs (s : string) :
  existsb isWhiteSpace s = false -> trimStart s = s.
Proof.
  destruct s as [|c r]; simpl; [reflexivity|].
  intros H. apply orb_false_iff in H as [Hc Hr]. unfold trimStart. simpl. now rewrite Hc.
Qed.

Lemma trim_noWs (s : string) :
  existsb isWhiteSpace s = false -> trim s = s.
Proof.
  intros H. unfold trim. rewrite (trimStart_noWs _ H). now apply trimEnd_noWs.
Qed.

Lemma trim_allWs (s : string) :
  forallb isWhiteSpace s = true -> trim s = EmptyString.
Proof.
  intros H. unfold trim, trimStart. now rewrite (dropWhile_all _ _ H).
Qed.

Lemma trimEnd_idem (s : string) : trimEnd (trimEnd s) = trimEnd s.
Proof.
  induction s as [|c r IH]; simpl; [reflexivity|].
  destruct (isWhiteSpace c && isEmpty (trimEnd r)) eqn:E; simpl; [reflexivity|].
  now rewrite IH, E.
Qed.

Lemma trimStart_trimEnd (s : string) :
  trimStart (trimEnd s) = trimEnd (trimStart s).
Proof.
  unfold trimStart.
  induction s as [|c r IH]; simpl; [reflexivity|].
  destruct (isWhiteSpace c) eqn:Hc; simpl.
  - destruct (trimEnd r) eqn:Hr; simpl.
    + rewrite (dropWhile_all _ r (trimEnd_empty_allWs _ Hr)). reflexivity.
    + rewrite Hc. rewrite <- IH. reflexivity.
  - now rewrite Hc.
Qed.

Lemma trim_idem (s : string) : trim (trim s) = trim s.
Proof.
  unfold trim. rewrite trimStart_trimEnd. unfold trimStart.
  now rewrite dropWhile_idem, trimEnd_idem.
Qed.

Lemma trim_app_ws (w s : string) :
  forallb isWhiteSpace w = true -> trim (w ++ s) = trim s.
Proof.
  intros H. unfold trim, trimStart. now rewrite (dropWhile_app _ _ _ H).
Qed.

Lemma count_trimEnd (p : ascii -> bool) (s : string) :
  (forall c, p c = true -> isWhiteSpace c = false) ->
  count p (trimEnd s) = count p s.
Proof.
  intros Hp. induction s as [|c r IH]; simpl; [reflexivity|].
  destruct (isWhiteSpace c) eqn:Hc; simpl.
  - assert (p c = false) as Hpc.
    { destruct (p c) eqn:E; [|reflexivity]. apply Hp in E. congruence. }
    destruct (trimEnd r) eqn:Hr; simpl.
    + rewrite Hpc. simpl in IH. now rewrite <- IH.
    + rewrite Hpc. now rewrite <- IH.
  - now rewrite IH.
Qed.

Lemma count_dropWhile_ws (p : ascii -> bool) (s : string) :
  (forall c, p c = true -> isWhiteSpace c = false) ->
  count p (dropWhile isWhiteSpace s) = count p s.
Proof.
  intros Hp. induction s as [|c r IH]; simpl; [reflexivity|].
  destruct (isWhiteSpace c) eqn:Hc; simpl; [|reflexivity].
  destruct (p c) eqn:E; [apply Hp in E; congruence | exact IH].
Qed.

Lemma count_trim (p : ascii -> bool) (s : string) :
  (forall c, p c = true -> isWhiteSpace c = false) ->
  count p (trim s) = count p s.
Proof.
  intros Hp. unfold trim, trimStart.
  now rewrite (count_trimEnd _ _ Hp), (count_dropWhile_ws _ _ Hp).
Qed.

Lemma append_empty_r (s : string) : s ++ "" = s.
Proof. induction s as [|c r IH]; simpl; [reflexivity | now rewrite IH]. Qed.

Lemma isEmpty_app (a b : string) : isEmpty (a ++ b) = isEmpty a && isEmpty b.
Proof. now destruct a. Qed.

Lemma filter_forallb (p : ascii -> bool) (s : string) :
  JsString.forallb p (JsString.filter p s) = true.
Proof.
  induction s as [|c r IH]; [reflexivity|]. cbn [JsString.filter].
  destruct (p c) eqn:E; [cbn [JsString.forallb]; now rewrite E | exact IH].
Qed.

Lemma filter_app (p : ascii -> bool) (a b : string) :
  JsString.filter p (a ++ b) = JsString.filter p a ++ JsString.filter p b.
Proof.
  induction a as [|c r IH]; [reflexivity|]. simpl.
  destruct (p c); simpl; now rewrite IH.
Qed.

Lemma length_filter (p : ascii -> bool) (s : string) :
  String.length (JsString.filter p s) = count p s.
Proof.
  induction s as [|c r IH]; [reflexivity|]. simpl.
  destruct (p c); simpl; now rewrite IH.
Qed.

Lemma isEmpty_filter (p : ascii -> bool) (s : string) :
  isEmpty (JsString.filter p s) = negb (JsString.existsb p s).
Proof.
  induction s as [|c r IH]; [reflexivity|]. simpl.
  destruct (p c); simpl; [reflexivity | exact IH].
Qed.

Lemma existsb_impl (p q : ascii -> bool) (s : string) :
  (forall c, p c = true -> q c = true) ->
  JsString.existsb p s = true -> JsString.existsb q s = true.
Proof.
  intros Hpq. induction s as [|c r IH]; simpl; [discriminate|].
  intros H. apply orb_true_iff in H as [H|H].
  - now rewrite (Hpq _ H).
  - rewrite (IH H). apply orb_true_r.
Qed.

Lemma existsb_not_empty (p : ascii -> bool) (s : string) :
  JsString.existsb p s = true -> isEmpty s = false.
Proof. destruct s; [discriminate | reflexivity]. Qed.

Lemma startsWith_split (p s : string) :
  startsWith p s = true -> s = p ++ drop (String.length p) s.
Proof.
  revert s. induction p as [|a p IH]; intros s; [reflexivity|].
  destruct s as [|b s]; [discriminate|]. cbn [startsWith String.length drop append].
  intros H. apply andb_true_iff in H as [Hab Hp].
  apply Ascii.eqb_eq in Hab. subst b. f_equal. now apply IH.
Qed.

Lemma takeWhile_forallb (p : ascii -> bool) (s : string) :
  JsString.forallb p (takeWhile p s) = true.
Proof.
  induction s as [|c r IH]; [reflexivity|]. cbn [takeWhile].
  destruct (p c) eqn:E; [cbn [JsString.forallb]; now rewrite E | reflexivity].
Qed.

Lemma startsWith_trimEnd (p u : string) :
  startsWith p (trimEnd u) = true -> startsWith p u = true.
Proof.
  revert p. induction u as [|c r IH]; intros p; [exact (fun H => H)|].
  cbn [trimEnd].
  destruct (isWhiteSpace c && isEmpty (trimEnd r)).
  - destruct p; [reflexivity | discriminate].
  - destruct p as [|a p]; [reflexivity|]. cbn [startsWith].
    intros H. apply andb_true_iff in H as [Ha Hp]. rewrite Ha. now apply IH.
Qed.

Lemma startsWith_app (a b s : string) :
  startsWith (a ++ b) s = startsWith a s && startsWith b (drop (String.length a) s).
Proof.
  revert s. induction a as [|x a IH]; intros s; [reflexivity|].
  destruct s as [|y s]; cbn [append startsWith String.length drop]; [reflexivity|].
  rewrite IH. now rewrite andb_assoc.
Qed.

Lemma startsWith_takeWhile (p : ascii -> bool) (r : string) :
  startsWith (takeWhile p r) r = true.
Proof.
  induction r as [|c r IH]; [reflexivity|]. cbn [takeWhile].
  destruct (p c); [|reflexivity]. cbn [startsWith]. now rewrite Ascii.eqb_refl.
Qed.

Lemma drop_takeWhile (p : ascii -> bool) (r : string) :
  drop (String.length (takeWhile p r)) r = dropWhile p r.
Proof.
  induction r as [|c r IH]; [reflexivity|]. cbn [takeWhile dropWhile].
  destruct (p c); [exact IH | reflexivity].
Qed.

Lemma includes_here (sub s : string) : startsWith sub s = true -> includes sub s = true.
Proof. intros H. destruct s; cbn [includes]; now rewrite H. Qed.

Lemma includes_later (sub : string) (c : ascii) (r : string) :
  includes sub r = true -> includes sub (String c r) = true.
Proof. intros H. cbn [includes]. fold (includes sub r). rewrite H. apply orb_true_r. Qed.

Lemma append_assoc (a b c : string) : ((a ++ b) ++ c = a ++ (b ++ c))%string.
Proof. induction a as [|x a IH]; cbn [append]; [reflexivity | now rewrite IH]. Qed.

Lemma concat_cons (x : string) (xs : list string) :
  String.concat "" (x :: xs) = (x ++ String.concat "" xs)%string.
Proof.
  destruct xs as [|y ys]; cbn [String.concat]; [now rewrite append_empty_r | reflexivity].
Qed.

End JsString.

(** ** JavaScript numbers *)

Module JsNumber.
Import JsString.
Local Open Scope string_scope.
Local Open Scope Z_scope.

(** A Number value: an IEEE 754 binary64 datum. *)
Definition Num : Type := spec_float.

Definition prec : Z := 53.
Definition emax : Z := 1024.

Definition posZero : Num := S754_zero false.
Definition NaN : Num := S754_nan.

(** The Number value of an integer (rounded to nearest, ties to even). *)
Definition ofZ (n : Z) : Num := binary_normalize prec emax n 0 false.

(** [Number.isFinite] *)
Definition isFinite (x : Num) : bool :=
  match x with
  | S754_zero _ | S754_finite _ _ _ => true
  | S754_infinity _ | S754_nan => false
  end.

(** [Number.isInteger] *)
Definition isInteger (x : Num) : bool :=
  match x with
  | S754_zero _ => true
  | S754_finite _ m e => (0 <=? e) || (Zpos m mod 2 ^ (- e) =? 0)
  | S754_infinity _ | S754_nan => false
  end.

(** [x > 0] *)
Definition isPositive (x : Num) : bool := SFltb posZero x.

(** [x * y] *)
Definition mul (x y : Num) : Num := SFmul prec emax x y.

(** [Math.floor(x)] of a finite number, as an integer. *)
Definition floor (x : Num) : Z :=
  match x with
  | S754_finite s m e =>
      let n := if s then Zneg m else Zpos m in
      if 0 <=? e then n * 2 ^ e else n / 2 ^ (- e)
  | _ => 0
  end.

(** What [Math.random()] can return: a binary64 number with positive sign,
    at least 0 and below 1. *)
Definition isRandom (r : Num) : bool :=
  match r with
  | S754_zero false => true
  | S754_finite false m e => bounded prec emax m e && (e <? 0) && (Zpos m <? 2 ^ (- e))
  | _ => false
  end.

(** The mathematical value of a numeric literal: [m * 10 ^ e10] with
    [0 <= m], or the literal [Infinity]. *)
Inductive MV : Type :=
| MVInfinity
| MVDecimal (m : Z) (e10 : Z).

Definition digitValue (c : ascii) : Z := Z.of_nat (nat_of_ascii c) - 48.

Fixpoint digitsValueFrom (acc : Z) (s : string) : Z :=
  match s with
  | EmptyString => acc
  | String c r => digitsValueFrom (10 * acc + digitValue c) r
  end.

Definition digitsValue (s : string) : Z := digitsValueFrom 0 s.

(** Digits of the non-decimal literals: the value of a digit in [radix],
    when the code unit is one. *)
Definition radixDigit (radix : nat) (c : ascii) : option Z :=
  let n := nat_of_ascii c in
  let v := if isDigit c then (n - 48)%nat
           else if ((97 <=? n) && (n <=? 102))%nat then (n - 87)%nat
           else if ((65 <=? n) && (n <=? 70))%nat then (n - 55)%nat
           else radix in
  if (v <? radix)%nat then Some (Z.of_nat v) else None.

Fixpoint radixValueFrom (radix : nat) (acc : Z) (s : string) : option Z :=
  match s with
  | EmptyString => Some acc
  | String c r =>
      match radixDigit radix c with
      | Some v => radixValueFrom radix (Z.of_nat radix * acc + v) r
      | None => None
      end
  end.

Definition radixOfPrefix (k : ascii) : nat :=
  if (Ascii.eqb k "x" || Ascii.eqb k "X")%bool then 16%nat
  else if (Ascii.eqb k "o" || Ascii.eqb k "O")%bool then 8%nat
  else if (Ascii.eqb k "b" || Ascii.eqb k "B")%bool then 2%nat
  else 0%nat.

(** NonDecimalIntegerLiteral: [0x], [0o], [0b] (either case) and at least one
    digit of the radix. *)
Definition parseNonDecimal (t : string) : option Z :=
  match t with
  | String z (String k r) =>
      if negb (Ascii.eqb z "0") || (radixOfPrefix k =? 0)%nat || isEmpty r
      then None
      else radixValueFrom (radixOfPrefix k) 0 r
  | _ => None
  end.

(** An optional sign: whether it is [-], and what follows it. *)
Definition splitSign (s : string) : bool * string :=
  match s with
  | String c r =>
      if Ascii.eqb c "+" then (false, r)
      else if Ascii.eqb c "-" then (true, r)
      else (false, s)
  | EmptyString => (false, s)
  end.

(** ExponentPart, optional: what follows the mantissa up to the end. *)
Definition parseExponent (s : string) : option Z :=
  match s with
  | EmptyString => Some 0
  | String c r =>
      if (Ascii.eqb c "e" || Ascii.eqb c "E")%bool then
        let '(negative, ds) := splitSign r in
        if negb (isEmpty ds) && JsString.forallb isDigit ds
        then Some (if negative then - digitsValue ds else digitsValue ds)
        else None
      else None
  end.

(** StrUnsignedDecimalLiteral *)
Definition parseUnsignedDecimal (t : string) : option MV :=
  if String.eqb t "Infinity" then Some MVInfinity else
  let ip := takeWhile isDigit t in
  let rest := dropWhile isDigit t in
  if startsWith "." rest then
    let r := drop 1 rest in
    let fp := takeWhile isDigit r in
    if isEmpty ip && isEmpty fp then None else
    match parseExponent (dropWhile isDigit r) with
    | Some e => Some (MVDecimal (digitsValue (ip ++ fp)) (e - Z.of_nat (String.length fp)))
    | None => None
    end
  else
    if isEmpty ip then None else
    match parseExponent rest with
    | Some e => Some (MVDecimal (digitsValue ip) e)
    | None => None
    end.

(** StrNumericLiteral: the sign and the value. *)
Definition parseStrNumericLiteral (t : string) : option (bool * MV) :=
  match parseNonDecimal t with
  | Some n => Some (false, MVDecimal n 0)
  | None =>
      let '(negative, u) := splitSign t in
      option_map (pair negative) (parseUnsignedDecimal u)
  end.

(** The Number value for [m * 10 ^ e10], correctly rounded, with overflow to
    infinity. *)
Definition roundDecimal (negative : bool) (m e10 : Z) : Num :=
  match m with
  | Zpos _ =>
      if 0 <=? e10 then
        match m * 10 ^ e10 with
        | Zpos p => binary_round prec emax negative p 0
        | _ => S754_zero negative
        end
      else
        let '(q, e, l) := SFdiv_core_binary prec emax m 0 (10 ^ (- e10)) 0 in
        binary_round_aux prec emax negative q e l
  | _ => S754_zero negative
  end.

(** [Number(s)] on a string: StringToNumber. *)
Definition Number (s : string) : Num :=
  let t := trim s in
  if isEmpty t then posZero else
  match parseStrNumericLiteral t with
  | None => NaN
  | Some (negative, MVInfinity) => S754_infinity negative
  | Some (negative, MVDecimal m e10) => roundDecimal negative m e10
  end.

(** *** Facts on [Number] *)

(** The code units a numeric literal is made of. *)
Definition isAlpha (c : ascii) : bool :=
  let n := nat_of_ascii c in
  (((65 <=? n) && (n <=? 90)) || ((97 <=? n) && (n <=? 122)))%nat.

Definition numericChar (c : ascii) : bool :=
  isDigit c || isAlpha c || Ascii.eqb c "." || Ascii.eqb c "+" || Ascii.eqb c "-".

Ltac reflect_bools :=
  repeat match goal with
  | H : (_ && _)%bool = true |- _ => apply andb_true_iff in H; destruct H
  | H : (_ || _)%bool = false |- _ => apply orb_false_iff in H; destruct H
  | H : negb _ = true |- _ => apply negb_true_iff in H
  | H : negb _ = false |- _ => apply negb_false_iff in H
  | H : (_ <=? _)%nat = true |- _ => apply Nat.leb_le in H
  | H : (_ <=? _)%nat = false |- _ => apply Nat.leb_gt in H
  | H : (_ <? _)%nat = true |- _ => apply Nat.ltb_lt in H
  | H : (_ =? _)%nat = true |- _ => apply Nat.eqb_eq in H
  | H : (_ =? _)%nat = false |- _ => apply Nat.eqb_neq in H
  | H : Ascii.eqb _ _ = true |- _ => apply Ascii.eqb_eq in H
  end.

Lemma isDigit_not_ws (c : ascii) : isDigit c = true -> isWhiteSpace c = false.
Proof.
  unfold isDigit, isWhiteSpace. intros H. reflect_bools.
  repeat (apply orb_false_iff; split);
    [apply andb_false_iff; right; apply Nat.leb_gt; lia
    | apply Nat.eqb_neq; lia | apply Nat.eqb_neq; lia].
Qed.

Lemma isDigit_numeric (c : ascii) : isDigit c = true -> numericChar c = true.
Proof. unfold numericChar. now intros ->. Qed.

Lemma isDigit_neq (c d : ascii) : isDigit c = true -> isDigit d = false -> Ascii.eqb c d = false.
Proof.
  intros Hc Hd. destruct (Ascii.eqb_spec c d) as [->|]; [congruence | reflexivity].
Qed.

Lemma digits_noWs (ds : string) :
  JsString.forallb isDigit ds = true -> JsString.existsb isWhiteSpace ds = false.
Proof. apply forallb_existsb_false, isDigit_not_ws. Qed.

Lemma radixDigit_numeric (radix : nat) (c : ascii) (v : Z) :
  radixDigit radix c = Some v -> numericChar c = true.
Proof.
  unfold radixDigit, numericChar.
  destruct (isDigit c) eqn:Hd; [reflexivity|].
  unfold isAlpha.
  destruct ((97 <=? nat_of_ascii c) && (nat_of_ascii c <=? 102))%nat eqn:Hl.
  - intros _. reflect_bools.
    replace (nat_of_ascii c <=? 122)%nat with true by (symmetry; apply Nat.leb_le; lia).
    replace (97 <=? nat_of_ascii c)%nat with true by (symmetry; apply Nat.leb_le; lia).
    simpl. now rewrite orb_true_r.
  - destruct ((65 <=? nat_of_ascii c) && (nat_of_ascii c <=? 70))%nat eqn:Hu.
    + intros _. reflect_bools.
      replace (nat_of_ascii c <=? 90)%nat with true by (symmetry; apply Nat.leb_le; lia).
      replace (65 <=? nat_of_ascii c)%nat with true by (symmetry; apply Nat.leb_le; lia).
      reflexivity.
    + rewrite Nat.ltb_irrefl. discriminate.
Qed.

Lemma radixValueFrom_numeric (radix : nat) (s : string) :
  forall acc v, radixValueFrom radix acc s = Some v -> JsString.forallb numericChar s = true.
Proof.
  induction s as [|c r IH]; simpl; [reflexivity|].
  intros acc v. destruct (radixDigit radix c) as [d|] eqn:Hd; [|discriminate].
  intros H. rewrite (radixDigit_numeric _ _ _ Hd). simpl. eapply IH, H.
Qed.

Lemma radixOfPrefix_alpha (k : ascii) : radixOfPrefix k <> 0%nat -> isAlpha k = true.
Proof.
  unfold radixOfPrefix.
  repeat match goal with
  | |- context [Ascii.eqb k ?x] => destruct (Ascii.eqb_spec k x); [subst; reflexivity|]
  end.
  simpl. congruence.
Qed.

Lemma parseNonDecimal_numeric (t : string) (n : Z) :
  parseNonDecimal t = Some n -> JsString.forallb numericChar t = true.
Proof.
  destruct t as [|z [|k r]]; simpl; try discriminate.
  destruct (Ascii.eqb_spec z "0") as [->|]; simpl; [|discriminate].
  destruct (radixOfPrefix k =? 0)%nat eqn:Hk; simpl; [discriminate|].
  destruct (isEmpty r); [discriminate|].
  intros H. reflect_bools.
  unfold numericChar at 1. rewrite (radixOfPrefix_alpha k Hk), orb_true_r. simpl.
  eapply radixValueFrom_numeric, H.
Qed.

Lemma splitSign_spec (s : string) :
  s = snd (splitSign s) \/
  exists c, s = String c (snd (splitSign s)) /\ numericChar c = true.
Proof.
  destruct s as [|c r]; simpl; [now left|].
  destruct (Ascii.eqb_spec c "+") as [->|]; [right; now exists "+"%char|].
  destruct (Ascii.eqb_spec c "-") as [->|]; [right; now exists "-"%char|].
  now left.
Qed.

Lemma parseExponent_numeric (s : string) (e : Z) :
  parseExponent s = Some e -> JsString.forallb numericChar s = true.
Proof.
  destruct s as [|c r]; simpl; [reflexivity|].
  destruct (Ascii.eqb c "e" || Ascii.eqb c "E")%bool eqn:Hc; [|discriminate].
  assert (numericChar c = true) as ->.
  { apply orb_true_iff in Hc as [Hc|Hc]; apply Ascii.eqb_eq in Hc; now subst. }
  simpl. destruct (splitSign_spec r) as [Hr|[x [Hr Hx]]];
    destruct (splitSign r) as [negative ds]; simpl in Hr;
    destruct (negb (isEmpty ds) && JsString.forallb isDigit ds) eqn:Hds;
    try discriminate; intros _; reflect_bools; subst r; simpl; rewrite ?Hx; simpl;
    (apply (forallb_impl isDigit); [apply isDigit_numeric | assumption]).
Qed.

Lemma startsWith_dot (s : string) :
  startsWith "." s = true -> s = String "." (drop 1 s).
Proof.
  destruct s as [|c r]; [discriminate|]. cbn [startsWith drop].
  destruct (Ascii.eqb_spec "." c) as [<-|]; [reflexivity | discriminate].
Qed.

Lemma takeWhile_digits_numeric (t : string) :
  JsString.forallb numericChar (takeWhile isDigit t) = true.
Proof.
  induction t as [|c r IH]; [reflexivity|]. cbn [takeWhile].
  destruct (isDigit c) eqn:E; [|reflexivity].
  cbn [JsString.forallb]. now rewrite (isDigit_numeric _ E).
Qed.

Lemma parseUnsignedDecimal_numeric (t : string) (v : MV) :
  parseUnsignedDecimal t = Some v -> JsString.forallb numericChar t = true.
Proof.
  unfold parseUnsignedDecimal.
  destruct (String.eqb_spec t "Infinity") as [->|_]; [reflexivity|].
  intros H.
  rewrite <- (takeWhile_dropWhile isDigit t), forallb_app, takeWhile_digits_numeric.
  cbn [andb].
  destruct (startsWith "." (dropWhile isDigit t)) eqn:Hdot.
  - rewrite (startsWith_dot _ Hdot).
    set (r := drop 1 (dropWhile isDigit t)) in *.
    destruct (isEmpty (takeWhile isDigit t) && isEmpty (takeWhile isDigit r)); [discriminate|].
    destruct (parseExponent (dropWhile isDigit r)) as [e|] eqn:He; [|discriminate].
    cbn [JsString.forallb]. replace (numericChar ".") with true by reflexivity. cbn [andb].
    rewrite <- (takeWhile_dropWhile isDigit r), forallb_app, takeWhile_digits_numeric.
    exact (parseExponent_numeric _ _ He).
  - destruct (isEmpty (takeWhile isDigit t)); [discriminate|].
    destruct (parseExponent (dropWhile isDigit t)) as [e|] eqn:He; [|discriminate].
    exact (parseExponent_numeric _ _ He).
Qed.

Lemma parseStrNumericLiteral_numeric (t : string) (v : bool * MV) :
  parseStrNumericLiteral t = Some v -> JsString.forallb numericChar t = true.
Proof.
  unfold parseStrNumericLiteral.
  destruct (parseNonDecimal t) as [n|] eqn:Hn.
  - intros _. eapply parseNonDecimal_numeric, Hn.
  - destruct (splitSign_spec t) as [Ht|[c [Ht Hc]]];
      destruct (splitSign t) as [negative u]; simpl in Ht;
      destruct (parseUnsignedDecimal u) as [mv|] eqn:Hu; try discriminate;
      intros _; rewrite Ht; simpl; rewrite ?Hc; simpl;
      eapply parseUnsignedDecimal_numeric, Hu.
Qed.

(** A string with a code unit that is neither white space nor part of any
    numeric literal is not a number. *)
Lemma Number_not_numeric (s : string) :
  JsString.existsb (fun c => negb (numericChar c) && negb (isWhiteSpace c)) s = true ->
  Number s = NaN.
Proof.
  intros H. unfold Number.
  set (bad := fun c => negb (numericChar c) && negb (isWhiteSpace c)) in H.
  assert (1 <= count bad (trim s))%nat as Hcount.
  { rewrite count_trim; [now apply existsb_count|].
    intros c Hc. unfold bad in Hc. now reflect_bools. }
  apply existsb_count in Hcount.
  destruct (trim s) as [|c r] eqn:Ht; [discriminate|]. simpl isEmpty. cbv iota.
  destruct (parseStrNumericLiteral (String c r)) as [v|] eqn:Hp; [|reflexivity].
  apply parseStrNumericLiteral_numeric in Hp.
  exfalso. revert Hcount Hp. generalize (String c r). clear.
  intros t. induction t as [|c r IH]; simpl; [discriminate|].
  intros H1 H2. reflect_bools.
  apply orb_true_iff in H1 as [H1|H1]; [|now apply IH].
  unfold bad in H1. reflect_bools. congruence.
Qed.

(** Decimal digits and the point: what a plain decimal numeral is made of. *)
Definition decimalChar (c : ascii) : bool := isDigit c || Ascii.eqb c ".".

Lemma decimalChar_not_ws (c : ascii) : decimalChar c = true -> isWhiteSpace c = false.
Proof.
  unfold decimalChar. intros H. apply orb_true_iff in H as [H|H].
  - now apply isDigit_not_ws.
  - apply Ascii.eqb_eq in H. now subst.
Qed.

Lemma decimalChar_radix (c : ascii) : decimalChar c = true -> radixOfPrefix c = 0%nat.
Proof.
  intros H. unfold radixOfPrefix.
  repeat match goal with
  | |- context [Ascii.eqb c ?x] => destruct (Ascii.eqb_spec c x); [subst; discriminate|]
  end.
  reflexivity.
Qed.

Lemma parseNonDecimal_decimal (t : string) :
  JsString.forallb decimalChar t = true -> parseNonDecimal t = None.
Proof.
  destruct t as [|z [|k r]]; [reflexivity..|].
  cbn [JsString.forallb parseNonDecimal]. intros H. reflect_bools.
  rewrite (decimalChar_radix k) by assumption.
  now rewrite orb_true_r.
Qed.

Lemma splitSign_decimal (t : string) :
  JsString.forallb decimalChar t = true -> splitSign t = (false, t).
Proof.
  destruct t as [|c r]; [reflexivity|].
  cbn [JsString.forallb splitSign]. intros H. reflect_bools.
  destruct (Ascii.eqb_spec c "+"); [subst; discriminate|].
  destruct (Ascii.eqb_spec c "-"); [subst; discriminate|].
  reflexivity.
Qed.

Lemma not_Infinity_decimal (t : string) :
  JsString.forallb decimalChar t = true -> String.eqb t "Infinity" = false.
Proof.
  intros H. destruct (String.eqb_spec t "Infinity"); [subst; discriminate | reflexivity].
Qed.

Lemma digits_decimal (ds : string) :
  JsString.forallb isDigit ds = true -> JsString.forallb decimalChar ds = true.
Proof.
  apply forallb_impl. intros c Hc. unfold decimalChar. now rewrite Hc.
Qed.

(** [Number] on a run of decimal digits. *)
Lemma Number_digits (ds : string) :
  JsString.forallb isDigit ds = true -> isEmpty ds = false ->
  Number ds = roundDecimal false (digitsValue ds) 0.
Proof.
  intros Hd Hne. unfold Number.
  rewrite (trim_noWs ds (digits_noWs ds Hd)), Hne.
  unfold parseStrNumericLiteral.
  rewrite (parseNonDecimal_decimal ds (digits_decimal ds Hd)).
  rewrite (splitSign_decimal ds (digits_decimal ds Hd)).
  unfold parseUnsignedDecimal.
  rewrite (not_Infinity_decimal ds (digits_decimal ds Hd)).
  rewrite (takeWhile_all _ _ Hd), (dropWhile_all _ _ Hd), Hne.
  reflexivity.
Qed.

(** [Number] on digits, a point, digits: one side at least is not empty. *)
Lemma Number_decimal (a b : string) :
  JsString.forallb isDigit a = true -> JsString.forallb isDigit b = true ->
  isEmpty a && isEmpty b = false ->
  Number (a ++ String "." b) =
  roundDecimal false (digitsValue (a ++ b)) (- Z.of_nat (String.length b)).
Proof.
  intros Ha Hb Hne.
  assert (JsString.forallb decimalChar (a ++ String "." b) = true) as Hdec.
  { rewrite forallb_app. cbn [JsString.forallb].
    rewrite (digits_decimal a Ha), (digits_decimal b Hb). reflexivity. }
  assert (JsString.existsb isWhiteSpace (a ++ String "." b) = false) as Hws.
  { revert Hdec. apply forallb_existsb_false, decimalChar_not_ws. }
  unfold Number. rewrite (trim_noWs _ Hws).
  replace (isEmpty (a ++ String "." b)) with false
    by (rewrite isEmpty_app; cbn [isEmpty]; now rewrite andb_false_r).
  unfold parseStrNumericLiteral.
  rewrite (parseNonDecimal_decimal _ Hdec), (splitSign_decimal _ Hdec).
  unfold parseUnsignedDecimal.
  rewrite (not_Infinity_decimal _ Hdec).
  rewrite (takeWhile_app _ _ _ Ha), (dropWhile_app _ _ _ Ha).
  cbn [takeWhile dropWhile]. replace (isDigit ".") with false by reflexivity.
  rewrite append_empty_r.
  cbn [startsWith drop]. replace (Ascii.eqb "." ".") with true by reflexivity.
  cbn [andb].
  rewrite (takeWhile_all _ _ Hb), (dropWhile_all _ _ Hb), Hne.
  cbn [parseExponent]. reflexivity.
Qed.

(** *** Facts on the rounding of a product

    [SFmul] rounds the exact product to nearest, ties to even: the mantissa
    is shifted right, with a round bit and a sticky bit, then rounded. *)

Lemma digits2_size (p : positive) : digits2_pos p = Pos.size p.
Proof. induction p as [p IH|p IH|]; cbn; now rewrite ?IH. Qed.

Lemma digits2_bounds (p : positive) :
  2 ^ (Zpos (digits2_pos p) - 1) <= Zpos p < 2 ^ Zpos (digits2_pos p).
Proof.
  rewrite digits2_size. split.
  - pose proof (Pos.size_le p) as H.
    assert (2 ^ Zpos (Pos.size p) <= 2 * Zpos p) as H2.
    { change 2 with (Zpos 2) at 1. rewrite <- Pos2Z.inj_pow. change (2 * Zpos p) with (Zpos p~0).
      apply Pos2Z.pos_le_pos. exact H. }
    replace (Zpos (Pos.size p)) with (1 + (Zpos (Pos.size p) - 1)) in H2 by lia.
    rewrite Z.pow_add_r in H2 by lia. change (2 ^ 1) with 2 in H2. lia.
  - pose proof (Pos.size_gt p) as H.
    change 2 with (Zpos 2). rewrite <- Pos2Z.inj_pow. apply Pos2Z.pos_lt_pos. exact H.
Qed.

Lemma shr_1_spec (mrs : shr_record) :
  0 <= shr_m mrs ->
  0 <= shr_m (shr_1 mrs) /\
  2 * shr_m (shr_1 mrs) + (if shr_r (shr_1 mrs) then 1 else 0) = shr_m mrs.
Proof.
  destruct mrs as [m r s]. cbn [shr_m]. intros Hm.
  destruct m as [|[p|p|]|p]; cbn; lia.
Qed.

(** Shifting a mantissa right by [p] bits truncates it; the round bit tells
    that at least half a unit was cut off. *)
Lemma iter_shr_spec (p : positive) :
  forall mrs,
    0 <= shr_m mrs ->
    0 <= shr_m (iter_pos shr_1 p mrs) /\
    shr_m (iter_pos shr_1 p mrs) * 2 ^ Zpos p +
      (if shr_r (iter_pos shr_1 p mrs) then 2 ^ (Zpos p - 1) else 0) <= shr_m mrs.
Proof.
  induction p as [p IH|p IH|]; intros mrs Hm; cbn [iter_pos].
  - destruct (shr_1_spec mrs Hm) as [H0 E0].
    destruct (IH (shr_1 mrs) H0) as [H1 E1].
    destruct (IH (iter_pos shr_1 p (shr_1 mrs)) H1) as [H2 E2].
    split; [exact H2|].
    set (x0 := shr_1 mrs) in *. set (x1 := iter_pos shr_1 p x0) in *.
    set (x2 := iter_pos shr_1 p x1) in *.
    replace (Zpos p~1) with (Zpos p + Zpos p + 1) by lia.
    replace (Zpos p + Zpos p + 1 - 1) with ((Zpos p - 1) + Zpos p + 1) by lia.
    rewrite !Z.pow_add_r by lia. change (2 ^ 1) with 2.
    assert (0 < 2 ^ (Zpos p - 1)) as Hq by (apply Z.pow_pos_nonneg; lia).
    assert (2 ^ Zpos p = 2 * 2 ^ (Zpos p - 1)) as HP.
    { replace (Zpos p) with (1 + (Zpos p - 1)) at 1 by lia.
      rewrite Z.pow_add_r by lia. reflexivity. }
    set (Q := 2 ^ (Zpos p - 1)) in *. rewrite HP in *.
    destruct (shr_r x0), (shr_r x1), (shr_r x2); nia.
  - destruct (IH mrs Hm) as [H1 E1].
    destruct (IH (iter_pos shr_1 p mrs) H1) as [H2 E2].
    split; [exact H2|].
    set (x1 := iter_pos shr_1 p mrs) in *. set (x2 := iter_pos shr_1 p x1) in *.
    replace (Zpos p~0) with (Zpos p + Zpos p) by lia.
    replace (Zpos p + Zpos p - 1) with ((Zpos p - 1) + Zpos p) by lia.
    rewrite !Z.pow_add_r by lia.
    assert (0 < 2 ^ (Zpos p - 1)) as Hq by (apply Z.pow_pos_nonneg; lia).
    assert (2 ^ Zpos p = 2 * 2 ^ (Zpos p - 1)) as HP.
    { replace (Zpos p) with (1 + (Zpos p - 1)) at 1 by lia.
      rewrite Z.pow_add_r by lia. reflexivity. }
    set (Q := 2 ^ (Zpos p - 1)) in *. rewrite HP in *.
    destruct (shr_r x1), (shr_r x2); nia.
  - destruct (shr_1_spec mrs Hm) as [H0 E0]. split; [exact H0|].
    change (2 ^ 1) with 2. change (2 ^ (1 - 1)) with 1. lia.
Qed.

Lemma round_nearest_even_bounds (mrs : shr_record) :
  shr_m mrs <= round_nearest_even (shr_m mrs) (loc_of_shr_record mrs)
            <= shr_m mrs + (if shr_r mrs then 1 else 0).
Proof.
  destruct mrs as [m [|] [|]]; cbn; try destruct (Z.even m); lia.
Qed.

Lemma Zdigits2_bounds (m : Z) : 0 < m -> 2 ^ (Zdigits2 m - 1) <= m < 2 ^ Zdigits2 m.
Proof. destruct m as [|p|p]; try lia. intros _. apply digits2_bounds. Qed.

(** One stage of the rounding of an exact mantissa: the shift by [k] bits
    and the rounding to nearest of what is left. *)
Lemma shr_exact_spec (m e k : Z) :
  0 <= m ->
  exists out,
    shr (Build_shr_record m false false) e k = (out, e + Z.max 0 k) /\
    0 <= shr_m out /\
    shr_m out * 2 ^ Z.max 0 k <= m /\
    0 <= round_nearest_even (shr_m out) (loc_of_shr_record out) /\
    round_nearest_even (shr_m out) (loc_of_shr_record out) * 2 ^ Z.max 0 k
      <= m + (if 0 <? k then 2 ^ (k - 1) else 0).
Proof.
  intros Hm. destruct k as [|p|p].
  - exists (Build_shr_record m false false). cbn. rewrite Z.add_0_r.
    repeat split; lia.
  - exists (iter_pos shr_1 p (Build_shr_record m false false)).
    destruct (iter_shr_spec p (Build_shr_record m false false) Hm) as [H0 H1].
    cbn [shr_m] in H1.
    set (out := iter_pos shr_1 p (Build_shr_record m false false)) in *.
    pose proof (round_nearest_even_bounds out) as Hr.
    replace (Z.max 0 (Zpos p)) with (Zpos p) by lia.
    change (0 <? Zpos p) with true. cbv iota.
    assert (0 < 2 ^ (Zpos p - 1)) as Hq by (apply Z.pow_pos_nonneg; lia).
    assert (2 ^ Zpos p = 2 * 2 ^ (Zpos p - 1)) as HP.
    { replace (Zpos p) with (1 + (Zpos p - 1)) at 1 by lia.
      rewrite Z.pow_add_r by lia. reflexivity. }
    split; [reflexivity|]. split; [exact H0|].
    rewrite HP in *. set (Q := 2 ^ (Zpos p - 1)) in *.
    destruct (shr_r out); repeat split; nia.
  - exists (Build_shr_record m false false). cbn. rewrite Z.add_0_r.
    repeat split; lia.
Qed.

(** The rounding of [M * 2 ^ E] stays below a bound [B * 2 ^ E] that the
    value keeps away from by half a unit in the last place, and is finite. *)
Lemma binary_round_aux_below (M : positive) (E B : Z) :
  E <= 0 ->
  Zpos M < B -> B <= 2 ^ (53 - E) ->
  (forall k, k = fexp prec emax (Zpos (digits2_pos M) + E) - E -> 0 < k ->
     Zpos M + 2 ^ (k - 1) < B) ->
  binary_round_aux prec emax false (Zpos M) E loc_Exact = S754_zero false \/
  exists m' e',
    binary_round_aux prec emax false (Zpos M) E loc_Exact = S754_finite false m' e' /\
    E <= e' <= 0 /\ Zpos m' * 2 ^ (e' - E) < B.
Proof.
  intros HE HM HB Hulp.
  unfold binary_round_aux, shr_fexp. cbn [shr_record_of_loc Zdigits2].
  set (d := Zpos (digits2_pos M)) in *.
  set (k := fexp prec emax (d + E) - E) in *.
  destruct (shr_exact_spec (Zpos M) E k ltac:(lia)) as (out1 & -> & H10 & H11 & H12 & H13).
  set (m1 := round_nearest_even (shr_m out1) (loc_of_shr_record out1)) in *.
  set (e1 := E + Z.max 0 k) in *.
  pose proof (digits2_bounds M) as Hd. fold d in Hd.
  assert (d + E <= 53) as HdE.
  { assert (2 ^ (d - 1) < 2 ^ (53 - E)) as H by lia.
    apply Z.pow_lt_mono_r_iff in H; lia. }
  assert (E <= e1 <= 0) as He1.
  { subst e1 k. unfold fexp, emin, prec, emax in *. lia. }
  assert (m1 * 2 ^ (e1 - E) < B) as Hm1.
  { replace (e1 - E) with (Z.max 0 k) by (subst e1; lia).
    destruct (0 <? k) eqn:Hk.
    - apply Z.ltb_lt in Hk. specialize (Hulp k eq_refl Hk). lia.
    - lia. }
  assert (m1 < 2 ^ (53 - e1)) as Hm1'.
  { assert (m1 * 2 ^ (e1 - E) < 2 ^ (53 - e1) * 2 ^ (e1 - E)) as H.
    { rewrite <- Z.pow_add_r by lia. replace (53 - e1 + (e1 - E)) with (53 - E) by lia. lia. }
    apply Z.mul_lt_mono_pos_r in H; [exact H|]. apply Z.pow_pos_nonneg; lia. }
  set (k2 := fexp prec emax (Zdigits2 m1 + e1) - e1) in *.
  destruct (shr_exact_spec m1 e1 k2 H12) as (out2 & -> & H20 & H21 & _ & _).
  set (e2 := e1 + Z.max 0 k2) in *.
  assert (e1 <= e2 <= 0) as He2.
  { subst e2 k2. unfold fexp, emin, prec, emax in *.
    destruct (Z.eq_dec m1 0) as [->|Hne]; [cbn [Zdigits2]; lia|].
    pose proof (Zdigits2_bounds m1 ltac:(lia)) as Hd1.
    assert (2 ^ (Zdigits2 m1 - 1) < 2 ^ (53 - e1)) as H by lia.
    apply Z.pow_lt_mono_r_iff in H; lia. }
  destruct (shr_m out2) as [|m'|m'] eqn:Em; [now left| |lia].
  right. exists m', e2.
  replace (e2 <=? emax - prec) with true
    by (symmetry; apply Z.leb_le; unfold emax, prec; lia).
  split; [reflexivity|]. split; [lia|].
  replace (e2 - E) with (Z.max 0 k2 + (e1 - E)) by (subst e2; lia).
  rewrite Z.pow_add_r by lia.
  assert (0 < 2 ^ (e1 - E)) by (apply Z.pow_pos_nonneg; lia).
  nia.
Qed.

(** A binary64 number below 1 is at most [1 - 2 ^ -53]. *)
Lemma isRandom_finite (m : positive) (e : Z) :
  isRandom (S754_finite false m e) = true ->
  e < 0 /\ Zpos m < 2 ^ (- e) /\ 2 ^ 53 * Zpos m <= 2 ^ (- e) * (2 ^ 53 - 1).
Proof.
  cbn [isRandom]. intros H.
  apply andb_true_iff in H as [H Hlt]. apply andb_true_iff in H as [Hb He].
  apply Z.ltb_lt in Hlt, He. split; [exact He|]. split; [exact Hlt|].
  unfold bounded, canonical_mantissa in Hb. apply andb_true_iff in Hb as [Hc _].
  apply Z.eqb_eq in Hc. unfold fexp, emin, prec, emax in Hc.
  pose proof (digits2_bounds m) as Hd.
  assert (Zpos m < 2 ^ 53) as Hm.
  { apply Z.lt_le_trans with (2 ^ Zpos (digits2_pos m)); [apply Hd|].
    apply Z.pow_le_mono_r; lia. }
  destruct (Z.le_gt_cases (- e) 53) as [Hs|Hs].
  - assert (2 ^ (- e) <= 2 ^ 53) by (apply Z.pow_le_mono_r; lia).
    set (A := 2 ^ (- e)) in *. set (T := 2 ^ 53) in *. nia.
  - assert (2 ^ 53 <= 2 ^ (- e)) by (apply Z.pow_le_mono_r; lia).
    set (A := 2 ^ (- e)) in *. set (T := 2 ^ 53) in *.
    assert (0 < T) by (subst T; reflexivity). nia.
Qed.

(** The product of a random number and an integer [n], rounded, is below
    [n]: its floor is one of [0 .. n - 1]. *)
Lemma mul_random_below (r : Num) (my : positive) (ey n : Z) :
  isRandom r = true -> ey <= 0 -> 1 <= n < 2 ^ 53 -> Zpos my = n * 2 ^ (- ey) ->
  isFinite (mul r (S754_finite false my ey)) = true /\
  0 <= floor (mul r (S754_finite false my ey)) <= n - 1.
Proof.
  intros Hr Hey Hn Hmy.
  destruct r as [[|]|s| |[|] m e]; try discriminate Hr.
  { cbn. lia. }
  destruct (isRandom_finite m e Hr) as (He & Hlt & Hone).
  unfold mul. cbn [SFmul xorb].
  set (E := e + ey). set (A := 2 ^ (- e)) in *. set (Bq := 2 ^ (- ey)) in *.
  assert (0 < A) as HA by (apply Z.pow_pos_nonneg; lia).
  assert (0 < Bq) as HBq by (apply Z.pow_pos_nonneg; lia).
  assert (2 ^ (- E) = A * Bq) as HAB.
  { subst E A Bq. rewrite <- Z.pow_add_r by lia. f_equal. lia. }
  assert (Zpos (m * my) = Zpos m * n * Bq) as HM by (rewrite Pos2Z.inj_mul, Hmy; ring).
  destruct (binary_round_aux_below (m * my) E (n * 2 ^ (- E))) as [Hz|(m' & e' & Hf & He' & Hb)].
  - subst E. lia.
  - rewrite HM, HAB. nia.
  - replace (53 - E) with (53 + - E) by lia. rewrite Z.pow_add_r by (subst E; lia).
    assert (0 < 2 ^ (- E)) by (rewrite HAB; nia). nia.
  - intros k Hk Hpos. rewrite HM, HAB.
    pose proof (digits2_bounds (m * my)) as Hd. rewrite HM in Hd.
    set (d := Zpos (digits2_pos (m * my))) in *.
    unfold fexp, emin, prec, emax in Hk.
    destruct (Z.le_gt_cases (3 - 1024 - 53) (d + E - 53)) as [Hnorm|Hsub].
    + assert (k = d - 53) as -> by lia.
      assert (2 ^ (d - 53 - 1) * 2 ^ 53 = 2 ^ (d - 1)) as HH.
      { rewrite <- Z.pow_add_r by lia. f_equal. lia. }
      set (H := 2 ^ (d - 53 - 1)) in *. set (T := 2 ^ 53) in *.
      assert (0 < T) as HT by (subst T; reflexivity).
      assert (H * T <= Zpos m * n * Bq) as HHM by lia.
      set (x := Zpos m) in *.
      assert (T * (x * n * Bq) <= A * (T - 1) * (n * Bq)) as H1.
      { replace (T * (x * n * Bq)) with ((T * x) * (n * Bq)) by ring.
        apply Z.mul_le_mono_nonneg_r; [nia | exact Hone]. }
      assert (T * T * (x * n * Bq + H) <= (T + 1) * (T * (x * n * Bq))) as H2 by nia.
      assert ((T + 1) * (T * (x * n * Bq)) <= (T + 1) * (A * (T - 1) * (n * Bq))) as H3
        by (apply Z.mul_le_mono_nonneg_l; lia).
      assert ((T + 1) * (A * (T - 1) * (n * Bq)) < T * T * (n * (A * Bq))) as H4.
      { replace ((T + 1) * (A * (T - 1) * (n * Bq))) with ((T * T - 1) * (n * (A * Bq))) by ring.
        apply Z.mul_lt_mono_pos_r; [nia | lia]. }
      assert (T * T * (x * n * Bq + H) < T * T * (n * (A * Bq))) as H5 by lia.
      apply Z.mul_lt_mono_pos_l in H5; [exact H5 | nia].
    + assert (k = -1074 - E) as -> by lia.
      assert (2 ^ d <= 2 ^ (-1022 - E)) as Hd2 by (apply Z.pow_le_mono_r; lia).
      assert (2 ^ (-1074 - E - 1) <= 2 ^ (-1022 - E)) as Hh by (apply Z.pow_le_mono_r; lia).
      assert (2 * 2 ^ (-1022 - E) = 2 ^ (-1021 - E)) as Htwo.
      { replace (-1021 - E) with (1 + (-1022 - E)) by lia.
        rewrite Z.pow_add_r by lia. reflexivity. }
      assert (2 ^ (-1021 - E) <= 2 ^ (- E)) as Hle by (apply Z.pow_le_mono_r; lia).
      rewrite HAB in Hle. nia.
  - rewrite Hz. cbn. lia.
  - rewrite Hf. split; [reflexivity|]. cbn [floor].
    assert (0 < 2 ^ (e' - E)) as Hp by (apply Z.pow_pos_nonneg; lia).
    assert (2 ^ (- E) = 2 ^ (- e') * 2 ^ (e' - E)) as Hsplit.
    { rewrite <- Z.pow_add_r by lia. f_equal. lia. }
    rewrite Hsplit in Hb.
    assert (Zpos m' < n * 2 ^ (- e')) as Hm'.
    { apply Z.mul_lt_mono_pos_r with (p := 2 ^ (e' - E)); [exact Hp|]. lia. }
    assert (0 < 2 ^ (- e')) as Hq by (apply Z.pow_pos_nonneg; lia).
    destruct (0 <=? e') eqn:E0.
    + apply Z.leb_le in E0. assert (e' = 0) as -> by lia.
      change (2 ^ (- 0)) with 1 in Hm'. change (2 ^ 0) with 1. lia.
    + split; [apply Z.div_pos; lia|].
      assert (Zpos m' / 2 ^ (- e') < n); [|lia].
      apply Z.div_lt_upper_bound; [exact Hq | lia].
Qed.

End JsNumber.

(** ** src/models.ts *)

Module Models.
Import JsString JsNumber.
Local Open Scope string_scope.

Definition Uf : Type := string.

Record ImovelListItem : Type := {
  imovelId : string;
  uf : Uf;
  cidadeId : string;
  titulo : string;
  modalidade : option string;
  tipoImovel : option string;
  areaUtilM2 : option Num;
  quartos : option Num;
  vagas : option Num;
  valorAvaliacao : option Num;
  valorMinimo : option Num;
  descontoPercent : option Num;
  enderecoRaw : option string;
  observacoesRaw : option string;
  page : Z
}.

Record CaixaSearchResult : Type := {
  hdnImovByPage : list string;
  qtdPag : Num;
  qtdRegistros : Num;
  hdnFiltro : option string
}.

(** [trimmed.replace(/\./g, "").replace(",", ".")] *)
Definition normalize (trimmed : string) : string :=
  replaceFirst "," "." (removeAll "." trimmed).

Definition parseBrazilianNumber (raw : string) : option Num :=
  let trimmed := trim raw in
  if isEmpty trimmed then None else
  let n := Number (normalize trimmed) in
  if isFinite n then Some n else None.

(** [raw.replace(/R\$\s*/i, "")]: the leftmost [R$] or [r$] and the white
    space that follows it are deleted, wherever they stand. *)
Fixpoint removeCurrency (s : string) : string :=
  match s with
  | EmptyString => EmptyString
  | String c r =>
      if (Ascii.eqb c "R" || Ascii.eqb c "r") && startsWith "$" r
      then dropWhile isWhiteSpace (drop 1 r)
      else String c (removeCurrency r)
  end.

Definition parseBRL (raw : string) : option Num :=
  let cleaned := trim (removeCurrency raw) in
  parseBrazilianNumber cleaned.

(** The reading of [parseBRL] by its description: surrounding white space
    and one leading [R$] are taken off.  It is compared with the regular
    expression of the source below. *)
Definition stripLeadingCurrency (raw : string) : string :=
  let t := trim raw in
  if startsWith "R$" t then trim (drop 2 t) else t.

Definition isComma (c : ascii) : bool := Ascii.eqb c ",".

(** Digits, group separators and the decimal comma. *)
Definition brazilianChar (c : ascii) : bool :=
  isDigit c || Ascii.eqb c "." || isComma c.

(** How many digits stand after the first comma. *)
Definition fractionDigits (s : string) : nat :=
  count isDigit (dropWhile (fun c => negb (isComma c)) s).

Definition finiteOrUndefined (n : Num) : option Num :=
  if isFinite n then Some n else None.

(** Whether [R$] or [r$] occurs. *)
Fixpoint hasCurrency (s : string) : bool :=
  match s with
  | EmptyString => false
  | String c r =>
      ((Ascii.eqb c "R" || Ascii.eqb c "r") && startsWith "$" r) || hasCurrency r
  end.

(** *** Facts on [parseBrazilianNumber] and [parseBRL] *)

Lemma parseBrazilianNumber_unfold (raw : string) :
  parseBrazilianNumber raw =
  if isEmpty (trim raw) then None
  else finiteOrUndefined (Number (normalize (trim raw))).
Proof. reflexivity. Qed.

Lemma parseBrazilianNumber_trim (raw : string) :
  parseBrazilianNumber (trim raw) = parseBrazilianNumber raw.
Proof. unfold parseBrazilianNumber. now rewrite trim_idem. Qed.

Lemma brazilianChar_not_ws (c : ascii) : brazilianChar c = true -> isWhiteSpace c = false.
Proof.
  unfold brazilianChar, isComma. intros H.
  apply orb_true_iff in H as [H|H]; [apply orb_true_iff in H as [H|H]|].
  - now apply isDigit_not_ws.
  - apply Ascii.eqb_eq in H. now subst.
  - apply Ascii.eqb_eq in H. now subst.
Qed.

Lemma removeAll_dot_digits (s : string) :
  JsString.forallb brazilianChar s = true -> count isComma s = 0%nat ->
  removeAll "." s = JsString.filter isDigit s.
Proof.
  unfold removeAll.
  induction s as [|c r IH]; [reflexivity|].
  cbn [JsString.forallb count JsString.filter]. intros H Hc.
  apply andb_true_iff in H as [H Hr].
  destruct (isComma c) eqn:Hcomma; [discriminate|].
  unfold brazilianChar in H. rewrite Hcomma, orb_false_r in H.
  destruct (isDigit c) eqn:Hd.
  - replace (Ascii.eqb c ".") with false
      by (symmetry; apply (isDigit_neq c "." Hd); reflexivity).
    cbn [negb]. now rewrite IH.
  - cbn [orb] in H. rewrite H. cbn [negb]. now apply IH.
Qed.

Lemma replaceFirst_digits (s : string) :
  JsString.forallb isDigit s = true -> replaceFirst "," "." s = s.
Proof.
  induction s as [|c r IH]; [reflexivity|].
  cbn [JsString.forallb replaceFirst]. intros H. apply andb_true_iff in H as [H Hr].
  rewrite (isDigit_neq c "," H) by reflexivity. now rewrite IH.
Qed.

(** The normalised text of a numeral written with group points and at most
    one comma. *)
Lemma normalize_brazilian (s : string) :
  JsString.forallb brazilianChar s = true -> (count isComma s <= 1)%nat ->
  normalize s =
  if JsString.existsb isComma s
  then JsString.filter isDigit (takeWhile (fun c => negb (isComma c)) s)
       ++ String "." (JsString.filter isDigit (dropWhile (fun c => negb (isComma c)) s))
  else JsString.filter isDigit s.
Proof.
  unfold normalize, removeAll.
  induction s as [|c r IH]; [reflexivity|].
  cbn [JsString.forallb count JsString.filter JsString.existsb takeWhile dropWhile].
  intros H Hc. apply andb_true_iff in H as [H Hr].
  destruct (isComma c) eqn:Hcomma.
  - cbn [orb negb]. apply Ascii.eqb_eq in Hcomma. subst c.
    replace (Ascii.eqb "," ".") with false by reflexivity. cbn [negb replaceFirst].
    replace (Ascii.eqb "," ",") with true by reflexivity.
    replace (isDigit ",") with false by reflexivity. cbn [append].
    fold (removeAll "." r). rewrite removeAll_dot_digits; [reflexivity | assumption | simpl in Hc; lia].
  - cbn [orb negb plus] in *. specialize (IH Hr Hc).
    unfold brazilianChar in H. rewrite Hcomma, orb_false_r in H.
    destruct (isDigit c) eqn:Hd.
    + replace (Ascii.eqb c ".") with false
        by (symmetry; apply (isDigit_neq c "." Hd); reflexivity).
      cbn [negb replaceFirst]. unfold isComma in Hcomma. rewrite Hcomma, IH.
      destruct (JsString.existsb isComma r); [cbn [JsString.filter]; rewrite Hd|]; reflexivity.
    + cbn [orb] in H. rewrite H. cbn [negb]. rewrite IH.
      destruct (JsString.existsb isComma r); [cbn [JsString.filter]; rewrite Hd|]; reflexivity.
Qed.

Lemma count_removeAll_comma (s : string) :
  count isComma (removeAll "." s) = count isComma s.
Proof.
  unfold removeAll. induction s as [|c r IH]; [reflexivity|]. simpl.
  destruct (Ascii.eqb_spec c ".") as [->|]; simpl; [exact IH | now rewrite IH].
Qed.

Lemma count_replaceFirst_comma (s : string) :
  count isComma (replaceFirst "," "." s) = pred (count isComma s).
Proof.
  induction s as [|c r IH]; [reflexivity|]. cbn [replaceFirst count].
  unfold isComma at 2.
  destruct (Ascii.eqb c ",") eqn:E; [reflexivity|].
  cbn [count]. unfold isComma at 1. rewrite E. exact IH.
Qed.

Lemma not_ws_existsb (s : string) :
  JsString.forallb brazilianChar s = true -> JsString.existsb isWhiteSpace s = false.
Proof. apply forallb_existsb_false, brazilianChar_not_ws. Qed.

(** White-space-only input is no number. *)
Lemma parseBrazilianNumber_blank (raw : string) :
  JsString.forallb isWhiteSpace raw = true -> parseBrazilianNumber raw = None.
Proof. intros H. unfold parseBrazilianNumber. now rewrite (trim_allWs _ H). Qed.

(** Two commas or more: the second comma survives the normalisation. *)
Lemma parseBrazilianNumber_commas (raw : string) :
  (2 <= count isComma raw)%nat -> parseBrazilianNumber raw = None.
Proof.
  intros H. rewrite parseBrazilianNumber_unfold.
  assert (forall c, isComma c = true -> isWhiteSpace c = false) as Hws.
  { intros c Hc. apply Ascii.eqb_eq in Hc. now subst. }
  rewrite <- (count_trim isComma raw Hws) in H.
  destruct (isEmpty (trim raw)); [reflexivity|].
  rewrite Number_not_numeric; [reflexivity|].
  apply (existsb_impl isComma).
  - intros c Hc. apply Ascii.eqb_eq in Hc. now subst.
  - apply existsb_count. unfold normalize.
    rewrite count_replaceFirst_comma, count_removeAll_comma. lia.
Qed.

(** Digit groups with points and at most one comma. *)
Lemma parseBrazilianNumber_digits (s : string) :
  JsString.forallb brazilianChar s = true ->
  (count isComma s <= 1)%nat ->
  JsString.existsb isDigit s = true ->
  parseBrazilianNumber s =
  finiteOrUndefined
    (roundDecimal false (digitsValue (JsString.filter isDigit s))
                  (- Z.of_nat (fractionDigits s))).
Proof.
  intros Hchars Hcomma Hdigit.
  rewrite parseBrazilianNumber_unfold.
  rewrite (trim_noWs s (not_ws_existsb s Hchars)).
  rewrite (existsb_not_empty _ _ Hdigit).
  f_equal. rewrite (normalize_brazilian s Hchars Hcomma).
  set (notComma := fun c => negb (isComma c)).
  destruct (JsString.existsb isComma s) eqn:Hex.
  - rewrite Number_decimal; try apply filter_forallb.
    + rewrite <- filter_app, takeWhile_dropWhile, length_filter. reflexivity.
    + rewrite <- isEmpty_app, <- filter_app, takeWhile_dropWhile, isEmpty_filter.
      now rewrite Hdigit.
  - rewrite Number_digits; [| apply filter_forallb | now rewrite isEmpty_filter, Hdigit].
    unfold fractionDigits. fold notComma.
    rewrite dropWhile_all; [reflexivity|].
    clear - Hex. induction s as [|c r IH]; [reflexivity|].
    cbn [JsString.existsb JsString.forallb] in *.
    apply orb_false_iff in Hex as [Hc Hr]. unfold notComma at 1. now rewrite Hc, IH.
Qed.

Lemma ws_not_currency (c : ascii) :
  isWhiteSpace c = true -> (Ascii.eqb c "R" || Ascii.eqb c "r") = false.
Proof.
  intros H. destruct (Ascii.eqb_spec c "R") as [->|]; [discriminate|].
  destruct (Ascii.eqb_spec c "r") as [->|]; [discriminate | reflexivity].
Qed.

Lemma removeCurrency_app_ws (w s : string) :
  JsString.forallb isWhiteSpace w = true ->
  removeCurrency (w ++ s) = w ++ removeCurrency s.
Proof.
  induction w as [|c r IH]; [reflexivity|].
  cbn [JsString.forallb append removeCurrency]. intros H.
  apply andb_true_iff in H as [Hc Hr].
  rewrite (ws_not_currency c Hc). cbn [andb]. now rewrite IH.
Qed.

Lemma removeCurrency_none (s : string) :
  hasCurrency s = false -> removeCurrency s = s.
Proof.
  induction s as [|c r IH]; [reflexivity|].
  cbn [hasCurrency removeCurrency]. intros H.
  apply orb_false_iff in H as [Hc Hr]. rewrite Hc. now rewrite IH.
Qed.

Lemma hasCurrency_app (w s : string) :
  hasCurrency s = true -> hasCurrency (w ++ s) = true.
Proof.
  intros H. induction w as [|c r IH]; [exact H|].
  cbn [append hasCurrency]. rewrite IH. apply orb_true_r.
Qed.

Lemma trimEnd_currency (rest : string) :
  trimEnd (String "R" (String "$" rest)) = String "R" (String "$" (trimEnd rest)).
Proof. reflexivity. Qed.

(** The source and the description agree when [R$] leads the text. *)
Lemma parseBRL_leading (raw : string) :
  startsWith "R$" (trimStart raw) = true ->
  parseBRL raw = parseBrazilianNumber (stripLeadingCurrency raw).
Proof.
  intros H. apply startsWith_split in H. change (String.length "R$") with 2%nat in H.
  remember (drop 2 (trimStart raw)) as rest eqn:Hrest. clear Hrest. cbn [append] in H.
  assert (trim (removeCurrency raw) = trim rest) as Hcode.
  { rewrite <- (takeWhile_dropWhile isWhiteSpace raw).
    rewrite removeCurrency_app_ws by apply takeWhile_forallb.
    rewrite trim_app_ws by apply takeWhile_forallb.
    fold (trimStart raw). rewrite H. cbn [removeCurrency].
    replace (Ascii.eqb "R" "R") with true by reflexivity.
    cbn [orb startsWith andb drop].
    replace (Ascii.eqb "$" "$") with true by reflexivity. cbn [andb].
    unfold trim, trimStart. now rewrite dropWhile_idem. }
  assert (stripLeadingCurrency raw = trim rest) as Hspec.
  { assert (trim raw = String "R" (String "$" (trimEnd rest))) as Ht
      by (unfold trim; rewrite H; apply trimEnd_currency).
    unfold stripLeadingCurrency. rewrite Ht.
    cbn [startsWith]. replace (Ascii.eqb "R" "R") with true by reflexivity.
    replace (Ascii.eqb "$" "$") with true by reflexivity.
    cbn [andb drop]. unfold trim. now rewrite trimStart_trimEnd, trimEnd_idem. }
  unfold parseBRL. now rewrite Hcode, Hspec.
Qed.

(** The source and the description agree when no [R$] or [r$] occurs. *)
Lemma parseBRL_plain (raw : string) :
  hasCurrency raw = false ->
  parseBRL raw = parseBrazilianNumber (stripLeadingCurrency raw).
Proof.
  intros H. unfold parseBRL, stripLeadingCurrency.
  rewrite (removeCurrency_none _ H).
  destruct (startsWith "R$" (trim raw)) eqn:Hs; [|reflexivity].
  exfalso. unfold trim in Hs. apply startsWith_trimEnd in Hs.
  apply startsWith_split in Hs.
  assert (hasCurrency raw = true); [|congruence].
  rewrite <- (takeWhile_dropWhile isWhiteSpace raw). apply hasCurrency_app.
  fold (trimStart raw). rewrite Hs. reflexivity.
Qed.

(** C10 (as amended): [parseBrazilianNumber] gives undefined on white-space-only
    input and on input whose normalised text [Number] does not read as a
    finite number; on digits grouped by points with at most one comma and at
    least one digit it gives the binary64 number nearest to the digits read
    with the comma as decimal point (undefined when that overflows); two commas
    or more give undefined; and [parseBRL raw] is [parseBrazilianNumber] on
    [raw] without its leftmost [R$] or [r$] and the white space after it,
    trimmed, which is the text without a leading [R$] whenever [R$] leads the
    text or neither [R$] nor [r$] occurs. *)
Theorem parseBrazilianNumber_parseBRL_spec :
  (forall raw, JsString.forallb isWhiteSpace raw = true ->
               parseBrazilianNumber raw = None) /\
  (forall raw, isFinite (Number (normalize (trim raw))) = false ->
               parseBrazilianNumber raw = None) /\
  (forall s, JsString.forallb brazilianChar s = true ->
             (count isComma s <= 1)%nat ->
             JsString.existsb isDigit s = true ->
             parseBrazilianNumber s =
             finiteOrUndefined
               (roundDecimal false (digitsValue (JsString.filter isDigit s))
                             (- Z.of_nat (fractionDigits s)))) /\
  (forall raw, (2 <= count isComma raw)%nat -> parseBrazilianNumber raw = None) /\
  (forall raw, parseBRL raw = parseBrazilianNumber (trim (removeCurrency raw))) /\
  (forall raw, startsWith "R$" (trimStart raw) = true \/ hasCurrency raw = false ->
               parseBRL raw = parseBrazilianNumber (stripLeadingCurrency raw)).
Proof.
  repeat split.
  - apply parseBrazilianNumber_blank.
  - intros raw H. rewrite parseBrazilianNumber_unfold. unfold finiteOrUndefined.
    rewrite H. now destruct (isEmpty (trim raw)).
  - apply parseBrazilianNumber_digits.
  - apply parseBrazilianNumber_commas.
  - intros raw [H|H]; [now apply parseBRL_leading | now apply parseBRL_plain].
Qed.

(** C10, instances: the values of ["R$ 117.000,00"], ["1.234,56"], ["1,2,3"]
    and a blank string. *)
Lemma parseBrazilianNumber_parseBRL_examples :
  parseBRL "R$ 117.000,00" = Some (ofZ 117000) /\
  parseBrazilianNumber "1.234,56" = Some (Number "1234.56") /\
  parseBrazilianNumber "1,2,3" = None /\
  parseBrazilianNumber "   " = None.
Proof.
  destruct parseBrazilianNumber_parseBRL_spec as (Hblank & _ & Hdigits & Hcommas & _ & Hbrl).
  split; [|split; [|split]].
  - rewrite Hbrl by (left; reflexivity). reflexivity.
  - rewrite Hdigits by (reflexivity || (vm_compute; lia)). reflexivity.
  - apply Hcommas. vm_compute. lia.
  - now apply Hblank.
Defined.

(** C10, counterexample: an [R$] that does not lead the text is deleted all
    the same, and so is a lower-case [r$]: ["1R$2"] is read as 12 and
    ["r$ 5"] as 5, where the text without a leading [R$] is no number. *)
Lemma parseBRL_inner_currency :
  parseBRL "1R$2" = Some (ofZ 12) /\
  parseBrazilianNumber (stripLeadingCurrency "1R$2") = None /\
  parseBRL "r$ 5" = Some (ofZ 5) /\
  parseBrazilianNumber (stripLeadingCurrency "r$ 5") = None.
Proof. repeat split; reflexivity. Qed.

End Models.

(** ** src/caixa/httpClient.ts *)

Module Http.
Import JsString JsNumber.
Local Open Scope Z_scope.

Record HttpClientOptions : Type := {
  baseUrl : string;
  userAgent : string;
  origin : string;
  referer : string;
  timeoutMs : Z;
  retries : Z;
  minDelayMs : Z
}.

Record HttpResponse : Type := {
  status : Z;
  text : string
}.

(** The floor of [0.2 * ms] in exact arithmetic. *)
Definition jitterDelta (ms : Z) : Z := Qfloor (inject_Z ms * (2 # 10)).

(** [Math.floor(ms * 0.2)]: the product is a binary64 product, rounded. *)
Definition jitterDeltaBinary64 (ms : Z) : Z :=
  JsNumber.floor (JsNumber.mul (ofZ ms) (Number "0.2")).

(** [jitter(ms)], where [random] is the value [Math.random()] returned:
    [ms - delta + Math.floor(Math.random() * (delta * 2 + 1))].  The product
    is a binary64 product, rounded to nearest; the sums are sums of integers
    far below [2 ^ 53], which binary64 arithmetic makes exactly. *)
Definition jitter (ms : Z) (random : Num) : Z :=
  let delta := jitterDeltaBinary64 ms in
  ms - delta + JsNumber.floor (JsNumber.mul random (ofZ (delta * 2 + 1))).

Definition isRetryableStatus (status : Z) : bool :=
  (status =? 429) || ((500 <=? status) && (status <=? 599)).

(** *** RateLimiter

    [schedule] queues its callers on the promise [chain]: the block between
    [await prev] and [release()] runs for one caller at a time, in call order,
    with no suspension inside.  That block is the transition below, taken at
    the clock reading [now]; the wrapped function is started once [waitMs]
    have been slept. *)
Record RateLimiter : Type := {
  limiterMinDelayMs : Z;
  nextAllowedAt : Z
}.

Definition newRateLimiter (minDelay : Z) : RateLimiter :=
  {| limiterMinDelayMs := minDelay; nextAllowedAt := 0 |}.

Definition schedule (now : Z) (l : RateLimiter) : Z * RateLimiter :=
  let waitMs := Z.max 0 (nextAllowedAt l - now) in
  (waitMs,
   {| limiterMinDelayMs := limiterMinDelayMs l;
      nextAllowedAt := Z.max (nextAllowedAt l) now + limiterMinDelayMs l |}).

(** When the wrapped function starts, for a sleep that lasts what was asked. *)
Definition startedAt (now : Z) (l : RateLimiter) : Z := now + fst (schedule now l).

(** The starts of the calls admitted one after the other at the clock
    readings [nows]. *)
Fixpoint startsOf (nows : list Z) (l : RateLimiter) : list Z :=
  match nows with
  | [] => []
  | now :: rest => startedAt now l :: startsOf rest (snd (schedule now l))
  end.

(** *** HttpClient.request *)

(** What one [attemptOnce] comes to: a response, or an exception (network
    error, abort on timeout, failure to read the body). *)
Inductive Outcome : Type :=
| Responded (r : HttpResponse)
| Failed (err : string).

(** The network as [request] meets it: the outcome of its n-th attempt and
    the n-th value of [Math.random()]. *)
Record Network : Type := {
  outcome : nat -> Outcome;
  random : nat -> Num
}.

Inductive Event : Type :=
| Attempt (attempt : nat)
| Sleep (ms : Z).

Definition backoffBase (attempt : nat) : Z :=
  Z.min 30000 (750 * 2 ^ Z.of_nat attempt).

Definition backoff (net : Network) (attempt : nat) : Z :=
  jitter (backoffBase attempt) (random net attempt).

(** After the loop: [if (last) return last; throw new Error(...)]. *)
Definition finish (last : option HttpResponse) (lastErr : option string) : Result HttpResponse :=
  match last with
  | Some r => Ok r
  | None =>
      Throw ("HTTP request failed (no response): " ++
             match lastErr with Some e => e | None => "undefined" end)
  end.

(** The body of [for (let attempt = 0; attempt <= retries; attempt++)], with
    [n] iterations left to run from [attempt] on. *)
Fixpoint requestLoop (net : Network) (n : nat) (attempt : nat)
    (last : option HttpResponse) (lastErr : option string)
    : Result HttpResponse * list Event :=
  match n with
  | O => (finish last lastErr, [])
  | S n' =>
      match outcome net attempt with
      | Responded r =>
          if negb (isRetryableStatus (status r)) then (Ok r, [Attempt attempt])
          else
            let '(res, trace) := requestLoop net n' (S attempt) (Some r) lastErr in
            (res, Attempt attempt :: Sleep (backoff net attempt) :: trace)
      | Failed err =>
          let '(res, trace) := requestLoop net n' (S attempt) last (Some err) in
          (res, Attempt attempt :: Sleep (backoff net attempt) :: trace)
      end
  end.

(** The loop runs for [attempt = 0, 1, ..., retries]: [retries + 1] times,
    and not at all when [retries] is negative. *)
Definition request (opts : HttpClientOptions) (net : Network)
    : Result HttpResponse * list Event :=
  requestLoop net (Z.to_nat (retries opts + 1)) 0 None None.

Definition attemptsMade (trace : list Event) : nat :=
  List.length (List.filter (fun e => match e with Attempt _ => true | Sleep _ => false end) trace).

(** A response that ends the loop, and one that is retried. *)
Definition settles (o : Outcome) : bool :=
  match o with
  | Responded r => negb (isRetryableStatus (status r))
  | Failed _ => false
  end.

Definition retried (o : Outcome) : bool :=
  match o with
  | Responded r => isRetryableStatus (status r)
  | Failed _ => false
  end.

(** *** Facts on the retry loop *)

Lemma attemptsMade_cons_attempt (a : nat) (trace : list Event) :
  attemptsMade (Attempt a :: trace) = S (attemptsMade trace).
Proof. reflexivity. Qed.

Lemma attemptsMade_cons_sleep (ms : Z) (trace : list Event) :
  attemptsMade (Sleep ms :: trace) = attemptsMade trace.
Proof. reflexivity. Qed.

Lemma requestLoop_attempts (net : Network) (n : nat) :
  forall a last lastErr,
    (attemptsMade (snd (requestLoop net n a last lastErr)) <= n)%nat.
Proof.
  induction n as [|n IH]; intros a last lastErr; cbn [requestLoop].
  - apply Nat.le_refl.
  - destruct (outcome net a) as [r|err].
    + destruct (negb (isRetryableStatus (status r))).
      * cbn. lia.
      * specialize (IH (S a) (Some r) lastErr).
        destruct (requestLoop net n (S a) (Some r) lastErr) as [res trace].
        cbn [snd] in *. rewrite attemptsMade_cons_attempt, attemptsMade_cons_sleep. lia.
    + specialize (IH (S a) last (Some err)).
      destruct (requestLoop net n (S a) last (Some err)) as [res trace].
      cbn [snd] in *. rewrite attemptsMade_cons_attempt, attemptsMade_cons_sleep. lia.
Qed.

(** The first response whose status is not retryable is returned, and it is
    the last event. *)
Lemma requestLoop_settles (net : Network) (k : nat) :
  forall n a last lastErr r,
    (k < n)%nat ->
    outcome net (a + k) = Responded r ->
    isRetryableStatus (status r) = false ->
    (forall j, (j < k)%nat -> settles (outcome net (a + j)) = false) ->
    fst (requestLoop net n a last lastErr) = Ok r /\
    attemptsMade (snd (requestLoop net n a last lastErr)) = S k /\
    List.last (snd (requestLoop net n a last lastErr)) (Sleep 0) = Attempt (a + k).
Proof.
  induction k as [|k IH]; intros n a last lastErr r Hn Hk Hr Hbefore.
  - destruct n as [|n]; [lia|]. cbn [requestLoop].
    rewrite Nat.add_0_r in *. rewrite Hk, Hr. cbn. auto.
  - destruct n as [|n]; [lia|]. cbn [requestLoop].
    assert (settles (outcome net a) = false) as H0
      by (rewrite <- (Nat.add_0_r a); apply Hbefore; lia).
    assert (forall last' lastErr',
      fst (requestLoop net n (S a) last' lastErr') = Ok r /\
      attemptsMade (snd (requestLoop net n (S a) last' lastErr')) = S k /\
      List.last (snd (requestLoop net n (S a) last' lastErr')) (Sleep 0) = Attempt (a + S k))
      as Hrec.
    { intros last' lastErr'.
      replace (a + S k)%nat with (S a + k)%nat by lia.
      apply IH; [lia | now replace (S a + k)%nat with (a + S k)%nat by lia | assumption |].
      intros j Hj. replace (S a + j)%nat with (a + S j)%nat by lia. apply Hbefore. lia. }
    destruct (outcome net a) as [r0|err]; cbn [settles] in H0.
    + rewrite H0.
      destruct (Hrec (Some r0) lastErr) as (H1 & H2 & H3).
      destruct (requestLoop net n (S a) (Some r0) lastErr) as [res trace].
      cbn [fst snd] in *. rewrite attemptsMade_cons_attempt, attemptsMade_cons_sleep.
      repeat split; [assumption | now f_equal |].
      destruct trace as [|e trace]; [discriminate | exact H3].
    + destruct (Hrec last (Some err)) as (H1 & H2 & H3).
      destruct (requestLoop net n (S a) last (Some err)) as [res trace].
      cbn [fst snd] in *. rewrite attemptsMade_cons_attempt, attemptsMade_cons_sleep.
      repeat split; [assumption | now f_equal |].
      destruct trace as [|e trace]; [discriminate | exact H3].
Qed.

(** When every attempt is answered with a retryable status, the answer to
    the last attempt is returned. *)
Lemma requestLoop_all_retried (net : Network) (n : nat) :
  forall a last lastErr r,
    (forall j, (j <= n)%nat -> retried (outcome net (a + j)) = true) ->
    outcome net (a + n) = Responded r ->
    fst (requestLoop net (S n) a last lastErr) = Ok r.
Proof.
  induction n as [|n IH]; intros a last lastErr r Hall Hlast.
  - cbn [requestLoop]. rewrite Nat.add_0_r in Hlast.
    specialize (Hall 0%nat (Nat.le_refl _)). rewrite Nat.add_0_r, Hlast in Hall.
    cbn [retried] in Hall. rewrite Hlast, Hall. reflexivity.
  - assert (retried (outcome net a) = true) as H0
      by (rewrite <- (Nat.add_0_r a); apply Hall; lia).
    assert (forall last' lastErr',
      fst (requestLoop net (S n) (S a) last' lastErr') = Ok r) as Hrec.
    { intros last' lastErr'. apply IH.
      - intros j Hj. replace (S a + j)%nat with (a + S j)%nat by lia. apply Hall. lia.
      - now replace (S a + n)%nat with (a + S n)%nat by lia. }
    change (requestLoop net (S (S n)) a last lastErr) with
      (match outcome net a with
       | Responded r =>
           if negb (isRetryableStatus (status r)) then (Ok r, [Attempt a])
           else
             let '(res, trace) := requestLoop net (S n) (S a) (Some r) lastErr in
             (res, Attempt a :: Sleep (backoff net a) :: trace)
       | Failed err =>
           let '(res, trace) := requestLoop net (S n) (S a) last (Some err) in
           (res, Attempt a :: Sleep (backoff net a) :: trace)
       end).
    destruct (outcome net a) as [r0|err]; cbn [retried] in H0; [|discriminate].
    rewrite H0. cbn [negb].
    specialize (Hrec (Some r0) lastErr).
    destruct (requestLoop net (S n) (S a) (Some r0) lastErr) as [res trace].
    exact Hrec.
Qed.

(** An error is thrown only when there was no response at all. *)
Lemma requestLoop_throws (net : Network) (n : nat) :
  forall a last lastErr m,
    fst (requestLoop net n a last lastErr) = Throw m ->
    last = None /\
    forall j, (j < n)%nat -> exists err, outcome net (a + j) = Failed err.
Proof.
  induction n as [|n IH]; intros a last lastErr m H; cbn [requestLoop] in H.
  - split; [|intros j Hj; lia].
    destruct last; [discriminate | reflexivity].
  - destruct (outcome net a) as [r|err] eqn:Ha.
    + destruct (negb (isRetryableStatus (status r))); [discriminate|].
      specialize (IH (S a) (Some r) lastErr m).
      destruct (requestLoop net n (S a) (Some r) lastErr) as [res trace].
      destruct (IH H) as [Hlast _]. discriminate.
    + specialize (IH (S a) last (Some err) m).
      destruct (requestLoop net n (S a) last (Some err)) as [res trace].
      destruct (IH H) as [Hlast Hfail]. split; [assumption|].
      intros [|j] Hj.
      * rewrite Nat.add_0_r. now exists err.
      * replace (a + S j)%nat with (S a + j)%nat by lia. apply Hfail. lia.
Qed.

(** Conversely, when no attempt is answered the request throws. *)
Lemma requestLoop_all_failed (net : Network) (n : nat) :
  forall a lastErr,
    (forall j, (j < n)%nat -> exists err, outcome net (a + j) = Failed err) ->
    exists m, fst (requestLoop net n a None lastErr) = Throw m.
Proof.
  induction n as [|n IH]; intros a lastErr Hall; cbn [requestLoop].
  - eexists. reflexivity.
  - destruct (Hall 0%nat ltac:(lia)) as [err Herr]. rewrite Nat.add_0_r in Herr.
    rewrite Herr.
    destruct (IH (S a) (Some err)) as [m Hm].
    { intros j Hj. replace (S a + j)%nat with (a + S j)%nat by lia. apply Hall. lia. }
    destruct (requestLoop net n (S a) None (Some err)) as [res trace].
    now exists m.
Qed.

Lemma requestLoop_head (net : Network) (n a : nat) last lastErr e trace :
  snd (requestLoop net n a last lastErr) = e :: trace -> e = Attempt a.
Proof.
  destruct n as [|n]; cbn [requestLoop]; [discriminate|].
  destruct (outcome net a) as [r|err].
  - destruct (negb (isRetryableStatus (status r))); [now intros [= <- _]|].
    destruct (requestLoop net n (S a) (Some r) lastErr). now intros [= <- _].
  - destruct (requestLoop net n (S a) last (Some err)). now intros [= <- _].
Qed.

(** Two consecutive attempts are separated by one sleep, of the backoff of
    the earlier attempt. *)
Lemma requestLoop_between (net : Network) (n : nat) :
  forall a last lastErr k,
    (a <= k)%nat ->
    In (Attempt (S k)) (snd (requestLoop net n a last lastErr)) ->
    exists pre post,
      snd (requestLoop net n a last lastErr) =
      pre ++ Attempt k :: Sleep (backoff net k) :: Attempt (S k) :: post.
Proof.
  induction n as [|n IH]; intros a last lastErr k Hk Hin; cbn [requestLoop] in *.
  - destruct Hin.
  - assert (forall last' lastErr',
      In (Attempt (S k)) (Attempt a :: Sleep (backoff net a)
                            :: snd (requestLoop net n (S a) last' lastErr')) ->
      exists pre post,
        Attempt a :: Sleep (backoff net a) :: snd (requestLoop net n (S a) last' lastErr') =
        pre ++ Attempt k :: Sleep (backoff net k) :: Attempt (S k) :: post) as Hstep.
    { intros last' lastErr' [H|[H|H]]; [injection H; lia | discriminate |].
      destruct (Nat.eq_dec k a) as [->|Hne].
      - destruct (snd (requestLoop net n (S a) last' lastErr')) as [|e trace] eqn:Ht;
          [destruct H|].
        apply requestLoop_head in Ht. subst e. now exists [], trace.
      - destruct (IH (S a) last' lastErr' k ltac:(lia) H) as (pre & post & ->).
        now exists (Attempt a :: Sleep (backoff net a) :: pre), post. }
    destruct (outcome net a) as [r|err].
    + destruct (negb (isRetryableStatus (status r))).
      * destruct Hin as [H|[]]. injection H. lia.
      * specialize (Hstep (Some r) lastErr).
        destruct (requestLoop net n (S a) (Some r) lastErr). now apply Hstep.
    + specialize (Hstep last (Some err)).
      destruct (requestLoop net n (S a) last (Some err)). now apply Hstep.
Qed.

(** *** Facts on the backoff *)

Lemma jitterDelta_fifth (ms : Z) : jitterDelta ms = ms / 5.
Proof.
  unfold jitterDelta.
  replace (inject_Z ms * (2 # 10))%Q with (ms * 2 # 10)%Q
    by (unfold inject_Z, Qmult; cbn; now rewrite Z.mul_1_r || reflexivity).
  unfold Qfloor. cbn.
  replace 10 with (5 * 2) by reflexivity.
  rewrite Z.div_mul_cancel_r; lia.
Qed.

Lemma backoffBase_capped (a : nat) : (6 <= a)%nat -> backoffBase a = 30000.
Proof.
  intros Ha. unfold backoffBase. apply Z.min_l.
  assert (2 ^ 6 <= 2 ^ Z.of_nat a) by (apply Z.pow_le_mono_r; lia).
  change (2 ^ 6) with 64 in *. lia.
Qed.

(** The rounding of the binary64 product does not change [delta] on any of
    the seven delays 750, 1500, ..., 24000, 30000. *)
Lemma jitterDelta_binary64 (a : nat) :
  jitterDeltaBinary64 (backoffBase a) = jitterDelta (backoffBase a).
Proof.
  destruct (le_lt_dec 6 a) as [Ha|Ha].
  - rewrite (backoffBase_capped a Ha). vm_compute. reflexivity.
  - do 6 (destruct a as [|a]; [vm_compute; reflexivity|]). lia.
Qed.

Lemma backoffBase_nonneg (a : nat) : 0 <= backoffBase a.
Proof.
  unfold backoffBase. apply Z.min_glb; [lia|].
  apply Z.mul_nonneg_nonneg; [lia|]. apply Z.pow_nonneg. lia.
Qed.

(** The jitter stays within [delta] of the delay: the rounded product of
    the random number and [delta * 2 + 1] is below [delta * 2 + 1]. *)
Lemma jitter_bounds (ms : Z) (r : Num) (my : positive) (ey : Z) :
  isRandom r = true ->
  0 <= jitterDeltaBinary64 ms < 2 ^ 52 ->
  ofZ (jitterDeltaBinary64 ms * 2 + 1) = S754_finite false my ey ->
  ey <= 0 ->
  Zpos my = (jitterDeltaBinary64 ms * 2 + 1) * 2 ^ (- ey) ->
  ms - jitterDeltaBinary64 ms <= jitter ms r <= ms + jitterDeltaBinary64 ms.
Proof.
  intros Hr Hd Hof Hey Hmy. unfold jitter. cbv zeta. rewrite Hof.
  assert (1 <= jitterDeltaBinary64 ms * 2 + 1 < 2 ^ 53) as Hn
    by (change (2 ^ 53) with (2 * 2 ^ 52); lia).
  destruct (mul_random_below r my ey _ Hr Hey Hn Hmy) as [_ Hfloor]. lia.
Qed.

Ltac backoff_case :=
  match goal with
  | |- context [backoffBase ?n] =>
      let v := eval vm_compute in (backoffBase n) in change (backoffBase n) with v
  end;
  eapply jitter_bounds;
    [ eassumption
    | vm_compute; split; [discriminate | reflexivity]
    | vm_compute; reflexivity
    | vm_compute; discriminate
    | vm_compute; reflexivity ].

(** On each of the seven delays the client passes. *)
Lemma backoff_bounds (net : Network) (a : nat) :
  isRandom (random net a) = true ->
  backoffBase a - jitterDelta (backoffBase a) <= backoff net a
    <= backoffBase a + jitterDelta (backoffBase a).
Proof.
  intros Hr. rewrite <- jitterDelta_binary64. unfold backoff.
  destruct (le_lt_dec 6 a) as [Ha|Ha].
  - rewrite (backoffBase_capped a Ha). generalize dependent (random net a). intros r Hr.
    eapply jitter_bounds;
      [ eassumption
      | vm_compute; split; [discriminate | reflexivity]
      | vm_compute; reflexivity
      | vm_compute; discriminate
      | vm_compute; reflexivity ].
  - do 6 (destruct a as [|a]; [backoff_case|]). lia.
Qed.

(** The rounding of the product counts: for the delay 750 and the random
    number [5745456003024154 * 2 ^ -59] the exact product is below 3 and the
    binary64 product is 3. *)
Lemma jitter_rounded_product :
  isRandom (S754_finite false 5745456003024154 (-59)) = true /\
  jitter 750 (S754_finite false 5745456003024154 (-59)) = 603 /\
  750 - 150 + Qfloor ((5745456003024154 # 576460752303423488) * inject_Z 301) = 602.
Proof. vm_compute. repeat split. Qed.

(** *** Facts on the rate limiter *)

Lemma startedAt_eq (now : Z) (l : RateLimiter) :
  startedAt now l = Z.max now (nextAllowedAt l).
Proof. unfold startedAt, schedule. cbn [fst]. lia. Qed.

Lemma schedule_next (now : Z) (l : RateLimiter) :
  nextAllowedAt (snd (schedule now l)) = startedAt now l + limiterMinDelayMs l.
Proof. rewrite startedAt_eq. unfold schedule. cbn. lia. Qed.

Lemma startsOf_spaced (nows : list Z) :
  forall l i s1 s2,
    nth_error (startsOf nows l) i = Some s1 ->
    nth_error (startsOf nows l) (S i) = Some s2 ->
    limiterMinDelayMs l <= s2 - s1.
Proof.
  induction nows as [|now rest IH]; intros l i s1 s2 H1 H2.
  - destruct i; discriminate.
  - destruct i as [|i]; cbn [startsOf nth_error] in H1, H2.
    + injection H1 as <-. destruct rest as [|now2 rest]; [discriminate|].
      cbn [startsOf nth_error] in H2. injection H2 as <-.
      rewrite !startedAt_eq. cbn [nextAllowedAt]. lia.
    + apply (IH (snd (schedule now l)) i s1 s2 H1 H2).
Qed.

(** *** The claims on the client *)

Definition demoOptions : HttpClientOptions :=
  {| baseUrl := "https://venda-imoveis.caixa.gov.br";
     userAgent := "Mozilla/5.0";
     origin := "https://venda-imoveis.caixa.gov.br";
     referer := "https://venda-imoveis.caixa.gov.br/sistema/busca-imovel.asp?sltTipoBusca=imoveis";
     timeoutMs := 20000;
     retries := 2;
     minDelayMs := 500 |}.

Definition demoOk : HttpResponse := {| status := 200; text := "<html></html>" |}.

(** The number 0.5. *)
Definition oneHalf : Num := S754_finite false 4503599627370496 (-53).

(** A network that resets the first connection, answers the second attempt
    with 503 and the third with 200. *)
Definition demoNetwork : Network :=
  {| outcome := fun n =>
       match n with
       | O => Failed "ECONNRESET"
       | S O => Responded {| status := 503; text := "busy" |}
       | _ => Responded demoOk
       end;
     random := fun _ => oneHalf |}.

(** C1: [request] makes at most [retries + 1] attempts; the first response
    whose status is not retryable (neither 429 nor 500..599) is returned at
    once, as the last event of the request; when every attempt is answered
    with a retryable status the answer to the last attempt is returned; and an
    error is thrown only when no attempt was answered, and always then. *)
Theorem request_retry_spec (opts : HttpClientOptions) (net : Network) :
  0 <= retries opts ->
  (forall s, isRetryableStatus s = true <-> s = 429 \/ 500 <= s <= 599) /\
  Z.of_nat (attemptsMade (snd (request opts net))) <= retries opts + 1 /\
  (forall k r,
      Z.of_nat k <= retries opts ->
      outcome net k = Responded r ->
      isRetryableStatus (status r) = false ->
      (forall j, (j < k)%nat -> settles (outcome net j) = false) ->
      fst (request opts net) = Ok r /\
      attemptsMade (snd (request opts net)) = S k /\
      List.last (snd (request opts net)) (Sleep 0) = Attempt k) /\
  (forall r,
      (forall j, Z.of_nat j <= retries opts -> retried (outcome net j) = true) ->
      outcome net (Z.to_nat (retries opts)) = Responded r ->
      fst (request opts net) = Ok r) /\
  (forall m,
      fst (request opts net) = Throw m ->
      forall j, Z.of_nat j <= retries opts -> exists err, outcome net j = Failed err) /\
  ((forall j, Z.of_nat j <= retries opts -> exists err, outcome net j = Failed err) ->
   exists m, fst (request opts net) = Throw m).
Proof.
  intros Hretries. unfold request.
  split; [|split; [|split; [|split; [|split]]]].
  - intros s. unfold isRetryableStatus.
    rewrite orb_true_iff, andb_true_iff, Z.eqb_eq, !Z.leb_le. tauto.
  - pose proof (requestLoop_attempts net (Z.to_nat (retries opts + 1)) 0 None None). lia.
  - intros k r Hk Hout Hstatus Hbefore.
    apply (requestLoop_settles net k (Z.to_nat (retries opts + 1)) 0%nat None None r);
      [lia | assumption | assumption | assumption].
  - intros r Hall Hlast.
    replace (Z.to_nat (retries opts + 1)) with (S (Z.to_nat (retries opts))) by lia.
    apply requestLoop_all_retried; [|assumption].
    intros j Hj. apply Hall. lia.
  - intros m Hthrow j Hj.
    destruct (requestLoop_throws net _ _ _ _ _ Hthrow) as [_ Hfail].
    apply (Hfail j). lia.
  - intros Hall. apply requestLoop_all_failed.
    intros j Hj. apply Hall. lia.
Qed.

(** C1, instance: with two retries, a reset connection, then 503, then 200:
    three attempts, and the 200 is returned. *)
Lemma request_retry_witness :
  0 <= retries demoOptions /\
  fst (request demoOptions demoNetwork) = Ok demoOk /\
  attemptsMade (snd (request demoOptions demoNetwork)) = 3%nat.
Proof.
  assert (0 <= retries demoOptions) as H by (cbn; lia).
  split; [exact H|].
  destruct (request_retry_spec demoOptions demoNetwork H) as (_ & _ & Hsettle & _).
  destruct (Hsettle 2%nat demoOk) as (Hres & Hcount & _).
  - cbn. lia.
  - reflexivity.
  - reflexivity.
  - intros [|[|j]] Hj; [reflexivity | reflexivity | lia].
  - split; assumption.
Defined.

(** C6: the backoff slept after attempt [a] has base [750 * 2 ^ a] capped at
    30000; its jittered value, computed in binary64 arithmetic from what
    [Math.random()] returned, lies between [base - floor (0.2 * base)] and
    [base + floor (0.2 * base)], where the floor is [base / 5] in exact and in
    binary64 arithmetic alike; and between two consecutive attempts of a
    request exactly that backoff is slept. *)
Theorem backoff_spec (opts : HttpClientOptions) (net : Network) :
  (forall a, isRandom (random net a) = true) ->
  forall a : nat,
    backoffBase a = Z.min 30000 (750 * 2 ^ Z.of_nat a) /\
    ((a <= 5)%nat -> backoffBase a = 750 * 2 ^ Z.of_nat a) /\
    ((6 <= a)%nat -> backoffBase a = 30000) /\
    jitterDelta (backoffBase a) = Qfloor (inject_Z (backoffBase a) * (2 # 10)) /\
    jitterDelta (backoffBase a) = backoffBase a / 5 /\
    jitterDeltaBinary64 (backoffBase a) = jitterDelta (backoffBase a) /\
    backoff net a =
      backoffBase a - jitterDeltaBinary64 (backoffBase a) +
      JsNumber.floor (JsNumber.mul (random net a)
                        (ofZ (jitterDeltaBinary64 (backoffBase a) * 2 + 1))) /\
    backoffBase a - jitterDelta (backoffBase a) <= backoff net a
      <= backoffBase a + jitterDelta (backoffBase a) /\
    (In (Attempt (S a)) (snd (request opts net)) ->
     exists pre post,
       snd (request opts net) =
       pre ++ Attempt a :: Sleep (backoff net a) :: Attempt (S a) :: post).
Proof.
  intros Hrandom a.
  split; [reflexivity|].
  split; [|split; [|split; [reflexivity|split; [apply jitterDelta_fifth|
    split; [apply jitterDelta_binary64|split; [reflexivity|split]]]]]].
  - intros Ha. unfold backoffBase. apply Z.min_r.
    assert (2 ^ Z.of_nat a <= 2 ^ 5) by (apply Z.pow_le_mono_r; lia).
    change (2 ^ 5) with 32 in *. lia.
  - apply backoffBase_capped.
  - apply backoff_bounds, Hrandom.
  - apply requestLoop_between. lia.
Qed.

(** The largest number below 1. *)
Definition belowOne : Num := S754_finite false 9007199254740991 (-53).

(** A network whose random numbers are as large as can be. *)
Definition lateNetwork : Network :=
  {| outcome := outcome demoNetwork; random := fun _ => belowOne |}.

(** C6, instance: after the first attempt of the demonstration request, with
    [Math.random()] at one half, 750 ms are slept, within 600..900; with the
    largest random number 900 ms are slept, and with 0 it is 600. *)
Lemma backoff_witness :
  (forall a, isRandom (random demoNetwork a) = true) /\
  backoff demoNetwork 0 = 750 /\
  600 <= backoff demoNetwork 0 <= 900 /\
  backoff lateNetwork 0 = 900 /\
  jitter 750 posZero = 600 /\
  exists pre post,
    snd (request demoOptions demoNetwork) =
    pre ++ Attempt 0 :: Sleep (backoff demoNetwork 0) :: Attempt 1 :: post.
Proof.
  assert (forall a, isRandom (random demoNetwork a) = true) as H by (intros a; reflexivity).
  split; [exact H|].
  destruct (backoff_spec demoOptions demoNetwork H 0%nat)
    as (_ & _ & _ & _ & _ & _ & _ & Hb & Hbetween).
  split; [vm_compute; reflexivity|]. split; [exact Hb|].
  split; [vm_compute; reflexivity|]. split; [vm_compute; reflexivity|].
  apply Hbetween. vm_compute. right. right. left. reflexivity.
Defined.

(** C2 (as amended): a call admitted at clock reading [now] starts at
    [max now nextAllowedAt] (it sleeps until the recorded [nextAllowedAt] when
    that lies ahead) and leaves [nextAllowedAt] at that start plus
    [minDelayMs]: an advance of exactly [minDelayMs] when the limiter is
    busy ([now <= nextAllowedAt]); and the next call admitted, at whatever
    reading, starts at least [minDelayMs] later. *)
Theorem schedule_spacing (l : RateLimiter) (now1 now2 : Z) :
  startedAt now1 l = Z.max now1 (nextAllowedAt l) /\
  nextAllowedAt (snd (schedule now1 l)) =
    Z.max (nextAllowedAt l) now1 + limiterMinDelayMs l /\
  limiterMinDelayMs (snd (schedule now1 l)) = limiterMinDelayMs l /\
  (now1 <= nextAllowedAt l ->
   nextAllowedAt (snd (schedule now1 l)) - nextAllowedAt l = limiterMinDelayMs l) /\
  limiterMinDelayMs l <= startedAt now2 (snd (schedule now1 l)) - startedAt now1 l /\
  (forall nows i s1 s2,
     nth_error (startsOf nows l) i = Some s1 ->
     nth_error (startsOf nows l) (S i) = Some s2 ->
     limiterMinDelayMs l <= s2 - s1).
Proof.
  split; [apply startedAt_eq|].
  split; [unfold schedule; cbn; lia|].
  split; [reflexivity|].
  split; [unfold schedule; cbn; lia|].
  split; [rewrite !startedAt_eq; unfold schedule; cbn; lia|].
  intros nows. apply startsOf_spaced.
Qed.

(** C2, counterexample: the first call on a fresh limiter of 500 ms, admitted
    at clock reading 1000, moves [nextAllowedAt] from 0 to 1500, not by 500. *)
Lemma schedule_idle_advance :
  nextAllowedAt (newRateLimiter 500) = 0 /\
  nextAllowedAt (snd (schedule 1000 (newRateLimiter 500))) = 1500 /\
  nextAllowedAt (snd (schedule 1000 (newRateLimiter 500)))
    - nextAllowedAt (newRateLimiter 500) <> limiterMinDelayMs (newRateLimiter 500).
Proof. cbn. repeat split; lia. Qed.

End Http.

(** ** The parsed document and the cheerio queries *)

Module Dom.
Import JsString.

(** A node of the tree [cheerio.load] builds: text, or an element with its
    attributes in source order and its children.  The root stands for the
    document. *)
Local Unset Elimination Schemes.
Inductive node : Type :=
| Text (data : string)
| Element (name : string) (attribs : list (string * string)) (children : list node).
Local Set Elimination Schemes.

Definition children (n : node) : list node :=
  match n with
  | Text _ => []
  | Element _ _ cs => cs
  end.

(** The proper descendants of a node, in document order. *)
Fixpoint descendants (n : node) : list node :=
  match n with
  | Text _ => []
  | Element _ _ cs => flat_map (fun c => c :: descendants c) cs
  end.

(** [.text()]: the text of a node and of everything below it. *)
Fixpoint textContent (n : node) : string :=
  match n with
  | Text s => s
  | Element _ _ cs => String.concat "" (map textContent cs)
  end.

Fixpoint lookup (key : string) (l : list (string * string)) : option string :=
  match l with
  | [] => None
  | (k, v) :: rest => if String.eqb k key then Some v else lookup key rest
  end.

(** [.attr(name)] on one node. *)
Definition attr (name : string) (n : node) : option string :=
  match n with
  | Text _ => None
  | Element _ attribs _ => lookup name attribs
  end.

(** [.attr(name)] on a selection: the attribute of its first node. *)
Definition attrOfFirst (name : string) (selection : list node) : option string :=
  match selection with
  | [] => None
  | n :: _ => attr name n
  end.

Definition hasTag (tag : string) (n : node) : bool :=
  match n with
  | Text _ => false
  | Element name _ _ => String.eqb name tag
  end.

(** [#id] *)
Definition hasId (id : string) (n : node) : bool :=
  match attr "id" n with
  | Some v => String.eqb v id
  | None => false
  end.

(** [.cls]: one of the white-space separated words of the class attribute. *)
Fixpoint words (current : string) (s : string) : list string :=
  match s with
  | EmptyString => if isEmpty current then [] else [current]
  | String c r =>
      if isWhiteSpace c
      then (if isEmpty current then words EmptyString r else current :: words EmptyString r)
      else words (current ++ String c EmptyString) r
  end.

Definition hasClass (cls : string) (n : node) : bool :=
  match attr "class" n with
  | Some v => List.existsb (String.eqb cls) (words EmptyString v)
  | None => false
  end.

(** [[name*='sub']] *)
Definition attrContains (name sub : string) (n : node) : bool :=
  match attr name n with
  | Some v => includes sub v
  | None => false
  end.

Fixpoint endsWith (suffix s : string) : bool :=
  String.eqb s suffix ||
  match s with
  | EmptyString => false
  | String _ r => endsWith suffix r
  end.

(** [[name$='suffix']] *)
Definition attrEndsWith (name suffix : string) (n : node) : bool :=
  match attr name n with
  | Some v => endsWith suffix v
  | None => false
  end.

(** [:contains('sub')] *)
Definition containsText (sub : string) (n : node) : bool :=
  match n with
  | Text _ => false
  | Element _ _ _ => includes sub (textContent n)
  end.

(** [$(selector)] and [node.find(selector)], for a selector without
    combinators: the matching proper descendants, in document order. *)
Definition find (matches : node -> bool) (n : node) : list node :=
  List.filter matches (descendants n).

(** The nodes at or below [n] that have an ancestor matching [ancestor];
    [inside] tells that one was met above [n]. *)
Fixpoint below (ancestor : node -> bool) (inside : bool) (n : node) : list node :=
  (if inside then [n] else []) ++
  match n with
  | Text _ => []
  | Element _ _ cs => flat_map (below ancestor (inside || ancestor n)) cs
  end.

(** [$("ancestor matches")]: the descendant combinator. *)
Definition findBelow (ancestor matches : node -> bool) (root : node) : list node :=
  List.filter matches (flat_map (below ancestor false) (children root)).

End Dom.

(** ** src/parsers/parseSearchResponse.ts *)

Module SearchResponse.
Import JsString JsNumber Models Dom.

Definition dquote : string := String (ascii_of_nat 34) EmptyString.

(** The decimal numeral of a loop index, as a template literal prints it. *)
Definition decimal (i : nat) : string := NilEmpty.string_of_uint (Nat.to_uint i).

Definition parseIntStrict (raw : option string) : Result Num :=
  let text := match raw with Some s => s | None => EmptyString end in
  let v := trim text in
  let n := Number v in
  if negb (isFinite n) || negb (isInteger n)
  then Throw ("Expected integer, got: " ++ dquote ++ text ++ dquote)%string
  else Ok n.

(** [$("#id").attr("value")] *)
Definition valueOf (doc : node) (id : string) : option string :=
  attrOfFirst "value" (find (hasId id) doc).

Definition imovId (i : nat) : string := ("hdnImov" ++ decimal i)%string.

(** [for (let i = 1; ; i++) { v = ...; if (!v) break; push(v) }], from index
    [i] on.  The loop of the source has no bound; [fuel] counts the
    iterations allowed, and [None] tells that they did not suffice. *)
Fixpoint collectImov (doc : node) (fuel : nat) (i : nat) : option (list string) :=
  match fuel with
  | O => None
  | S fuel' =>
      match valueOf doc (imovId i) with
      | Some v =>
          if isEmpty v then Some []
          else option_map (cons v) (collectImov doc fuel' (S i))
      | None => Some []
      end
  end.

(** One iteration more than the document has nodes always suffices
    ([collectImov_terminates] below): the [None] branch is never taken. *)
Definition hdnImovInputs (doc : node) : list string :=
  match collectImov doc (S (List.length (descendants doc))) 1 with
  | Some tokens => tokens
  | None => []
  end.

(** What [parseSearchResponse] does with the document [cheerio.load] built. *)
Definition parseSearchDocument (doc : node) : Result CaixaSearchResult :=
  bindR (parseIntStrict (valueOf doc "hdnQtdPag")) (fun pages =>
  bindR (parseIntStrict (valueOf doc "hdnQtdRegistros")) (fun records =>
  let filtro := option_map trim (valueOf doc "hdnFiltro") in
  let tokens := hdnImovInputs doc in
  if (List.length tokens =? 0)%nat
  then Throw "Search response did not include any hdnImov{N} inputs."
  else Ok {| hdnImovByPage := tokens;
             qtdPag := if isPositive pages then pages
                       else ofZ (Z.of_nat (List.length tokens));
             qtdRegistros := records;
             hdnFiltro := match filtro with
                          | Some f => if truthy f then Some f else None
                          | None => None
                          end |})).

(** [!v] for an attribute value: absent or empty. *)
Definition missingOrEmpty (v : option string) : bool :=
  match v with
  | Some s => isEmpty s
  | None => true
  end.

(** What [parseIntStrict] accepts: [Number] reads the trimmed value as a
    finite integer. *)
Definition integral (raw : option string) : bool :=
  let n := Number (trim (match raw with Some s => s | None => EmptyString end)) in
  isFinite n && isInteger n.

(** *** Facts on the token loop *)

Lemma decimal_inj (i j : nat) : decimal i = decimal j -> i = j.
Proof.
  unfold decimal. intros H.
  apply DecimalNat.Unsigned.to_uint_inj.
  assert (Some (Nat.to_uint i) = Some (Nat.to_uint j)) as E
    by (rewrite <- !NilEmpty.usu; now rewrite H).
  now injection E.
Qed.

Lemma imovId_inj (i j : nat) : imovId i = imovId j -> i = j.
Proof.
  unfold imovId. cbn [append]. intros H. apply decimal_inj. now injection H.
Qed.

Lemma hasId_attr (id : string) (n : node) :
  hasId id n = true -> attr "id" n = Some id.
Proof.
  unfold hasId. destruct (attr "id" n) as [v|]; [|discriminate].
  intros H. apply String.eqb_eq in H. now subst.
Qed.

Lemma valueOf_some_id (doc : node) (id v : string) :
  valueOf doc id = Some v -> In (Some id) (map (attr "id") (descendants doc)).
Proof.
  unfold valueOf, find.
  destruct (List.filter (hasId id) (descendants doc)) as [|n rest] eqn:Hf; [discriminate|].
  intros _.
  assert (In n (List.filter (hasId id) (descendants doc))) as Hin by (rewrite Hf; now left).
  apply filter_In in Hin as [Hin Hid].
  rewrite <- (hasId_attr _ _ Hid). now apply in_map.
Qed.

Lemma collectImov_exhausted (doc : node) (fuel : nat) :
  forall i, collectImov doc fuel i = None ->
  forall j, (i <= j < i + fuel)%nat -> exists v, valueOf doc (imovId j) = Some v.
Proof.
  induction fuel as [|fuel IH]; intros i H j Hj; [lia|].
  cbn [collectImov] in H.
  destruct (valueOf doc (imovId i)) as [v|] eqn:Hv; [|discriminate].
  destruct (isEmpty v); [discriminate|].
  destruct (collectImov doc fuel (S i)) as [l|] eqn:Hrec; [discriminate|].
  destruct (Nat.eq_dec j i) as [->|Hne]; [now exists v|].
  apply (IH (S i) Hrec). lia.
Qed.

Lemma imovIds_NoDup (i n : nat) :
  NoDup (map (fun j => Some (imovId j)) (seq i n)).
Proof.
  revert i. induction n as [|n IH]; intros i; cbn [seq map]; constructor.
  - intros Hin. apply in_map_iff in Hin as (j & Hj & Hin).
    assert (imovId j = imovId i) as Hij by congruence.
    apply imovId_inj in Hij. subst j.
    apply in_seq in Hin. lia.
  - apply IH.
Qed.

(** The loop stops: the inputs it reads carry pairwise distinct ids, and
    the document has only so many nodes. *)
Lemma collectImov_terminates (doc : node) (i : nat) :
  exists tokens, collectImov doc (S (List.length (descendants doc))) i = Some tokens.
Proof.
  destruct (collectImov doc (S (List.length (descendants doc))) i) as [l|] eqn:H;
    [now exists l|].
  exfalso.
  set (n := List.length (descendants doc)) in *.
  pose proof (imovIds_NoDup i (S n)) as Hnodup.
  assert (incl (map (fun j => Some (imovId j)) (seq i (S n)))
               (map (attr "id") (descendants doc))) as Hincl.
  { intros x Hx. apply in_map_iff in Hx as (j & <- & Hj). apply in_seq in Hj.
    destruct (collectImov_exhausted doc (S n) i H j Hj) as [v Hv].
    exact (valueOf_some_id _ _ _ Hv). }
  apply NoDup_incl_length in Hincl; [|assumption].
  rewrite !length_map, length_seq in Hincl. subst n. lia.
Qed.

Lemma collectImov_spec (doc : node) (fuel : nat) :
  forall i tokens, collectImov doc fuel i = Some tokens ->
  (forall k, (k < List.length tokens)%nat ->
     valueOf doc (imovId (i + k)) = Some (nth k tokens EmptyString) /\
     isEmpty (nth k tokens EmptyString) = false) /\
  missingOrEmpty (valueOf doc (imovId (i + List.length tokens))) = true.
Proof.
  induction fuel as [|fuel IH]; intros i tokens H; [discriminate|].
  cbn [collectImov] in H.
  destruct (valueOf doc (imovId i)) as [v|] eqn:Hv.
  - destruct (isEmpty v) eqn:Hempty.
    + injection H as <-. cbn [List.length]. rewrite Nat.add_0_r, Hv.
      split; [intros k Hk; inversion Hk | exact Hempty].
    + destruct (collectImov doc fuel (S i)) as [l|] eqn:Hrec; [|discriminate].
      injection H as <-. destruct (IH (S i) l Hrec) as [Hall Hend].
      split.
      * intros [|k] Hk; cbn [nth].
        -- now rewrite Nat.add_0_r.
        -- replace (i + S k)%nat with (S i + k)%nat by lia.
           apply Hall. cbn [List.length] in Hk. lia.
      * cbn [List.length]. now replace (i + S (List.length l))%nat
          with (S i + List.length l)%nat by lia.
  - injection H as <-. cbn [List.length]. rewrite Nat.add_0_r, Hv.
    split; [intros k Hk; inversion Hk | reflexivity].
Qed.

Lemma hdnImovInputs_spec (doc : node) :
  (forall k, (k < List.length (hdnImovInputs doc))%nat ->
     valueOf doc (imovId (S k)) = Some (nth k (hdnImovInputs doc) EmptyString) /\
     isEmpty (nth k (hdnImovInputs doc) EmptyString) = false) /\
  missingOrEmpty (valueOf doc (imovId (S (List.length (hdnImovInputs doc))))) = true.
Proof.
  unfold hdnImovInputs.
  destruct (collectImov_terminates doc 1) as [tokens H]. rewrite H.
  exact (collectImov_spec doc _ 1 tokens H).
Qed.

Lemma hdnImovInputs_empty (doc : node) :
  hdnImovInputs doc = [] <-> missingOrEmpty (valueOf doc (imovId 1)) = true.
Proof.
  destruct (hdnImovInputs_spec doc) as [Hall Hend]. split.
  - intros H. rewrite H in Hend. exact Hend.
  - intros H. destruct (hdnImovInputs doc) as [|t rest]; [reflexivity|].
    destruct (Hall 0%nat) as [Hv Hne]; [cbn; lia|].
    rewrite Hv in H. cbn [missingOrEmpty nth] in *. congruence.
Qed.

Lemma parseIntStrict_integral (raw : option string) :
  parseIntStrict raw =
  if integral raw
  then Ok (Number (trim (match raw with Some s => s | None => EmptyString end)))
  else Throw ("Expected integer, got: " ++ dquote ++
              match raw with Some s => s | None => EmptyString end ++ dquote)%string.
Proof.
  unfold parseIntStrict, integral.
  destruct (isFinite _), (isInteger _); reflexivity.
Qed.

Section WithParser.
(** [cheerio.load]: the HTML parser of the library. *)
Variable load : string -> node.

Definition parseSearchResponse (html : string) : Result CaixaSearchResult :=
  parseSearchDocument (load html).

(** C3 (as amended): the tokens returned are the non-empty values of
    [hdnImov1], [hdnImov2], ... in index order, up to the first one that is
    absent or empty (index [k] of the list holds the token of page [k + 1]);
    the parse throws when [hdnImov1] is absent or empty, and when the trimmed
    value of [hdnQtdPag] or of [hdnQtdRegistros] is not read by [Number] as a
    finite integer; otherwise it returns.  An absent, empty or blank value is
    read as 0 and accepted; a value with a code unit foreign to numerals is
    rejected. *)
Theorem parseSearchResponse_spec (html : string) :
  let doc := load html in
  (forall r, parseSearchResponse html = Ok r ->
     hdnImovByPage r <> [] /\
     (forall k, (k < List.length (hdnImovByPage r))%nat ->
        valueOf doc (imovId (S k)) = Some (nth k (hdnImovByPage r) EmptyString) /\
        isEmpty (nth k (hdnImovByPage r) EmptyString) = false) /\
     missingOrEmpty (valueOf doc (imovId (S (List.length (hdnImovByPage r))))) = true) /\
  (missingOrEmpty (valueOf doc "hdnImov1") = true ->
   exists m, parseSearchResponse html = Throw m) /\
  (integral (valueOf doc "hdnQtdPag") = false \/
   integral (valueOf doc "hdnQtdRegistros") = false ->
   exists m, parseSearchResponse html = Throw m) /\
  (integral (valueOf doc "hdnQtdPag") = true ->
   integral (valueOf doc "hdnQtdRegistros") = true ->
   missingOrEmpty (valueOf doc "hdnImov1") = false ->
   exists r, parseSearchResponse html = Ok r) /\
  (forall raw,
     JsString.forallb isWhiteSpace (match raw with Some s => s | None => EmptyString end) = true ->
     integral raw = true) /\
  (forall s,
     JsString.existsb (fun c => negb (numericChar c) && negb (isWhiteSpace c)) s = true ->
     integral (Some s) = false).
Proof.
  intros doc. unfold parseSearchResponse. fold doc.
  change "hdnImov1" with (imovId 1).
  unfold parseSearchDocument. rewrite !parseIntStrict_integral.
  pose proof (hdnImovInputs_spec doc) as [Hall Hend].
  pose proof (hdnImovInputs_empty doc) as Hempty.
  split; [|split; [|split; [|split; [|split]]]].
  - intros r.
    destruct (integral (valueOf doc "hdnQtdPag")); [|discriminate].
    destruct (integral (valueOf doc "hdnQtdRegistros")); [|discriminate].
    cbn [bindR].
    destruct (hdnImovInputs doc) as [|t rest] eqn:Htok; [discriminate|].
    cbn [List.length Nat.eqb]. intros [= <-]. cbn [hdnImovByPage].
    split; [discriminate|]. split; assumption.
  - intros H. apply Hempty in H. rewrite H.
    destruct (integral (valueOf doc "hdnQtdPag")); [|eexists; reflexivity].
    destruct (integral (valueOf doc "hdnQtdRegistros")); eexists; reflexivity.
  - intros [H|H]; rewrite H.
    + eexists; reflexivity.
    + destruct (integral (valueOf doc "hdnQtdPag")); eexists; reflexivity.
  - intros H1 H2 H3. rewrite H1, H2. cbn [bindR].
    destruct (hdnImovInputs doc) as [|t rest] eqn:Htok.
    + destruct Hempty as [Hempty _]. rewrite Hempty in H3; [discriminate | reflexivity].
    + eexists; reflexivity.
  - intros raw H. unfold integral. rewrite (trim_allWs _ H). reflexivity.
  - intros s H. unfold integral.
    rewrite Number_not_numeric; [reflexivity|].
    set (bad := fun c => negb (numericChar c) && negb (isWhiteSpace c)) in *.
    apply existsb_count. rewrite count_trim; [now apply existsb_count|].
    intros c Hc. unfold bad in Hc. apply andb_true_iff in Hc as [_ Hc].
    now apply negb_true_iff in Hc.
Qed.

End WithParser.

(** The document of
    [<input id=hdnQtdPag value=""><input id=hdnImov1 value=tok1><input id=hdnImov2 value=tok2>]. *)
Definition demoSearchDocument : node :=
  Element "root" []
    [ Element "input" [("id", "hdnQtdPag"); ("value", "")] [];
      Element "input" [("id", "hdnImov1"); ("value", "tok1")] [];
      Element "input" [("id", "hdnImov2"); ("value", "tok2")] [] ].

(** C3, instance: the two tokens of the demonstration document are returned
    in order, whatever the parser did to produce it. *)
Lemma parseSearchResponse_witness :
  hdnImovByPage
    (match parseSearchResponse (fun _ => demoSearchDocument) "" with
     | Ok r => r
     | Throw _ => {| hdnImovByPage := []; qtdPag := NaN; qtdRegistros := NaN; hdnFiltro := None |}
     end) = ["tok1"; "tok2"] /\
  exists r, parseSearchResponse (fun _ => demoSearchDocument) "" = Ok r.
Proof.
  split; [reflexivity|].
  destruct (parseSearchResponse_spec (fun _ => demoSearchDocument) "")
    as (_ & _ & _ & Hok & _).
  apply Hok; reflexivity.
Defined.

(** C3, counterexample: [hdnQtdPag] with an empty value and no
    [hdnQtdRegistros] at all are not integer strings, and the parse returns:
    the page count falls back to the number of tokens, the record count is 0.
    The value ["0x10"] is accepted as 16 and ["1e3"] as 1000. *)
Lemma parseSearchDocument_blank_counts :
  valueOf demoSearchDocument "hdnQtdPag" = Some EmptyString /\
  valueOf demoSearchDocument "hdnQtdRegistros" = None /\
  parseSearchDocument demoSearchDocument =
    Ok {| hdnImovByPage := ["tok1"; "tok2"];
          qtdPag := ofZ 2;
          qtdRegistros := posZero;
          hdnFiltro := None |} /\
  parseIntStrict (Some "0x10") = Ok (ofZ 16) /\
  parseIntStrict (Some "1e3") = Ok (ofZ 1000).
Proof. repeat split; reflexivity. Qed.

End SearchResponse.

(** ** src/parsers/parseListPage.ts *)

Module ListPage.
Import JsString JsNumber Models Dom.

(** [/detalhe_imovel\((\d+)\)/] tried at the start of [s]: the digits
    captured.  The run of digits is the longest one, no shorter run can be
    followed by the bracket. *)
Definition matchDetalheAt (s : string) : option string :=
  if startsWith "detalhe_imovel(" s then
    let r := drop 15 s in
    let ds := takeWhile isDigit r in
    if negb (isEmpty ds) && startsWith ")" (dropWhile isDigit r) then Some ds else None
  else None.

(** [text.match(/detalhe_imovel\((\d+)\)/)?.[1]]: the leftmost match. *)
Fixpoint matchDetalhe (s : string) : option string :=
  match matchDetalheAt s with
  | Some ds => Some ds
  | None =>
      match s with
      | EmptyString => None
      | String _ r => matchDetalhe r
      end
  end.

(** [firstMatch(text, re)], given the first group of the match of [re]:
    [m?.[1]?.trim() || undefined]. *)
Definition firstMatch (group1 : option string) : option string :=
  match group1 with
  | Some g => let t := trim g in if truthy t then Some t else None
  | None => None
  end.

(** The optional fields of a card, which the item carries when present. *)
Record CardFields : Type := {
  fieldModalidade : option string;
  fieldTipoImovel : option string;
  fieldAreaUtilM2 : option Num;
  fieldQuartos : option Num;
  fieldVagas : option Num;
  fieldValorAvaliacao : option Num;
  fieldValorMinimo : option Num;
  fieldDescontoPercent : option Num;
  fieldEnderecoRaw : option string;
  fieldObservacoesRaw : option string
}.

(** [li.group-block-item] *)
Definition isCard (n : node) : bool := hasTag "li" n && hasClass "group-block-item" n.

Definition cards (doc : node) : list node := find isCard doc.

(** The [onclick] the card is identified by: that of the first element below
    the card whose [onclick] contains [detalhe_imovel], else [""]. *)
Definition cardOnclick (card : node) : string :=
  match attrOfFirst "onclick" (find (attrContains "onclick" "detalhe_imovel") card) with
  | Some v => v
  | None =>
      match attrOfFirst "onclick"
              (find (fun n => hasTag "img" n && attrContains "onclick" "detalhe_imovel" n) card) with
      | Some v => v
      | None => EmptyString
      end
  end.

(** The text of the first link to the detail page, white space collapsed. *)
Definition cardTitulo (card : node) : string :=
  let link := find (fun n => hasTag "a" n && attrContains "onclick" "detalhe_imovel" n) card in
  trim (collapseSpaces (match link with n :: _ => textContent n | [] => EmptyString end)).

(** *** Facts on the identifier of a card *)

(** How the identifier stands in the text it was taken from. *)
Definition callOf (id : string) : string := ("detalhe_imovel(" ++ id ++ ")")%string.

Lemma matchDetalheAt_spec (s ds : string) :
  matchDetalheAt s = Some ds ->
  isEmpty ds = false /\ JsString.forallb isDigit ds = true /\
  startsWith (callOf ds) s = true.
Proof.
  unfold matchDetalheAt.
  destruct (startsWith "detalhe_imovel(" s) eqn:Hp; [|discriminate].
  set (r := drop 15 s).
  destruct (negb (isEmpty (takeWhile isDigit r)) && startsWith ")" (dropWhile isDigit r))
    eqn:Hd; [|discriminate].
  intros [= <-]. apply andb_true_iff in Hd as [Hne Hclose].
  apply negb_true_iff in Hne.
  split; [exact Hne|]. split; [apply takeWhile_forallb|].
  unfold callOf. rewrite startsWith_app, Hp. cbn [andb].
  change (drop (String.length "detalhe_imovel(") s) with r.
  rewrite startsWith_app, startsWith_takeWhile, drop_takeWhile. exact Hclose.
Qed.

Lemma matchDetalhe_spec (s ds : string) :
  matchDetalhe s = Some ds ->
  isEmpty ds = false /\ JsString.forallb isDigit ds = true /\
  includes (callOf ds) s = true.
Proof.
  induction s as [|c r IH]; cbn [matchDetalhe].
  - destruct (matchDetalheAt "") eqn:H; [|discriminate]. discriminate.
  - destruct (matchDetalheAt (String c r)) as [d|] eqn:H.
    + intros [= <-]. destruct (matchDetalheAt_spec _ _ H) as (H1 & H2 & H3).
      split; [assumption|]. split; [assumption|]. now apply includes_here.
    + intros Hr. destruct (IH Hr) as (H1 & H2 & H3).
      split; [assumption|]. split; [assumption|]. now apply includes_later.
Qed.

Lemma firstMatch_spec (s id : string) :
  firstMatch (matchDetalhe s) = Some id ->
  isEmpty id = false /\ JsString.forallb isDigit id = true /\
  includes (callOf id) s = true.
Proof.
  unfold firstMatch. destruct (matchDetalhe s) as [g|] eqn:Hm; [|discriminate].
  destruct (matchDetalhe_spec _ _ Hm) as (H1 & H2 & H3).
  rewrite (trim_noWs g (digits_noWs g H2)). unfold truthy. rewrite H1.
  now intros [= <-].
Qed.

Lemma attrOfFirst_filter (name : string) (p : node -> bool) (l : list node) (v : string) :
  attrOfFirst name (List.filter p l) = Some v ->
  exists n, In n l /\ p n = true /\ attr name n = Some v.
Proof.
  destruct (List.filter p l) as [|n rest] eqn:Hf; [discriminate|].
  cbn [attrOfFirst]. intros Hv.
  assert (In n (List.filter p l)) as Hin by (rewrite Hf; now left).
  apply filter_In in Hin as [Hin Hp]. now exists n.
Qed.

Lemma attrOfFirst_none (name : string) (p : node -> bool) (l : list node) :
  (forall n, In n l -> p n = true -> exists v, attr name n = Some v) ->
  attrOfFirst name (List.filter p l) = None -> List.filter p l = [].
Proof.
  intros Hp. destruct (List.filter p l) as [|n rest] eqn:Hf; [reflexivity|].
  cbn [attrOfFirst]. intros Hv.
  assert (In n (List.filter p l)) as Hin by (rewrite Hf; now left).
  apply filter_In in Hin as [Hin Hn].
  destruct (Hp n Hin Hn) as [v Hv']. congruence.
Qed.

(** The [onclick] read for a card is empty, or the [onclick] attribute of an
    element below the card, one that contains [detalhe_imovel]. *)
Lemma cardOnclick_source (card : node) :
  cardOnclick card = EmptyString \/
  exists el, In el (descendants card) /\
             attr "onclick" el = Some (cardOnclick card) /\
             includes "detalhe_imovel" (cardOnclick card) = true.
Proof.
  unfold cardOnclick, find.
  destruct (attrOfFirst "onclick"
              (List.filter (attrContains "onclick" "detalhe_imovel") (descendants card)))
    as [v|] eqn:H1.
  - right. destruct (attrOfFirst_filter _ _ _ _ H1) as (n & Hin & Hp & Hv).
    exists n. split; [assumption|]. split; [assumption|].
    unfold attrContains in Hp. now rewrite Hv in Hp.
  - destruct (attrOfFirst "onclick"
                (List.filter (fun n => hasTag "img" n && attrContains "onclick" "detalhe_imovel" n)
                             (descendants card))) as [v|] eqn:H2; [|now left].
    right. destruct (attrOfFirst_filter _ _ _ _ H2) as (n & Hin & Hp & Hv).
    exists n. split; [assumption|]. split; [assumption|].
    apply andb_true_iff in Hp as [_ Hp].
    unfold attrContains in Hp. now rewrite Hv in Hp.
Qed.

Lemma matchDetalhe_empty : matchDetalhe EmptyString = None.
Proof. reflexivity. Qed.

Section WithFields.
(** The text heuristics that fill the optional fields of a card (prices,
    area, rooms, address): they read the card and never throw. *)
Variable extractFields : node -> CardFields.

(** The callback of [.each]: the item of a card, or nothing on [return]. *)
Definition parseCard (uf0 : Uf) (cidadeId0 : string) (page0 : Z) (card : node)
    : option ImovelListItem :=
  match firstMatch (matchDetalhe (cardOnclick card)) with
  | None => None
  | Some id =>
      let f := extractFields card in
      Some {| imovelId := id;
              uf := uf0;
              cidadeId := cidadeId0;
              titulo := cardTitulo card;
              modalidade := fieldModalidade f;
              tipoImovel := fieldTipoImovel f;
              areaUtilM2 := fieldAreaUtilM2 f;
              quartos := fieldQuartos f;
              vagas := fieldVagas f;
              valorAvaliacao := fieldValorAvaliacao f;
              valorMinimo := fieldValorMinimo f;
              descontoPercent := fieldDescontoPercent f;
              enderecoRaw := fieldEnderecoRaw f;
              observacoesRaw := fieldObservacoesRaw f;
              page := page0 |}
  end.

(** What [parseListPageHtml] does with the document [cheerio.load] built. *)
Definition parseListPageDocument (doc : node) (uf0 : Uf) (cidadeId0 : string) (page0 : Z)
    : list ImovelListItem :=
  flat_map (fun card => match parseCard uf0 cidadeId0 page0 card with
                        | Some item => [item]
                        | None => []
                        end)
           (cards doc).

Variable load : string -> node.

Definition parseListPageHtml (html : string) (uf0 : Uf) (cidadeId0 : string) (page0 : Z)
    : list ImovelListItem :=
  parseListPageDocument (load html) uf0 cidadeId0 page0.

Lemma parseCard_spec (uf0 : Uf) (cidadeId0 : string) (page0 : Z) (card : node)
    (item : ImovelListItem) :
  parseCard uf0 cidadeId0 page0 card = Some item ->
  isEmpty (imovelId item) = false /\
  JsString.forallb isDigit (imovelId item) = true /\
  (exists el onclick,
      In el (descendants card) /\
      attr "onclick" el = Some onclick /\
      includes (callOf (imovelId item)) onclick = true) /\
  uf item = uf0 /\ cidadeId item = cidadeId0 /\ page item = page0.
Proof.
  unfold parseCard.
  destruct (firstMatch (matchDetalhe (cardOnclick card))) as [id|] eqn:Hid; [|discriminate].
  intros [= <-]. cbn [imovelId uf cidadeId page].
  destruct (firstMatch_spec _ _ Hid) as (H1 & H2 & H3).
  repeat split; try assumption.
  destruct (cardOnclick_source card) as [Hempty|(el & Hin & Hattr & _)].
  - rewrite Hempty in Hid. discriminate.
  - now exists el, (cardOnclick card).
Qed.

Lemma parseCard_none (uf0 : Uf) (cidadeId0 : string) (page0 : Z) (card : node) :
  (forall el onclick,
      In el (descendants card) -> attr "onclick" el = Some onclick ->
      matchDetalhe onclick = None) ->
  parseCard uf0 cidadeId0 page0 card = None.
Proof.
  intros Hno. unfold parseCard.
  destruct (cardOnclick_source card) as [Hempty|(el & Hin & Hattr & _)].
  - now rewrite Hempty.
  - now rewrite (Hno el _ Hin Hattr).
Qed.

Lemma parseListPageHtml_page (html : string) (uf0 : Uf) (cidadeId0 : string) (page0 : Z)
    (item : ImovelListItem) :
  In item (parseListPageHtml html uf0 cidadeId0 page0) -> page item = page0.
Proof.
  unfold parseListPageHtml, parseListPageDocument. intros Hin.
  apply in_flat_map in Hin as (card & _ & Hitem).
  destruct (parseCard uf0 cidadeId0 page0 card) as [i|] eqn:Hp; [|destruct Hitem].
  destruct Hitem as [<-|[]]. apply (parseCard_spec _ _ _ _ _ Hp).
Qed.

(** C4: every item [parseListPageHtml] returns comes from a result card of
    the document, an [li] element below the root whose class attribute lists
    [group-block-item]; its [imovelId] is a non-empty run of decimal digits
    that stands as [detalhe_imovel(N)] in the [onclick] attribute of an
    element of that card; it carries the [uf], [cidadeId] and [page] passed
    in.  A card none of whose [onclick] attributes has the form
    [detalhe_imovel(N)] yields no item, no card yields more than one, every
    result card that has an item contributes it, and a document without
    result cards gives no item. *)
Theorem parseListPageHtml_spec (html : string) (uf0 : Uf) (cidadeId0 : string) (page0 : Z) :
  let doc := load html in
  (forall n,
     isCard n = true <->
     exists attribs kids cls,
       n = Element "li" attribs kids /\
       lookup "class" attribs = Some cls /\
       In "group-block-item"%string (words EmptyString cls)) /\
  (forall item, In item (parseListPageHtml html uf0 cidadeId0 page0) ->
     isEmpty (imovelId item) = false /\
     JsString.forallb isDigit (imovelId item) = true /\
     (exists card el onclick,
         In card (descendants doc) /\
         isCard card = true /\
         parseCard uf0 cidadeId0 page0 card = Some item /\
         In el (descendants card) /\
         attr "onclick" el = Some onclick /\
         includes (callOf (imovelId item)) onclick = true) /\
     uf item = uf0 /\ cidadeId item = cidadeId0 /\ page item = page0) /\
  (forall card,
     (forall el onclick,
         In el (descendants card) -> attr "onclick" el = Some onclick ->
         matchDetalhe onclick = None) ->
     parseCard uf0 cidadeId0 page0 card = None) /\
  (forall card item,
     In card (descendants doc) -> isCard card = true ->
     parseCard uf0 cidadeId0 page0 card = Some item ->
     In item (parseListPageHtml html uf0 cidadeId0 page0)) /\
  ((forall n, In n (descendants doc) -> isCard n = false) ->
   parseListPageHtml html uf0 cidadeId0 page0 = []) /\
  (List.length (parseListPageHtml html uf0 cidadeId0 page0)
   <= List.length (List.filter isCard (descendants doc)))%nat.
Proof.
  intros doc. unfold parseListPageHtml, parseListPageDocument. fold doc.
  split; [|split; [|split; [|split; [|split]]]].
  - intros n. unfold isCard, hasTag, hasClass, attr. destruct n as [data|name attribs kids].
    + split; [discriminate | intros (a & k & c & H & _); discriminate H].
    + rewrite andb_true_iff, String.eqb_eq. split.
      * intros [-> Hcls]. destruct (lookup "class" attribs) as [cls|] eqn:Hl; [|discriminate].
        apply existsb_exists in Hcls as (x & Hx & Heq). apply String.eqb_eq in Heq. subst x.
        now exists attribs, kids, cls.
      * intros (a & k & cls & [= -> -> ->] & Hl & Hin). split; [reflexivity|].
        rewrite Hl. apply existsb_exists. exists "group-block-item"%string.
        split; [exact Hin | apply String.eqb_refl].
  - intros item Hin. apply in_flat_map in Hin as (card & Hcard & Hitem).
    destruct (parseCard uf0 cidadeId0 page0 card) as [i|] eqn:Hp; [|destruct Hitem].
    destruct Hitem as [<-|[]].
    destruct (parseCard_spec _ _ _ _ _ Hp) as (H1 & H2 & (el & onclick & H3) & H4).
    apply filter_In in Hcard as [Hdesc Hcard].
    repeat split; try assumption; try apply H4.
    exists card, el, onclick. repeat split; try assumption; apply H3.
  - apply parseCard_none.
  - intros card item Hdesc Hcard Hp. apply in_flat_map. exists card.
    split; [apply filter_In; now split|]. rewrite Hp. now left.
  - intros Hnone. unfold cards, find.
    induction (descendants doc) as [|n rest IH]; [reflexivity|].
    cbn [List.filter]. rewrite (Hnone n (or_introl eq_refl)).
    apply IH. intros m Hm. apply Hnone. now right.
  - change (List.filter isCard (descendants doc)) with (cards doc).
    induction (cards doc) as [|card rest IH]; [apply Nat.le_refl|].
    cbn [flat_map]. rewrite length_app.
    destruct (parseCard uf0 cidadeId0 page0 card); cbn [List.length]; lia.
Qed.

End WithFields.

Definition noFields : CardFields :=
  {| fieldModalidade := None; fieldTipoImovel := None; fieldAreaUtilM2 := None;
     fieldQuartos := None; fieldVagas := None; fieldValorAvaliacao := None;
     fieldValorMinimo := None; fieldDescontoPercent := None;
     fieldEnderecoRaw := None; fieldObservacoesRaw := None |}.

(** A result card with a link to the detail page of property [id]. *)
Definition linkedCard (id title : string) : node :=
  Element "li" [("class", "group-block-item")]
    [ Element "a" [("onclick", ("javascript:detalhe_imovel(" ++ id ++ ");")%string)]
        [Text title] ].

(** A page of two cards: the second one has no link to a detail page. *)
Definition demoListDocument : node :=
  Element "root" []
    [ linkedCard "77" "Terreno";
      Element "li" [("class", "group-block-item")] [Text "sem link"] ].

(** A page whose links to detail pages stand outside result cards. *)
Definition demoNoCards : node :=
  Element "root" []
    [ Element "div" [("class", "group-block-item")]
        [ Element "a" [("onclick", "javascript:detalhe_imovel(77);")] [Text "Terreno"] ];
      Element "li" [("class", "group-block")]
        [ Element "a" [("onclick", "javascript:detalhe_imovel(78);")] [Text "Casa"] ] ].

(** C4, instance: of the two cards of the demonstration page only the linked
    one yields an item, with the identifier 77 and the arguments passed; and
    a page whose links stand in no result card yields none. *)
Lemma parseListPageHtml_witness :
  map (fun i => (imovelId i, uf i, cidadeId i, page i, titulo i))
      (parseListPageHtml (fun _ => noFields) (fun _ => demoListDocument) "" "RJ" "7084" 2) =
    [("77", "RJ", "7084", 2%Z, "Terreno")] /\
  parseListPageHtml (fun _ => noFields) (fun _ => demoNoCards) "" "RJ" "7084" 2 = [] /\
  forall item,
    In item (parseListPageHtml (fun _ => noFields) (fun _ => demoListDocument) "" "RJ" "7084" 2) ->
    JsString.forallb isDigit (imovelId item) = true /\ page item = 2%Z.
Proof.
  split; [reflexivity|].
  destruct (parseListPageHtml_spec (fun _ => noFields) (fun _ => demoNoCards)
              "" "RJ" "7084" 2) as (_ & _ & _ & _ & Hnone & _).
  split.
  { apply Hnone. intros n Hn. cbn in Hn.
    repeat (destruct Hn as [<-|Hn]; [reflexivity|]). destruct Hn. }
  intros item Hin.
  destruct (parseListPageHtml_spec (fun _ => noFields) (fun _ => demoListDocument)
              "" "RJ" "7084" 2) as (_ & Hitems & _).
  destruct (Hitems item Hin) as (_ & Hdigits & _ & _ & _ & Hpage). now split.
Defined.

End ListPage.

(** ** src/parsers/parseDetailPage.ts *)

Module DetailPage.
Import JsString JsNumber Models Dom.

Definition base : string := "https://venda-imoveis.caixa.gov.br".

(** The textual fields of the detail page, read by label. *)
Record DetailText : Type := {
  textTipoImovel : option string;
  textQuartos : option Num;
  textGaragem : option Num;
  textNumeroImovel : option string;
  textMatriculas : option (list string);
  textComarca : option string;
  textOficio : option string;
  textInscricaoImobiliaria : option string;
  textAverbacaoLeiloesNegativos : option string;
  textAreaTotalM2 : option Num;
  textAreaPrivativaM2 : option Num;
  textEndereco : option string;
  textDescricao : option string;
  textFormasPagamentoRaw : option string;
  textAceitaRecursosProprios : option bool;
  textAceitaFGTS : option bool;
  textAceitaFinanciamento : option bool
}.

Record ImovelDetailExtract : Type := {
  matriculaPdfUrl : option string;
  galeriaFotoFilenames : option (list string);
  galeriaFotoUrls : option (list string);
  detailText : option DetailText
}.

(** The empty object [{}]. *)
Definition emptyDetail : ImovelDetailExtract :=
  {| matriculaPdfUrl := None; galeriaFotoFilenames := None;
     galeriaFotoUrls := None; detailText := None |}.

(** [new Set(...)] keeps the first occurrence of each value. *)
Fixpoint uniqFrom (seen : list string) (l : list string) : list string :=
  match l with
  | [] => []
  | x :: r =>
      if List.existsb (String.eqb x) seen then uniqFrom seen r
      else x :: uniqFrom (x :: seen) r
  end.

(** [Array.from(new Set(items.map((s) => s.trim()).filter(Boolean)))] *)
Definition uniq (items : list string) : list string :=
  uniqFrom [] (List.filter truthy (map trim items)).

Definition toLower (c : ascii) : ascii :=
  let n := nat_of_ascii c in
  if ((65 <=? n) && (n <=? 90))%nat then ascii_of_nat (n + 32) else c.

(** [s] starts with the lower-case text [p], letter case ignored. *)
Fixpoint startsWithCI (p s : string) : bool :=
  match p, s with
  | EmptyString, _ => true
  | String a p', String b s' => Ascii.eqb a (toLower b) && startsWithCI p' s'
  | String _ _, EmptyString => false
  end.

(** [/^https?:\/\//i.test(s)] *)
Definition isHttpUrl (s : string) : bool :=
  startsWithCI "http://" s || startsWithCI "https://" s.

(** A call or an assignment with a quoted argument,
    [prefix q ([^q]+) q suffix], tried at the start of [s]: the text between
    the quotes.  The run between the quotes is the longest one. *)
Definition quotedAt (q : ascii) (suffix : string) (s : string) : option string :=
  if startsWith (String q EmptyString) s then
    let r := drop 1 s in
    let body := takeWhile (fun c => negb (Ascii.eqb c q)) r in
    if negb (isEmpty body) &&
       startsWith (String q suffix) (dropWhile (fun c => negb (Ascii.eqb c q)) r)
    then Some body else None
  else None.

(** [/ExibeDoc\(q([^q]+)q\)/] at the start of [s]. *)
Definition exibeDocAt (q : ascii) (s : string) : option string :=
  if startsWith "ExibeDoc(" s then quotedAt q ")" (drop 9 s) else None.

(** [/preview\.src\s*=\s*q([^q]+)q/] at the start of [s]. *)
Definition previewSrcAt (q : ascii) (s : string) : option string :=
  if startsWith "preview.src" s then
    let r := dropWhile isWhiteSpace (drop 11 s) in
    if startsWith "=" r then quotedAt q EmptyString (dropWhile isWhiteSpace (drop 1 r))
    else None
  else None.

(** The leftmost match of a pattern given by its match at a position. *)
Fixpoint leftmost (at_ : string -> option string) (s : string) : option string :=
  match at_ s with
  | Some g => Some g
  | None =>
      match s with
      | EmptyString => None
      | String _ r => leftmost at_ r
      end
  end.

Definition apostrophe : ascii := ascii_of_nat 39.
Definition quotationMark : ascii := ascii_of_nat 34.

(** The last element of [parts.filter(Boolean)] for the text before the
    first [?]. *)
Definition fileNameOf (u : string) : string :=
  let noQuery := List.hd u (split "?" u) in
  let parts := List.filter truthy (split "/" noQuery) in
  List.last parts EmptyString.

(** The sources one gallery image contributes: its [src] and the
    [preview.src] its [onclick] assigns, each when it contains [/fotos/]. *)
Definition imageSources (img : node) : list string :=
  (match attr "src" img with
   | Some src => if truthy src && includes "/fotos/" src then [src] else []
   | None => []
   end) ++
  (let onclick := match attr "onclick" img with Some v => v | None => EmptyString end in
   let m := match leftmost (previewSrcAt quotationMark) onclick with
            | Some g => Some g
            | None => leftmost (previewSrcAt apostrophe) onclick
            end in
   match m with
   | Some g => if includes "/fotos/" g then [g] else []
   | None => []
   end).

(** [$("#galeria-imagens img")] *)
Definition galleryImages (doc : node) : list node :=
  findBelow (hasId "galeria-imagens") (hasTag "img") doc.

Definition galeriaSrcs (doc : node) : list string :=
  flat_map imageSources (galleryImages doc).

(** The argument of [ExibeDoc] in the [onclick] of the document link. *)
Definition matriculaArgument (doc : node) : option string :=
  let onclick :=
    match attrOfFirst "onclick" (find (fun n => hasTag "a" n && attrContains "onclick" "ExibeDoc" n) doc) with
    | Some v => v
    | None =>
        match attrOfFirst "onclick"
                (find (fun n => hasTag "a" n &&
                                containsText ("Baixar matr" ++ String (ascii_of_nat 237) "cula") n) doc) with
        | Some v => v
        | None => EmptyString
        end
    end in
  match leftmost (exibeDocAt apostrophe) onclick with
  | Some g => Some g
  | None => leftmost (exibeDocAt quotationMark) onclick
  end.

(** [$("a[href$='.pdf']").first().attr("href")] *)
Definition pdfHref (doc : node) : option string :=
  attrOfFirst "href" (find (fun n => hasTag "a" n && attrEndsWith "href" ".pdf" n) doc).

Fixpoint mapResult {A B : Type} (f : A -> Result B) (l : list A) : Result (list B) :=
  match l with
  | [] => Ok []
  | x :: r => bindR (f x) (fun y => bindR (mapResult f r) (fun ys => Ok (y :: ys)))
  end.

Definition nonEmptyList {A : Type} (l : list A) : option (list A) :=
  match l with [] => None | _ :: _ => Some l end.

(** An absolute URL starts with a scheme and a colon. *)
Definition isSchemeChar (c : ascii) : bool :=
  isAlpha c || isDigit c || Ascii.eqb c "+" || Ascii.eqb c "-" || Ascii.eqb c ".".

Definition isAbsoluteUrl (u : string) : bool :=
  match u with
  | String c r => isAlpha c && startsWith ":" (dropWhile isSchemeChar r)
  | EmptyString => false
  end.

(** *** Facts on the helpers *)

Lemma toLower_alpha (c x : ascii) :
  Ascii.eqb x (toLower c) = true -> isAlpha x = true -> isAlpha c = true.
Proof.
  unfold toLower. intros H Hx.
  destruct ((65 <=? nat_of_ascii c) && (nat_of_ascii c <=? 90))%nat eqn:E.
  - unfold isAlpha. now rewrite E.
  - apply Ascii.eqb_eq in H. now subst.
Qed.

Lemma toLower_other (c x : ascii) :
  Ascii.eqb x (toLower c) = true -> isAlpha x = false -> c = x.
Proof.
  unfold toLower. intros H Hx.
  destruct ((65 <=? nat_of_ascii c) && (nat_of_ascii c <=? 90))%nat eqn:E.
  - exfalso. apply Ascii.eqb_eq in H. subst x.
    apply andb_true_iff in E as [E1 E2]. apply Nat.leb_le in E1, E2.
    unfold isAlpha in Hx. rewrite nat_ascii_embedding in Hx by lia.
    apply orb_false_iff in Hx as [_ Hx]. apply andb_false_iff in Hx as [Hx|Hx];
      apply Nat.leb_gt in Hx; lia.
  - apply Ascii.eqb_eq in H. now subst.
Qed.

Lemma isAlpha_scheme (c : ascii) : isAlpha c = true -> isSchemeChar c = true.
Proof. unfold isSchemeChar. now intros ->. Qed.

Ltac http_letter H c :=
  let Hc := fresh "Hc" in
  apply andb_true_iff in H; destruct H as [Hc H];
  apply toLower_alpha in Hc; [|reflexivity].

Lemma isHttpUrl_absolute (s : string) : isHttpUrl s = true -> isAbsoluteUrl s = true.
Proof.
  unfold isHttpUrl. intros H. apply orb_true_iff in H as [H|H].
  - destruct s as [|c1 [|c2 [|c3 [|c4 [|c5 r]]]]];
      cbn [startsWithCI] in H; rewrite ?andb_false_r in H; try discriminate H.
    http_letter H c1. http_letter H c2. http_letter H c3. http_letter H c4.
    apply andb_true_iff in H as [Hc5 _]. apply toLower_other in Hc5; [subst c5|reflexivity].
    cbn [isAbsoluteUrl dropWhile]. rewrite Hc, !isAlpha_scheme by assumption.
    cbn [andb dropWhile]. reflexivity.
  - destruct s as [|c1 [|c2 [|c3 [|c4 [|c5 [|c6 r]]]]]];
      cbn [startsWithCI] in H; rewrite ?andb_false_r in H; try discriminate H.
    http_letter H c1. http_letter H c2. http_letter H c3. http_letter H c4. http_letter H c5.
    apply andb_true_iff in H as [Hc6 _]. apply toLower_other in Hc6; [subst c6|reflexivity].
    cbn [isAbsoluteUrl dropWhile]. rewrite Hc, !isAlpha_scheme by assumption.
    cbn [andb dropWhile]. reflexivity.
Qed.

Lemma uniqFrom_spec (l : list string) :
  forall seen,
    NoDup (uniqFrom seen l) /\
    (forall x, In x (uniqFrom seen l) -> In x l /\ ~ In x seen).
Proof.
  induction l as [|x r IH]; intros seen; cbn [uniqFrom].
  - split; [constructor | intros x []].
  - destruct (List.existsb (String.eqb x) seen) eqn:E.
    + destruct (IH seen) as [Hnd Hin]. split; [assumption|].
      intros y Hy. destruct (Hin y Hy). split; [now right | assumption].
    + destruct (IH (x :: seen)) as [Hnd Hin]. split.
      * constructor; [|assumption]. intros Hx. apply Hin in Hx as [_ Hx].
        apply Hx. now left.
      * intros y [<-|Hy].
        -- split; [now left|]. intros Hx.
           assert (List.existsb (String.eqb x) seen = true); [|congruence].
           apply existsb_exists. exists x. split; [assumption | apply String.eqb_refl].
        -- destruct (Hin y Hy) as [H1 H2]. split; [now right|].
           intros Hs. apply H2. now right.
Qed.

Lemma uniq_spec (items : list string) :
  NoDup (uniq items) /\
  (forall x, In x (uniq items) ->
     isEmpty x = false /\ exists raw, In raw items /\ x = trim raw).
Proof.
  unfold uniq. destruct (uniqFrom_spec (List.filter truthy (map trim items)) []) as [Hnd Hin].
  split; [assumption|]. intros x Hx.
  apply Hin in Hx as [Hx _]. apply filter_In in Hx as [Hx Ht].
  apply in_map_iff in Hx as (raw & <- & Hraw).
  split; [now apply negb_true_iff in Ht | now exists raw].
Qed.

Lemma imageSources_fotos (img : node) (raw : string) :
  In raw (imageSources img) -> includes "/fotos/" raw = true.
Proof.
  unfold imageSources. intros H. apply in_app_or in H as [H|H].
  - destruct (attr "src" img) as [src|]; [|destruct H].
    destruct (truthy src && includes "/fotos/" src) eqn:E; [|destruct H].
    destruct H as [<-|[]]. now apply andb_true_iff in E.
  - cbv zeta in H.
    destruct (match leftmost (previewSrcAt quotationMark)
                      match attr "onclick" img with Some v => v | None => EmptyString end with
              | Some g => Some g
              | None => leftmost (previewSrcAt apostrophe)
                          match attr "onclick" img with Some v => v | None => EmptyString end
              end) as [g|]; [|destruct H].
    destruct (includes "/fotos/" g) eqn:E; [|destruct H].
    now destruct H as [<-|[]].
Qed.

Lemma galeriaSrcs_spec (doc : node) (raw : string) :
  In raw (galeriaSrcs doc) ->
  includes "/fotos/" raw = true /\
  exists img, In img (galleryImages doc) /\ In raw (imageSources img).
Proof.
  unfold galeriaSrcs. intros H. apply in_flat_map in H as (img & Himg & Hraw).
  split; [exact (imageSources_fotos _ _ Hraw) | now exists img].
Qed.

Lemma mapResult_spec {A B : Type} (f : A -> Result B) (l : list A) :
  forall ys, mapResult f l = Ok ys -> Forall2 (fun x y => f x = Ok y) l ys.
Proof.
  induction l as [|x r IH]; cbn [mapResult]; intros ys H.
  - injection H as <-. constructor.
  - destruct (f x) as [y|m] eqn:Hx; [|discriminate]. cbn [bindR] in H.
    destruct (mapResult f r) as [ys'|m]; [|discriminate]. cbn [bindR] in H.
    injection H as <-. constructor; [assumption | now apply IH].
Qed.

Lemma split_cons (c x : ascii) (r : string) :
  Ascii.eqb x c = false ->
  exists h t, split c (String x r) = String x h :: t.
Proof.
  intros H. cbn [split]. rewrite H.
  destruct (split c r) as [|h t]; eauto.
Qed.

Lemma last_truthy (l : list string) :
  l <> [] -> Forall (fun s => truthy s = true) l -> truthy (List.last l EmptyString) = true.
Proof.
  induction l as [|x r IH]; [congruence|]. intros _ H. inversion H as [|? ? Hx Hr]; subst.
  destruct r as [|y r]; [exact Hx|].
  change (List.last (x :: y :: r) EmptyString) with (List.last (y :: r) EmptyString).
  apply IH; [discriminate | assumption].
Qed.

(** An absolute URL has a last piece: the scheme at least. *)
Lemma fileNameOf_absolute (u : string) :
  isAbsoluteUrl u = true -> truthy (fileNameOf u) = true.
Proof.
  destruct u as [|c r]; [discriminate|]. cbn [isAbsoluteUrl]. intros H.
  apply andb_true_iff in H as [Hc _].
  assert (Ascii.eqb c "?" = false) as Hq
    by (destruct (Ascii.eqb_spec c "?"); [subst; discriminate | reflexivity]).
  assert (Ascii.eqb c "/" = false) as Hs
    by (destruct (Ascii.eqb_spec c "/"); [subst; discriminate | reflexivity]).
  unfold fileNameOf.
  destruct (split_cons "?" c r Hq) as (h & t & ->). cbn [List.hd].
  destruct (split_cons "/" c h Hs) as (h' & t' & ->).
  cbn [List.filter truthy isEmpty negb].
  apply last_truthy; [discriminate|].
  constructor; [reflexivity|].
  apply Forall_forall. intros x Hx. now apply filter_In in Hx.
Qed.

Lemma filter_truthy_all (l : list string) :
  Forall (fun s => truthy s = true) l -> List.filter truthy l = l.
Proof.
  induction 1 as [|x r Hx Hr IH]; [reflexivity|]. cbn [List.filter]. now rewrite Hx, IH.
Qed.

Section WithUrl.
(** [new URL(reference, base).toString()] of the platform: the serialised
    URL, or the [TypeError] it throws. *)
Variable URL_href : string -> string -> Result string.

(** The fields [pickStrongValue] and the text of [.related-box] give. *)
Variable extractText : node -> DetailText.

Definition toAbsolute (base0 maybeRelative : string) : Result string :=
  if isHttpUrl maybeRelative then Ok maybeRelative
  else URL_href maybeRelative base0.

Definition parseMatricula (doc : node) : Result (option string) :=
  match matriculaArgument doc with
  | Some g => bindR (toAbsolute base g) (fun u => Ok (Some u))
  | None =>
      match pdfHref doc with
      | Some href =>
          if truthy href then bindR (toAbsolute base href) (fun u => Ok (Some u))
          else Ok None
      | None => Ok None
      end
  end.

(** What [parseDetailPageHtml] does with the document [cheerio.load] built. *)
Definition parseDetailPageDocument (doc : node) : Result ImovelDetailExtract :=
  bindR (parseMatricula doc) (fun matricula =>
  bindR (mapResult (toAbsolute base) (uniq (galeriaSrcs doc))) (fun urls =>
  let filenames := List.filter truthy (map fileNameOf urls) in
  Ok {| matriculaPdfUrl := match matricula with
                           | Some u => if truthy u then Some u else None
                           | None => None
                           end;
        galeriaFotoUrls := nonEmptyList urls;
        galeriaFotoFilenames := nonEmptyList filenames;
        detailText := Some (extractText doc) |})).

Variable load : string -> node.

Definition parseDetailPageHtml (html : string) : Result ImovelDetailExtract :=
  parseDetailPageDocument (load html).

(** What the URL parser promises: the serialisation of a parsed URL has a
    scheme. *)
Hypothesis URL_href_absolute :
  forall reference u, URL_href reference base = Ok u -> isAbsoluteUrl u = true.

Lemma toAbsolute_absolute (reference u : string) :
  toAbsolute base reference = Ok u -> isAbsoluteUrl u = true.
Proof.
  unfold toAbsolute. destruct (isHttpUrl reference) eqn:E.
  - intros [= <-]. now apply isHttpUrl_absolute.
  - apply URL_href_absolute.
Qed.

Lemma parseMatricula_spec (doc : node) (u : string) :
  parseMatricula doc = Ok (Some u) ->
  exists reference,
    toAbsolute base reference = Ok u /\
    (matriculaArgument doc = Some reference \/
     matriculaArgument doc = None /\ pdfHref doc = Some reference).
Proof.
  unfold parseMatricula.
  destruct (matriculaArgument doc) as [g|].
  - destruct (toAbsolute base g) as [v|m] eqn:E; [|discriminate].
    intros [= <-]. exists g. auto.
  - destruct (pdfHref doc) as [href|]; [|discriminate].
    destruct (truthy href); [|discriminate].
    destruct (toAbsolute base href) as [v|m] eqn:E; [|discriminate].
    intros [= <-]. exists href. auto.
Qed.

(** What [parseDetailPageHtml] returns: [matriculaPdfUrl], if present, is
    an absolute URL, made of the argument of [ExibeDoc] or else of the [.pdf]
    link of the document, kept when it starts with [http://] or [https://]
    and resolved against [base] otherwise; [galeriaFotoUrls] holds, in
    order, the absolute forms of the sources of the gallery images of the
    document, trimmed and without repetitions among the sources, each of
    which contained [/fotos/]; and [galeriaFotoFilenames] holds for each
    gallery URL, in order, the last non-empty piece between slashes of its
    text before the first [?]. *)
Lemma parseDetailPageHtml_gallery (html : string) (d : ImovelDetailExtract) :
  parseDetailPageHtml html = Ok d ->
  (forall u, matriculaPdfUrl d = Some u ->
     isAbsoluteUrl u = true /\
     exists reference,
       (matriculaArgument (load html) = Some reference \/
        matriculaArgument (load html) = None /\ pdfHref (load html) = Some reference) /\
       toAbsolute base reference = Ok u /\
       (isHttpUrl reference = true -> u = reference) /\
       (isHttpUrl reference = false -> URL_href reference base = Ok u)) /\
  exists urls,
    mapResult (toAbsolute base) (uniq (galeriaSrcs (load html))) = Ok urls /\
    galeriaFotoUrls d = nonEmptyList urls /\
    galeriaFotoFilenames d = nonEmptyList (map fileNameOf urls) /\
    NoDup (uniq (galeriaSrcs (load html))) /\
    Forall2 (fun src u => toAbsolute base src = Ok u) (uniq (galeriaSrcs (load html))) urls /\
    Forall (fun u => isAbsoluteUrl u = true) urls /\
    Forall (fun src =>
              exists raw img,
                In img (galleryImages (load html)) /\
                In raw (imageSources img) /\
                includes "/fotos/" raw = true /\
                src = trim raw) (uniq (galeriaSrcs (load html))).
Proof.
  unfold parseDetailPageHtml, parseDetailPageDocument.
  set (doc := load html).
  destruct (parseMatricula doc) as [matricula|m] eqn:Hm; [|discriminate].
  cbn [bindR].
  destruct (mapResult (toAbsolute base) (uniq (galeriaSrcs doc))) as [urls|m] eqn:Hu;
    [|discriminate].
  cbn [bindR]. intros [= <-]. cbn [matriculaPdfUrl galeriaFotoUrls galeriaFotoFilenames].
  pose proof (mapResult_spec _ _ _ Hu) as Hall.
  assert (Forall (fun u => isAbsoluteUrl u = true) urls) as Habs.
  { clear - Hall URL_href_absolute. induction Hall as [|x y l l' Hxy _ IH]; constructor.
    - exact (toAbsolute_absolute _ _ Hxy).
    - exact IH. }
  split.
  - intros u Hsome. destruct matricula as [v|]; [|discriminate].
    destruct (truthy v); [|discriminate]. injection Hsome as ->.
    destruct (parseMatricula_spec _ _ Hm) as (reference & Href & Hwhere).
    split; [exact (toAbsolute_absolute _ _ Href)|].
    exists reference. split; [exact Hwhere|]. split; [assumption|].
    unfold toAbsolute in Href. split; intros E; rewrite E in Href; congruence.
  - exists urls.
    destruct (uniq_spec (galeriaSrcs doc)) as [Hnd Hin].
    split; [reflexivity|]. split; [reflexivity|]. split.
    { f_equal. apply filter_truthy_all. apply Forall_map.
      eapply Forall_impl; [|exact Habs]. intros u. apply fileNameOf_absolute. }
    split; [assumption|]. split; [assumption|]. split; [assumption|].
    apply Forall_forall. intros src Hsrc.
    destruct (Hin src Hsrc) as (_ & raw & Hraw & ->).
    destruct (galeriaSrcs_spec doc raw Hraw) as (Hfotos & img & Himg & Himgsrc).
    now exists raw, img.
Qed.

End WithUrl.

(** *** Demonstration documents *)

(** The resolution of a reference that starts with a slash and has nothing
    to normalise or to escape: the origin followed by the path. *)
Definition resolvePath (reference base0 : string) : Result string :=
  if startsWith "/" reference then Ok (base0 ++ reference)%string
  else Throw "Invalid URL".

Definition noText : DetailText :=
  {| textTipoImovel := None; textQuartos := None; textGaragem := None;
     textNumeroImovel := None; textMatriculas := None; textComarca := None;
     textOficio := None; textInscricaoImobiliaria := None;
     textAverbacaoLeiloesNegativos := None; textAreaTotalM2 := None;
     textAreaPrivativaM2 := None; textEndereco := None; textDescricao := None;
     textFormasPagamentoRaw := None; textAceitaRecursosProprios := None;
     textAceitaFGTS := None; textAceitaFinanciamento := None |}.

Definition gallery (imgs : list node) : node :=
  Element "root" [] [Element "div" [("id", "galeria-imagens")] imgs].

Definition image (src : string) : node := Element "img" [("src", src)] [].

(** A detail page with a document link and two pictures, the second one
    twice: once by its [src], once by the [preview.src] of its [onclick]. *)
Definition demoDetailDocument : node :=
  Element "root" []
    [ Element "a" [("onclick", "javascript:ExibeDoc('/editais/matricula/RJ/855.pdf')")]
        [Text "Baixar"];
      Element "div" [("id", "galeria-imagens")]
        [ image "/fotos/F855_21.jpg";
          Element "img" [("src", " /fotos/F855_22.jpg ");
                         ("onclick", "preview.src = '/fotos/F855_22.jpg'")] [] ] ].

Lemma resolvePath_absolute (reference u : string) :
  resolvePath reference base = Ok u -> isAbsoluteUrl u = true.
Proof.
  unfold resolvePath. destruct (startsWith "/" reference); [|discriminate].
  intros [= <-]. reflexivity.
Qed.

(** Instance: the demonstration page yields the absolute document link,
    two gallery URLs and their two file names. *)
Lemma parseDetailPageHtml_demo :
  exists d,
    parseDetailPageHtml resolvePath (fun _ => noText) (fun _ => demoDetailDocument) "" = Ok d /\
    matriculaPdfUrl d = Some "https://venda-imoveis.caixa.gov.br/editais/matricula/RJ/855.pdf" /\
    galeriaFotoUrls d = Some [ "https://venda-imoveis.caixa.gov.br/fotos/F855_21.jpg";
                               "https://venda-imoveis.caixa.gov.br/fotos/F855_22.jpg" ] /\
    galeriaFotoFilenames d = Some ["F855_21.jpg"; "F855_22.jpg"].
Proof.
  eexists. split; [reflexivity|]. split; [reflexivity|]. split; reflexivity.
Qed.

Definition galleryUrls (r : Result ImovelDetailExtract) : option (list string) :=
  match r with Ok d => galeriaFotoUrls d | Throw _ => None end.

Definition galleryFilenames (r : Result ImovelDetailExtract) : option (list string) :=
  match r with Ok d => galeriaFotoFilenames d | Throw _ => None end.

(** A detail page whose gallery gives one picture twice: once by its path,
    once by its full address. *)
Definition twiceDocument : node :=
  gallery [ image "/fotos/a.jpg";
            image "https://venda-imoveis.caixa.gov.br/fotos/a.jpg" ].

(** C5: [galeriaFotoUrls] is not free of repetitions.  [uniq] runs on the
    sources as the page gives them, before [toAbsolute]: the two sources of
    the page above differ and both pass, then both become one URL, which the
    gallery lists twice, with its file name twice. *)
Theorem parseDetailPageDocument_duplicate_urls :
  galeriaSrcs twiceDocument =
    ["/fotos/a.jpg"; "https://venda-imoveis.caixa.gov.br/fotos/a.jpg"] /\
  uniq (galeriaSrcs twiceDocument) = galeriaSrcs twiceDocument /\
  toAbsolute resolvePath base "/fotos/a.jpg" =
    Ok "https://venda-imoveis.caixa.gov.br/fotos/a.jpg" /\
  toAbsolute resolvePath base "https://venda-imoveis.caixa.gov.br/fotos/a.jpg" =
    Ok "https://venda-imoveis.caixa.gov.br/fotos/a.jpg" /\
  galleryUrls (parseDetailPageDocument resolvePath (fun _ => noText) twiceDocument) =
    Some [ "https://venda-imoveis.caixa.gov.br/fotos/a.jpg";
           "https://venda-imoveis.caixa.gov.br/fotos/a.jpg" ] /\
  galleryFilenames (parseDetailPageDocument resolvePath (fun _ => noText) twiceDocument) =
    Some ["a.jpg"; "a.jpg"] /\
  (forall urls,
     galleryUrls (parseDetailPageDocument resolvePath (fun _ => noText) twiceDocument) =
       Some urls -> ~ NoDup urls).
Proof.
  split; [reflexivity|]. split; [reflexivity|]. split; [reflexivity|].
  split; [reflexivity|]. split; [reflexivity|]. split; [reflexivity|].
  intros urls Hurls.
  change (Some [ "https://venda-imoveis.caixa.gov.br/fotos/a.jpg";
                 "https://venda-imoveis.caixa.gov.br/fotos/a.jpg" ] = Some urls) in Hurls.
  injection Hurls as <-. intros H. inversion H as [|x l Hnot _]; subst. apply Hnot. now left.
Qed.

End DetailPage.

(** ** src/caixa/search.ts, listPage.ts, detail.ts *)

Module Caixa.
Import JsString JsNumber Models Dom Http.

Record CaixaSearchPayload : Type := {
  hdn_estado : Uf;
  hdn_cidade : string;
  hdn_bairro : string;
  hdn_tp_venda : string;
  hdn_tp_imovel : string;
  hdn_area_util : string;
  hdn_faixa_vlr : string;
  hdn_quartos : string;
  hdn_vg_garagem : string;
  strValorSimulador : string;
  strAceitaFGTS : string;
  strAceitaFinanciamento : string
}.

(** The payload as the form [postForm] encodes. *)
Definition payloadForm (p : CaixaSearchPayload) : list (string * string) :=
  [ ("hdn_estado", hdn_estado p); ("hdn_cidade", hdn_cidade p);
    ("hdn_bairro", hdn_bairro p); ("hdn_tp_venda", hdn_tp_venda p);
    ("hdn_tp_imovel", hdn_tp_imovel p); ("hdn_area_util", hdn_area_util p);
    ("hdn_faixa_vlr", hdn_faixa_vlr p); ("hdn_quartos", hdn_quartos p);
    ("hdn_vg_garagem", hdn_vg_garagem p); ("strValorSimulador", strValorSimulador p);
    ("strAceitaFGTS", strAceitaFGTS p); ("strAceitaFinanciamento", strAceitaFinanciamento p) ].

(** A call of the client: [client.get(path)] or [client.postForm(path, form)]. *)
Inductive Request : Type :=
| GET (path : string)
| POST (path : string) (form : list (string * string)).

(** What the program has done to the outside: the calls of the client, in
    order, and the files written. *)
Record World : Type := {
  sent : list Request;
  files : list (string * string)
}.

Definition initialWorld : World := {| sent := []; files := [] |}.

(** An asynchronous computation, run to its end: its result and the world
    it leaves. *)
Definition Async (A : Type) : Type := World -> Result A * World.

Definition ret {A : Type} (a : A) : Async A := fun w => (Ok a, w).

Definition throw {A : Type} (message : string) : Async A := fun w => (Throw message, w).

Definition bind {A B : Type} (m : Async A) (k : A -> Async B) : Async B :=
  fun w =>
    match m w with
    | (Ok a, w') => k a w'
    | (Throw e, w') => (Throw e, w')
    end.

Definition lift {A : Type} (r : Result A) : Async A := fun w => (r, w).

(** [try { ... } catch (err) { return handler(err) }] *)
Definition catch {A : Type} (m : Async A) (handler : string -> A) : Async A :=
  fun w =>
    match m w with
    | (Ok a, w') => (Ok a, w')
    | (Throw e, w') => (Ok (handler e), w')
    end.

Notation "x <- m ;; k" := (bind m (fun x => k))
  (at level 61, m at next level, right associativity).

(** [await Promise.all(items.map(f))] with the promises run one after the
    other, in the order of [items]. *)
Fixpoint forEach {A B : Type} (f : A -> Async B) (items : list A) : Async (list B) :=
  match items with
  | [] => ret []
  | x :: rest =>
      y <- f x ;;
      ys <- forEach f rest ;;
      ret (y :: ys)
  end.

Definition statusText (status : Z) : string := NilEmpty.string_of_int (Z.to_int status).

Section WithServer.
(** What a call of the client comes to (the response [request] returns or
    the error it throws), given the calls made before. *)
Variable server : list Request -> Request -> Result HttpResponse.

(** [cheerio.load] *)
Variable load : string -> node.

Definition call (r : Request) : Async HttpResponse :=
  fun w => (server (sent w) r, {| sent := sent w ++ [r]; files := files w |}).

Definition get (path : string) : Async HttpResponse := call (GET path).

Definition postForm (path : string) (form : list (string * string)) : Async HttpResponse :=
  call (POST path form).

Definition searchPagePath : string := "/sistema/busca-imovel.asp?sltTipoBusca=imoveis".
Definition searchPath : string := "/sistema/carregaPesquisaImoveis.asp".
Definition listPath : string := "/sistema/carregaListaImoveis.asp".
Definition detailPath : string := "/sistema/detalhe-imovel.asp".

Definition runSearch (payload : CaixaSearchPayload) : Async CaixaSearchResult :=
  _ <- get searchPagePath ;;
  res <- postForm searchPath (payloadForm payload) ;;
  if negb (status res =? 200)%Z
  then throw ("Search failed: HTTP " ++ statusText (status res))%string
  else lift (SearchResponse.parseSearchResponse load (text res)).

Definition fetchListPageHtml (hdnImov : string) : Async string :=
  res <- postForm listPath [("hdnImov", hdnImov)] ;;
  if negb (status res =? 200)%Z
  then throw ("List page failed: HTTP " ++ statusText (status res))%string
  else ret (text res).

Definition fetchDetailPageHtml (imovelId : string) : Async string :=
  res <- postForm detailPath [("hdnimovel", imovelId)] ;;
  if negb (status res =? 200)%Z
  then throw ("Detail page failed: HTTP " ++ statusText (status res) ++
              " (imovelId=" ++ imovelId ++ ")")%string
  else ret (text res).

(** *** The sequence of calls *)

Lemma call_run (r : Request) (w : World) :
  call r w = (server (sent w) r, {| sent := sent w ++ [r]; files := files w |}).
Proof. reflexivity. Qed.

(** One POST, then the body on status 200 and an error otherwise. *)
Lemma fetch_spec (path : string) (form : list (string * string))
    (failure : HttpResponse -> string) (w : World) :
  let run := (res <- postForm path form ;;
              if negb (status res =? 200)%Z then throw (failure res) else ret (text res)) w in
  sent (snd run) = sent w ++ [POST path form] /\
  files (snd run) = files w /\
  (forall res, server (sent w) (POST path form) = Ok res ->
     (status res = 200%Z -> fst run = Ok (text res)) /\
     (status res <> 200%Z -> fst run = Throw (failure res)) /\
     (isOk (fst run) = true <-> status res = 200%Z)) /\
  (forall m, server (sent w) (POST path form) = Throw m -> fst run = Throw m).
Proof.
  cbv zeta. unfold bind, postForm. rewrite call_run.
  destruct (server (sent w) (POST path form)) as [res|m].
  - destruct (Z.eqb_spec (status res) 200) as [E|E];
      cbn [negb fst snd sent files throw ret];
      (split; [reflexivity|]); (split; [reflexivity|]); (split; [|discriminate]);
      intros r [= <-]; cbn [isOk].
    + split; [reflexivity|]. split; [congruence|]. tauto.
    + split; [congruence|]. split; [reflexivity|]. split; [discriminate | congruence].
  - cbn [fst snd sent files].
    split; [reflexivity|]. split; [reflexivity|]. split; [discriminate|].
    now intros m' [= <-].
Qed.

(** C7 (as amended): [runSearch] issues a GET to the search page and then,
    unless that call threw, one POST of the search form; it throws when a
    call throws and when the status of the POST response is not 200, and on
    status 200 it is [parseSearchResponse] on the body, which may throw
    itself.  [fetchListPageHtml] and [fetchDetailPageHtml] issue one POST
    each; given a response they return its body unchanged when the status is
    200 and throw otherwise; they throw when the call throws. *)
Theorem request_sequence_spec (payload : CaixaSearchPayload) (token imovelId : string)
    (w : World) :
  (sent (snd (runSearch payload w)) =
     sent w ++ GET searchPagePath ::
       (if isOk (server (sent w) (GET searchPagePath))
        then [POST searchPath (payloadForm payload)] else []) /\
   (forall m, server (sent w) (GET searchPagePath) = Throw m ->
      fst (runSearch payload w) = Throw m) /\
   (forall page,
      server (sent w) (GET searchPagePath) = Ok page ->
      (forall m, server (sent w ++ [GET searchPagePath])
                        (POST searchPath (payloadForm payload)) = Throw m ->
         fst (runSearch payload w) = Throw m) /\
      (forall res, server (sent w ++ [GET searchPagePath])
                          (POST searchPath (payloadForm payload)) = Ok res ->
         (status res <> 200%Z -> exists m, fst (runSearch payload w) = Throw m) /\
         (status res = 200%Z ->
          fst (runSearch payload w) = SearchResponse.parseSearchResponse load (text res))))) /\
  (sent (snd (fetchListPageHtml token w)) = sent w ++ [POST listPath [("hdnImov", token)]] /\
   (forall res, server (sent w) (POST listPath [("hdnImov", token)]) = Ok res ->
      (status res = 200%Z -> fst (fetchListPageHtml token w) = Ok (text res)) /\
      (isOk (fst (fetchListPageHtml token w)) = true <-> status res = 200%Z)) /\
   (forall m, server (sent w) (POST listPath [("hdnImov", token)]) = Throw m ->
      fst (fetchListPageHtml token w) = Throw m)) /\
  (sent (snd (fetchDetailPageHtml imovelId w)) =
     sent w ++ [POST detailPath [("hdnimovel", imovelId)]] /\
   (forall res, server (sent w) (POST detailPath [("hdnimovel", imovelId)]) = Ok res ->
      (status res = 200%Z -> fst (fetchDetailPageHtml imovelId w) = Ok (text res)) /\
      (isOk (fst (fetchDetailPageHtml imovelId w)) = true <-> status res = 200%Z)) /\
   (forall m, server (sent w) (POST detailPath [("hdnimovel", imovelId)]) = Throw m ->
      fst (fetchDetailPageHtml imovelId w) = Throw m)).
Proof.
  split; [|split].
  - unfold runSearch, bind, get, postForm. rewrite call_run.
    destruct (server (sent w) (GET searchPagePath)) as [page|m0] eqn:Hget.
    + rewrite call_run. cbn [sent files isOk].
      destruct (server (sent w ++ [GET searchPagePath])
                       (POST searchPath (payloadForm payload))) as [res|m1] eqn:Hpost.
      * destruct (Z.eqb_spec (status res) 200) as [E|E]; cbn [negb].
        -- unfold lift. cbn [fst snd sent].
           split; [now rewrite <- app_assoc|]. split; [discriminate|].
           intros page' _. split; [discriminate|].
           intros res' [= <-]. split; [congruence | reflexivity].
        -- unfold throw. cbn [fst snd sent].
           split; [now rewrite <- app_assoc|]. split; [discriminate|].
           intros page' _. split; [discriminate|].
           intros res' [= <-]. split; [intros _; eexists; reflexivity | congruence].
      * cbn. split; [now rewrite <- app_assoc|]. split; [discriminate|].
        intros page' _. split; [now intros m [= <-] | discriminate].
    + cbn. split; [reflexivity|]. split; [now intros m [= <-] | discriminate].
  - destruct (fetch_spec listPath [("hdnImov", token)]
                (fun res => ("List page failed: HTTP " ++ statusText (status res))%string) w)
      as (H1 & _ & H2 & H3).
    split; [exact H1|]. split; [|exact H3].
    intros res Hres. destruct (H2 res Hres) as (Ha & _ & Hc). split; assumption.
  - destruct (fetch_spec detailPath [("hdnimovel", imovelId)]
                (fun res => ("Detail page failed: HTTP " ++ statusText (status res) ++
                             " (imovelId=" ++ imovelId ++ ")")%string) w)
      as (H1 & _ & H2 & H3).
    split; [exact H1|]. split; [|exact H3].
    intros res Hres. destruct (H2 res Hres) as (Ha & _ & Hc). split; assumption.
Qed.

End WithServer.

Definition demoPayload : CaixaSearchPayload :=
  {| hdn_estado := "RJ"; hdn_cidade := "7084"; hdn_bairro := "";
     hdn_tp_venda := "Selecione"; hdn_tp_imovel := "Selecione";
     hdn_area_util := "Selecione"; hdn_faixa_vlr := "Selecione";
     hdn_quartos := "Selecione"; hdn_vg_garagem := "Selecione";
     strValorSimulador := ""; strAceitaFGTS := ""; strAceitaFinanciamento := "" |}.

(** C7, counterexample: with every call answered by status 200 and an empty
    body, which parses to a document without inputs, [runSearch] throws; and
    with the network down it throws on the GET, before any POST. *)
Lemma runSearch_throws_on_200 :
  fst (runSearch (fun _ _ => Ok {| status := 200; text := "" |})
                 (fun _ => Element "root" [] []) demoPayload initialWorld) =
    Throw "Search response did not include any hdnImov{N} inputs." /\
  runSearch (fun _ _ => Throw "fetch failed")
            (fun _ => Element "root" [] []) demoPayload initialWorld =
    (Throw "fetch failed", {| sent := [GET searchPagePath]; files := [] |}).
Proof. split; reflexivity. Qed.

End Caixa.

(** ** src/fs-api/writeCsv.ts and src/scrape.ts *)

Module Scrape.
Import JsString JsNumber Models Dom Http Caixa.

(** *** Array.prototype.sort

    The sort of the language is stable; with a comparator that is a total
    preorder its result does not depend on the algorithm.  Insertion from the
    right is one such sort. *)
Section StableSort.
Variable A : Type.
Variable cmp : A -> A -> comparison.

Fixpoint insert (x : A) (l : list A) : list A :=
  match l with
  | [] => [x]
  | y :: r =>
      match cmp x y with
      | Gt => y :: insert x r
      | _ => x :: l
      end
  end.

Fixpoint sort (l : list A) : list A :=
  match l with
  | [] => []
  | x :: r => insert x (sort r)
  end.

(** [a] goes before [b], or they tie. *)
Definition le (a b : A) : Prop := cmp a b <> Gt.

(** [a] ties with [k]. *)
Definition ties (k a : A) : bool :=
  match cmp k a with Eq => true | _ => false end.

End StableSort.

Arguments insert {A} cmp x l.
Arguments sort {A} cmp l.
Arguments le {A} cmp a b.
Arguments ties {A} cmp k a.

(** [(a, b) => { const pa = a.page - b.page; if (pa !== 0) return pa;
    return a.imovelId.localeCompare(b.imovelId); }] *)
Definition compareItems (localeCompare : string -> string -> comparison)
    (a b : ImovelListItem) : comparison :=
  match Z.compare (page a) (page b) with
  | Eq => localeCompare (imovelId a) (imovelId b)
  | c => c
  end.

(** *** csv-stringify, with the options of [writeImoveisCsv] *)

Definition COLUMNS : list string :=
  [ "imovelId"; "uf"; "cidadeId"; "titulo"; "modalidade"; "tipoImovel";
    "areaUtilM2"; "quartos"; "vagas"; "valorAvaliacao"; "valorMinimo";
    "descontoPercent"; "enderecoRaw"; "observacoesRaw"; "page" ].

Definition quoteChar : ascii := ascii_of_nat 34.
Definition newlineChar : ascii := ascii_of_nat 10.
Definition newline : string := String newlineChar EmptyString.

(** A field is quoted when it holds the quote, the delimiter or the record
    delimiter; the [quoted_match] of the source (a line feed, a comma or a
    quote) asks for the same fields. *)
Definition needsQuote (s : string) : bool :=
  JsString.existsb
    (fun c => Ascii.eqb c quoteChar || Ascii.eqb c "," || Ascii.eqb c newlineChar) s.

(** Each quote is doubled. *)
Fixpoint escapeQuotes (s : string) : string :=
  match s with
  | EmptyString => EmptyString
  | String c r =>
      if Ascii.eqb c quoteChar then String quoteChar (String quoteChar (escapeQuotes r))
      else String c (escapeQuotes r)
  end.

Definition renderField (s : string) : string :=
  if needsQuote s
  then (String quoteChar (escapeQuotes s) ++ String quoteChar EmptyString)%string
  else s.

Definition renderRecord (fields : list string) : string :=
  (join "," (map renderField fields) ++ newline)%string.

Definition showZ (z : Z) : string := NilEmpty.string_of_int (Z.to_int z).

Definition orEmpty (v : option string) : string :=
  match v with Some s => s | None => EmptyString end.

Section Csv.
(** [String(n)] for a Number. *)
Variable numberToString : Num -> string.

Definition numberCell (v : option Num) : string :=
  match v with Some n => numberToString n | None => EmptyString end.

(** The fields of a record, column by column: an absent property gives the
    empty field. *)
Definition cells (i : ImovelListItem) : list string :=
  [ imovelId i; uf i; cidadeId i; titulo i;
    orEmpty (modalidade i); orEmpty (tipoImovel i);
    numberCell (areaUtilM2 i); numberCell (quartos i); numberCell (vagas i);
    numberCell (valorAvaliacao i); numberCell (valorMinimo i);
    numberCell (descontoPercent i);
    orEmpty (enderecoRaw i); orEmpty (observacoesRaw i);
    showZ (page i) ].

(** [stringify(items, { header: true, columns: COLUMNS, quoted_match })] *)
Definition stringify (items : list ImovelListItem) : string :=
  (renderRecord COLUMNS ++ String.concat "" (map (fun i => renderRecord (cells i)) items))%string.

End Csv.

(** The records of a CSV text: the line ends outside quotes. *)
Fixpoint countRecords (inQuotes : bool) (s : string) : nat :=
  match s with
  | EmptyString => 0
  | String c r =>
      if Ascii.eqb c quoteChar then countRecords (negb inQuotes) r
      else if Ascii.eqb c newlineChar && negb inQuotes then S (countRecords false r)
      else countRecords inQuotes r
  end.

(** *** Facts on the stable sort *)

Section StableSortFacts.
Variable A : Type.
Variable cmp : A -> A -> comparison.

(** The comparator is a total preorder. *)
Hypothesis cmp_antisym : forall a b, cmp b a = CompOpp (cmp a b).
Hypothesis cmp_trans : forall a b c, le cmp a b -> le cmp b c -> le cmp a c.

Lemma cmp_refl (a : A) : cmp a a = Eq.
Proof. pose proof (cmp_antisym a a) as H. destruct (cmp a a); [reflexivity | discriminate..]. Qed.

Lemma le_total (a b : A) : cmp a b = Gt -> le cmp b a.
Proof. unfold le. intros H. rewrite (cmp_antisym a b), H. discriminate. Qed.

Lemma le_le_eq (a b : A) : le cmp a b -> le cmp b a -> cmp a b = Eq.
Proof.
  unfold le. rewrite (cmp_antisym a b). destruct (cmp a b); cbn; congruence.
Qed.

Lemma eq_le (a b : A) : cmp a b = Eq -> le cmp a b /\ le cmp b a.
Proof.
  unfold le. intros H. rewrite (cmp_antisym a b), H. split; discriminate.
Qed.

Lemma ties_trans (k a b : A) : ties cmp k a = true -> ties cmp k b = true -> cmp a b = Eq.
Proof.
  unfold ties. destruct (cmp k a) eqn:Ha; try discriminate.
  destruct (cmp k b) eqn:Hb; try discriminate. intros _ _.
  destruct (eq_le _ _ Ha) as [Hka Hak]. destruct (eq_le _ _ Hb) as [Hkb Hbk].
  apply le_le_eq; eapply cmp_trans; eassumption.
Qed.

Lemma insert_perm (x : A) (l : list A) : Permutation (insert cmp x l) (x :: l).
Proof.
  induction l as [|y r IH]; cbn [insert]; [reflexivity|].
  destruct (cmp x y); try reflexivity.
  rewrite IH. apply perm_swap.
Qed.

Lemma sort_perm (l : list A) : Permutation (sort cmp l) l.
Proof.
  induction l as [|x r IH]; cbn [sort]; [reflexivity|].
  rewrite insert_perm. now constructor.
Qed.

Lemma insert_sorted (x : A) (l : list A) :
  StronglySorted (le cmp) l -> StronglySorted (le cmp) (insert cmp x l).
Proof.
  induction 1 as [|y r Hr IH Hy]; cbn [insert].
  - repeat constructor.
  - destruct (cmp x y) eqn:E.
    + constructor; [now constructor|]. constructor.
      * unfold le. congruence.
      * eapply Forall_impl; [|exact Hy]. intros z Hz.
        eapply cmp_trans; [|exact Hz]. unfold le. congruence.
    + constructor; [now constructor|]. constructor.
      * unfold le. congruence.
      * eapply Forall_impl; [|exact Hy]. intros z Hz.
        eapply cmp_trans; [|exact Hz]. unfold le. congruence.
    + constructor; [exact IH|].
      apply (Permutation_Forall (Permutation_sym (insert_perm x r))).
      constructor; [now apply le_total | exact Hy].
Qed.

Lemma sort_sorted (l : list A) : StronglySorted (le cmp) (sort cmp l).
Proof.
  induction l as [|x r IH]; cbn [sort]; [constructor | now apply insert_sorted].
Qed.

(** Stability: the elements that tie keep their order. *)
Lemma insert_ties (k x : A) (l : list A) :
  List.filter (ties cmp k) (insert cmp x l) = List.filter (ties cmp k) (x :: l).
Proof.
  induction l as [|y r IH]; cbn [insert]; [reflexivity|].
  destruct (cmp x y) eqn:E; try reflexivity.
  cbn [List.filter] in *. rewrite IH.
  destruct (ties cmp k x) eqn:Hx, (ties cmp k y) eqn:Hy; try reflexivity.
  pose proof (ties_trans _ _ _ Hx Hy). congruence.
Qed.

Lemma sort_ties (k : A) (l : list A) :
  List.filter (ties cmp k) (sort cmp l) = List.filter (ties cmp k) l.
Proof.
  induction l as [|x r IH]; cbn [sort]; [reflexivity|].
  rewrite insert_ties. cbn [List.filter]. now rewrite IH.
Qed.

(** A sorted list is determined by its elements and by the order of those
    that tie. *)
Lemma sorted_unique (s1 : list A) :
  forall s2,
    StronglySorted (le cmp) s1 -> StronglySorted (le cmp) s2 ->
    Permutation s1 s2 ->
    (forall k, List.filter (ties cmp k) s1 = List.filter (ties cmp k) s2) ->
    s1 = s2.
Proof.
  induction s1 as [|x s1 IH]; intros s2 H1 H2 Hperm Hties.
  - now apply Permutation_nil in Hperm.
  - destruct s2 as [|y s2]; [apply Permutation_sym, Permutation_nil in Hperm; discriminate|].
    inversion H1 as [|? ? Hs1 Hx]; subst. inversion H2 as [|? ? Hs2 Hy]; subst.
    assert (le cmp x y) as Hxy.
    { assert (In y (x :: s1)) as [->|Hin]
        by (apply (Permutation_in _ (Permutation_sym Hperm)); now left).
      - unfold le. rewrite cmp_refl. discriminate.
      - exact (proj1 (Forall_forall _ _) Hx y Hin). }
    assert (le cmp y x) as Hyx.
    { assert (In x (y :: s2)) as [->|Hin]
        by (apply (Permutation_in _ Hperm); now left).
      - unfold le. rewrite cmp_refl. discriminate.
      - exact (proj1 (Forall_forall _ _) Hy x Hin). }
    pose proof (le_le_eq _ _ Hxy Hyx) as Heq.
    assert (x = y) as ->.
    { pose proof (Hties x) as Hk. cbn [List.filter] in Hk.
      assert (ties cmp x x = true) as Hxx by (unfold ties; now rewrite cmp_refl).
      assert (ties cmp x y = true) as Hxy' by (unfold ties; now rewrite Heq).
      rewrite Hxx, Hxy' in Hk. congruence. }
    f_equal. apply IH; try assumption.
    + exact (Permutation_cons_inv Hperm).
    + intros k. pose proof (Hties k) as Hk. cbn [List.filter] in Hk.
      destruct (ties cmp k y); congruence.
Qed.

Lemma sort_unique (l l' : list A) :
  Permutation l l' ->
  (forall k, List.filter (ties cmp k) l = List.filter (ties cmp k) l') ->
  sort cmp l = sort cmp l'.
Proof.
  intros Hperm Hties. apply sorted_unique; try apply sort_sorted.
  - now rewrite !sort_perm.
  - intros k. now rewrite !sort_ties.
Qed.

Lemma filter_perm (p : A -> bool) (l l' : list A) :
  Permutation l l' -> Permutation (List.filter p l) (List.filter p l').
Proof.
  induction 1 as [|x l l' _ IH|x y l|l l' l'' _ IH1 _ IH2]; cbn [List.filter].
  - constructor.
  - destruct (p x); [now constructor | assumption].
  - destruct (p x), (p y); try reflexivity. apply perm_swap.
  - now transitivity (List.filter p l').
Qed.

Lemma perm_all_equal (l1 : list A) :
  forall l2, Permutation l1 l2 ->
    (forall a b, In a l1 -> In b l1 -> a = b) -> l1 = l2.
Proof.
  induction l1 as [|a l1 IH]; intros l2 Hperm Hall.
  - now apply Permutation_nil in Hperm.
  - destruct l2 as [|b l2]; [apply Permutation_sym, Permutation_nil in Hperm; discriminate|].
    assert (b = a) as ->.
    { apply Hall; [|now left].
      apply (Permutation_in _ (Permutation_sym Hperm)). now left. }
    f_equal. apply IH; [exact (Permutation_cons_inv Hperm)|].
    intros x y Hx Hy. apply Hall; now right.
Qed.

(** When no two different elements tie, the result is a function of the
    multiset of the elements. *)
Lemma sort_multiset (l l' : list A) :
  Permutation l l' ->
  (forall a b, In a l -> In b l -> cmp a b = Eq -> a = b) ->
  sort cmp l = sort cmp l'.
Proof.
  intros Hperm Hdistinct. apply sort_unique; [assumption|].
  intros k. apply perm_all_equal; [now apply filter_perm|].
  intros a b Ha Hb. apply filter_In in Ha as [Ha Hka], Hb as [Hb Hkb].
  apply Hdistinct; try assumption. exact (ties_trans _ _ _ Hka Hkb).
Qed.

End StableSortFacts.

(** *** scrapeCaixa *)

Record ScrapeOptions : Type := {
  optUf : string;
  optCidade : string;
  optBairro : string;
  optTpVenda : string;
  optTpImovel : string;
  optAreaUtil : string;
  optFaixaVlr : string;
  optQuartos : string;
  optVagas : string;
  optOut : string;
  optConcurrency : Z;
  optMinDelayMs : Z;
  optTimeoutMs : Z;
  optRetries : Z;
  optMaxPages : option Z;
  optWithDetails : bool;
  optDetailsConcurrency : Z
}.

Record ScrapeResult : Type := {
  outPath : string;
  rows : Z
}.

(** An item as it is handed to [writeImoveisCsv]: the list item and, with
    [withDetails], the properties spread over it from the detail page (their
    names differ from those of the list item). *)
Record FinalItem : Type := {
  listItem : ImovelListItem;
  detailOf : option DetailPage.ImovelDetailExtract
}.

(** What a call of [writeFile] of the platform comes to.  The file is
    opened with the flag [w], which truncates it, and the text is written
    next: on success the file holds the text; an error leaves the file as
    it was when it could not be opened, and with what had been written,
    nothing perhaps, when the failure came later. *)
Inductive WriteOutcome : Type :=
| Written
| NotOpened (message : string)
| Interrupted (message : string) (partial : string).

(** What the program runs on. *)
Record Environment : Type := {
  server : list Request -> Request -> Result HttpResponse;
  load : string -> node;
  extractFields : node -> ListPage.CardFields;
  extractText : node -> DetailPage.DetailText;
  URL_href : string -> string -> Result string;
  localeCompare : string -> string -> comparison;
  numberToString : Num -> string;
  (** what [writeFile] comes to on a path and a text *)
  writeOutcome : string -> string -> WriteOutcome
}.

Definition searchPayload (opts : ScrapeOptions) : CaixaSearchPayload :=
  {| hdn_estado := optUf opts;
     hdn_cidade := optCidade opts;
     hdn_bairro := optBairro opts;
     hdn_tp_venda := optTpVenda opts;
     hdn_tp_imovel := optTpImovel opts;
     hdn_area_util := optAreaUtil opts;
     hdn_faixa_vlr := optFaixaVlr opts;
     hdn_quartos := optQuartos opts;
     hdn_vg_garagem := optVagas opts;
     strValorSimulador := "";
     strAceitaFGTS := "";
     strAceitaFinanciamento := "" |}.

(** [opts.maxPages ? Math.min(opts.maxPages, n) : n] *)
Definition totalPages (opts : ScrapeOptions) (search : CaixaSearchResult) : Z :=
  let n := Z.of_nat (List.length (hdnImovByPage search)) in
  match optMaxPages opts with
  | Some m => if (m =? 0)%Z then n else Z.min m n
  | None => n
  end.

(** The tasks of the loop over [idx]: the page number and its token; an
    index without a token is skipped. *)
Definition pageTasks (opts : ScrapeOptions) (search : CaixaSearchResult) : list (Z * string) :=
  flat_map (fun idx =>
              match nth_error (hdnImovByPage search) idx with
              | Some token => if truthy token then [((Z.of_nat idx + 1)%Z, token)] else []
              | None => []
              end)
           (seq 0 (Z.to_nat (totalPages opts search))).

Definition lookupCache (key : string) (cache : list (string * DetailPage.ImovelDetailExtract))
    : option DetailPage.ImovelDetailExtract :=
  match List.find (fun entry => String.eqb (fst entry) key) cache with
  | Some entry => Some (snd entry)
  | None => None
  end.

Section WithEnvironment.
Variable env : Environment.

(** [writeFile(outPath, csv, "utf-8")] *)
Definition writeFile (path content : string) : Async unit :=
  fun w =>
    match writeOutcome env path content with
    | Written => (Ok tt, {| sent := sent w; files := (path, content) :: files w |})
    | NotOpened message => (Throw message, w)
    | Interrupted message partial =>
        (Throw message, {| sent := sent w; files := (path, partial) :: files w |})
    end.

Definition writeImoveisCsv (path : string) (items : list ImovelListItem) : Async unit :=
  writeFile path (stringify (numberToString env) items).

(** One task of the pool: fetch a page and parse it. *)
Definition pageTask (opts : ScrapeOptions) (task : Z * string) : Async (list ImovelListItem) :=
  html <- fetchListPageHtml (server env) (snd task) ;;
  ret (ListPage.parseListPageHtml (extractFields env) (load env) html
         (optUf opts) (optCidade opts) (fst task)).

(** [getDetail]: the detail of an item, fetched once per [imovelId]; a
    failure of the fetch or of the parse gives the empty object. *)
Definition fetchDetail (imovelId0 : string) : Async DetailPage.ImovelDetailExtract :=
  catch (html <- fetchDetailPageHtml (server env) imovelId0 ;;
         lift (DetailPage.parseDetailPageHtml (URL_href env) (extractText env) (load env) html))
        (fun _ => DetailPage.emptyDetail).

Fixpoint attachDetails (cache : list (string * DetailPage.ImovelDetailExtract))
    (items : list ImovelListItem) : Async (list FinalItem) :=
  match items with
  | [] => ret []
  | item :: rest =>
      match lookupCache (imovelId item) cache with
      | Some d =>
          finals <- attachDetails cache rest ;;
          ret ({| listItem := item; detailOf := Some d |} :: finals)
      | None =>
          d <- fetchDetail (imovelId item) ;;
          finals <- attachDetails ((imovelId item, d) :: cache) rest ;;
          ret ({| listItem := item; detailOf := Some d |} :: finals)
      end
  end.

Definition sortResults (results : list ImovelListItem) : list ImovelListItem :=
  sort (compareItems (localeCompare env)) results.

(** The tasks of the two pools are run in submission order. *)
Definition scrapeCaixa (opts : ScrapeOptions) : Async ScrapeResult :=
  search <- runSearch (server env) (load env) (searchPayload opts) ;;
  pages <- forEach (pageTask opts) (pageTasks opts search) ;;
  let results := sortResults (List.concat pages) in
  finalItems <- (if optWithDetails opts
                 then attachDetails [] results
                 else ret (map (fun i => {| listItem := i; detailOf := None |}) results)) ;;
  _ <- writeImoveisCsv (optOut opts) (map listItem finalItems) ;;
  ret {| outPath := optOut opts; rows := Z.of_nat (List.length finalItems) |}.

End WithEnvironment.

(** *** Facts on the comparator of the items *)

Section CompareItems.
Variable lc : string -> string -> comparison.

(** The collation is a total preorder. *)
Hypothesis lc_antisym : forall a b, lc b a = CompOpp (lc a b).
Hypothesis lc_trans : forall a b c, lc a b <> Gt -> lc b c <> Gt -> lc a c <> Gt.

Lemma compareItems_antisym (a b : ImovelListItem) :
  compareItems lc b a = CompOpp (compareItems lc a b).
Proof.
  unfold compareItems. rewrite (Z.compare_antisym (page a) (page b)).
  destruct (page a ?= page b)%Z; cbn [CompOpp]; [apply lc_antisym | reflexivity..].
Qed.

Lemma compareItems_le (a b : ImovelListItem) :
  le (compareItems lc) a b <->
  (page a < page b)%Z \/ (page a = page b /\ lc (imovelId a) (imovelId b) <> Gt).
Proof.
  unfold le, compareItems.
  destruct (Z.compare_spec (page a) (page b)) as [E|E|E].
  - split; [intros H; right; now split | now intros [H|[_ H]]; [lia|]].
  - split; [now left | discriminate].
  - split; [congruence | intros [H|[H _]]; lia].
Qed.

Lemma compareItems_trans (a b c : ImovelListItem) :
  le (compareItems lc) a b -> le (compareItems lc) b c -> le (compareItems lc) a c.
Proof.
  rewrite !compareItems_le.
  intros [H1|[H1 L1]] [H2|[H2 L2]]; try (left; lia).
  right. split; [lia|]. eapply lc_trans; eassumption.
Qed.

Lemma compareItems_eq_page (a b : ImovelListItem) :
  compareItems lc a b = Eq -> page a = page b.
Proof.
  unfold compareItems. destruct (Z.compare_spec (page a) (page b)); congruence.
Qed.

Lemma compareItems_eq (a b : ImovelListItem) :
  compareItems lc a b = Eq <-> page a = page b /\ lc (imovelId a) (imovelId b) = Eq.
Proof.
  unfold compareItems. destruct (Z.compare_spec (page a) (page b)) as [E|E|E].
  - tauto.
  - split; [discriminate | intros [H _]; lia].
  - split; [discriminate | intros [H _]; lia].
Qed.

(** Page results: the page number of a task and the items parsed for it. *)
Definition Block : Type := (Z * list ImovelListItem)%type.

Definition ofPage (b : Block) : Prop := Forall (fun i => page i = fst b) (snd b).

Definition itemsOf (blocks : list Block) : list ImovelListItem :=
  List.concat (map snd blocks).

Lemma filter_concat {X : Type} (p : X -> bool) (ls : list (list X)) :
  List.filter p (List.concat ls) = List.concat (map (List.filter p) ls).
Proof.
  induction ls as [|l ls IH]; [reflexivity|]. cbn [List.concat map].
  now rewrite List.filter_app, IH.
Qed.

Lemma ties_blocks (k : ImovelListItem) (x y : Block) :
  ofPage x -> ofPage y -> fst x <> fst y ->
  List.filter (ties (compareItems lc) k) (snd x) = [] \/
  List.filter (ties (compareItems lc) k) (snd y) = [].
Proof.
  intros Hx Hy Hne.
  destruct (List.filter (ties (compareItems lc) k) (snd x)) as [|a fa] eqn:Ea; [now left|].
  destruct (List.filter (ties (compareItems lc) k) (snd y)) as [|b fb] eqn:Eb; [now right|].
  exfalso. apply Hne.
  assert (In a (List.filter (ties (compareItems lc) k) (snd x))) as Ha by (rewrite Ea; now left).
  assert (In b (List.filter (ties (compareItems lc) k) (snd y))) as Hb by (rewrite Eb; now left).
  apply filter_In in Ha as [Ha Hka], Hb as [Hb Hkb].
  pose proof (ties_trans _ _ compareItems_antisym compareItems_trans _ _ _ Hka Hkb) as Hab.
  apply compareItems_eq_page in Hab.
  rewrite <- (proj1 (Forall_forall _ _) Hx a Ha), <- (proj1 (Forall_forall _ _) Hy b Hb).
  exact Hab.
Qed.

(** The items that tie stand in one block: permuting the blocks leaves their
    order alone. *)
Lemma ties_itemsOf (k : ImovelListItem) (bs bs' : list Block) :
  Permutation bs bs' ->
  NoDup (map fst bs) -> Forall ofPage bs ->
  List.filter (ties (compareItems lc) k) (itemsOf bs) =
  List.filter (ties (compareItems lc) k) (itemsOf bs').
Proof.
  unfold itemsOf.
  induction 1 as [|x l l' Hperm IH|x y l|l l' l'' H1 IH1 H2 IH2]; intros Hnd Hof.
  - reflexivity.
  - cbn [map List.concat]. rewrite !List.filter_app. f_equal.
    inversion Hnd; inversion Hof; subst. now apply IH.
  - cbn [map List.concat]. rewrite !List.filter_app, !app_assoc. f_equal.
    inversion Hof as [|? ? Hy Hof']; subst. inversion Hof' as [|? ? Hx _]; subst.
    assert (fst x <> fst y) as Hne.
    { inversion Hnd as [|? ? Hnotin _]; subst. intros E. apply Hnotin. left. exact E. }
    destruct (ties_blocks k x y Hx Hy Hne) as [E|E]; rewrite E; cbn [app];
      now rewrite app_nil_r.
  - rewrite IH1 by assumption. apply IH2.
    + exact (Permutation_NoDup (Permutation_map fst H1) Hnd).
    + exact (Permutation_Forall H1 Hof).
Qed.

Lemma itemsOf_perm (bs bs' : list Block) :
  Permutation bs bs' -> Permutation (itemsOf bs) (itemsOf bs').
Proof.
  unfold itemsOf.
  induction 1 as [|x l l' _ IH|x y l|l l' l'' _ IH1 _ IH2]; cbn [map List.concat].
  - constructor.
  - now apply Permutation_app_head.
  - rewrite !app_assoc. apply Permutation_app_tail, Permutation_app_comm.
  - now transitivity (List.concat (map snd l')).
Qed.

(** The sorted result does not depend on the order of the page results. *)
Lemma sort_blocks (bs bs' : list Block) :
  Permutation bs bs' ->
  NoDup (map fst bs) -> Forall ofPage bs ->
  sort (compareItems lc) (itemsOf bs) = sort (compareItems lc) (itemsOf bs').
Proof.
  intros Hperm Hnd Hof.
  apply (sort_unique _ _ compareItems_antisym compareItems_trans).
  - now apply itemsOf_perm.
  - intros k. now apply ties_itemsOf.
Qed.

End CompareItems.

(** *** Facts on the CSV text *)

Lemma countRecords_plain (s rest : string) :
  needsQuote s = false ->
  countRecords false (s ++ rest) = countRecords false rest.
Proof.
  unfold needsQuote. induction s as [|c r IH]; [reflexivity|].
  cbn [JsString.existsb append countRecords]. intros H.
  apply orb_false_iff in H as [Hc Hr].
  apply orb_false_iff in Hc as [Hc Hn]. apply orb_false_iff in Hc as [Hq _].
  rewrite Hq, Hn. cbn [andb]. now apply IH.
Qed.

Lemma countRecords_escaped (s rest : string) :
  countRecords true (escapeQuotes s ++ String quoteChar rest) = countRecords false rest.
Proof.
  induction s as [|c r IH]; cbn [escapeQuotes append countRecords].
  - now rewrite Ascii.eqb_refl.
  - destruct (Ascii.eqb c quoteChar) eqn:Hc; cbn [append countRecords].
    + rewrite !Ascii.eqb_refl. cbn [negb]. exact IH.
    + rewrite Hc. cbn [negb]. rewrite andb_false_r. exact IH.
Qed.

Lemma countRecords_field (s rest : string) :
  countRecords false (renderField s ++ rest) = countRecords false rest.
Proof.
  unfold renderField. destruct (needsQuote s) eqn:H.
  - cbn [append countRecords]. rewrite Ascii.eqb_refl. cbn [negb].
    rewrite append_assoc. cbn [append]. apply countRecords_escaped.
  - now apply countRecords_plain.
Qed.

Lemma countRecords_fields (fields : list string) (rest : string) :
  countRecords false (join "," (map renderField fields) ++ rest) = countRecords false rest.
Proof.
  induction fields as [|f fs IH]; [reflexivity|].
  cbn [map join]. destruct (map renderField fs) as [|g gs] eqn:E.
  - apply countRecords_field.
  - rewrite !append_assoc, countRecords_field. cbn [append countRecords].
    replace (Ascii.eqb "," quoteChar) with false by reflexivity.
    replace (Ascii.eqb "," newlineChar) with false by reflexivity.
    cbn [andb]. exact IH.
Qed.

Lemma countRecords_record (fields : list string) (rest : string) :
  countRecords false (renderRecord fields ++ rest) = S (countRecords false rest).
Proof.
  unfold renderRecord, newline. rewrite append_assoc, countRecords_fields.
  cbn [append countRecords].
  replace (Ascii.eqb newlineChar quoteChar) with false by reflexivity.
  now rewrite Ascii.eqb_refl.
Qed.

Lemma countRecords_records (records : list (list string)) :
  countRecords false (String.concat "" (map renderRecord records)) = List.length records.
Proof.
  induction records as [|r rs IH]; [reflexivity|].
  cbn [map List.length]. rewrite concat_cons, countRecords_record. now rewrite IH.
Qed.

Lemma countRecords_stringify (numberToString : Num -> string) (items : list ImovelListItem) :
  countRecords false (stringify numberToString items) = S (List.length items).
Proof.
  unfold stringify. rewrite countRecords_record.
  rewrite <- (map_map (cells numberToString) renderRecord), countRecords_records.
  now rewrite length_map.
Qed.

(** *** Facts on the run of [scrapeCaixa] *)

Section RunFacts.
Variable env : Environment.

Lemma attachDetails_items (items : list ImovelListItem) :
  forall cache w,
    exists finals w',
      attachDetails env cache items w = (Ok finals, w') /\ map listItem finals = items.
Proof.
  induction items as [|item rest IH]; intros cache w; cbn [attachDetails].
  - now exists [], w.
  - destruct (lookupCache (imovelId item) cache) as [d|].
    + destruct (IH cache w) as (finals & w' & Hrun & Hmap).
      unfold bind. rewrite Hrun. eexists _, w'. split; [reflexivity|].
      cbn [map listItem]. now rewrite Hmap.
    + unfold bind at 1. unfold fetchDetail, catch.
      destruct ((html <- fetchDetailPageHtml (server env) (imovelId item) ;;
                 lift (DetailPage.parseDetailPageHtml (URL_href env) (extractText env)
                         (load env) html)) w) as [[d|m] w1].
      * destruct (IH ((imovelId item, d) :: cache) w1) as (finals & w' & Hrun & Hmap).
        unfold bind. rewrite Hrun. eexists _, w'. split; [reflexivity|].
        cbn [map listItem]. now rewrite Hmap.
      * destruct (IH ((imovelId item, DetailPage.emptyDetail) :: cache) w1)
          as (finals & w' & Hrun & Hmap).
        unfold bind. rewrite Hrun. eexists _, w'. split; [reflexivity|].
        cbn [map listItem]. now rewrite Hmap.
Qed.

Lemma sortResults_length (l : list ImovelListItem) :
  List.length (sortResults env l) = List.length l.
Proof. apply Permutation_length, sort_perm. Qed.

(** A run that returns went through the search and the pages, and wrote the
    sorted items. *)
Lemma scrapeCaixa_run (opts : ScrapeOptions) (w w' : World) (r : ScrapeResult) :
  scrapeCaixa env opts w = (Ok r, w') ->
  exists search w1 pages w2,
    runSearch (server env) (load env) (searchPayload opts) w = (Ok search, w1) /\
    forEach (pageTask env opts) (pageTasks opts search) w1 = (Ok pages, w2) /\
    List.hd_error (files w') =
      Some (optOut opts, stringify (numberToString env) (sortResults env (List.concat pages))) /\
    rows r = Z.of_nat (List.length (List.concat pages)) /\
    outPath r = optOut opts.
Proof.
  unfold scrapeCaixa. unfold bind at 1.
  destruct (runSearch (server env) (load env) (searchPayload opts) w) as [[search|m] w1]
    eqn:Hsearch; [|discriminate].
  unfold bind at 1.
  destruct (forEach (pageTask env opts) (pageTasks opts search) w1) as [[pages|m] w2]
    eqn:Hpages; [|discriminate].
  set (results := sortResults env (List.concat pages)).
  assert (exists finals w3,
    (if optWithDetails opts
     then attachDetails env [] results
     else ret (map (fun i => {| listItem := i; detailOf := None |}) results)) w2
    = (Ok finals, w3) /\ map listItem finals = results) as (finals & w3 & Hfin & Hmap).
  { destruct (optWithDetails opts); [apply attachDetails_items|].
    eexists _, w2. split; [reflexivity|]. rewrite map_map. cbn [listItem]. apply map_id. }
  unfold bind at 1. rewrite Hfin. unfold bind, writeImoveisCsv, writeFile.
  destruct (writeOutcome env (optOut opts) _); [|discriminate|discriminate].
  unfold ret. intros [= <- <-]. exists search, w1, pages, w2.
  split; [reflexivity|]. split; [exact Hpages|].
  cbn [files List.hd_error rows outPath]. rewrite Hmap.
  split; [reflexivity|]. split; [|reflexivity].
  rewrite <- (length_map listItem finals), Hmap. subst results.
  now rewrite sortResults_length.
Qed.

(** The items of a page carry the page number of its task. *)
Lemma forEach_pages (opts : ScrapeOptions) (tasks : list (Z * string)) :
  forall w pages w',
    forEach (pageTask env opts) tasks w = (Ok pages, w') ->
    Forall2 (fun task items => Forall (fun i => page i = fst task) items) tasks pages.
Proof.
  induction tasks as [|task rest IH]; intros w pages w'; cbn [forEach].
  - unfold ret. intros [= <- _]. constructor.
  - unfold bind at 1.
    destruct (pageTask env opts task w) as [[items|m] w1] eqn:Htask; [|discriminate].
    unfold bind at 1.
    destruct (forEach (pageTask env opts) rest w1) as [[others|m] w2] eqn:Hrest;
      [|discriminate].
    unfold ret. intros [= <- _]. constructor; [|exact (IH _ _ _ Hrest)].
    unfold pageTask, bind in Htask.
    destruct (fetchListPageHtml (server env) (snd task) w) as [[html|m] w0];
      [|discriminate].
    unfold ret in Htask. injection Htask as <- _.
    apply Forall_forall. intros i Hi.
    exact (ListPage.parseListPageHtml_page _ _ _ _ _ _ _ Hi).
Qed.

Lemma pageTasks_pages (opts : ScrapeOptions) (search : CaixaSearchResult) :
  NoDup (map fst (pageTasks opts search)).
Proof.
  unfold pageTasks. generalize (Z.to_nat (totalPages opts search)) as n.
  set (f := fun idx : nat =>
              match nth_error (hdnImovByPage search) idx with
              | Some token => if truthy token then [((Z.of_nat idx + 1)%Z, token)] else []
              | None => []
              end).
  assert (forall n start,
    NoDup (map fst (flat_map f (seq start n))) /\
    forall p, In p (map fst (flat_map f (seq start n))) -> (Z.of_nat start + 1 <= p)%Z) as H.
  { induction n as [|n IH]; intros start; cbn [seq flat_map].
    - split; [constructor | intros p []].
    - destruct (IH (S start)) as [Hnd Hge]. rewrite map_app. unfold f at 1 3.
      destruct (nth_error (hdnImovByPage search) start) as [token|];
        [destruct (truthy token)|]; cbn [map app fst]; try (split; [assumption|]).
      + split.
        * constructor; [|assumption]. intros Hin. apply Hge in Hin. lia.
        * intros p [<-|Hin]; [lia|]. apply Hge in Hin. lia.
      + intros p Hin. apply Hge in Hin. lia.
      + intros p Hin. apply Hge in Hin. lia. }
  intros n. apply (H n 0%nat).
Qed.

Lemma combine_blocks (tasks : list (Z * string)) (pages : list (list ImovelListItem)) :
  Forall2 (fun task items => Forall (fun i => page i = fst task) items) tasks pages ->
  map fst (combine (map fst tasks) pages) = map fst tasks /\
  Forall ofPage (combine (map fst tasks) pages) /\
  itemsOf (combine (map fst tasks) pages) = List.concat pages.
Proof.
  unfold itemsOf.
  induction 1 as [|task items tasks pages Hhead _ IH]; cbn [map combine List.concat].
  - repeat split; constructor.
  - destruct IH as (H1 & H2 & H3). rewrite H1, H3.
    repeat split. constructor; assumption.
Qed.

End RunFacts.

(** *** A demonstration run *)

Definition demoPage1 : node :=
  Element "root" []
    [ ListPage.linkedCard "855" "Casa"; ListPage.linkedCard "123" "Apartamento, Centro" ].

Definition demoPage2 : node := ListPage.demoListDocument.

(** The bodies the demonstration server sends are the names of the documents
    the parser makes of them. *)
Definition demoLoad (html : string) : node :=
  if String.eqb html "search" then SearchResponse.demoSearchDocument
  else if String.eqb html "tok1" then demoPage1
  else if String.eqb html "tok2" then demoPage2
  else Element "root" [] [].

Definition demoServer (history : list Request) (r : Request) : Result HttpResponse :=
  match r with
  | GET _ => Ok {| status := 200; text := "" |}
  | POST path form =>
      if String.eqb path searchPath then Ok {| status := 200; text := "search" |}
      else if String.eqb path listPath
      then Ok {| status := 200; text := orEmpty (lookup "hdnImov" form) |}
      else Ok {| status := 404; text := "" |}
  end.

Definition demoEnvironment : Environment :=
  {| server := demoServer;
     load := demoLoad;
     extractFields := fun _ => ListPage.noFields;
     extractText := fun _ => DetailPage.noText;
     URL_href := DetailPage.resolvePath;
     localeCompare := String_as_OT.compare;
     numberToString := fun _ => EmptyString;
     writeOutcome := fun _ _ => Written |}.

Definition demoScrapeOptions : ScrapeOptions :=
  {| optUf := "RJ"; optCidade := "7084"; optBairro := "";
     optTpVenda := "Selecione"; optTpImovel := "Selecione"; optAreaUtil := "Selecione";
     optFaixaVlr := "Selecione"; optQuartos := "Selecione"; optVagas := "Selecione";
     optOut := "output/output.csv";
     optConcurrency := 3; optMinDelayMs := 500; optTimeoutMs := 20000; optRetries := 4;
     optMaxPages := None; optWithDetails := false; optDetailsConcurrency := 2 |}.

Definition demoRun : Result ScrapeResult * World :=
  scrapeCaixa demoEnvironment demoScrapeOptions initialWorld.

Lemma demoRun_returns :
  demoRun = (Ok {| outPath := "output/output.csv"; rows := 3 |}, snd demoRun).
Proof. vm_compute. reflexivity. Qed.

Lemma demoRun_rows :
  map (fun i => (page i, imovelId i, titulo i))
      (sortResults demoEnvironment
         (ListPage.parseListPageDocument (fun _ => ListPage.noFields) demoPage1 "RJ" "7084" 1 ++
          ListPage.parseListPageDocument (fun _ => ListPage.noFields) demoPage2 "RJ" "7084" 2)) =
  [ (1%Z, "123", "Apartamento, Centro"); (1%Z, "855", "Casa"); (2%Z, "77", "Terreno") ].
Proof. vm_compute. reflexivity. Qed.

Lemma String_lt_irrefl (a : string) : ~ String_as_OT.lt a a.
Proof. apply (StrictOrder_Irreflexive (R := String_as_OT.lt)). Qed.

Lemma String_lt_trans (a b c : string) :
  String_as_OT.lt a b -> String_as_OT.lt b c -> String_as_OT.lt a c.
Proof. apply (StrictOrder_Transitive (R := String_as_OT.lt)). Qed.

Lemma String_compare_antisym (a b : string) :
  String_as_OT.compare b a = CompOpp (String_as_OT.compare a b).
Proof.
  destruct (String_as_OT.compare_spec a b) as [E|E|E],
           (String_as_OT.compare_spec b a) as [F|F|F];
    try reflexivity; exfalso; unfold String_as_OT.eq in *.
  - rewrite E in F. exact (String_lt_irrefl _ F).
  - rewrite E in F. exact (String_lt_irrefl _ F).
  - rewrite F in E. exact (String_lt_irrefl _ E).
  - exact (String_lt_irrefl _ (String_lt_trans _ _ _ E F)).
  - rewrite F in E. exact (String_lt_irrefl _ E).
  - exact (String_lt_irrefl _ (String_lt_trans _ _ _ E F)).
Qed.

Lemma String_compare_trans (a b c : string) :
  String_as_OT.compare a b <> Gt -> String_as_OT.compare b c <> Gt ->
  String_as_OT.compare a c <> Gt.
Proof.
  intros Hab Hbc Hac.
  destruct (String_as_OT.compare_spec a c) as [G|G|G]; try discriminate.
  destruct (String_as_OT.compare_spec a b) as [E|E|E]; [| |congruence];
    destruct (String_as_OT.compare_spec b c) as [F|F|F]; try congruence;
    unfold String_as_OT.eq in *.
  - subst. exact (String_lt_irrefl _ G).
  - subst. exact (String_lt_irrefl _ (String_lt_trans _ _ _ F G)).
  - subst. exact (String_lt_irrefl _ (String_lt_trans _ _ _ E G)).
  - exact (String_lt_irrefl _ (String_lt_trans _ _ _ (String_lt_trans _ _ _ E F) G)).
Qed.

(** *** The claims on the run *)

(** C9 (as amended): for a collation that is a total preorder, the items
    persisted are the collected ones sorted by page and, within a page, by
    [imovelId]; items that tie on both keep their collected order, so the rows
    are a function of the multiset of the items when no two different items
    tie, and they do not depend on the order of the page results, each of
    which carries its own page number. *)
Theorem scrapeCaixa_sorted_spec (env : Environment) :
  (forall a b, localeCompare env b a = CompOpp (localeCompare env a b)) ->
  (forall a b c, localeCompare env a b <> Gt -> localeCompare env b c <> Gt ->
                 localeCompare env a c <> Gt) ->
  (forall opts w w' r,
     scrapeCaixa env opts w = (Ok r, w') ->
     exists search w1 pages w2,
       runSearch (server env) (load env) (searchPayload opts) w = (Ok search, w1) /\
       forEach (pageTask env opts) (pageTasks opts search) w1 = (Ok pages, w2) /\
       List.hd_error (files w') =
         Some (optOut opts,
               stringify (numberToString env) (sortResults env (List.concat pages))) /\
       forall arrived,
         Permutation arrived (combine (map fst (pageTasks opts search)) pages) ->
         sortResults env (itemsOf arrived) = sortResults env (List.concat pages)) /\
  (forall l,
     Permutation (sortResults env l) l /\
     StronglySorted (le (compareItems (localeCompare env))) (sortResults env l)) /\
  (forall a b,
     le (compareItems (localeCompare env)) a b <->
     (page a < page b)%Z \/
     (page a = page b /\ localeCompare env (imovelId a) (imovelId b) <> Gt)) /\
  (forall k l,
     List.filter (ties (compareItems (localeCompare env)) k) (sortResults env l) =
     List.filter (ties (compareItems (localeCompare env)) k) l) /\
  (forall l l',
     Permutation l l' ->
     (forall a b, In a l -> In b l -> page a = page b ->
                  localeCompare env (imovelId a) (imovelId b) = Eq -> a = b) ->
     sortResults env l = sortResults env l') /\
  (forall blocks blocks' : list Block,
     Permutation blocks blocks' ->
     NoDup (map fst blocks) -> Forall ofPage blocks ->
     sortResults env (itemsOf blocks) = sortResults env (itemsOf blocks')).
Proof.
  intros Hanti Htrans.
  pose proof (compareItems_antisym _ Hanti) as Ca.
  pose proof (compareItems_trans _ Htrans) as Ct.
  split; [|split; [|split; [|split; [|split]]]].
  - intros opts w w' r Hrun.
    destruct (scrapeCaixa_run env opts w w' r Hrun)
      as (search & w1 & pages & w2 & Hsearch & Hpages & Hfile & _ & _).
    exists search, w1, pages, w2.
    split; [assumption|]. split; [assumption|]. split; [assumption|].
    intros arrived Hperm.
    destruct (combine_blocks _ _ (forEach_pages env opts _ _ _ _ Hpages))
      as (Hfst & Hof & Hitems).
    rewrite <- Hitems. unfold sortResults. symmetry.
    apply (sort_blocks _ Hanti Htrans).
    + now symmetry.
    + rewrite Hfst. apply pageTasks_pages.
    + exact Hof.
  - intros l. split; [apply sort_perm | apply (sort_sorted _ _ Ca Ct)].
  - intros a b. apply compareItems_le.
  - intros k l. apply (sort_ties _ _ Ca Ct).
  - intros l l' Hperm Hdistinct. apply (sort_multiset _ _ Ca Ct); [assumption|].
    intros a b Ha Hb Hab. apply compareItems_eq in Hab as [Hp Hid]. now apply Hdistinct.
  - intros blocks blocks'. apply (sort_blocks _ Hanti Htrans).
Qed.

(** C9, instance: the demonstration run persists its three items sorted,
    whichever of its two pages arrives first. *)
Lemma scrapeCaixa_sorted_witness :
  (forall a b, String_as_OT.compare b a = CompOpp (String_as_OT.compare a b)) /\
  (forall a b c, String_as_OT.compare a b <> Gt -> String_as_OT.compare b c <> Gt ->
                 String_as_OT.compare a c <> Gt) /\
  exists search w1 pages w2,
    runSearch demoServer demoLoad (searchPayload demoScrapeOptions) initialWorld
      = (Ok search, w1) /\
    forEach (pageTask demoEnvironment demoScrapeOptions)
            (pageTasks demoScrapeOptions search) w1 = (Ok pages, w2) /\
    forall arrived,
      Permutation arrived (combine (map fst (pageTasks demoScrapeOptions search)) pages) ->
      sortResults demoEnvironment (itemsOf arrived) =
      sortResults demoEnvironment (List.concat pages).
Proof.
  split; [exact String_compare_antisym|]. split; [exact String_compare_trans|].
  destruct (scrapeCaixa_sorted_spec demoEnvironment String_compare_antisym String_compare_trans)
    as (Hrun & _).
  destruct (Hrun demoScrapeOptions initialWorld (snd demoRun) _ demoRun_returns)
    as (search & w1 & pages & w2 & Hsearch & Hpages & _ & Harrived).
  now exists search, w1, pages, w2.
Defined.

Definition tiedItem (title : string) : ImovelListItem :=
  {| imovelId := "855"; uf := "RJ"; cidadeId := "7084"; titulo := title;
     modalidade := None; tipoImovel := None; areaUtilM2 := None; quartos := None;
     vagas := None; valorAvaliacao := None; valorMinimo := None;
     descontoPercent := None; enderecoRaw := None; observacoesRaw := None;
     page := 1 |}.

(** C9, counterexample: two items of one page with one [imovelId] and
    different titles tie; the sort leaves them as they came, so the two orders
    of one multiset are persisted differently. *)
Lemma sortResults_ties_counterexample :
  Permutation [tiedItem "Casa"; tiedItem "Apartamento"]
              [tiedItem "Apartamento"; tiedItem "Casa"] /\
  sortResults demoEnvironment [tiedItem "Casa"; tiedItem "Apartamento"] =
    [tiedItem "Casa"; tiedItem "Apartamento"] /\
  sortResults demoEnvironment [tiedItem "Apartamento"; tiedItem "Casa"] =
    [tiedItem "Apartamento"; tiedItem "Casa"] /\
  tiedItem "Casa" <> tiedItem "Apartamento".
Proof.
  split; [apply perm_swap|]. split; [reflexivity|]. split; [reflexivity|]. discriminate.
Qed.

End Scrape.

(** ** src/caixa/httpClient.ts: the backoffs of a request *)

Module RetryTrace.
Import JsString JsNumber Http.
Local Open Scope Z_scope.

(** The backoffs of a request, in order, and their sum: the delays the
    retry loop sleeps after its attempts.  The wait an attempt makes inside
    [RateLimiter.schedule] before its fetch is no event of the trace of
    [request] and is not counted here. *)
Definition backoffsOf (trace : list Event) : list Z :=
  flat_map (fun e => match e with Sleep ms => [ms] | Attempt _ => [] end) trace.

Definition totalBackoff (trace : list Event) : Z := fold_right Z.add 0 (backoffsOf trace).

(** [k] attempts from [a] on, each followed by its backoff. *)
Definition retryTrace (net : Network) (a k : nat) : list Event :=
  flat_map (fun j => [Attempt j; Sleep (backoff net j)]) (seq a k).

(** *** Facts *)

Lemma requestLoop_unsettled (net : Network) (n : nat) :
  forall a last lastErr,
    (forall j, (j < n)%nat -> settles (outcome net (a + j)) = false) ->
    snd (requestLoop net n a last lastErr) = retryTrace net a n.
Proof.
  induction n as [|n IH]; intros a last lastErr Hall; [reflexivity|].
  cbn [requestLoop]. unfold retryTrace. cbn [seq flat_map app]. fold (retryTrace net (S a) n).
  assert (settles (outcome net a) = false) as H0
    by (rewrite <- (Nat.add_0_r a); apply Hall; lia).
  assert (forall last' lastErr',
    snd (requestLoop net n (S a) last' lastErr') = retryTrace net (S a) n) as Hrec.
  { intros last' lastErr'. apply IH. intros j Hj.
    replace (S a + j)%nat with (a + S j)%nat by lia. apply Hall. lia. }
  destruct (outcome net a) as [r|err]; cbn [settles] in H0.
  - rewrite H0. specialize (Hrec (Some r) lastErr).
    destruct (requestLoop net n (S a) (Some r) lastErr). cbn [snd] in *. now rewrite Hrec.
  - specialize (Hrec last (Some err)).
    destruct (requestLoop net n (S a) last (Some err)). cbn [snd] in *. now rewrite Hrec.
Qed.

Lemma requestLoop_settled (net : Network) (k : nat) :
  forall n a last lastErr,
    (k < n)%nat ->
    settles (outcome net (a + k)) = true ->
    (forall j, (j < k)%nat -> settles (outcome net (a + j)) = false) ->
    snd (requestLoop net n a last lastErr) = (retryTrace net a k ++ [Attempt (a + k)%nat])%list.
Proof.
  induction k as [|k IH]; intros n a last lastErr Hn Hk Hbefore.
  - destruct n as [|n]; [lia|]. cbn [requestLoop]. rewrite Nat.add_0_r in *.
    destruct (outcome net a) as [r|err]; cbn [settles] in Hk; [|discriminate].
    now rewrite Hk.
  - destruct n as [|n]; [lia|]. cbn [requestLoop].
    unfold retryTrace. cbn [seq flat_map app]. fold (retryTrace net (S a) k).
    assert (settles (outcome net a) = false) as H0
      by (rewrite <- (Nat.add_0_r a); apply Hbefore; lia).
    assert (forall last' lastErr',
      snd (requestLoop net n (S a) last' lastErr') =
      (retryTrace net (S a) k ++ [Attempt (a + S k)%nat])%list) as Hrec.
    { intros last' lastErr'. replace (a + S k)%nat with (S a + k)%nat by lia.
      apply IH; [lia | now replace (S a + k)%nat with (a + S k)%nat by lia |].
      intros j Hj. replace (S a + j)%nat with (a + S j)%nat by lia. apply Hbefore. lia. }
    destruct (outcome net a) as [r|err]; cbn [settles] in H0.
    + rewrite H0. specialize (Hrec (Some r) lastErr).
      destruct (requestLoop net n (S a) (Some r) lastErr). cbn [snd] in *. now rewrite Hrec.
    + specialize (Hrec last (Some err)).
      destruct (requestLoop net n (S a) last (Some err)). cbn [snd] in *. now rewrite Hrec.
Qed.

Lemma backoffsOf_retryTrace (net : Network) (k : nat) :
  forall a, backoffsOf (retryTrace net a k) = map (backoff net) (seq a k).
Proof.
  induction k as [|k IH]; intros a; [reflexivity|].
  unfold retryTrace. cbn [seq flat_map map app backoffsOf]. fold (retryTrace net (S a) k).
  fold (backoffsOf (retryTrace net (S a) k)). now rewrite IH.
Qed.

Lemma retryTrace_S (net : Network) (a k : nat) :
  retryTrace net a (S k) = Attempt a :: Sleep (backoff net a) :: retryTrace net (S a) k.
Proof. reflexivity. Qed.

Lemma last_retryTrace (net : Network) (n : nat) :
  forall a d, List.last (retryTrace net a (S n)) d = Sleep (backoff net (a + n)).
Proof.
  induction n as [|n IH]; intros a d.
  - cbn. now rewrite Nat.add_0_r.
  - rewrite (retryTrace_S net a (S n)), <- Nat.add_succ_comm, <- (IH (S a) d).
    destruct (retryTrace net (S a) (S n)) as [|e t] eqn:E; [discriminate E | reflexivity].
Qed.

Lemma backoffsOf_app (t u : list Event) : backoffsOf (t ++ u) = (backoffsOf t ++ backoffsOf u)%list.
Proof. unfold backoffsOf. apply flat_map_app. Qed.

Lemma backoffBase_range (a : nat) : 750 <= backoffBase a <= 30000.
Proof.
  unfold backoffBase. split; [|apply Z.le_min_l].
  apply Z.min_glb; [lia|].
  assert (0 < 2 ^ Z.of_nat a) by (apply Z.pow_pos_nonneg; lia). lia.
Qed.

Lemma backoff_range (net : Network) (a : nat) :
  isRandom (random net a) = true -> 600 <= backoff net a <= 36000.
Proof.
  intros Hr. pose proof (backoffBase_range a) as Hb.
  pose proof (backoff_bounds net a Hr) as Hj.
  rewrite jitterDelta_fifth in Hj.
  assert (backoffBase a / 5 <= 6000) by (apply Z.div_le_upper_bound; lia).
  assert (5 * (backoffBase a / 5) <= backoffBase a) by (apply Z.mul_div_le; lia).
  lia.
Qed.

Lemma requestLoop_backoffs (net : Network) (P : Z -> Prop) (n : nat) :
  (forall a, P (backoff net a)) ->
  forall a last lastErr,
    Forall P (backoffsOf (snd (requestLoop net n a last lastErr))) /\
    (List.length (backoffsOf (snd (requestLoop net n a last lastErr))) <= n)%nat.
Proof.
  intros HP. induction n as [|n IH]; intros a last lastErr; cbn [requestLoop].
  - split; [constructor | apply Nat.le_refl].
  - destruct (outcome net a) as [r|err].
    + destruct (negb (isRetryableStatus (status r))).
      * cbn. split; [constructor | lia].
      * specialize (IH (S a) (Some r) lastErr).
        destruct (requestLoop net n (S a) (Some r) lastErr) as [res trace].
        cbn [snd] in *. destruct IH as [IH1 IH2]. cbn [backoffsOf flat_map app].
        fold (backoffsOf trace). split; [constructor; [apply HP | exact IH1] | cbn; lia].
    + specialize (IH (S a) last (Some err)).
      destruct (requestLoop net n (S a) last (Some err)) as [res trace].
      cbn [snd] in *. destruct IH as [IH1 IH2]. cbn [backoffsOf flat_map app].
      fold (backoffsOf trace). split; [constructor; [apply HP | exact IH1] | cbn; lia].
Qed.

Lemma sum_bounded (l : list Z) (hi : Z) :
  Forall (fun ms => 0 <= ms <= hi) l -> 0 <= fold_right Z.add 0 l <= hi * Z.of_nat (List.length l).
Proof.
  induction 1 as [|x l Hx Hl IH]; [cbn; lia|]. cbn [fold_right List.length].
  rewrite Nat2Z.inj_succ. lia.
Qed.

(** *** The property *)

(** X1: [request] sleeps the backoff after every attempt that does not end
    the loop, the last one included: when no attempt gets a status that is
    not retryable, the request ends with a backoff, after its [retries + 1]
    attempts, and only then returns the last response or throws.  When
    attempt [k] ends the loop, [k] backoffs were slept.  With
    [Math.random()] in [0, 1) each backoff lasts between 600 and 36000 ms,
    so the backoffs of a request add up to [36000 * (retries + 1)] ms at
    most (the waits of the rate limiter come on top). *)
Theorem request_backoffs (opts : HttpClientOptions) (net : Network) :
  0 <= retries opts ->
  (forall a, isRandom (random net a) = true) ->
  let trace := snd (request opts net) in
  ((forall j, Z.of_nat j <= retries opts -> settles (outcome net j) = false) ->
   trace = retryTrace net 0 (Z.to_nat (retries opts + 1)) /\
   List.last trace (Attempt 0) = Sleep (backoff net (Z.to_nat (retries opts))) /\
   Z.of_nat (List.length (backoffsOf trace)) = retries opts + 1) /\
  (forall k,
     Z.of_nat k <= retries opts ->
     settles (outcome net k) = true ->
     (forall j, (j < k)%nat -> settles (outcome net j) = false) ->
     trace = (retryTrace net 0 k ++ [Attempt k])%list /\
     backoffsOf trace = map (backoff net) (seq 0 k)) /\
  Forall (fun ms => 600 <= ms <= 36000) (backoffsOf trace) /\
  0 <= totalBackoff trace <= 36000 * (retries opts + 1).
Proof.
  intros Hretries Hrandom. cbv zeta. unfold request.
  split; [|split; [|split]].
  - intros Hall.
    assert (snd (requestLoop net (Z.to_nat (retries opts + 1)) 0 None None) =
            retryTrace net 0 (Z.to_nat (retries opts + 1))) as Htrace.
    { apply requestLoop_unsettled. intros j Hj. apply Hall. cbn. lia. }
    rewrite Htrace. split; [reflexivity|]. split.
    + replace (Z.to_nat (retries opts + 1)) with (S (Z.to_nat (retries opts))) by lia.
      apply (last_retryTrace net (Z.to_nat (retries opts)) 0%nat).
    + rewrite backoffsOf_retryTrace, length_map, length_seq. lia.
  - intros k Hk Hsettle Hbefore.
    assert (snd (requestLoop net (Z.to_nat (retries opts + 1)) 0 None None) =
            (retryTrace net 0 k ++ [Attempt k])%list) as Htrace.
    { apply (requestLoop_settled net k _ 0%nat None None); [lia | exact Hsettle | exact Hbefore]. }
    rewrite Htrace. split; [reflexivity|].
    rewrite backoffsOf_app, backoffsOf_retryTrace. cbn [backoffsOf flat_map]. apply app_nil_r.
  - apply (requestLoop_backoffs net (fun ms => 600 <= ms <= 36000)).
    intros a. apply backoff_range, Hrandom.
  - assert (forall a, 0 <= backoff net a <= 36000) as Hback
      by (intros a; pose proof (backoff_range net a (Hrandom a)); lia).
    destruct (requestLoop_backoffs net (fun ms => 0 <= ms <= 36000)
                (Z.to_nat (retries opts + 1)) Hback 0%nat None None) as [Hall Hlen].
    pose proof (sum_bounded _ 36000 Hall) as Hsum. unfold totalBackoff.
    split; [lia|]. nia.
Qed.

(** A network that answers every attempt with 503. *)
Definition busyNetwork : Network :=
  {| outcome := fun _ => Responded {| status := 503; text := "busy" |};
     random := fun _ => oneHalf |}.

(** Instance: with two retries and 503 throughout, three attempts and three
    sleeps, the last one after the last attempt. *)
Lemma request_backoffs_witness :
  0 <= retries demoOptions /\
  (forall a, isRandom (random busyNetwork a) = true) /\
  snd (request demoOptions busyNetwork) =
    [Attempt 0; Sleep 750; Attempt 1; Sleep 1500; Attempt 2; Sleep 3000] /\
  fst (request demoOptions busyNetwork) = Ok {| status := 503; text := "busy" |}.
Proof.
  assert (0 <= retries demoOptions) as H by (cbn; lia).
  assert (forall a, isRandom (random busyNetwork a) = true) as Hr by (intros a; reflexivity).
  split; [exact H|]. split; [exact Hr|]. split; [|reflexivity].
  destruct (request_backoffs demoOptions busyNetwork H Hr) as (Hall & _).
  destruct Hall as (Htrace & _); [reflexivity|].
  rewrite Htrace. reflexivity.
Defined.

End RetryTrace.

(** ** src/scrape.ts: the requests and the files of a run *)

Module Run.
Import JsString JsNumber Models Dom Http Caixa Scrape.
Local Open Scope list_scope.

(** The POST of [fetchListPageHtml] and that of [fetchDetailPageHtml]. *)
Definition listRequest (token : string) : Request := POST listPath [("hdnImov", token)].

Definition detailRequest (imovelId0 : string) : Request :=
  POST detailPath [("hdnimovel", imovelId0)].

(** The page numbers [idx + 1] for [idx] below [k]. *)
Definition pageNumbers (k : nat) : list Z := map (fun idx => (Z.of_nat idx + 1)%Z) (seq 0 k).

(** *** The tasks of the page loop *)

Lemma tasks_beyond (tokens : list string) (k : nat) :
  forall start, List.length tokens <= start ->
  flat_map (fun idx =>
              match nth_error tokens idx with
              | Some token => if truthy token then [((Z.of_nat idx + 1)%Z, token)] else []
              | None => []
              end) (seq start k) = [].
Proof.
  induction k as [|k IH]; intros start Hlen; [reflexivity|].
  cbn [seq flat_map].
  assert (nth_error tokens start = None) as -> by now apply nth_error_None.
  cbn [app]. apply IH. lia.
Qed.

Lemma tasks_from (k : nat) :
  forall (pre tokens : list string),
  Forall (fun t => truthy t = true) tokens ->
  flat_map (fun idx =>
              match nth_error (pre ++ tokens) idx with
              | Some token => if truthy token then [((Z.of_nat idx + 1)%Z, token)] else []
              | None => []
              end) (seq (List.length pre) k) =
  combine (map (fun idx => (Z.of_nat idx + 1)%Z) (seq (List.length pre) k)) (firstn k tokens).
Proof.
  induction k as [|k IH]; intros pre tokens Hall; [reflexivity|].
  destruct tokens as [|t ts].
  - rewrite app_nil_r, tasks_beyond by apply Nat.le_refl.
    cbn [firstn]. now rewrite combine_nil.
  - cbn [seq flat_map map firstn combine].
    rewrite nth_error_app2 by apply Nat.le_refl. rewrite Nat.sub_diag. cbn [nth_error].
    inversion Hall as [|? ? Ht Hts]; subst. rewrite Ht. cbn [app]. f_equal.
    replace (pre ++ t :: ts) with ((pre ++ [t]) ++ ts) by now rewrite <- app_assoc.
    replace (S (List.length pre)) with (List.length (pre ++ [t]))
      by (rewrite length_app; cbn; lia).
    now apply IH.
Qed.

Lemma pageTasks_combine (opts : ScrapeOptions) (search : CaixaSearchResult) :
  Forall (fun t => truthy t = true) (hdnImovByPage search) ->
  pageTasks opts search =
  combine (pageNumbers (Z.to_nat (totalPages opts search)))
          (firstn (Z.to_nat (totalPages opts search)) (hdnImovByPage search)).
Proof.
  intros Hall. unfold pageTasks, pageNumbers.
  exact (tasks_from (Z.to_nat (totalPages opts search)) [] (hdnImovByPage search) Hall).
Qed.

Lemma snd_combine_pages (tokens : list string) :
  forall k start,
    map snd (combine (map (fun idx => (Z.of_nat idx + 1)%Z) (seq start k)) (firstn k tokens)) =
    firstn k tokens.
Proof.
  induction tokens as [|t ts IH]; intros k start.
  - destruct k; cbn [firstn]; now rewrite combine_nil.
  - destruct k as [|k]; [reflexivity|]. cbn [seq map firstn combine snd]. f_equal. apply IH.
Qed.

Lemma pageTasks_tokens (opts : ScrapeOptions) (search : CaixaSearchResult) :
  Forall (fun t => truthy t = true) (hdnImovByPage search) ->
  map snd (pageTasks opts search) =
  firstn (Z.to_nat (totalPages opts search)) (hdnImovByPage search).
Proof.
  intros Hall. rewrite (pageTasks_combine opts search Hall). unfold pageNumbers.
  apply snd_combine_pages.
Qed.

(** The tokens a search result carries are not empty. *)
Lemma parseSearchDocument_tokens (doc : node) (r : CaixaSearchResult) :
  SearchResponse.parseSearchDocument doc = Ok r ->
  Forall (fun t => truthy t = true) (hdnImovByPage r).
Proof.
  unfold SearchResponse.parseSearchDocument. intros H.
  destruct (SearchResponse.parseIntStrict _) as [pages|]; [|discriminate].
  destruct (SearchResponse.parseIntStrict _) as [records|]; [|discriminate].
  cbn [bindR] in H.
  destruct (List.length (SearchResponse.hdnImovInputs doc) =? 0)%nat; [discriminate|].
  injection H as <-. cbn [hdnImovByPage].
  destruct (SearchResponse.hdnImovInputs_spec doc) as [Hall _].
  apply Forall_forall. intros t Hin.
  apply (In_nth _ _ EmptyString) in Hin as (k & Hk & <-).
  destruct (Hall k Hk) as [_ Hne]. unfold truthy. now rewrite Hne.
Qed.

Lemma bind_run {A B : Type} (m : Async A) (k : A -> Async B) (w : World) :
  bind m k w = match m w with
               | (Ok a, w') => k a w'
               | (Throw e, w') => (Throw e, w')
               end.
Proof. reflexivity. Qed.

Section RunTrace.
Variable env : Environment.

(** *** What each step sends and writes *)

Lemma runSearch_world (payload : CaixaSearchPayload) (w : World) :
  files (snd (runSearch (server env) (load env) payload w)) = files w /\
  forall search w1,
    runSearch (server env) (load env) payload w = (Ok search, w1) ->
    sent w1 = sent w ++ [GET searchPagePath; POST searchPath (payloadForm payload)] /\
    Forall (fun t => truthy t = true) (hdnImovByPage search).
Proof.
  unfold runSearch, bind, get, postForm. rewrite call_run.
  destruct (server env (sent w) (GET searchPagePath)) as [page|m0].
  - rewrite call_run. cbn [sent files].
    destruct (server env (sent w ++ [GET searchPagePath])
                (POST searchPath (payloadForm payload))) as [res|m1].
    + destruct (negb (status res =? 200)%Z); unfold throw, lift; cbn [fst snd files].
      * split; [reflexivity | discriminate].
      * split; [reflexivity|]. intros search w1 H. injection H as Hparse <-.
        cbn [sent]. split; [now rewrite <- app_assoc|].
        exact (parseSearchDocument_tokens _ _ Hparse).
    + cbn [fst snd files]. split; [reflexivity | discriminate].
  - cbn [fst snd files]. split; [reflexivity | discriminate].
Qed.

Lemma fetch_world (path : string) (form : list (string * string))
    (failure : HttpResponse -> string) (w : World) :
  let run := (res <- postForm (server env) path form ;;
              if negb (status res =? 200)%Z then throw (failure res) else ret (text res)) w in
  sent (snd run) = sent w ++ [POST path form] /\ files (snd run) = files w.
Proof.
  cbv zeta. unfold bind, postForm. rewrite call_run.
  destruct (server env (sent w) (POST path form)) as [res|m]; [|split; reflexivity].
  destruct (negb (status res =? 200)%Z); split; reflexivity.
Qed.

Lemma pageTask_world (opts : ScrapeOptions) (task : Z * string) (w : World) :
  sent (snd (pageTask env opts task w)) = sent w ++ [listRequest (snd task)] /\
  files (snd (pageTask env opts task w)) = files w.
Proof.
  unfold pageTask. unfold bind.
  pose proof (fetch_world listPath [("hdnImov", snd task)]
                (fun res => ("List page failed: HTTP " ++ statusText (status res))%string) w)
    as [Hs Hf].
  cbv zeta in Hs, Hf. fold (fetchListPageHtml (server env) (snd task)) in Hs, Hf.
  destruct (fetchListPageHtml (server env) (snd task) w) as [[html|m] w1];
    unfold ret; cbn [fst snd] in *; split; assumption.
Qed.

Lemma forEach_pageTask_world (opts : ScrapeOptions) (tasks : list (Z * string)) :
  forall w,
    files (snd (forEach (pageTask env opts) tasks w)) = files w /\
    forall pages w2,
      forEach (pageTask env opts) tasks w = (Ok pages, w2) ->
      sent w2 = sent w ++ map listRequest (map snd tasks) /\
      List.length pages = List.length tasks.
Proof.
  induction tasks as [|task rest IH]; intros w; cbn [forEach].
  - split; [reflexivity|]. unfold ret. intros pages w2 [= <- <-].
    cbn [map]. now rewrite app_nil_r.
  - rewrite bind_run.
    destruct (pageTask_world opts task w) as [Hs Hf].
    destruct (pageTask env opts task w) as [[items|m] w1]; cbn [fst snd] in *;
      [|split; [assumption | discriminate]].
    rewrite bind_run.
    destruct (IH w1) as [Hfiles Hrest].
    destruct (forEach (pageTask env opts) rest w1) as [[others|m] w2']; cbn [fst snd] in *;
      [|split; [congruence | discriminate]].
    unfold ret. cbn [fst snd]. split; [congruence|].
    intros pages w2 [= <- <-]. destruct (Hrest others w2' eq_refl) as [Hs' Hlen].
    cbn [map List.length]. rewrite Hs', Hs, <- app_assoc. cbn [app]. now rewrite Hlen.
Qed.

Lemma fetchDetail_world (imovelId0 : string) (w : World) :
  exists d,
    fst (fetchDetail env imovelId0 w) = Ok d /\
    sent (snd (fetchDetail env imovelId0 w)) = sent w ++ [detailRequest imovelId0] /\
    files (snd (fetchDetail env imovelId0 w)) = files w.
Proof.
  unfold fetchDetail, catch. rewrite bind_run.
  pose proof (fetch_world detailPath [("hdnimovel", imovelId0)]
                (fun res => ("Detail page failed: HTTP " ++ statusText (status res) ++
                             " (imovelId=" ++ imovelId0 ++ ")")%string) w) as [Hs Hf].
  cbv zeta in Hs, Hf. fold (fetchDetailPageHtml (server env) imovelId0) in Hs, Hf.
  destruct (fetchDetailPageHtml (server env) imovelId0 w) as [[html|m] w1];
    cbn [fst snd] in *.
  - unfold lift.
    destruct (DetailPage.parseDetailPageHtml (URL_href env) (extractText env) (load env) html)
      as [d|m]; cbn [fst snd]; eexists; (split; [reflexivity|]); split; assumption.
  - eexists. split; [reflexivity|]. split; assumption.
Qed.

Lemma lookupCache_existsb (key : string) (cache : list (string * DetailPage.ImovelDetailExtract)) :
  List.existsb (String.eqb key) (map fst cache) =
  match lookupCache key cache with Some _ => true | None => false end.
Proof.
  unfold lookupCache. induction cache as [|[k d] rest IH]; [reflexivity|].
  cbn [map fst List.existsb List.find]. rewrite (String.eqb_sym key k).
  destruct (String.eqb k key); [reflexivity|]. exact IH.
Qed.

(** The details attached: what the cache holds for the identifier, else what
    the fetch gave. *)
Lemma attachDetails_world (items : list ImovelListItem) :
  forall cache w,
    exists finals w',
      attachDetails env cache items w = (Ok finals, w') /\
      map listItem finals = items /\
      sent w' = sent w ++
                map detailRequest (DetailPage.uniqFrom (map fst cache) (map imovelId items)) /\
      files w' = files w /\
      (forall f d, In f finals -> lookupCache (imovelId (listItem f)) cache = Some d ->
                   detailOf f = Some d) /\
      (forall f g, In f finals -> In g finals ->
                   imovelId (listItem f) = imovelId (listItem g) -> detailOf f = detailOf g).
Proof.
  induction items as [|item rest IH]; intros cache w; cbn [attachDetails].
  - exists [], w. cbn [map DetailPage.uniqFrom]. rewrite app_nil_r.
    repeat split; try reflexivity; intros; contradiction.
  - cbn [map DetailPage.uniqFrom]. rewrite lookupCache_existsb.
    destruct (lookupCache (imovelId item) cache) as [d|] eqn:Hc.
    + destruct (IH cache w) as (finals & w' & Hrun & Hmap & Hsent & Hfiles & Hcache & Hsame).
      unfold bind. rewrite Hrun. eexists _, w'. split; [reflexivity|].
      cbn [map listItem]. rewrite Hmap. split; [reflexivity|].
      split; [exact Hsent|]. split; [exact Hfiles|]. split.
      * intros f d' [<-|Hin] Hl; cbn [listItem detailOf] in *; [congruence | eauto].
      * intros f g [<-|Hf] [<-|Hg] Hid; cbn [listItem detailOf] in *.
        -- reflexivity.
        -- symmetry. apply Hcache; [assumption|]. now rewrite <- Hid.
        -- apply Hcache; [assumption|]. now rewrite Hid.
        -- now apply Hsame.
    + unfold bind at 1.
      destruct (fetchDetail_world (imovelId item) w) as (d & Hd & Hs & Hf).
      destruct (fetchDetail env (imovelId item) w) as [r1 w1]. cbn [fst snd] in *. subst r1.
      destruct (IH ((imovelId item, d) :: cache) w1)
        as (finals & w' & Hrun & Hmap & Hsent & Hfiles & Hcache & Hsame).
      unfold bind. rewrite Hrun. eexists _, w'. split; [reflexivity|].
      cbn [map listItem]. rewrite Hmap. split; [reflexivity|].
      cbn [map fst] in Hsent. rewrite Hsent, Hs, <- app_assoc. cbn [map app].
      split; [reflexivity|]. split; [congruence|].
      assert (forall f, In f finals -> imovelId (listItem f) = imovelId item ->
                        detailOf f = Some d) as Hnew.
      { intros f Hin Hid. apply Hcache; [assumption|].
        unfold lookupCache. cbn [List.find fst snd]. rewrite Hid, String.eqb_refl. reflexivity. }
      split.
      * intros f d' [<-|Hin] Hl; cbn [listItem detailOf] in *; [congruence|].
        apply Hcache; [assumption|]. unfold lookupCache in *. cbn [List.find fst snd].
        destruct (String.eqb (imovelId item) (imovelId (listItem f))) eqn:E; [|exact Hl].
        apply String.eqb_eq in E. rewrite <- E in Hl. unfold lookupCache in Hc. congruence.
      * intros f g [<-|Hf'] [<-|Hg] Hid; cbn [listItem detailOf] in *.
        -- reflexivity.
        -- symmetry. apply Hnew; [assumption | now symmetry].
        -- now apply Hnew.
        -- now apply Hsame.
Qed.

Lemma writeImoveisCsv_world (path : string) (items : list ImovelListItem) (w : World) :
  sent (snd (writeImoveisCsv env path items w)) = sent w /\
  (files (snd (writeImoveisCsv env path items w)) = files w \/
   exists text, files (snd (writeImoveisCsv env path items w)) = (path, text) :: files w).
Proof.
  unfold writeImoveisCsv, writeFile.
  destruct (writeOutcome env path _); cbn [fst snd sent files].
  - split; [reflexivity|]. right. now eexists.
  - split; [reflexivity|]. now left.
  - split; [reflexivity|]. right. now eexists.
Qed.

(** The world after the details step. *)
Definition afterDetails (opts : ScrapeOptions) (results : list ImovelListItem) (w : World)
    : World :=
  if optWithDetails opts then snd (attachDetails env [] results w) else w.

(** The run, step by step: the search, the pages, the details, the write. *)
Lemma scrapeCaixa_steps (opts : ScrapeOptions) (w : World) :
  scrapeCaixa env opts w =
  match runSearch (server env) (load env) (searchPayload opts) w with
  | (Throw m, w1) => (Throw m, w1)
  | (Ok search, w1) =>
      match forEach (pageTask env opts) (pageTasks opts search) w1 with
      | (Throw m, w2) => (Throw m, w2)
      | (Ok pages, w2) =>
          let results := sortResults env (List.concat pages) in
          let w3 := afterDetails opts results w2 in
          match writeOutcome env (optOut opts) (stringify (numberToString env) results) with
          | Written =>
              (Ok {| outPath := optOut opts; rows := Z.of_nat (List.length results) |},
               {| sent := sent w3;
                  files := (optOut opts, stringify (numberToString env) results) :: files w3 |})
          | NotOpened m => (Throw m, w3)
          | Interrupted m partial =>
              (Throw m, {| sent := sent w3; files := (optOut opts, partial) :: files w3 |})
          end
      end
  end.
Proof.
  unfold scrapeCaixa. rewrite bind_run.
  destruct (runSearch (server env) (load env) (searchPayload opts) w) as [[search|m] w1];
    [|reflexivity].
  rewrite bind_run.
  destruct (forEach (pageTask env opts) (pageTasks opts search) w1) as [[pages|m] w2];
    [|reflexivity].
  cbv zeta. set (results := sortResults env (List.concat pages)).
  assert (exists finals,
    (if optWithDetails opts
     then attachDetails env [] results
     else ret (map (fun i => {| listItem := i; detailOf := None |}) results)) w2
    = (Ok finals, afterDetails opts results w2) /\ map listItem finals = results)
    as (finals & Hfin & Hmap).
  { unfold afterDetails. destruct (optWithDetails opts).
    - destruct (attachDetails_world results [] w2) as (finals & w3 & H1 & H2 & _).
      exists finals. rewrite H1. now split.
    - eexists. split; [reflexivity|]. rewrite map_map. cbn [listItem]. apply map_id. }
  rewrite bind_run, Hfin, bind_run. unfold writeImoveisCsv, writeFile. rewrite Hmap.
  destruct (writeOutcome env (optOut opts) _); [|reflexivity|reflexivity].
  assert (List.length finals = List.length results) as Hlen
    by (rewrite <- Hmap; symmetry; apply length_map).
  unfold ret. now rewrite Hlen.
Qed.

Lemma afterDetails_world (opts : ScrapeOptions) (results : list ImovelListItem) (w : World) :
  files (afterDetails opts results w) = files w /\
  sent (afterDetails opts results w) =
    sent w ++ (if optWithDetails opts
               then map detailRequest (DetailPage.uniqFrom [] (map imovelId results))
               else []).
Proof.
  unfold afterDetails. destruct (optWithDetails opts).
  - destruct (attachDetails_world results [] w) as (finals & w3 & H1 & _ & H2 & H3 & _).
    rewrite H1. cbn [snd]. now split.
  - now rewrite app_nil_r.
Qed.

End RunTrace.

(** *** The properties of the run *)

(** X2: the page loop visits the first [totalPages] tokens of the search result
    in order, numbered from 1: with [maxPages] that is the first
    [min(maxPages, n)] of the [n] tokens; without it, or with [maxPages] 0,
    all of them; with a negative [maxPages] none. *)
Theorem pageTasks_first_pages (opts : ScrapeOptions) (search : CaixaSearchResult) :
  Forall (fun t => truthy t = true) (hdnImovByPage search) ->
  let tokens := hdnImovByPage search in
  let k := Z.to_nat (totalPages opts search) in
  pageTasks opts search = combine (pageNumbers k) (firstn k tokens) /\
  map snd (pageTasks opts search) = firstn k tokens /\
  List.length (pageTasks opts search) = Nat.min k (List.length tokens) /\
  (optMaxPages opts = None \/ optMaxPages opts = Some 0%Z ->
   map snd (pageTasks opts search) = tokens) /\
  (forall m, optMaxPages opts = Some m -> (1 <= m)%Z ->
   List.length (pageTasks opts search) = Nat.min (Z.to_nat m) (List.length tokens)) /\
  (forall m, optMaxPages opts = Some m -> (m < 0)%Z -> pageTasks opts search = []).
Proof.
  intros Hall tokens k.
  pose proof (pageTasks_tokens opts search Hall) as Htok. fold tokens k in Htok.
  split; [exact (pageTasks_combine opts search Hall)|]. split; [exact Htok|].
  assert (List.length (pageTasks opts search) = Nat.min k (List.length tokens)) as Hlen
    by (rewrite <- (length_map snd), Htok; apply length_firstn).
  split; [exact Hlen|]. split; [|split].
  - intros H. rewrite Htok. apply firstn_all2. subst k. unfold totalPages. fold tokens.
    destruct H as [-> | ->]; cbn [Z.eqb]; lia.
  - intros m Hm H1. rewrite Hlen. subst k. unfold totalPages. fold tokens. rewrite Hm.
    destruct (Z.eqb_spec m 0); lia.
  - intros m Hm Hneg. apply length_zero_iff_nil. rewrite Hlen. subst k.
    unfold totalPages. fold tokens. rewrite Hm. destruct (Z.eqb_spec m 0); lia.
Qed.

(** A search result of two pages, and options that limit the run to one. *)
Definition demoSearchResult : CaixaSearchResult :=
  {| hdnImovByPage := ["tok1"; "tok2"]; qtdPag := ofZ 2;
     qtdRegistros := ofZ 20; hdnFiltro := None |}.

Definition demoOnePage : ScrapeOptions :=
  {| optUf := "RJ"; optCidade := "7084"; optBairro := "";
     optTpVenda := "Selecione"; optTpImovel := "Selecione"; optAreaUtil := "Selecione";
     optFaixaVlr := "Selecione"; optQuartos := "Selecione"; optVagas := "Selecione";
     optOut := "output/output.csv";
     optConcurrency := 3; optMinDelayMs := 500; optTimeoutMs := 20000; optRetries := 4;
     optMaxPages := Some 1%Z; optWithDetails := false; optDetailsConcurrency := 2 |}.

(** Instance: of the two tokens only the first is visited, as page 1. *)
Lemma pageTasks_first_pages_witness :
  Forall (fun t => truthy t = true) (hdnImovByPage demoSearchResult) /\
  pageTasks demoOnePage demoSearchResult = [(1%Z, "tok1")].
Proof.
  assert (Forall (fun t => truthy t = true) (hdnImovByPage demoSearchResult)) as H
    by (repeat constructor).
  split; [exact H|].
  exact (proj1 (pageTasks_first_pages demoOnePage demoSearchResult H)).
Defined.


(** X4: the calls of the client in a run that returns: the GET of the
    search page, the POST of the search form, one POST per page visited,
    with the tokens of the search result in page order, and with
    [withDetails] one POST per distinct [imovelId] of the sorted items of
    those pages, in the order of their first appearance. *)
Theorem scrapeCaixa_requests (env : Environment) (opts : ScrapeOptions)
    (w w' : World) (r : ScrapeResult) :
  scrapeCaixa env opts w = (Ok r, w') ->
  exists search w1 pages w2,
    runSearch (server env) (load env) (searchPayload opts) w = (Ok search, w1) /\
    forEach (pageTask env opts) (pageTasks opts search) w1 = (Ok pages, w2) /\
    let tokens := firstn (Z.to_nat (totalPages opts search)) (hdnImovByPage search) in
    let items := sortResults env (List.concat pages) in
    sent w' =
      sent w ++
      GET searchPagePath :: POST searchPath (payloadForm (searchPayload opts)) ::
      map listRequest tokens ++
      (if optWithDetails opts
       then map detailRequest (DetailPage.uniqFrom [] (map imovelId items))
       else []) /\
    List.length pages = List.length tokens /\
    NoDup (DetailPage.uniqFrom [] (map imovelId items)) /\
    (forall id, In id (map imovelId items) <->
                In id (DetailPage.uniqFrom [] (map imovelId items))) /\
    files w' = (optOut opts, stringify (numberToString env) items) :: files w.
Proof.
  rewrite scrapeCaixa_steps.
  destruct (runSearch_world env (searchPayload opts) w) as [Hf0 Hs].
  destruct (runSearch (server env) (load env) (searchPayload opts) w) as [[search|m0] w1];
    [|discriminate].
  destruct (Hs search w1 eq_refl) as [Hsent1 Htruthy]. cbn [fst snd] in Hf0.
  destruct (forEach_pageTask_world env opts (pageTasks opts search) w1) as [Hf1 Hp].
  destruct (forEach (pageTask env opts) (pageTasks opts search) w1) as [[pages|m1] w2]
    eqn:Hpages; [|discriminate].
  destruct (Hp pages w2 eq_refl) as [Hsent2 Hlen]. cbn [fst snd] in Hf1.
  rewrite (pageTasks_tokens opts search Htruthy) in Hsent2.
  rewrite <- (length_map snd), (pageTasks_tokens opts search Htruthy) in Hlen.
  cbv zeta.
  destruct (afterDetails_world env opts (sortResults env (List.concat pages)) w2)
    as [Hf2 Hsent3].
  destruct (writeOutcome env (optOut opts) _); [|discriminate|discriminate].
  intros [= _ <-]. exists search, w1, pages, w2.
  split; [reflexivity|]. split; [exact Hpages|]. cbv zeta. cbn [sent files].
  split.
  { rewrite Hsent3, Hsent2, Hsent1, <- !app_assoc. reflexivity. }
  split; [exact Hlen|].
  destruct (DetailPage.uniqFrom_spec (map imovelId (sortResults env (List.concat pages))) [])
    as [Hnd Hin].
  split; [exact Hnd|]. split; [|now rewrite Hf2, Hf1, Hf0].
  intros id. split; [|intros H; now apply Hin in H].
  generalize (map imovelId (sortResults env (List.concat pages))) as ids. clear.
  intros ids. revert id.
  assert (forall seen id, In id ids -> In id seen \/ In id (DetailPage.uniqFrom seen ids)) as H.
  { induction ids as [|x rest IH]; intros seen id; [intros []|].
    cbn [DetailPage.uniqFrom]. intros [<-|Hin].
    - destruct (List.existsb (String.eqb x) seen) eqn:E.
      + left. apply existsb_exists in E as (y & Hy & Heq).
        apply String.eqb_eq in Heq. now subst.
      + right. now left.
    - destruct (List.existsb (String.eqb x) seen) eqn:E.
      + now apply IH.
      + destruct (IH (x :: seen) id Hin) as [[<-|Hs]|Hu].
        * right. now left.
        * now left.
        * right. now right. }
  intros id Hin. destruct (H [] id Hin) as [[]|Hu]. exact Hu.
Qed.

(** Instance: the demonstration run returns; it makes four calls, for the
    two tokens of its search result. *)
Lemma scrapeCaixa_requests_witness :
  scrapeCaixa demoEnvironment demoScrapeOptions initialWorld =
    (Ok {| outPath := "output/output.csv"; rows := 3 |}, snd demoRun) /\
  sent (snd demoRun) =
    [ GET searchPagePath; POST searchPath (payloadForm (searchPayload demoScrapeOptions));
      listRequest "tok1"; listRequest "tok2" ] /\
  exists search w1 pages w2,
    runSearch (server demoEnvironment) (load demoEnvironment)
      (searchPayload demoScrapeOptions) initialWorld = (Ok search, w1) /\
    forEach (pageTask demoEnvironment demoScrapeOptions)
      (pageTasks demoScrapeOptions search) w1 = (Ok pages, w2) /\
    let tokens :=
      firstn (Z.to_nat (totalPages demoScrapeOptions search)) (hdnImovByPage search) in
    let items := sortResults demoEnvironment (List.concat pages) in
    sent (snd demoRun) =
      sent initialWorld ++
      GET searchPagePath :: POST searchPath (payloadForm (searchPayload demoScrapeOptions)) ::
      map listRequest tokens ++
      (if optWithDetails demoScrapeOptions
       then map detailRequest (DetailPage.uniqFrom [] (map imovelId items))
       else []) /\
    List.length pages = List.length tokens /\
    NoDup (DetailPage.uniqFrom [] (map imovelId items)) /\
    (forall id, In id (map imovelId items) <->
                In id (DetailPage.uniqFrom [] (map imovelId items))) /\
    files (snd demoRun) =
      (optOut demoScrapeOptions, stringify (numberToString demoEnvironment) items) ::
      files initialWorld.
Proof.
  split; [exact demoRun_returns|]. split; [vm_compute; reflexivity|].
  exact (scrapeCaixa_requests demoEnvironment demoScrapeOptions initialWorld
           (snd demoRun) _ demoRun_returns).
Defined.

(** X5: with [withDetails] the items get the details of their [imovelId]: the
    step never throws, whatever the server answers; it keeps the items and
    their order; it sends one request per distinct [imovelId]; and two items
    of one [imovelId] carry one and the same detail. *)
Theorem attachDetails_cache (env : Environment) (items : list ImovelListItem) (w : World) :
  exists finals w',
    attachDetails env [] items w = (Ok finals, w') /\
    map listItem finals = items /\
    sent w' = sent w ++ map detailRequest (DetailPage.uniqFrom [] (map imovelId items)) /\
    files w' = files w /\
    (forall f, In f finals -> exists d, detailOf f = Some d) /\
    (forall f g, In f finals -> In g finals ->
       imovelId (listItem f) = imovelId (listItem g) -> detailOf f = detailOf g).
Proof.
  destruct (attachDetails_world env items [] w)
    as (finals & w' & Hrun & Hmap & Hsent & Hfiles & _ & Hsame).
  exists finals, w'. split; [exact Hrun|]. split; [exact Hmap|].
  split; [exact Hsent|]. split; [exact Hfiles|]. split; [|exact Hsame].
  clear - Hrun. revert finals w w' Hrun. generalize (@nil (string * DetailPage.ImovelDetailExtract)).
  induction items as [|item rest IH]; intros cache finals w w'; cbn [attachDetails].
  - unfold ret. intros [= <- _] f [].
  - destruct (lookupCache (imovelId item) cache) as [d|].
    + unfold bind. destruct (attachDetails env cache rest w) as [[fs|m] w1] eqn:Hr; [|discriminate].
      unfold ret. intros [= <- _] f [<-|Hin]; [now exists d | exact (IH _ _ _ _ Hr f Hin)].
    + unfold bind at 1. destruct (fetchDetail env (imovelId item) w) as [[d|m] w1]; [|discriminate].
      unfold bind. destruct (attachDetails env _ rest w1) as [[fs|m] w2] eqn:Hr; [|discriminate].
      unfold ret. intros [= <- _] f [<-|Hin]; [now exists d | exact (IH _ _ _ _ Hr f Hin)].
Qed.

End Run.

(** ** src/fs-api/writeCsv.ts: the CSV text can be read back *)

Module CsvText.
Import JsString JsNumber Models Dom Http Caixa Scrape.
Local Open Scope string_scope.

(** Reading a rendered field back.  Inside quotes a doubled quote stands for
    one quote and a single quote ends the field; outside, the field runs to
    the next comma or line feed. *)
Fixpoint readQuoted (s : string) : string * string :=
  match s with
  | EmptyString => (EmptyString, EmptyString)
  | String c r =>
      if Ascii.eqb c quoteChar then
        match r with
        | String c2 r2 =>
            if Ascii.eqb c2 quoteChar
            then let '(f, rest) := readQuoted r2 in (String quoteChar f, rest)
            else (EmptyString, r)
        | EmptyString => (EmptyString, EmptyString)
        end
      else let '(f, rest) := readQuoted r in (String c f, rest)
  end.

Definition isPlain (c : ascii) : bool :=
  negb (Ascii.eqb c quoteChar || Ascii.eqb c "," || Ascii.eqb c newlineChar).

Definition readField (s : string) : string * string :=
  match s with
  | String c r =>
      if Ascii.eqb c quoteChar then readQuoted r
      else (takeWhile isPlain s, dropWhile isPlain s)
  | EmptyString => (EmptyString, EmptyString)
  end.

(** What follows a field in a record: a comma or the line feed. *)
Definition afterField (rest : string) : bool :=
  startsWith "," rest || startsWith newline rest.

(** *** Facts *)

Lemma readQuoted_escapeQuotes (a rest : string) :
  startsWith (String quoteChar EmptyString) rest = false ->
  readQuoted (escapeQuotes a ++ String quoteChar rest) = (a, rest).
Proof.
  intros Hrest. induction a as [|c a IH]; cbn [escapeQuotes append readQuoted].
  - rewrite Ascii.eqb_refl. destruct rest as [|c2 r2]; [reflexivity|].
    cbn [startsWith] in Hrest. rewrite andb_true_r, Ascii.eqb_sym in Hrest.
    now rewrite Hrest.
  - destruct (Ascii.eqb c quoteChar) eqn:E.
    + cbn [append readQuoted]. rewrite !Ascii.eqb_refl, IH.
      apply Ascii.eqb_eq in E. now subst.
    + cbn [append readQuoted]. now rewrite E, IH.
Qed.

Lemma needsQuote_plain (s : string) :
  needsQuote s = false -> JsString.forallb isPlain s = true.
Proof.
  unfold needsQuote. induction s as [|c r IH]; [reflexivity|].
  cbn [JsString.existsb JsString.forallb]. intros H.
  apply orb_false_iff in H as [Hc Hr]. unfold isPlain at 1. rewrite Hc. now apply IH.
Qed.

Lemma afterField_not_plain (rest : string) :
  afterField rest = true ->
  startsWith (String quoteChar EmptyString) rest = false /\
  takeWhile isPlain rest = EmptyString /\ dropWhile isPlain rest = rest.
Proof.
  unfold afterField. destruct rest as [|c r]; [discriminate|].
  cbn [startsWith newline]. rewrite !andb_true_r. intros H.
  apply orb_true_iff in H as [H|H]; apply Ascii.eqb_eq in H; subst c; repeat split.
Qed.

Lemma takeWhile_plain (s rest : string) :
  JsString.forallb isPlain s = true -> afterField rest = true ->
  takeWhile isPlain (s ++ rest) = s /\ dropWhile isPlain (s ++ rest) = rest.
Proof.
  intros Hs Hrest. destruct (afterField_not_plain rest Hrest) as (_ & Ht & Hd).
  induction s as [|c r IH]; [now split|].
  cbn [JsString.forallb] in Hs. apply andb_true_iff in Hs as [Hc Hr].
  cbn [append takeWhile dropWhile]. rewrite Hc. destruct (IH Hr) as [-> ->]. now split.
Qed.

(** A field is read back from its rendering, whatever field follows. *)
Lemma readField_renderField (f rest : string) :
  afterField rest = true -> readField (renderField f ++ rest) = (f, rest).
Proof.
  intros Hrest. destruct (afterField_not_plain rest Hrest) as (Hq & Ht & Hd).
  unfold renderField. destruct (needsQuote f) eqn:Hn.
  - cbn [append readField]. rewrite Ascii.eqb_refl.
    rewrite append_assoc. cbn [append]. now apply readQuoted_escapeQuotes.
  - apply needsQuote_plain in Hn.
    destruct (takeWhile_plain f rest Hn Hrest) as [H1 H2].
    destruct f as [|c r].
    + cbn [append]. unfold readField. destruct rest as [|c2 r2]; [discriminate|].
      cbn [startsWith] in Hq. rewrite andb_true_r, Ascii.eqb_sym in Hq. rewrite Hq.
      cbn [append] in H1, H2. now rewrite H1, H2.
    + cbn [append readField]. cbn [JsString.forallb] in Hn.
      apply andb_true_iff in Hn as [Hc _]. unfold isPlain in Hc.
      apply negb_true_iff, orb_false_iff in Hc as [Hc _].
      apply orb_false_iff in Hc as [Hc _]. rewrite Hc.
      cbn [append] in H1, H2. now rewrite H1, H2.
Qed.

(** The fields of a record, and what follows the record, are determined by
    its text. *)
Lemma renderRecord_inj (fs : list string) :
  forall gs x y,
    fs <> [] -> gs <> [] ->
    renderRecord fs ++ x = renderRecord gs ++ y -> fs = gs /\ x = y.
Proof.
  unfold renderRecord.
  induction fs as [|f fs IH]; intros gs x y Hfs Hgs H; [congruence|].
  destruct gs as [|g gs]; [congruence|].
  cbn [map join] in H.
  destruct (map renderField fs) as [|f2 fs2] eqn:Ef;
    destruct (map renderField gs) as [|g2 gs2] eqn:Eg.
  - destruct fs; [|discriminate]. destruct gs; [|discriminate].
    rewrite !append_assoc in H. apply (f_equal readField) in H.
    rewrite !readField_renderField in H by reflexivity.
    injection H as -> ->. now split.
  - exfalso. rewrite !append_assoc in H. apply (f_equal readField) in H.
    rewrite !readField_renderField in H by reflexivity.
    discriminate H.
  - exfalso. rewrite !append_assoc in H. apply (f_equal readField) in H.
    rewrite !readField_renderField in H by reflexivity.
    discriminate H.
  - rewrite !append_assoc in H. pose proof (f_equal readField H) as Hr.
    rewrite !readField_renderField in Hr by reflexivity.
    injection Hr as -> Hr.
    change (join "," (f2 :: fs2) ++ newline ++ x = join "," (g2 :: gs2) ++ newline ++ y) in Hr.
    rewrite <- !append_assoc in Hr.
    destruct (IH gs x y) as [-> ->].
    + intros ->. discriminate.
    + intros ->. discriminate.
    + rewrite ?Ef, ?Eg. exact Hr.
    + now split.
Qed.

Lemma renderRecord_not_empty (fs : list string) (x : string) :
  renderRecord fs ++ x <> EmptyString.
Proof.
  unfold renderRecord. destruct (join "," (map renderField fs)); discriminate.
Qed.

Lemma records_inj (rs : list (list string)) :
  forall rs',
    Forall (fun r => r <> []) rs -> Forall (fun r => r <> []) rs' ->
    String.concat "" (map renderRecord rs) = String.concat "" (map renderRecord rs') ->
    rs = rs'.
Proof.
  induction rs as [|r rs IH]; intros [|r' rs'] Hrs Hrs' H.
  - reflexivity.
  - exfalso. cbn [map] in H. rewrite concat_cons in H. symmetry in H.
    exact (renderRecord_not_empty _ _ H).
  - exfalso. cbn [map] in H. rewrite concat_cons in H.
    exact (renderRecord_not_empty _ _ H).
  - cbn [map] in H. rewrite !concat_cons in H.
    inversion Hrs as [|? ? Hr Hrest]; subst. inversion Hrs' as [|? ? Hr' Hrest']; subst.
    destruct (renderRecord_inj r r' _ _ Hr Hr' H) as [-> Htail].
    f_equal. now apply IH.
Qed.

(** *** The property *)

(** X7: the CSV text determines the table: two lists of items with one and the
    same CSV text have the same cells, row by row and column by column;
    quoting loses nothing, and a field is read back from its rendering
    whatever follows it in the record. *)
Theorem stringify_injective (numberToString : Num -> string) (items items' : list ImovelListItem) :
  stringify numberToString items = stringify numberToString items' ->
  map (cells numberToString) items = map (cells numberToString) items'.
Proof.
  unfold stringify. intros H.
  destruct (renderRecord_inj COLUMNS COLUMNS _ _ ltac:(discriminate) ltac:(discriminate) H)
    as [_ Hrows].
  rewrite <- !(map_map (cells numberToString) renderRecord) in Hrows.
  apply records_inj in Hrows; [exact Hrows| |];
    apply Forall_forall; intros r Hr; apply in_map_iff in Hr as (i & <- & _); discriminate.
Qed.

(** An item with an empty [modalidade] in place of an absent one. *)
Definition blankModalidade (i : ImovelListItem) : ImovelListItem :=
  {| imovelId := imovelId i; uf := uf i; cidadeId := cidadeId i; titulo := titulo i;
     modalidade := Some EmptyString; tipoImovel := tipoImovel i;
     areaUtilM2 := areaUtilM2 i; quartos := quartos i; vagas := vagas i;
     valorAvaliacao := valorAvaliacao i; valorMinimo := valorMinimo i;
     descontoPercent := descontoPercent i; enderecoRaw := enderecoRaw i;
     observacoesRaw := observacoesRaw i; page := page i |}.

(** Instance: the cells are determined, the items are not.  An item whose
    title needs quotes, with an absent and with an empty [modalidade], gives
    one CSV text, hence the same cells. *)
Lemma stringify_injective_witness :
  tiedItem "Casa, com quintal" <> blankModalidade (tiedItem "Casa, com quintal") /\
  stringify (fun _ => EmptyString) [tiedItem "Casa, com quintal"] =
    stringify (fun _ => EmptyString) [blankModalidade (tiedItem "Casa, com quintal")] /\
  map (cells (fun _ => EmptyString)) [tiedItem "Casa, com quintal"] =
    map (cells (fun _ => EmptyString)) [blankModalidade (tiedItem "Casa, com quintal")].
Proof.
  split; [discriminate|]. split; [reflexivity|].
  exact (stringify_injective (fun _ => EmptyString) [tiedItem "Casa, com quintal"]
           [blankModalidade (tiedItem "Casa, com quintal")] eq_refl).
Defined.

(** *** Reading the whole text back *)

(** A record read back: its fields, up to the line feed that ends it, and
    what follows; [fuel] bounds the number of fields. *)
Fixpoint readRecord (fuel : nat) (s : string) : list string * string :=
  match fuel with
  | O => ([], s)
  | S fuel' =>
      let '(field, rest) := readField s in
      match rest with
      | String c r =>
          if Ascii.eqb c ","
          then let '(fields, rest') := readRecord fuel' r in (field :: fields, rest')
          else ([field], r)
      | EmptyString => ([field], EmptyString)
      end
  end.

(** The records of a text; a text has no more records, and a record no more
    fields, than the text has code units. *)
Fixpoint readRecords (fuel : nat) (s : string) : list (list string) :=
  match fuel with
  | O => []
  | S fuel' =>
      match s with
      | EmptyString => []
      | String _ _ =>
          let '(fields, rest) := readRecord (String.length s) s in
          fields :: readRecords fuel' rest
      end
  end.

Definition readCsv (s : string) : list (list string) := readRecords (String.length s) s.

Lemma length_append (a b : string) :
  String.length (a ++ b) = (String.length a + String.length b)%nat.
Proof. induction a as [|c a IH]; [reflexivity|]. cbn [append String.length]. now rewrite IH. Qed.

Lemma readRecord_renderRecord (fs : list string) :
  forall fuel rest,
    fs <> [] -> (List.length fs <= fuel)%nat ->
    readRecord fuel (renderRecord fs ++ rest) = (fs, rest).
Proof.
  unfold renderRecord.
  induction fs as [|f fs IH]; intros fuel rest Hne Hfuel; [congruence|].
  destruct fuel as [|fuel]; [cbn in Hfuel; lia|].
  cbn [readRecord map]. destruct fs as [|g fs].
  - cbn [map join]. rewrite append_assoc.
    rewrite readField_renderField by reflexivity. cbn [newline append].
    replace (Ascii.eqb newlineChar ",") with false by reflexivity. reflexivity.
  - change (join "," (renderField f :: map renderField (g :: fs)))
      with (renderField f ++ "," ++ join "," (map renderField (g :: fs))).
    rewrite !append_assoc. rewrite readField_renderField by reflexivity.
    cbn [append]. rewrite Ascii.eqb_refl.
    rewrite <- append_assoc. rewrite (IH fuel rest); [reflexivity | discriminate|].
    cbn [List.length] in *. lia.
Qed.

Lemma length_renderRecord (fs : list string) (rest : string) :
  (List.length fs <= String.length (renderRecord fs ++ rest))%nat.
Proof.
  unfold renderRecord. induction fs as [|f fs IH]; [apply Nat.le_0_l|].
  destruct fs as [|g fs].
  - cbn [map join List.length]. rewrite !length_append. cbn. lia.
  - change (join "," (map renderField (f :: g :: fs)))
      with (renderField f ++ "," ++ join "," (map renderField (g :: fs))).
    rewrite !append_assoc, length_append. cbn [append String.length].
    rewrite <- append_assoc. cbn [List.length] in *. lia.
Qed.

Lemma readRecords_render (rs : list (list string)) :
  forall fuel,
    Forall (fun r => r <> []) rs -> (List.length rs <= fuel)%nat ->
    readRecords fuel (String.concat "" (map renderRecord rs)) = rs.
Proof.
  induction rs as [|r rs IH]; intros fuel Hrs Hfuel.
  - destruct fuel; reflexivity.
  - destruct fuel as [|fuel]; [cbn in Hfuel; lia|].
    inversion Hrs as [|? ? Hr Hrest]; subst.
    cbn [map]. rewrite concat_cons. cbn [readRecords].
    destruct (renderRecord r ++ String.concat "" (map renderRecord rs)) as [|c t] eqn:E;
      [exfalso; exact (renderRecord_not_empty _ _ E)|].
    rewrite <- E.
    rewrite (readRecord_renderRecord r _ _ Hr (length_renderRecord r _)).
    f_equal. apply IH; [assumption | cbn [List.length] in Hfuel; lia].
Qed.

Lemma length_records (rs : list (list string)) :
  (List.length rs <= String.length (String.concat "" (map renderRecord rs)))%nat.
Proof.
  induction rs as [|r rs IH]; [apply Nat.le_0_l|].
  cbn [map]. rewrite concat_cons, length_append. unfold renderRecord at 1.
  rewrite length_append. cbn [List.length newline String.length]. lia.
Qed.

(** The text read back is the table it was made from. *)
Lemma readCsv_stringify (numberToString : Num -> string) (items : list ImovelListItem) :
  readCsv (stringify numberToString items) = COLUMNS :: map (cells numberToString) items.
Proof.
  unfold readCsv, stringify.
  rewrite <- (map_map (cells numberToString) renderRecord), <- concat_cons.
  change (renderRecord COLUMNS :: map renderRecord (map (cells numberToString) items))
    with (map renderRecord (COLUMNS :: map (cells numberToString) items)).
  apply readRecords_render; [|apply length_records].
  constructor; [discriminate|].
  apply Forall_forall. intros r Hr. apply in_map_iff in Hr as (i & <- & _). discriminate.
Qed.

(** *** The file a run writes *)

(** C8: when [scrapeCaixa] returns, the file at [opts.out] holds the CSV
    text of the items extracted from the pages.  Read back, the text is a
    table whose first record holds the fifteen column names in their order
    and whose other records are, item by item, the fifteen fields of the
    item in the order of the columns: the strings as they are, the numbers
    as [String] prints them, and an empty field for an absent property.  The
    header stands on the first line, each item makes one record, and
    [rows] is the number of items written. *)
Theorem writeImoveisCsv_spec (env : Environment) (opts : ScrapeOptions)
    (w w' : World) (r : ScrapeResult) :
  scrapeCaixa env opts w = (Ok r, w') ->
  let str := fun v : option string => match v with Some s => s | None => EmptyString end in
  let num := fun v : option Num =>
               match v with Some n => numberToString env n | None => EmptyString end in
  (forall path items w0,
     writeOutcome env path (stringify (numberToString env) items) = Written ->
     writeImoveisCsv env path items w0 =
     (Ok tt, {| Caixa.sent := Caixa.sent w0;
                files := (path, stringify (numberToString env) items) :: files w0 |})) /\
  exists search w1 pages w2 items,
    Caixa.runSearch (server env) (load env) (searchPayload opts) w = (Ok search, w1) /\
    forEach (pageTask env opts) (pageTasks opts search) w1 = (Ok pages, w2) /\
    Permutation items (List.concat pages) /\
    List.hd_error (files w') = Some (optOut opts, stringify (numberToString env) items) /\
    readCsv (stringify (numberToString env) items) =
      [ "imovelId"; "uf"; "cidadeId"; "titulo"; "modalidade"; "tipoImovel";
        "areaUtilM2"; "quartos"; "vagas"; "valorAvaliacao"; "valorMinimo";
        "descontoPercent"; "enderecoRaw"; "observacoesRaw"; "page" ] ::
      map (fun i =>
             [ imovelId i; uf i; cidadeId i; titulo i;
               str (modalidade i); str (tipoImovel i);
               num (areaUtilM2 i); num (quartos i); num (vagas i);
               num (valorAvaliacao i); num (valorMinimo i); num (descontoPercent i);
               str (enderecoRaw i); str (observacoesRaw i);
               showZ (page i) ]) items /\
    startsWith
      "imovelId,uf,cidadeId,titulo,modalidade,tipoImovel,areaUtilM2,quartos,vagas,valorAvaliacao,valorMinimo,descontoPercent,enderecoRaw,observacoesRaw,page"
      (stringify (numberToString env) items) = true /\
    countRecords false (stringify (numberToString env) items) = S (List.length items) /\
    rows r = Z.of_nat (List.length items) /\
    outPath r = optOut opts.
Proof.
  intros Hrun str num. split.
  { intros path items w0 Hw. unfold writeImoveisCsv, writeFile. now rewrite Hw. }
  destruct (scrapeCaixa_run env opts w w' r Hrun)
    as (search & w1 & pages & w2 & Hsearch & Hpages & Hfile & Hrows & Hout).
  exists search, w1, pages, w2, (sortResults env (List.concat pages)).
  split; [exact Hsearch|]. split; [exact Hpages|]. split; [apply sort_perm|].
  split; [exact Hfile|]. split; [apply readCsv_stringify|].
  split; [reflexivity|].
  split; [apply countRecords_stringify|].
  split; [now rewrite sortResults_length | exact Hout].
Qed.

(** C8, instance: the demonstration run writes a header and three records,
    which read back as the three items, and returns three rows. *)
Lemma writeImoveisCsv_witness :
  demoRun = (Ok {| outPath := "output/output.csv"; rows := 3 |}, snd demoRun) /\
  option_map (fun file => (fst file, readCsv (snd file))) (List.hd_error (files (snd demoRun))) =
    Some ("output/output.csv",
          [ COLUMNS;
            ["123"; "RJ"; "7084"; "Apartamento, Centro"; ""; ""; ""; ""; ""; ""; ""; ""; ""; ""; "1"];
            ["855"; "RJ"; "7084"; "Casa"; ""; ""; ""; ""; ""; ""; ""; ""; ""; ""; "1"];
            ["77"; "RJ"; "7084"; "Terreno"; ""; ""; ""; ""; ""; ""; ""; ""; ""; ""; "2"] ]) /\
  exists items,
    List.hd_error (files (snd demoRun)) =
      Some ("output/output.csv", stringify (fun _ => EmptyString) items) /\
    countRecords false (stringify (fun _ => EmptyString) items) = 4%nat /\
    List.length items = 3%nat.
Proof.
  split; [exact demoRun_returns|]. split; [vm_compute; reflexivity|].
  destruct (writeImoveisCsv_spec demoEnvironment demoScrapeOptions initialWorld
              (snd demoRun) _ demoRun_returns)
    as (_ & _ & _ & _ & _ & items & _ & _ & _ & Hfile & _ & _ & Hcount & Hrows & _).
  exists items. split; [exact Hfile|].
  cbn [rows] in Hrows.
  assert (List.length items = 3%nat) as Hlen by lia.
  split; [|exact Hlen].
  cbn [numberToString demoEnvironment] in Hcount. now rewrite Hcount, Hlen.
Defined.

End CsvText.

(** ** Letter case and the pieces of the regular expressions *)

Module Latin1.
Import JsString JsNumber.
Local Open Scope string_scope.

(** The accented letters of the labels, one code unit each. *)
Definition unit (n : nat) : string := String (ascii_of_nat n) EmptyString.

Definition Aacute : string := unit 193.
Definition aacute : string := unit 225.
Definition atilde : string := unit 227.
Definition ccedil : string := unit 231.
Definition iacute : string := unit 237.
Definition oacute : string := unit 243.
Definition otilde : string := unit 245.
Definition uacute : string := unit 250.

(** Canonicalize, for a regular expression with the flag [i] and without the
    flag [u]: the upper-case form of a code unit when that is one code unit.
    Below 256 the letters a-z and the small letters 224 to 254 (the division
    sign 247 apart) move down by 32; the micro sign and the y with diaeresis
    go to code units above 255; the sharp s, whose upper case is two units,
    stays. *)
Definition canonicalize (c : ascii) : N :=
  let n := N_of_ascii c in
  if (((97 <=? n) && (n <=? 122)) || ((224 <=? n) && (n <=? 254) && negb (n =? 247)))%N
  then (n - 32)%N
  else if (n =? 181)%N then 924%N
  else if (n =? 255)%N then 376%N
  else n.

(** Two code units match when letter case is ignored. *)
Definition eqCI (a b : ascii) : bool := N.eqb (canonicalize a) (canonicalize b).

(** A literal of the pattern at the start of [s], letter case ignored: what
    follows it. *)
Fixpoint litCI (p s : string) : option string :=
  match p with
  | EmptyString => Some s
  | String a p' =>
      match s with
      | String b s' => if eqCI a b then litCI p' s' else None
      | EmptyString => None
      end
  end.

(** Two texts of the same letters: code unit by code unit they match when
    letter case is ignored. *)
Fixpoint sameLetters (a b : string) : bool :=
  match a, b with
  | EmptyString, EmptyString => true
  | String x a', String y b' => eqCI x y && sameLetters a' b'
  | _, _ => false
  end.

(** [\s*] before something that is not white space. *)
Definition ws0 (s : string) : string := dropWhile isWhiteSpace s.

(** [\s+] before something that is not white space. *)
Definition ws1 (s : string) : option string :=
  match s with
  | String c _ => if isWhiteSpace c then Some (dropWhile isWhiteSpace s) else None
  | EmptyString => None
  end.

(** The leftmost match of a pattern that captures a group: the group. *)
Fixpoint leftmostGroup (at_ : string -> option string) (s : string) : option string :=
  match at_ s with
  | Some g => Some g
  | None =>
      match s with
      | EmptyString => None
      | String _ r => leftmostGroup at_ r
      end
  end.

(** [re.test(s)] for a pattern given by its match at a position. *)
Fixpoint test (at_ : string -> bool) (s : string) : bool :=
  at_ s ||
  match s with
  | EmptyString => false
  | String _ r => test at_ r
  end.

(** [s.search(re)]: the index of the leftmost match. *)
Fixpoint search (at_ : string -> bool) (s : string) : option nat :=
  if at_ s then Some 0
  else match s with
       | EmptyString => None
       | String _ r => option_map S (search at_ r)
       end.

(** [s.slice(0, n)] *)
Fixpoint take (n : nat) (s : string) : string :=
  match n, s with
  | O, _ => EmptyString
  | S n', String c r => String c (take n' r)
  | S _, EmptyString => EmptyString
  end.

(** [.text()] of [.first()]: the text of the first node of a selection, the
    empty string for an empty selection. *)
Definition textOfFirst (selection : list Dom.node) : string :=
  match selection with
  | n :: _ => Dom.textContent n
  | [] => EmptyString
  end.

(** [s.replace(/\s+/g, " ").trim()] *)
Definition squeeze (s : string) : string := trim (collapseSpaces s).

(** In a squeezed text the white space is single spaces between words. *)
Fixpoint singleSpaced (s : string) : bool :=
  match s with
  | EmptyString => true
  | String c r =>
      (negb (isWhiteSpace c) ||
       (Ascii.eqb c " " && match r with
                           | String d _ => negb (isWhiteSpace d)
                           | EmptyString => true
                           end)) && singleSpaced r
  end.

Definition notWhiteSpace (c : ascii) : bool := negb (isWhiteSpace c).

(** *** Facts *)

Lemma take_drop (n : nat) (s : string) : take n s ++ drop n s = s.
Proof.
  revert s. induction n as [|n IH]; intros [|c r]; try reflexivity.
  cbn [take drop append]. now rewrite IH.
Qed.

Lemma collapseFrom_singleSpaced (s : string) :
  singleSpaced (collapseFrom false s) = true /\
  singleSpaced (collapseFrom true s) = true /\
  (forall r', collapseFrom true s = r' ->
     match r' with String d _ => isWhiteSpace d = false | EmptyString => True end).
Proof.
  induction s as [|c r (IHf & IHt & IHh)];
    [split; [reflexivity|]; split; [reflexivity|]; intros r' <-; exact I|].
  cbn [collapseFrom]. destruct (isWhiteSpace c) eqn:Hc.
  - split; [|split].
    + cbn [singleSpaced]. rewrite IHt, andb_true_r. cbn [isWhiteSpace].
      replace (negb (isWhiteSpace " ")) with false by reflexivity.
      cbn [orb]. rewrite Ascii.eqb_refl. cbn [andb].
      specialize (IHh _ eq_refl). destruct (collapseFrom true r); [reflexivity|].
      now rewrite IHh.
    + exact IHt.
    + exact IHh.
  - split; [|split].
    + cbn [singleSpaced]. now rewrite Hc, IHf.
    + cbn [singleSpaced]. now rewrite Hc, IHf.
    + intros r' <-. exact Hc.
Qed.

Lemma singleSpaced_dropWhile (s : string) :
  singleSpaced s = true -> singleSpaced (dropWhile isWhiteSpace s) = true.
Proof.
  induction s as [|c r IH]; [reflexivity|]. cbn [dropWhile].
  destruct (isWhiteSpace c); [|trivial]. cbn [singleSpaced]. intros H.
  apply andb_true_iff in H as [_ H]. now apply IH.
Qed.

Lemma singleSpaced_trimEnd (s : string) :
  singleSpaced s = true -> singleSpaced (trimEnd s) = true.
Proof.
  induction s as [|c r IH]; [reflexivity|]. cbn [singleSpaced trimEnd]. intros H.
  apply andb_true_iff in H as [Hc Hr].
  destruct (isWhiteSpace c && isEmpty (trimEnd r)) eqn:E; [reflexivity|].
  cbn [singleSpaced]. rewrite (IH Hr), andb_true_r.
  destruct (isWhiteSpace c) eqn:Hws; [|reflexivity].
  cbn [negb orb andb] in *.
  apply andb_true_iff in Hc as [Hsp Hnext]. rewrite Hsp. cbn [andb].
  destruct r as [|d t]; [discriminate|].
  cbn [trimEnd] in *. apply negb_true_iff in Hnext. rewrite Hnext. cbn [andb].
  now rewrite Hnext.
Qed.

Lemma squeeze_singleSpaced (s : string) : singleSpaced (squeeze s) = true.
Proof.
  unfold squeeze, trim, trimStart, collapseSpaces.
  apply singleSpaced_trimEnd, singleSpaced_dropWhile, collapseFrom_singleSpaced.
Qed.

Lemma collapseFrom_fixed (s : string) :
  singleSpaced s = true ->
  collapseFrom false s = s /\
  (match s with String d _ => isWhiteSpace d = false | EmptyString => True end ->
   collapseFrom true s = s).
Proof.
  induction s as [|c r IH]; [now split|]. cbn [singleSpaced]. intros H.
  apply andb_true_iff in H as [Hc Hr]. destruct (IH Hr) as [IHf IHt].
  cbn [collapseFrom]. destruct (isWhiteSpace c) eqn:Hws.
  - cbn [negb orb] in Hc. apply andb_true_iff in Hc as [Hsp Hnext].
    apply Ascii.eqb_eq in Hsp. subst c. split; [|discriminate].
    f_equal. apply IHt. destruct r; [exact I | now apply negb_true_iff in Hnext].
  - rewrite IHf. now split.
Qed.

Lemma squeeze_idem (s : string) : squeeze (squeeze s) = squeeze s.
Proof.
  unfold squeeze at 1. unfold collapseSpaces.
  rewrite (proj1 (collapseFrom_fixed _ (squeeze_singleSpaced s))).
  unfold squeeze. apply trim_idem.
Qed.

Lemma notWhiteSpace_eq (c : ascii) : notWhiteSpace c = negb (isWhiteSpace c).
Proof. reflexivity. Qed.

Lemma filter_dropWhile_ws (s : string) :
  JsString.filter notWhiteSpace (dropWhile isWhiteSpace s) = JsString.filter notWhiteSpace s.
Proof.
  induction s as [|c r IH]; [reflexivity|]. cbn [dropWhile JsString.filter].
  rewrite notWhiteSpace_eq. destruct (isWhiteSpace c) eqn:Hc; cbn [negb]; [exact IH|].
  cbn [JsString.filter]. now rewrite notWhiteSpace_eq, Hc.
Qed.

Lemma filter_trimEnd_ws (s : string) :
  JsString.filter notWhiteSpace (trimEnd s) = JsString.filter notWhiteSpace s.
Proof.
  induction s as [|c r IH]; [reflexivity|]. cbn [trimEnd JsString.filter].
  destruct (isWhiteSpace c && isEmpty (trimEnd r)) eqn:E.
  - apply andb_true_iff in E as [Hc Hr]. rewrite notWhiteSpace_eq, Hc. cbn [negb].
    rewrite <- IH. now destruct (trimEnd r).
  - cbn [JsString.filter]. now rewrite IH.
Qed.

Lemma filter_trim_ws (s : string) :
  JsString.filter notWhiteSpace (trim s) = JsString.filter notWhiteSpace s.
Proof. unfold trim, trimStart. now rewrite filter_trimEnd_ws, filter_dropWhile_ws. Qed.

Lemma filter_collapseFrom_ws (s : string) :
  forall inRun,
    JsString.filter notWhiteSpace (collapseFrom inRun s) = JsString.filter notWhiteSpace s.
Proof.
  induction s as [|c r IH]; intros inRun; [reflexivity|]. cbn [collapseFrom JsString.filter].
  rewrite notWhiteSpace_eq. destruct (isWhiteSpace c) eqn:Hc; cbn [negb].
  - destruct inRun; [apply IH|]. cbn [JsString.filter]. apply IH.
  - cbn [JsString.filter]. rewrite notWhiteSpace_eq, Hc. cbn [negb]. now rewrite IH.
Qed.

Lemma filter_squeeze_ws (s : string) :
  JsString.filter notWhiteSpace (squeeze s) = JsString.filter notWhiteSpace s.
Proof. unfold squeeze, collapseSpaces. now rewrite filter_trim_ws, filter_collapseFrom_ws. Qed.

Lemma isEmpty_filter_ws (s : string) :
  isEmpty (JsString.filter notWhiteSpace s) = JsString.forallb isWhiteSpace s.
Proof.
  induction s as [|c r IH]; [reflexivity|]. cbn [JsString.filter JsString.forallb].
  rewrite notWhiteSpace_eq. destruct (isWhiteSpace c); [exact IH | reflexivity].
Qed.

Lemma trim_empty_allWs (s : string) :
  isEmpty (trim s) = JsString.forallb isWhiteSpace s.
Proof.
  destruct (JsString.forallb isWhiteSpace s) eqn:H.
  - now rewrite (trim_allWs _ H).
  - destruct (isEmpty (trim s)) eqn:E; [|reflexivity].
    rewrite <- isEmpty_filter_ws, <- filter_trim_ws in H.
    destruct (trim s); [discriminate H | discriminate E].
Qed.

Lemma squeeze_empty_allWs (s : string) :
  isEmpty (squeeze s) = JsString.forallb isWhiteSpace s.
Proof.
  unfold squeeze. rewrite trim_empty_allWs, <- isEmpty_filter_ws.
  unfold collapseSpaces. rewrite filter_collapseFrom_ws. apply isEmpty_filter_ws.
Qed.

End Latin1.

(** ** src/parsers/parseListPage.ts: the optional fields of a card *)

Module ListFields.
Import JsString JsNumber Models Dom Latin1.
Local Open Scope string_scope.

(** [card.text().replace(/\s+/g, " ").trim()] *)
Definition cardText (card : node) : string := squeeze (textContent card).

(** [/LABEL\s*R\$\s*([\d\.\,]+)/i] at the start of [s], for the label of a
    price: the run of digits, points and commas captured, the longest one. *)
Definition valorAt (label : string) (s : string) : option string :=
  match litCI label s with
  | Some afterLabel =>
      match litCI "R$" (ws0 afterLabel) with
      | Some afterCurrency =>
          let g := takeWhile brazilianChar (ws0 afterCurrency) in
          if isEmpty g then None else Some g
      | None => None
      end
  | None => None
  end.

Definition avaliacaoLabel : string := "Valor de avalia" ++ ccedil ++ atilde ++ "o:".
Definition minimoLabel : string := "Valor m" ++ iacute ++ "nimo de venda:".

(** [const raw = firstMatch(cardText, re); return raw ? parseBRL(raw) : undefined] *)
Definition valorOf (label : string) (text : string) : option Num :=
  match ListPage.firstMatch (leftmostGroup (valorAt label) text) with
  | Some raw => parseBRL raw
  | None => None
  end.

Definition valorAvaliacao (card : node) : option Num := valorOf avaliacaoLabel (cardText card).

Definition valorMinimo (card : node) : option Num := valorOf minimoLabel (cardText card).

(** A run of the class [p], the longest one, then [\s*] and the literal
    [suffix], letter case ignored: the run. *)
Definition runBefore (p : ascii -> bool) (suffix : string) (s : string) : option string :=
  let g := takeWhile p s in
  if isEmpty g then None
  else match litCI suffix (ws0 (dropWhile p s)) with
       | Some _ => Some g
       | None => None
       end.

(** [/desconto de\s*([\d\.\,]+)\s*%/i] at the start of [s]. *)
Definition descontoAt (s : string) : option string :=
  match litCI "desconto de" s with
  | Some r => runBefore brazilianChar "%" (ws0 r)
  | None => None
  end.

Definition descontoOf (text : string) : option Num :=
  match ListPage.firstMatch (leftmostGroup descontoAt text) with
  | Some raw => parseBrazilianNumber raw
  | None => None
  end.

Definition descontoPercent (card : node) : option Num := descontoOf (cardText card).

(** The lines of the description block, given the text of the fragment:
    [.replace(/\r/g, "").split("\n").map((l) => l.trim()).filter(Boolean)]. *)
Definition carriageReturn : ascii := ascii_of_nat 13.
Definition lineFeed : ascii := ascii_of_nat 10.

Definition detailsLines (text : string) : list string :=
  List.filter truthy (map trim (split lineFeed (removeAll carriageReturn text))).

(** [detailsText[0] ?? ""] *)
Definition firstLine (lines : list string) : string := List.hd EmptyString lines.

(** [/-\s*([\d\.\,]+)\s*m2/i] at the start of [s]. *)
Definition areaAt (s : string) : option string :=
  if startsWith "-" s then runBefore brazilianChar "m2" (ws0 (drop 1 s)) else None.

Definition areaUtilM2 (line : string) : option Num :=
  match ListPage.firstMatch (leftmostGroup areaAt line) with
  | Some raw => parseBrazilianNumber raw
  | None => None
  end.

(** [/,\s*(\d+)\s*WORD/i] at the start of [s]. *)
Definition countAt (word : string) (s : string) : option string :=
  if startsWith "," s then runBefore isDigit word (ws0 (drop 1 s)) else None.

(** [const raw = firstMatch(firstLine, re); return raw ? Number(raw) : undefined] *)
Definition countOf (word : string) (line : string) : option Num :=
  match ListPage.firstMatch (leftmostGroup (countAt word) line) with
  | Some raw => Some (Number raw)
  | None => None
  end.

Definition quartos (line : string) : option Num := countOf "quarto" line.

Definition vagas (line : string) : option Num := countOf "vaga" line.

(** [s.split(" - ")]: the pieces between the occurrences of the separator,
    found from the left; [skip] counts the code units of an occurrence still
    to pass. *)
Fixpoint splitDash (skip : nat) (s : string) : list string :=
  match s with
  | EmptyString => [EmptyString]
  | String c r =>
      match skip with
      | S k => splitDash k r
      | O =>
          if startsWith " - " s then EmptyString :: splitDash 2 r
          else match splitDash 0 r with
               | h :: t => String c h :: t
               | [] => [String c EmptyString]
               end
      end
  end.

(** The non-blank pieces of the first line, trimmed. *)
Definition dashParts (line : string) : list string :=
  List.filter truthy (map trim (splitDash 0 line)).

(** [parts.length >= 2 ? parts[parts.length - 1] : undefined] *)
Definition modalidadeLinha (line : string) : option string :=
  let parts := dashParts line in
  if (2 <=? List.length parts)%nat then Some (List.last parts EmptyString) else None.

Definition attrStartsWith (name prefix : string) (n : node) : bool :=
  match attr name n with
  | Some v => startsWith prefix v
  | None => false
  end.

(** [card.find("div[id^='divContador'] b").first().text()
    .replace(/\s+/g, " ").trim() || undefined] *)
Definition modalidade (card : node) : option string :=
  let t := squeeze (textOfFirst
             (findBelow (fun n => hasTag "div" n && attrStartsWith "id" "divContador" n)
                        (hasTag "b") card)) in
  if truthy t then Some t else None.

(** [(modalidadeLinha || modalidade)?.trim()], kept when it is not empty. *)
Definition modalidadeFinal (line : string) (contador : option string) : option string :=
  let chosen := match modalidadeLinha line with
                | Some m => if truthy m then Some m else contador
                | None => contador
                end in
  match chosen with
  | Some m => let t := trim m in if truthy t then Some t else None
  | None => None
  end.

(** The pattern of [despesasLabel], letter case ignored, at the start of [s]. *)
Definition despesasLabel : string := "Despesas do im" ++ oacute ++ "vel".

Definition despesasAt (s : string) : bool :=
  match litCI despesasLabel s with Some _ => true | None => false end.

(** A literal stands at the start of [s], letter case ignored. *)
Definition labelAt (label s : string) : bool :=
  match litCI label s with Some _ => true | None => false end.

(** The address and the observations, given the block after the number of
    the property: [undefined] is [None], and a property that would be empty is
    left out of the item. *)
Definition kept (s : string) : option string := if truthy s then Some s else None.

Definition enderecoObservacoes (enderecoObsRaw : option string)
    : option string * option string :=
  match enderecoObsRaw with
  | Some raw =>
      if truthy raw then
        match search despesasAt raw with
        | None => (kept raw, None)
        | Some idx => (kept (trim (take idx raw)), kept (trim (drop idx raw)))
        end
      else (None, None)
  | None => (None, None)
  end.

(** *** Facts *)

Lemma eqCI_refl (c : ascii) : eqCI c c = true.
Proof. apply N.eqb_refl. Qed.

Lemma litCI_app (p r : string) : litCI p (p ++ r) = Some r.
Proof.
  induction p as [|a p IH]; [reflexivity|]. cbn [append litCI]. now rewrite eqCI_refl.
Qed.

Lemma ws0_app (w s : string) :
  JsString.forallb isWhiteSpace w = true -> ws0 (w ++ s) = ws0 s.
Proof. intros H. unfold ws0. now rewrite (dropWhile_app _ _ _ H). Qed.

Lemma ws0_fixed (s : string) :
  JsString.forallb isWhiteSpace (take 1 s) = false -> ws0 s = s.
Proof.
  destruct s as [|c r]; [discriminate|]. cbn [take JsString.forallb]. rewrite andb_true_r.
  intros H. unfold ws0. cbn [dropWhile]. now rewrite H.
Qed.

(** A run followed by something outside its class: the longest run. *)
Lemma run_app (p : ascii -> bool) (g rest : string) :
  JsString.forallb p g = true ->
  JsString.forallb p (take 1 rest) = false \/ rest = EmptyString ->
  takeWhile p (g ++ rest) = g /\ dropWhile p (g ++ rest) = rest.
Proof.
  intros Hg Hrest. rewrite (takeWhile_app _ _ _ Hg), (dropWhile_app _ _ _ Hg).
  destruct rest as [|d rest]; [now rewrite append_empty_r|].
  destruct Hrest as [H|H]; [|discriminate].
  cbn [take JsString.forallb] in H. rewrite andb_true_r in H.
  cbn [takeWhile dropWhile]. rewrite H. now rewrite append_empty_r.
Qed.

Lemma runBefore_app (p : ascii -> bool) (suffix g w rest : string) :
  JsString.forallb p g = true -> isEmpty g = false ->
  JsString.forallb isWhiteSpace w = true ->
  JsString.forallb isWhiteSpace (take 1 suffix) = false ->
  JsString.forallb p (take 1 (w ++ suffix ++ rest)) = false ->
  runBefore p suffix (g ++ w ++ suffix ++ rest) = Some g.
Proof.
  intros Hg Hne Hw Hsuffix Hnext. unfold runBefore.
  destruct (run_app p g (w ++ suffix ++ rest) Hg (or_introl Hnext)) as [-> ->].
  rewrite Hne, (ws0_app _ _ Hw), ws0_fixed, litCI_app; [reflexivity|].
  destruct suffix; [discriminate | exact Hsuffix].
Qed.

Lemma runBefore_run (p : ascii -> bool) (suffix s g : string) :
  runBefore p suffix s = Some g -> JsString.forallb p g = true /\ isEmpty g = false.
Proof.
  unfold runBefore. destruct (isEmpty (takeWhile p s)) eqn:E; [discriminate|].
  destruct (litCI suffix _); [|discriminate]. intros [= <-].
  split; [apply takeWhile_forallb | exact E].
Qed.

Lemma leftmostGroup_prop (at_ : string -> option string) (P : string -> Prop) :
  (forall s g, at_ s = Some g -> P g) ->
  forall s g, leftmostGroup at_ s = Some g -> P g.
Proof.
  intros H. induction s as [|c r IH]; intros g; cbn [leftmostGroup].
  - destruct (at_ "") eqn:E; [|discriminate]. intros [= <-]. eauto.
  - destruct (at_ (String c r)) eqn:E; [intros [= <-]; eauto | apply IH].
Qed.

Lemma firstMatch_run (p : ascii -> bool) (g : string) :
  (forall c, p c = true -> isWhiteSpace c = false) ->
  JsString.forallb p g = true -> isEmpty g = false ->
  ListPage.firstMatch (Some g) = Some g.
Proof.
  intros Hp Hg Hne. unfold ListPage.firstMatch.
  rewrite (trim_noWs g (forallb_existsb_false _ _ g Hp Hg)).
  unfold truthy. now rewrite Hne.
Qed.

Lemma brazilian_no_currency (g : string) :
  JsString.forallb brazilianChar g = true -> hasCurrency g = false.
Proof.
  induction g as [|c r IH]; [reflexivity|]. cbn [JsString.forallb hasCurrency]. intros H.
  apply andb_true_iff in H as [Hc Hr]. rewrite (IH Hr), orb_false_r.
  destruct (Ascii.eqb_spec c "R") as [->|_]; [discriminate Hc|].
  destruct (Ascii.eqb_spec c "r") as [->|_]; [discriminate Hc|]. reflexivity.
Qed.

Lemma parseBRL_run (g : string) :
  JsString.forallb brazilianChar g = true -> parseBRL g = parseBrazilianNumber g.
Proof.
  intros Hg. rewrite (parseBRL_plain g (brazilian_no_currency g Hg)).
  unfold stripLeadingCurrency.
  rewrite (trim_noWs g (forallb_existsb_false _ _ g brazilianChar_not_ws Hg)).
  destruct g as [|c r]; [reflexivity|]. cbn [startsWith].
  cbn [JsString.forallb] in Hg. apply andb_true_iff in Hg as [Hc _].
  destruct (Ascii.eqb_spec "R" c) as [<-|_]; [discriminate Hc | reflexivity].
Qed.

Lemma valorAt_run (label s g : string) :
  valorAt label s = Some g -> JsString.forallb brazilianChar g = true /\ isEmpty g = false.
Proof.
  unfold valorAt. destruct (litCI label s); [|discriminate].
  destruct (litCI "R$" _); [|discriminate].
  destruct (isEmpty (takeWhile brazilianChar _)) eqn:E; [discriminate|].
  intros [= <-]. split; [apply takeWhile_forallb | exact E].
Qed.

Lemma descontoAt_run (s g : string) :
  descontoAt s = Some g -> JsString.forallb brazilianChar g = true /\ isEmpty g = false.
Proof.
  unfold descontoAt. destruct (litCI "desconto de" s); [|discriminate]. apply runBefore_run.
Qed.

Lemma areaAt_run (s g : string) :
  areaAt s = Some g -> JsString.forallb brazilianChar g = true /\ isEmpty g = false.
Proof. unfold areaAt. destruct (startsWith "-" s); [|discriminate]. apply runBefore_run. Qed.

Lemma countAt_run (word s g : string) :
  countAt word s = Some g -> JsString.forallb isDigit g = true /\ isEmpty g = false.
Proof. unfold countAt. destruct (startsWith "," s); [|discriminate]. apply runBefore_run. Qed.

(** The numbers of a card are read from the runs the patterns capture. *)
Lemma captured_number (at_ : string -> option string) (p : ascii -> bool)
    (parse : string -> option Num) (text : string) :
  (forall c, p c = true -> isWhiteSpace c = false) ->
  (forall s g, at_ s = Some g -> JsString.forallb p g = true /\ isEmpty g = false) ->
  match ListPage.firstMatch (leftmostGroup at_ text) with
  | Some raw => parse raw
  | None => None
  end =
  match leftmostGroup at_ text with
  | Some g => parse g
  | None => None
  end.
Proof.
  intros Hp Hat. destruct (leftmostGroup at_ text) as [g|] eqn:E; [|reflexivity].
  destruct (leftmostGroup_prop at_ _ Hat text g E) as [Hg Hne].
  now rewrite (firstMatch_run p g Hp Hg Hne).
Qed.

(** *** Where a literal stands *)

Lemma litCI_same (p l r : string) : sameLetters p l = true -> litCI p (l ++ r) = Some r.
Proof.
  revert l. induction p as [|a p IH]; intros [|b l]; cbn [sameLetters]; try discriminate.
  - reflexivity.
  - intros H. apply andb_true_iff in H as [Hab Hl]. cbn [append litCI]. rewrite Hab.
    now apply IH.
Qed.

Lemma litCI_split (p s r : string) :
  litCI p s = Some r -> exists l, s = l ++ r /\ sameLetters p l = true.
Proof.
  revert s. induction p as [|a p IH]; intros s; cbn [litCI].
  - intros [= <-]. now exists EmptyString.
  - destruct s as [|b s]; [discriminate|]. destruct (eqCI a b) eqn:E; [|discriminate].
    intros H. destruct (IH s H) as (l & -> & Hl). exists (String b l).
    split; [reflexivity|]. cbn [sameLetters]. now rewrite E, Hl.
Qed.

Lemma sameLetters_length (a b : string) :
  sameLetters a b = true -> String.length a = String.length b.
Proof.
  revert b. induction a as [|x a IH]; intros [|y b]; cbn [sameLetters]; try discriminate.
  - reflexivity.
  - intros H. apply andb_true_iff in H as [_ H]. cbn [String.length]. now rewrite (IH b H).
Qed.

(** Two ways to cut one text: the shorter first piece starts the longer. *)
Lemma append_prefix (l r a b : string) :
  l ++ r = a ++ b -> String.length l <= String.length a ->
  exists q, a = l ++ q /\ r = q ++ b.
Proof.
  revert a. induction l as [|c l IH]; intros a H Hlen.
  - exists a. now split.
  - destruct a as [|d a]; [cbn in Hlen; lia|].
    cbn [append] in H. injection H as -> H. cbn [String.length] in Hlen.
    destruct (IH a H ltac:(lia)) as (q & -> & ->). now exists q.
Qed.

Lemma leftmostGroup_skip (at_ : string -> option string) (pre rest : string) :
  (forall p1 p2, pre = p1 ++ p2 -> p2 <> EmptyString -> at_ (p2 ++ rest) = None) ->
  leftmostGroup at_ (pre ++ rest) = leftmostGroup at_ rest.
Proof.
  induction pre as [|c pre IH]; intros H; [reflexivity|].
  pose proof (H EmptyString (String c pre) eq_refl ltac:(discriminate)) as H0.
  cbn [append] in H0. cbn [append leftmostGroup]. rewrite H0.
  apply IH. intros p1 p2 -> Hne. apply (H (String c p1) p2); [reflexivity | exact Hne].
Qed.

Lemma leftmostGroup_here (at_ : string -> option string) (s g : string) :
  at_ s = Some g -> leftmostGroup at_ s = Some g.
Proof. intros H. destruct s; cbn [leftmostGroup]; now rewrite H. Qed.

(** No occurrence of a literal starts before its first occurrence. *)
Lemma litCI_before_first (label pre lab tail p1 p2 : string) :
  sameLetters label lab = true ->
  (forall p l q, pre ++ lab = p ++ l ++ q -> sameLetters label l = true -> q = EmptyString) ->
  pre = p1 ++ p2 -> p2 <> EmptyString ->
  litCI label (p2 ++ lab ++ tail) = None.
Proof.
  intros Hlab Hfirst -> Hne.
  destruct (litCI label (p2 ++ lab ++ tail)) as [r|] eqn:E; [exfalso|reflexivity].
  destruct (litCI_split _ _ _ E) as (l & Hcut & Hl).
  pose proof (sameLetters_length _ _ Hlab) as Hlen1.
  pose proof (sameLetters_length _ _ Hl) as Hlen2.
  rewrite <- (append_assoc p2 lab tail) in Hcut. symmetry in Hcut.
  destruct (append_prefix l r (p2 ++ lab) tail Hcut) as (q & Hq & _).
  { rewrite CsvText.length_append. lia. }
  assert (q = EmptyString) as ->.
  { apply (Hfirst p1 l q); [|exact Hl]. now rewrite append_assoc, Hq. }
  rewrite append_empty_r in Hq. apply (f_equal String.length) in Hq.
  rewrite CsvText.length_append in Hq. destruct p2; [congruence|]. cbn [String.length] in Hq. lia.
Qed.

Lemma drop_length_app (p s : string) : drop (String.length p) (p ++ s) = s.
Proof. induction p as [|c p IH]; [reflexivity | exact IH]. Qed.

(** The index found is that of the first match. *)
Lemma search_first (at_ : string -> bool) (s : string) :
  forall idx, search at_ s = Some idx -> forall k, k < idx -> at_ (drop k s) = false.
Proof.
  induction s as [|c r IH]; intros idx; cbn [search].
  - destruct (at_ ""); [|discriminate]. intros [= <-] k Hk. lia.
  - destruct (at_ (String c r)) eqn:E; [intros [= <-] k Hk; lia|].
    destruct (search at_ r) as [i|] eqn:Hi; cbn [option_map]; [|discriminate].
    intros [= <-] k Hk.
    destruct k as [|k]; [exact E|]. cbn [drop]. apply (IH i eq_refl). lia.
Qed.

Lemma search_here (at_ : string -> bool) (pre rest : string) :
  (forall p1 p2, pre = p1 ++ p2 -> p2 <> EmptyString -> at_ (p2 ++ rest) = false) ->
  at_ rest = true ->
  search at_ (pre ++ rest) = Some (String.length pre).
Proof.
  induction pre as [|c pre IH]; intros Hbefore Hat.
  - destruct rest; cbn [append search String.length]; now rewrite Hat.
  - pose proof (Hbefore EmptyString (String c pre) eq_refl ltac:(discriminate)) as H0.
    cbn [append] in H0. cbn [append search String.length]. rewrite H0.
    rewrite IH; [reflexivity| |exact Hat].
    intros p1 p2 -> Hne. apply (Hbefore (String c p1) p2); [reflexivity | exact Hne].
Qed.

Lemma search_nowhere (at_ : string -> bool) (s : string) :
  (forall p1 p2, s = p1 ++ p2 -> at_ p2 = false) -> search at_ s = None.
Proof.
  induction s as [|c r IH]; intros H; cbn [search].
  - now rewrite (H EmptyString EmptyString eq_refl).
  - rewrite (H EmptyString (String c r) eq_refl).
    rewrite IH; [reflexivity|]. intros p1 p2 ->. apply (H (String c p1) p2). reflexivity.
Qed.

(** The first occurrence of a literal, found by [search]. *)
Lemma first_by_search (label pre lab : string) :
  sameLetters label lab = true ->
  search (labelAt label) (pre ++ lab) = Some (String.length pre) ->
  forall p l q, pre ++ lab = p ++ l ++ q -> sameLetters label l = true -> q = EmptyString.
Proof.
  intros Hlab Hs p l q Hcut Hl.
  pose proof (sameLetters_length _ _ Hlab) as Hlen1.
  pose proof (sameLetters_length _ _ Hl) as Hlen2.
  destruct (Nat.lt_ge_cases (String.length p) (String.length pre)) as [Hlt|Hge].
  - exfalso. pose proof (search_first _ _ _ Hs _ Hlt) as Hno.
    rewrite Hcut, drop_length_app in Hno. unfold labelAt in Hno.
    now rewrite (litCI_same _ _ _ Hl) in Hno.
  - apply (f_equal String.length) in Hcut. rewrite !CsvText.length_append in Hcut.
    destruct q; [reflexivity|]. cbn [String.length] in Hcut. lia.
Qed.

(** *** The match at the first place it can stand *)

Lemma dropWhile_app_stop (p : ascii -> bool) (a : string) (c : ascii) (b : string) :
  p c = false -> dropWhile p (a ++ String c b) = dropWhile p a ++ String c b.
Proof.
  intros Hc. induction a as [|d a IH]; cbn [append dropWhile].
  - now rewrite Hc.
  - destruct (p d); [exact IH | reflexivity].
Qed.

Lemma takeWhile_stop (p : ascii -> bool) (x t : string) :
  isEmpty x = false -> JsString.forallb p (take 1 x) = false ->
  takeWhile p (x ++ t) = EmptyString.
Proof.
  destruct x as [|d x]; [discriminate|]. intros _.
  cbn [take JsString.forallb append takeWhile]. rewrite andb_true_r. now intros ->.
Qed.

Lemma litCI_first (word x t : string) :
  isEmpty x = false -> litCI (take 1 word) x = None -> litCI word (x ++ t) = None.
Proof.
  destruct x as [|e x]; [discriminate|]. intros _.
  destruct word as [|a word]; [discriminate|]. cbn [take litCI append].
  destruct (eqCI a e); [discriminate | reflexivity].
Qed.

Lemma leftmostGroup_at (at_ : string -> option string) (pre rest g : string) :
  (forall p1 p2, pre = p1 ++ p2 -> p2 <> EmptyString -> at_ (p2 ++ rest) = None) ->
  at_ rest = Some g -> leftmostGroup at_ (pre ++ rest) = Some g.
Proof. intros H Hat. rewrite leftmostGroup_skip; [now apply leftmostGroup_here | exact H]. Qed.

(** A run, white space and a literal in some letter case. *)
Lemma runBefore_same (p : ascii -> bool) (suffix g w l rest : string) :
  (forall c, p c = true -> isWhiteSpace c = false) ->
  JsString.forallb p g = true -> isEmpty g = false ->
  JsString.forallb isWhiteSpace w = true ->
  sameLetters suffix l = true ->
  JsString.forallb (fun c => isWhiteSpace c || p c) (take 1 l) = false ->
  runBefore p suffix (g ++ w ++ l ++ rest) = Some g.
Proof.
  intros Hp Hg Hne Hw Hl Hfirst. destruct l as [|e l]; [discriminate Hfirst|].
  cbn [take JsString.forallb] in Hfirst. rewrite andb_true_r in Hfirst.
  apply orb_false_iff in Hfirst as [Hews Hep].
  assert (JsString.forallb p (take 1 (w ++ String e l ++ rest)) = false) as Hnext.
  { destruct w as [|c w]; cbn [append take JsString.forallb]; rewrite andb_true_r.
    - exact Hep.
    - cbn [JsString.forallb] in Hw. apply andb_true_iff in Hw as [Hc _].
      destruct (p c) eqn:E; [|reflexivity]. now rewrite (Hp c E) in Hc. }
  unfold runBefore.
  destruct (run_app p g (w ++ String e l ++ rest) Hg (or_introl Hnext)) as [-> ->].
  rewrite Hne, (ws0_app _ _ Hw), ws0_fixed, (litCI_same _ _ _ Hl); [reflexivity|].
  cbn [append take JsString.forallb]. now rewrite Hews.
Qed.

Lemma ws0_run (p : ascii -> bool) (g t : string) :
  (forall c, p c = true -> isWhiteSpace c = false) ->
  JsString.forallb p g = true -> isEmpty g = false -> ws0 (g ++ t) = g ++ t.
Proof.
  intros Hp Hg Hne. destruct g as [|c g]; [discriminate|]. unfold ws0.
  cbn [append dropWhile]. cbn [JsString.forallb] in Hg. apply andb_true_iff in Hg as [Hc _].
  now rewrite (Hp c Hc).
Qed.

Lemma currency_first (cur : string) :
  sameLetters "R$" cur = true -> JsString.forallb isWhiteSpace (take 1 cur) = false.
Proof.
  destruct cur as [|c1 cur]; [discriminate|]. cbn [sameLetters]. intros H.
  apply andb_true_iff in H as [Hc1 _]. cbn [take JsString.forallb]. rewrite andb_true_r.
  destruct (isWhiteSpace c1) eqn:Hws; [|reflexivity].
  exfalso. revert Hc1 Hws. unfold eqCI, canonicalize, isWhiteSpace.
  destruct c1 as [[|] [|] [|] [|] [|] [|] [|] [|]]; vm_compute; congruence.
Qed.

(** A price at the first place its label stands. *)
Lemma valorOf_at (label pre lab w1 cur w2 g rest : string) :
  sameLetters label lab = true ->
  sameLetters "R$" cur = true ->
  (forall p l q, pre ++ lab = p ++ l ++ q -> sameLetters label l = true -> q = EmptyString) ->
  JsString.forallb isWhiteSpace w1 = true ->
  JsString.forallb isWhiteSpace w2 = true ->
  JsString.forallb brazilianChar g = true -> isEmpty g = false ->
  JsString.forallb brazilianChar (take 1 rest) = false \/ rest = EmptyString ->
  valorOf label (pre ++ lab ++ w1 ++ cur ++ w2 ++ g ++ rest) = parseBrazilianNumber g.
Proof.
  intros Hlab Hcur Hfirst Hw1 Hw2 Hg Hne Hrest.
  set (tail := w1 ++ cur ++ w2 ++ g ++ rest).
  assert (valorAt label (lab ++ tail) = Some g) as Hat.
  { unfold valorAt. rewrite (litCI_same _ _ _ Hlab). subst tail. rewrite (ws0_app _ _ Hw1).
    rewrite (ws0_fixed (cur ++ w2 ++ g ++ rest)).
    2: { destruct cur as [|c1 cur]; [discriminate Hcur|]. exact (currency_first _ Hcur). }
    rewrite (litCI_same _ _ _ Hcur), (ws0_app _ _ Hw2).
    rewrite (ws0_run brazilianChar g rest brazilianChar_not_ws Hg Hne).
    destruct (run_app brazilianChar g rest Hg Hrest) as [-> _]. now rewrite Hne. }
  unfold valorOf.
  rewrite (leftmostGroup_at (valorAt label) pre (lab ++ tail) g); [| |exact Hat].
  - rewrite (firstMatch_run brazilianChar g brazilianChar_not_ws Hg Hne).
    now apply parseBRL_run.
  - intros p1 p2 Hpre Hp2. unfold valorAt.
    now rewrite (litCI_before_first label pre lab tail p1 p2 Hlab Hfirst Hpre Hp2).
Qed.

(** The discount at the first place its words stand. *)
Lemma descontoOf_at (pre lab w1 g w2 rest : string) :
  sameLetters "desconto de" lab = true ->
  (forall p l q, pre ++ lab = p ++ l ++ q -> sameLetters "desconto de" l = true ->
                 q = EmptyString) ->
  JsString.forallb isWhiteSpace w1 = true ->
  JsString.forallb isWhiteSpace w2 = true ->
  JsString.forallb brazilianChar g = true -> isEmpty g = false ->
  descontoOf (pre ++ lab ++ w1 ++ g ++ w2 ++ "%" ++ rest) = parseBrazilianNumber g.
Proof.
  intros Hlab Hfirst Hw1 Hw2 Hg Hne.
  set (tail := w1 ++ g ++ w2 ++ "%" ++ rest).
  assert (descontoAt (lab ++ tail) = Some g) as Hat.
  { unfold descontoAt. rewrite (litCI_same _ _ _ Hlab). subst tail. rewrite (ws0_app _ _ Hw1).
    rewrite (ws0_run brazilianChar g _ brazilianChar_not_ws Hg Hne).
    now apply (runBefore_same brazilianChar "%" g w2 "%" rest brazilianChar_not_ws). }
  unfold descontoOf.
  rewrite (leftmostGroup_at descontoAt pre (lab ++ tail) g); [| |exact Hat].
  - now rewrite (firstMatch_run brazilianChar g brazilianChar_not_ws Hg Hne).
  - intros p1 p2 Hpre Hp2. unfold descontoAt.
    now rewrite (litCI_before_first "desconto de" pre lab tail p1 p2 Hlab Hfirst Hpre Hp2).
Qed.

Lemma sameLetters_first (a : ascii) (word l : string) (p : ascii -> bool) :
  sameLetters (String a word) l = true ->
  (forall c, eqCI a c = true -> isWhiteSpace c || p c = false) ->
  JsString.forallb (fun c => isWhiteSpace c || p c) (take 1 l) = false.
Proof.
  destruct l as [|e l]; [discriminate|]. cbn [sameLetters take JsString.forallb].
  intros H Hp. apply andb_true_iff in H as [He _]. now rewrite (Hp e He).
Qed.

Lemma letter_m_plain (c : ascii) : eqCI "m" c = true -> isWhiteSpace c || brazilianChar c = false.
Proof.
  destruct c as [[|] [|] [|] [|] [|] [|] [|] [|]]; vm_compute; congruence.
Qed.

Lemma letter_q_plain (c : ascii) : eqCI "q" c = true -> isWhiteSpace c || isDigit c = false.
Proof.
  destruct c as [[|] [|] [|] [|] [|] [|] [|] [|]]; vm_compute; congruence.
Qed.

Lemma letter_v_plain (c : ascii) : eqCI "v" c = true -> isWhiteSpace c || isDigit c = false.
Proof.
  destruct c as [[|] [|] [|] [|] [|] [|] [|] [|]]; vm_compute; congruence.
Qed.

Lemma areaAt_other (c : ascii) (s : string) : c <> "-"%char -> areaAt (String c s) = None.
Proof.
  intros Hc. unfold areaAt. cbn [startsWith].
  destruct (Ascii.eqb_spec "-" c) as [E|_]; [now elim Hc | reflexivity].
Qed.

Lemma areaAt_after_dash (p2 tail : string) :
  JsString.forallb brazilianChar (take 1 (ws0 p2 ++ "-")) = false ->
  areaAt (String "-" (p2 ++ String "-" tail)) = None.
Proof.
  intros H. unfold areaAt. cbn [startsWith]. rewrite Ascii.eqb_refl. cbn [andb drop].
  unfold ws0 in *. rewrite (dropWhile_app_stop isWhiteSpace p2 "-" tail eq_refl).
  unfold runBefore.
  replace (dropWhile isWhiteSpace p2 ++ String "-" tail)
    with ((dropWhile isWhiteSpace p2 ++ "-") ++ tail) by (now rewrite append_assoc).
  rewrite (takeWhile_stop brazilianChar _ tail); [reflexivity| |exact H].
  now rewrite isEmpty_app, andb_false_r.
Qed.

(** The area after the first dash that digits, points or commas follow. *)
Lemma areaUtilM2_at (pre w1 g w2 m2 rest : string) :
  (forall p1 p2, pre = p1 ++ "-" ++ p2 ->
     JsString.forallb brazilianChar (take 1 (ws0 p2 ++ "-")) = false) ->
  JsString.forallb isWhiteSpace w1 = true ->
  JsString.forallb isWhiteSpace w2 = true ->
  JsString.forallb brazilianChar g = true -> isEmpty g = false ->
  sameLetters "m2" m2 = true ->
  areaUtilM2 (pre ++ "-" ++ w1 ++ g ++ w2 ++ m2 ++ rest) = parseBrazilianNumber g.
Proof.
  intros Hpre Hw1 Hw2 Hg Hne Hm2.
  set (tail := w1 ++ g ++ w2 ++ m2 ++ rest).
  assert (areaAt ("-" ++ tail) = Some g) as Hat.
  { unfold areaAt. cbn [append startsWith]. rewrite Ascii.eqb_refl. cbn [andb drop].
    subst tail.
    rewrite (ws0_app _ _ Hw1), (ws0_run brazilianChar g _ brazilianChar_not_ws Hg Hne).
    apply (runBefore_same brazilianChar "m2" g w2 m2 rest brazilianChar_not_ws Hg Hne Hw2 Hm2).
    exact (sameLetters_first "m" "2" m2 brazilianChar Hm2 letter_m_plain). }
  unfold areaUtilM2.
  rewrite (leftmostGroup_at areaAt pre ("-" ++ tail) g); [| |exact Hat].
  - now rewrite (firstMatch_run brazilianChar g brazilianChar_not_ws Hg Hne).
  - intros p1 [|c p2] Hcut Hp2; [congruence|]. cbn [append].
    destruct (ascii_dec c "-") as [->|Hc]; [|now apply areaAt_other].
    apply areaAt_after_dash. exact (Hpre p1 p2 Hcut).
Qed.

Lemma countAt_other (word : string) (c : ascii) (s : string) :
  c <> ","%char -> countAt word (String c s) = None.
Proof.
  intros Hc. unfold countAt. cbn [startsWith].
  destruct (Ascii.eqb_spec "," c) as [E|_]; [now elim Hc | reflexivity].
Qed.

Lemma countAt_after_comma (word p2 tail : string) :
  litCI (take 1 word) (ws0 (dropWhile isDigit (ws0 p2)) ++ ",") = None ->
  countAt word (String "," (p2 ++ String "," tail)) = None.
Proof.
  intros H. unfold countAt. cbn [startsWith]. rewrite Ascii.eqb_refl. cbn [andb drop].
  unfold ws0 in *. rewrite (dropWhile_app_stop isWhiteSpace p2 "," tail eq_refl).
  unfold runBefore.
  destruct (isEmpty (takeWhile isDigit (dropWhile isWhiteSpace p2 ++ String "," tail)));
    [reflexivity|].
  rewrite (dropWhile_app_stop isDigit _ "," tail eq_refl).
  rewrite (dropWhile_app_stop isWhiteSpace _ "," tail eq_refl).
  replace (dropWhile isWhiteSpace (dropWhile isDigit (dropWhile isWhiteSpace p2)) ++
           String "," tail)
    with ((dropWhile isWhiteSpace (dropWhile isDigit (dropWhile isWhiteSpace p2)) ++ ",") ++
          tail) by (now rewrite append_assoc).
  rewrite (litCI_first word _ tail); [reflexivity| |exact H].
  now rewrite isEmpty_app, andb_false_r.
Qed.

(** A count after the first comma that digits and the word follow. *)
Lemma countOf_at (word pre w1 g w2 wd rest : string) :
  word = "quarto" \/ word = "vaga" ->
  sameLetters word wd = true ->
  (forall p1 p2, pre = p1 ++ "," ++ p2 ->
     litCI (take 1 word) (ws0 (dropWhile isDigit (ws0 p2)) ++ ",") = None) ->
  JsString.forallb isWhiteSpace w1 = true ->
  JsString.forallb isWhiteSpace w2 = true ->
  JsString.forallb isDigit g = true -> isEmpty g = false ->
  countOf word (pre ++ "," ++ w1 ++ g ++ w2 ++ wd ++ rest) = Some (Number g).
Proof.
  intros Hword Hwd Hpre Hw1 Hw2 Hg Hne.
  set (tail := w1 ++ g ++ w2 ++ wd ++ rest).
  assert (JsString.forallb (fun c => isWhiteSpace c || isDigit c) (take 1 wd) = false)
    as Hfirst.
  { destruct Hword as [-> | ->].
    - exact (sameLetters_first "q" "uarto" wd isDigit Hwd letter_q_plain).
    - exact (sameLetters_first "v" "aga" wd isDigit Hwd letter_v_plain). }
  assert (countAt word ("," ++ tail) = Some g) as Hat.
  { unfold countAt. cbn [append startsWith]. rewrite Ascii.eqb_refl. cbn [andb drop].
    subst tail.
    rewrite (ws0_app _ _ Hw1), (ws0_run isDigit g _ isDigit_not_ws Hg Hne).
    exact (runBefore_same isDigit word g w2 wd rest isDigit_not_ws Hg Hne Hw2 Hwd Hfirst). }
  unfold countOf.
  rewrite (leftmostGroup_at (countAt word) pre ("," ++ tail) g); [| |exact Hat].
  - now rewrite (firstMatch_run isDigit g isDigit_not_ws Hg Hne).
  - intros p1 [|c p2] Hcut Hp2; [congruence|]. cbn [append].
    destruct (ascii_dec c ",") as [->|Hc]; [|now apply countAt_other].
    apply countAt_after_comma. exact (Hpre p1 p2 Hcut).
Qed.

(** What follows each occurrence of a code unit in a text. *)
Fixpoint afterEach (c : ascii) (P : string -> bool) (s : string) : bool :=
  match s with
  | EmptyString => true
  | String d r => (if Ascii.eqb d c then P r else true) && afterEach c P r
  end.

Lemma afterEach_spec (c : ascii) (P : string -> bool) (s : string) :
  afterEach c P s = true -> forall p1 p2, s = p1 ++ String c p2 -> P p2 = true.
Proof.
  induction s as [|d r IH]; intros H p1 p2 Hcut.
  - destruct p1; discriminate.
  - cbn [afterEach] in H. apply andb_true_iff in H as [Hd Hr].
    destruct p1 as [|e p1]; cbn [append] in Hcut; injection Hcut as -> Hcut.
    + subst r. now rewrite Ascii.eqb_refl in Hd.
    + exact (IH Hr p1 p2 Hcut).
Qed.

(** *** The properties of the fields *)

(** X8: the prices, the discount and the area of a card are
    [parseBrazilianNumber] of the run of digits, points and commas their
    pattern captures, the leftmost match in the text; [quartos] and [vagas]
    are [Number] of the run of digits captured.  Where the label of a price
    first stands in the text, in any letter case, followed by white space,
    [R$] in either case, white space and a run of digits, points and commas,
    the price is [parseBrazilianNumber] of that run, taken as long as it
    goes, whatever stands before the label and after the run.  So is the
    discount of the run that follows the first [desconto de] and that white
    space and a percent sign follow; the area of the run between a dash and
    [m2], when after no earlier dash and white space a digit, point or comma
    comes; and [quartos] and [vagas] are [Number] of the digits between a
    comma and their word, when after no earlier comma, white space, digits
    and white space the first letter of the word comes. *)
Theorem card_numbers (text : string) :
  (forall label,
     valorOf label text =
     match leftmostGroup (valorAt label) text with
     | Some g => parseBrazilianNumber g
     | None => None
     end) /\
  descontoOf text =
    match leftmostGroup descontoAt text with
    | Some g => parseBrazilianNumber g
    | None => None
    end /\
  areaUtilM2 text =
    match leftmostGroup areaAt text with
    | Some g => parseBrazilianNumber g
    | None => None
    end /\
  (forall word,
     countOf word text =
     match leftmostGroup (countAt word) text with
     | Some g => Some (Number g)
     | None => None
     end) /\
  (forall label g,
     leftmostGroup (valorAt label) text = Some g \/
     leftmostGroup descontoAt text = Some g \/
     leftmostGroup areaAt text = Some g ->
     JsString.forallb brazilianChar g = true /\ isEmpty g = false) /\
  (forall word g,
     leftmostGroup (countAt word) text = Some g ->
     JsString.forallb isDigit g = true /\ isEmpty g = false) /\
  (forall label pre lab w1 cur w2 g rest,
     sameLetters label lab = true ->
     sameLetters "R$" cur = true ->
     (forall p l q, pre ++ lab = p ++ l ++ q -> sameLetters label l = true ->
                    q = EmptyString) ->
     JsString.forallb isWhiteSpace w1 = true ->
     JsString.forallb isWhiteSpace w2 = true ->
     JsString.forallb brazilianChar g = true -> isEmpty g = false ->
     JsString.forallb brazilianChar (take 1 rest) = false \/ rest = EmptyString ->
     valorOf label (pre ++ lab ++ w1 ++ cur ++ w2 ++ g ++ rest) = parseBrazilianNumber g) /\
  (forall pre lab w1 g w2 rest,
     sameLetters "desconto de" lab = true ->
     (forall p l q, pre ++ lab = p ++ l ++ q -> sameLetters "desconto de" l = true ->
                    q = EmptyString) ->
     JsString.forallb isWhiteSpace w1 = true ->
     JsString.forallb isWhiteSpace w2 = true ->
     JsString.forallb brazilianChar g = true -> isEmpty g = false ->
     descontoOf (pre ++ lab ++ w1 ++ g ++ w2 ++ "%" ++ rest) = parseBrazilianNumber g) /\
  (forall pre w1 g w2 m2 rest,
     (forall p1 p2, pre = p1 ++ "-" ++ p2 ->
        JsString.forallb brazilianChar (take 1 (ws0 p2 ++ "-")) = false) ->
     JsString.forallb isWhiteSpace w1 = true ->
     JsString.forallb isWhiteSpace w2 = true ->
     JsString.forallb brazilianChar g = true -> isEmpty g = false ->
     sameLetters "m2" m2 = true ->
     areaUtilM2 (pre ++ "-" ++ w1 ++ g ++ w2 ++ m2 ++ rest) = parseBrazilianNumber g) /\
  (forall word pre w1 g w2 wd rest,
     word = "quarto" \/ word = "vaga" ->
     sameLetters word wd = true ->
     (forall p1 p2, pre = p1 ++ "," ++ p2 ->
        litCI (take 1 word) (ws0 (dropWhile isDigit (ws0 p2)) ++ ",") = None) ->
     JsString.forallb isWhiteSpace w1 = true ->
     JsString.forallb isWhiteSpace w2 = true ->
     JsString.forallb isDigit g = true -> isEmpty g = false ->
     countOf word (pre ++ "," ++ w1 ++ g ++ w2 ++ wd ++ rest) = Some (Number g)).
Proof.
  split; [|split; [|split; [|split; [|split; [|split; [|split; [|split; [|split]]]]]]]].
  - intros label. unfold valorOf.
    destruct (leftmostGroup (valorAt label) text) as [g|] eqn:E; [|reflexivity].
    destruct (leftmostGroup_prop _ _ (valorAt_run label) text g E) as [Hg Hne].
    rewrite (firstMatch_run brazilianChar g brazilianChar_not_ws Hg Hne).
    now apply parseBRL_run.
  - apply (captured_number descontoAt brazilianChar parseBrazilianNumber text
             brazilianChar_not_ws descontoAt_run).
  - apply (captured_number areaAt brazilianChar parseBrazilianNumber text
             brazilianChar_not_ws areaAt_run).
  - intros word.
    apply (captured_number (countAt word) isDigit (fun raw => Some (Number raw)) text
             isDigit_not_ws (countAt_run word)).
  - intros label g [H|[H|H]].
    + exact (leftmostGroup_prop _ _ (valorAt_run label) text g H).
    + exact (leftmostGroup_prop _ _ descontoAt_run text g H).
    + exact (leftmostGroup_prop _ _ areaAt_run text g H).
  - intros word g H. exact (leftmostGroup_prop _ _ (countAt_run word) text g H).
  - apply valorOf_at.
  - apply descontoOf_at.
  - apply areaUtilM2_at.
  - apply countOf_at.
Qed.

(** Instances: in a card text with both prices, the minimum price is read
    after its own label, written in capitals and with a small [r$], and the
    discount after its words; on a usual first line the area is read after
    the dash and the counts after their commas, the comma of the area
    passed. *)
Lemma card_numbers_witness :
  valorOf minimoLabel
    (("Casa Valor de avalia" ++ ccedil ++ atilde ++ "o: R$ 100.000,00 ") ++
     ("VALOR M" ++ unit 205 ++ "NIMO DE VENDA:") ++ " " ++ "r$" ++ " " ++ "80.000,00" ++
     " ( desconto de 20,00%)")
  = parseBrazilianNumber "80.000,00" /\
  parseBrazilianNumber "80.000,00" = Some (ofZ 80000) /\
  descontoOf ("R$ 80.000,00 ( " ++ "Desconto de" ++ " " ++ "20,00" ++ "" ++ "%" ++ ")")
  = parseBrazilianNumber "20,00" /\
  parseBrazilianNumber "20,00" = Some (ofZ 20) /\
  areaUtilM2 ("Apartamento " ++ "-" ++ " " ++ "58,00" ++ " " ++ "m2" ++
              ", 2 quarto(s), 1 vaga(s) - Venda Online")
  = parseBrazilianNumber "58,00" /\
  quartos ("Apartamento - 58,00 m2" ++ "," ++ " " ++ "2" ++ " " ++ "quarto" ++
           "(s), 1 vaga(s) - Venda Online")
  = Some (Number "2") /\
  vagas ("Apartamento - 58,00 m2, 2 quarto(s)" ++ "," ++ " " ++ "1" ++ " " ++ "vaga" ++
         "(s) - Venda Online")
  = Some (Number "1") /\
  Number "1" = ofZ 1.
Proof.
  destruct (card_numbers EmptyString)
    as (_ & _ & _ & _ & _ & _ & Hvalor & Hdesconto & Harea & Hcount).
  split; [|split; [vm_compute; reflexivity|split; [|split; [vm_compute; reflexivity|
    split; [|split; [|split; [|vm_compute; reflexivity]]]]]]].
  - apply Hvalor; try (vm_compute; reflexivity).
    + apply first_by_search; vm_compute; reflexivity.
    + left. vm_compute; reflexivity.
  - apply Hdesconto; try (vm_compute; reflexivity).
    apply first_by_search; vm_compute; reflexivity.
  - apply Harea; try (vm_compute; reflexivity).
    intros p1 p2 Hcut.
    pose proof (afterEach_spec "-"
             (fun r => negb (JsString.forallb brazilianChar (take 1 (ws0 r ++ "-"))))
             "Apartamento " eq_refl p1 p2 Hcut) as H.
    cbn beta in H. now apply negb_true_iff in H.
  - apply (Hcount "quarto"); try (vm_compute; reflexivity); [now left|].
    intros p1 p2 Hcut.
    pose proof (afterEach_spec ","
             (fun r => match litCI "q" (ws0 (dropWhile isDigit (ws0 r)) ++ ",") with
                       | None => true | Some _ => false end)
             "Apartamento - 58,00 m2" eq_refl p1 p2 Hcut) as H.
    cbn beta in H. change (take 1 "quarto") with "q".
    now destruct (litCI "q" (ws0 (dropWhile isDigit (ws0 p2)) ++ ",")).
  - apply (Hcount "vaga"); try (vm_compute; reflexivity); [now right|].
    intros p1 p2 Hcut.
    pose proof (afterEach_spec ","
             (fun r => match litCI "v" (ws0 (dropWhile isDigit (ws0 r)) ++ ",") with
                       | None => true | Some _ => false end)
             "Apartamento - 58,00 m2, 2 quarto(s)" eq_refl p1 p2 Hcut) as H.
    cbn beta in H. change (take 1 "vaga") with "v".
    now destruct (litCI "v" (ws0 (dropWhile isDigit (ws0 p2)) ++ ",")).
Defined.

(** *** The pieces of the first line *)

Lemma splitDash_not_nil (s : string) : forall skip, splitDash skip s <> [].
Proof.
  induction s as [|c r IH]; intros skip; [discriminate|]. cbn [splitDash].
  destruct skip; [|apply IH].
  destruct (startsWith " - " (String c r)); [discriminate|].
  destruct (splitDash 0 r); discriminate.
Qed.

Lemma splitDash_whole (y : string) :
  includes " - " y = false -> splitDash 0 y = [y].
Proof.
  induction y as [|c r IH]; [reflexivity|]. cbn [includes]. intros H.
  apply orb_false_iff in H as [Hs Hr]. cbn [splitDash]. rewrite Hs, (IH Hr). reflexivity.
Qed.

(** An occurrence of the separator that starts in [x] ends in [x], when [x]
    does not end with a space and a dash. *)
Lemma startsWith_dash_app (x rest : string) :
  Dom.endsWith " -" x = false ->
  startsWith " - " (x ++ " - " ++ rest) = true ->
  x = EmptyString \/ (startsWith " - " x = true /\ 3 <= String.length x).
Proof.
  intros Hend H. destruct x as [|a [|b [|c x]]]; [now left| | |].
  - exfalso. cbn in H. rewrite !andb_false_r in H. discriminate.
  - exfalso. cbn [append startsWith] in H. cbn [Dom.endsWith] in Hend.
    apply orb_false_iff in Hend as [Hend _].
    apply andb_true_iff in H as [Ha H]. apply andb_true_iff in H as [Hb _].
    apply Ascii.eqb_eq in Ha, Hb. subst. discriminate.
  - right. cbn [append startsWith] in H |- *. split; [|cbn; lia].
    apply andb_true_iff in H as [Ha H]. apply andb_true_iff in H as [Hb H].
    apply andb_true_iff in H as [Hc _]. now rewrite Ha, Hb, Hc.
Qed.

Lemma startsWith_app_l (p x rest : string) :
  startsWith p x = true -> startsWith p (x ++ rest) = true.
Proof.
  revert x. induction p as [|a p IH]; intros x H; [reflexivity|].
  destruct x as [|b x]; [discriminate|]. cbn [append startsWith] in *.
  apply andb_true_iff in H as [Ha H]. now rewrite Ha, (IH x H).
Qed.

Lemma endsWith_tail (suffix : string) (c : ascii) (r : string) :
  Dom.endsWith suffix (String c r) = false -> Dom.endsWith suffix r = false.
Proof. cbn [Dom.endsWith]. intros H. now apply orb_false_iff in H. Qed.

Lemma splitDash_app (x y : string) :
  includes " - " y = false ->
  forall skip, skip <= String.length x -> Dom.endsWith " -" x = false ->
  splitDash skip (x ++ " - " ++ y) = (splitDash skip x ++ [y])%list.
Proof.
  intros Hy. set (rest := " - " ++ y).
  assert (splitDash 0 rest = [EmptyString; y]) as Hrest
    by (unfold rest; cbn; now rewrite (splitDash_whole y Hy)).
  induction x as [|c x IH]; intros skip Hskip Hend.
  - assert (skip = 0) as -> by (cbn in Hskip; lia). exact Hrest.
  - cbn [append splitDash]. destruct skip as [|k].
    + pose proof (endsWith_tail _ _ _ Hend) as Hend'.
      change (String c (x ++ rest)) with (String c x ++ rest).
      destruct (startsWith " - " (String c x ++ rest)) eqn:E.
      * destruct (startsWith_dash_app _ _ Hend E) as [H|[H Hlen]]; [discriminate|].
        rewrite H. cbn [app]. f_equal. apply IH; [cbn in Hlen; lia | exact Hend'].
      * assert (startsWith " - " (String c x) = false) as ->.
        { destruct (startsWith " - " (String c x)) eqn:F; [|reflexivity].
          apply (startsWith_app_l _ _ rest) in F. congruence. }
        rewrite (IH 0 (Nat.le_0_l _) Hend').
        pose proof (splitDash_not_nil x 0) as Hne.
        destruct (splitDash 0 x); [congruence | reflexivity].
    + apply IH; [cbn in Hskip; lia | exact (endsWith_tail _ _ _ Hend)].
Qed.

Lemma last_app_one {A : Type} (l : list A) (y d : A) : List.last (l ++ [y])%list d = y.
Proof.
  induction l as [|x l IH]; [reflexivity|]. cbn [app].
  destruct (l ++ [y])%list eqn:E; [destruct l; discriminate|]. exact IH.
Qed.

(** *** The address and the observations *)

Lemma search_spec (at_ : string -> bool) (s : string) :
  forall idx, search at_ s = Some idx -> at_ (drop idx s) = true /\ idx <= String.length s.
Proof.
  induction s as [|c r IH]; intros idx; cbn [search].
  - destruct (at_ "") eqn:E; [|discriminate]. intros [= <-]. split; [exact E | apply Nat.le_refl].
  - destruct (at_ (String c r)) eqn:E; [intros [= <-]; split; [exact E | apply Nat.le_0_l]|].
    destruct (search at_ r) as [k|] eqn:Hk; [|discriminate]. intros [= <-].
    destruct (IH k eq_refl) as [H1 H2]. split; [exact H1 | cbn; lia].
Qed.

Lemma eqCI_l_not_ws (b : ascii) : eqCI "l" b = true -> isWhiteSpace b = false.
Proof.
  destruct b as [[] [] [] [] [] [] [] []]; intros H; try reflexivity; discriminate H.
Qed.

(** A literal that ends with the letter l is still matched after the white
    space at the end of the text is removed. *)
Lemma litCI_trimEnd (p s : string) :
  forall r, litCI (p ++ "l") s = Some r -> litCI (p ++ "l") (trimEnd s) = Some (trimEnd r).
Proof.
  revert s. induction p as [|a p IH]; intros s r.
  - cbn [append litCI]. destruct s as [|b s]; [discriminate|].
    destruct (eqCI "l" b) eqn:E; [|discriminate]. intros [= <-].
    cbn [trimEnd]. rewrite (eqCI_l_not_ws b E). cbn [andb litCI]. now rewrite E.
  - cbn [append litCI]. destruct s as [|b s]; [discriminate|].
    destruct (eqCI a b) eqn:E; [|discriminate]. intros H.
    pose proof (IH s r H) as H'. cbn [trimEnd].
    destruct (trimEnd s) as [|d t] eqn:Ht.
    + destruct p; cbn [append litCI] in H'; discriminate.
    + cbn [isEmpty]. rewrite andb_false_r. cbn [litCI]. now rewrite E.
Qed.

Lemma litCI_first_not_ws (s : string) :
  despesasAt s = true -> trimStart s = s.
Proof.
  unfold despesasAt, despesasLabel. destruct s as [|b s]; [discriminate|].
  cbn [append litCI]. destruct (eqCI "D" b) eqn:E; [|discriminate]. intros _.
  unfold trimStart. cbn [dropWhile].
  assert (isWhiteSpace b = false) as ->; [|reflexivity].
  revert E. clear. destruct b as [[] [] [] [] [] [] [] []]; intros H; try reflexivity;
    discriminate H.
Qed.

(** *** The properties of the fields *)

(** X10: [modalidadeLinha] is the last non-blank piece of the first line when
    the line has two non-blank pieces between its separators " - ": for a
    line [x ++ " - " ++ y] whose [y] is not blank and has no separator it is
    [y] trimmed, when [x] has a non-blank piece and does not end with a space
    and a dash.  The modality of the item is that one, whatever the counter
    block says, else the text of the counter block; when present it is not
    empty and has no white space at its ends. *)
Theorem modalidadeFinal_last_piece (x y : string) (contador : option string) :
  includes " - " y = false ->
  JsString.forallb isWhiteSpace y = false ->
  Dom.endsWith " -" x = false ->
  dashParts x <> [] ->
  modalidadeLinha (x ++ " - " ++ y) = Some (trim y) /\
  modalidadeFinal (x ++ " - " ++ y) contador = Some (trim y) /\
  modalidadeLinha y = None /\
  modalidadeFinal y contador =
    match contador with
    | Some m => if JsString.forallb isWhiteSpace m then None else Some (trim m)
    | None => None
    end /\
  (forall line m, modalidadeFinal line contador = Some m -> isEmpty m = false /\ trim m = m).
Proof.
  intros Hy Hblank Hend Hx.
  assert (truthy (trim y) = true) as Hty
    by (unfold truthy; now rewrite trim_empty_allWs, Hblank).
  assert (modalidadeLinha (x ++ " - " ++ y) = Some (trim y)) as Hlinha.
  { unfold modalidadeLinha, dashParts.
    rewrite (splitDash_app x y Hy 0 (Nat.le_0_l _) Hend).
    rewrite map_app, List.filter_app. cbn [map List.filter]. rewrite Hty.
    fold (dashParts x). rewrite length_app, last_app_one. cbn [List.length].
    destruct (dashParts x) as [|p ps]; [congruence|]. cbn [List.length].
    replace (2 <=? S (List.length ps) + 1)%nat with true; [reflexivity|].
    symmetry. apply Nat.leb_le. lia. }
  assert (modalidadeLinha y = None) as Hone.
  { unfold modalidadeLinha, dashParts. rewrite (splitDash_whole y Hy).
    cbn [map List.filter]. now rewrite Hty. }
  split; [exact Hlinha|]. split; [|split; [exact Hone|split]].
  - unfold modalidadeFinal. rewrite Hlinha, Hty, trim_idem, Hty. reflexivity.
  - unfold modalidadeFinal. rewrite Hone. destruct contador as [m|]; [|reflexivity].
    unfold truthy. rewrite trim_empty_allWs. now destruct (JsString.forallb isWhiteSpace m).
  - intros line m. unfold modalidadeFinal.
    destruct (match modalidadeLinha line with
              | Some m0 => if truthy m0 then Some m0 else contador
              | None => contador
              end) as [m0|]; [|discriminate].
    destruct (truthy (trim m0)) eqn:E; [|discriminate]. intros [= <-].
    split; [now apply negb_true_iff in E | apply trim_idem].
Qed.

(** Instance: the modality at the end of a usual first line. *)
Lemma modalidadeFinal_last_piece_witness :
  modalidadeFinal "Apartamento - 58,00 m2, 2 quarto(s) - Venda Direta Online"
    (Some "Leilao") = Some "Venda Direta Online".
Proof.
  exact (proj1 (proj2 (modalidadeFinal_last_piece "Apartamento - 58,00 m2, 2 quarto(s)"
                         "Venda Direta Online" (Some "Leilao")
                         eq_refl eq_refl eq_refl ltac:(discriminate)))).
Defined.

Lemma take_length_app (p s : string) : take (String.length p) (p ++ s) = p.
Proof. induction p as [|c p IH]; [now destruct s|]. cbn [String.length append take]. now rewrite IH. Qed.

Lemma length_take_le (n : nat) (s : string) : String.length (take n s) <= n.
Proof.
  revert s. induction n as [|n IH]; intros [|c s]; cbn [take String.length]; try lia.
  specialize (IH s). lia.
Qed.

(** What [trim] leaves is a part of the text. *)
Lemma trimEnd_part (s : string) : exists v, s = trimEnd s ++ v.
Proof.
  induction s as [|c s [v IH]]; [now exists EmptyString|]. cbn [trimEnd].
  destruct (isWhiteSpace c && isEmpty (trimEnd s)).
  - now exists (String c s).
  - exists v. cbn [append]. now rewrite <- IH.
Qed.

Lemma trim_part (s : string) : exists u v, s = u ++ trim s ++ v.
Proof.
  unfold trim, trimStart. destruct (trimEnd_part (dropWhile isWhiteSpace s)) as [v Hv].
  exists (takeWhile isWhiteSpace s), v. now rewrite <- Hv, takeWhile_dropWhile.
Qed.

Lemma search_none (at_ : string -> bool) (s : string) :
  search at_ s = None -> forall p1 p2, s = p1 ++ p2 -> at_ p2 = false.
Proof.
  induction s as [|c r IH]; cbn [search]; intros H p1 p2 Hcut.
  - destruct p1; [|discriminate]. cbn [append] in Hcut. subst p2.
    now destruct (at_ EmptyString).
  - destruct (at_ (String c r)) eqn:E; [discriminate|].
    destruct (search at_ r) eqn:Hr; [discriminate|].
    destruct p1 as [|d p1]; cbn [append] in Hcut; [now subst p2|].
    injection Hcut as _ Hcut. exact (IH eq_refl p1 p2 Hcut).
Qed.

Lemma despesasAt_trim (s : string) : despesasAt s = true -> despesasAt (trim s) = true.
Proof.
  intros Hat. unfold trim. rewrite (litCI_first_not_ws _ Hat).
  unfold despesasAt, despesasLabel in *.
  destruct (litCI ("Despesas do im" ++ oacute ++ "vel") s) as [r|] eqn:E; [|discriminate].
  change ("Despesas do im" ++ oacute ++ "vel")
    with (("Despesas do im" ++ oacute ++ "ve") ++ "l") in E |- *.
  now rewrite (litCI_trimEnd _ _ _ E).
Qed.

Lemma despesasAt_same (l r : string) :
  sameLetters despesasLabel l = true -> despesasAt (l ++ r) = true.
Proof. intros H. unfold despesasAt. now rewrite (litCI_same _ _ _ H). Qed.

Lemma despesasAt_split (s : string) :
  despesasAt s = true -> exists l r, s = l ++ r /\ sameLetters despesasLabel l = true.
Proof.
  unfold despesasAt. destruct (litCI despesasLabel s) as [r|] eqn:E; [|discriminate].
  intros _. destruct (litCI_split _ _ _ E) as (l & Hs & Hl). now exists l, r.
Qed.

(** The block is cut where the label first stands. *)
Lemma enderecoObservacoes_first (a l q : string) :
  sameLetters despesasLabel l = true ->
  (forall p l' q', a ++ l = p ++ l' ++ q' -> sameLetters despesasLabel l' = true ->
                   q' = EmptyString) ->
  enderecoObservacoes (Some (a ++ l ++ q)) = (kept (trim a), Some (trim (l ++ q))).
Proof.
  intros Hl Hfirst. unfold enderecoObservacoes.
  assert (search despesasAt (a ++ l ++ q) = Some (String.length a)) as ->.
  { apply search_here; [|now apply despesasAt_same].
    intros p1 p2 Ha Hp2. unfold despesasAt.
    now rewrite (litCI_before_first despesasLabel a l q p1 p2 Hl Hfirst Ha Hp2). }
  rewrite take_length_app, drop_length_app.
  assert (truthy (a ++ l ++ q) = true) as ->.
  { unfold truthy. rewrite !isEmpty_app. destruct l; [discriminate Hl|].
    cbn [isEmpty]. now rewrite andb_false_r. }
  pose proof (despesasAt_trim _ (despesasAt_same l q Hl)) as Hat.
  unfold kept at 2. destruct (trim (l ++ q)); [discriminate Hat | reflexivity].
Qed.

(** A block without the label is the address. *)
Lemma enderecoObservacoes_no_label (raw : string) :
  (forall p l q, raw = p ++ l ++ q -> sameLetters despesasLabel l = false) ->
  enderecoObservacoes (Some raw) = (kept raw, None).
Proof.
  intros Hno. unfold enderecoObservacoes.
  assert (search despesasAt raw = None) as ->.
  { apply search_nowhere. intros p1 p2 Hcut.
    destruct (despesasAt p2) eqn:E; [|reflexivity].
    destruct (despesasAt_split _ E) as (l & r & -> & Hl).
    now rewrite (Hno p1 l r Hcut) in Hl. }
  unfold kept. now destruct (truthy raw).
Qed.

(** The address holds no label. *)
Lemma endereco_no_label (enderecoObsRaw : option string) (e p l q : string) :
  fst (enderecoObservacoes enderecoObsRaw) = Some e -> e = p ++ l ++ q ->
  sameLetters despesasLabel l = false.
Proof.
  intros He Hcut. destruct (sameLetters despesasLabel l) eqn:Hl; [exfalso|reflexivity].
  unfold enderecoObservacoes in He. destruct enderecoObsRaw as [raw|]; [|discriminate].
  destruct (truthy raw); [|discriminate].
  destruct (search despesasAt raw) as [idx|] eqn:Hs; cbn [fst] in He.
  - unfold kept in He. destruct (truthy (trim (take idx raw))); [|discriminate].
    injection He as He. destruct (trim_part (take idx raw)) as (u & v & Hpart).
    rewrite He, Hcut in Hpart.
    pose proof (length_take_le idx raw) as Hlen. rewrite Hpart in Hlen.
    rewrite !CsvText.length_append in Hlen.
    pose proof (sameLetters_length _ _ Hl) as Hlab. change (String.length despesasLabel) with 18 in Hlab.
    assert (String.length (u ++ p) < idx) as Hlt by (rewrite CsvText.length_append; lia).
    pose proof (search_first _ _ _ Hs _ Hlt) as Hno.
    rewrite <- (take_drop idx raw), Hpart in Hno.
    replace ((u ++ (p ++ l ++ q) ++ v) ++ drop idx raw)
      with ((u ++ p) ++ l ++ (q ++ v ++ drop idx raw)) in Hno
      by (now rewrite !append_assoc).
    rewrite drop_length_app in Hno. now rewrite (despesasAt_same _ _ Hl) in Hno.
  - unfold kept in He. destruct (truthy raw); [|discriminate]. injection He as He.
    rewrite He, Hcut in Hs.
    pose proof (search_none _ _ Hs p (l ++ q) eq_refl) as Hno.
    now rewrite (despesasAt_same _ _ Hl) in Hno.
Qed.

(** The shares of the block. *)
Lemma enderecoObservacoes_shares (enderecoObsRaw : option string) :
  let raw := match enderecoObsRaw with Some s => s | None => EmptyString end in
  let endereco := fst (enderecoObservacoes enderecoObsRaw) in
  let observacoes := snd (enderecoObservacoes enderecoObsRaw) in
  let text := fun v : option string => match v with Some s => s | None => EmptyString end in
  JsString.filter notWhiteSpace (text endereco) ++ JsString.filter notWhiteSpace (text observacoes)
    = JsString.filter notWhiteSpace raw /\
  endereco <> Some EmptyString /\ observacoes <> Some EmptyString /\
  (forall o, observacoes = Some o ->
     despesasAt o = true /\ trim o = o /\ search despesasAt raw <> None) /\
  (search despesasAt raw = None -> observacoes = None /\ endereco = kept raw) /\
  (forall e, endereco = Some e -> trim e = e \/ e = raw).
Proof.
  cbv zeta. unfold enderecoObservacoes.
  assert (forall s, kept s <> Some EmptyString) as Hkept
    by (intros [|c s]; cbn; discriminate).
  assert (forall s, match kept s with Some t => t | None => EmptyString end = s) as Htext
    by (intros [|c s]; reflexivity).
  destruct enderecoObsRaw as [raw|]; [|cbn; repeat split; try discriminate; auto].
  destruct raw as [|c0 r0] eqn:Hraw; [cbn; repeat split; try discriminate; auto|].
  rewrite <- Hraw. replace (truthy raw) with true by (now rewrite Hraw).
  clear Hraw c0 r0.
  destruct (search despesasAt raw) as [idx|] eqn:Hs; cbn [fst snd].
  - destruct (search_spec _ _ _ Hs) as [Hat _].
    rewrite !Htext, !filter_trim_ws, <- JsString.filter_app, take_drop.
    split; [reflexivity|]. split; [apply Hkept|]. split; [apply Hkept|].
    split; [|split; [discriminate|]].
    + intros o Ho. unfold kept in Ho.
      destruct (truthy (trim (drop idx raw))); [|discriminate]. injection Ho as <-.
      split; [|split; [apply trim_idem | discriminate]].
      unfold trim. rewrite (litCI_first_not_ws _ Hat).
      unfold despesasAt, despesasLabel in *.
      destruct (litCI ("Despesas do im" ++ oacute ++ "vel") (drop idx raw)) as [r|] eqn:E;
        [|discriminate].
      change ("Despesas do im" ++ oacute ++ "vel")
        with (("Despesas do im" ++ oacute ++ "ve") ++ "l") in E |- *.
      now rewrite (litCI_trimEnd _ _ _ E).
    + intros e He. left. unfold kept in He.
      destruct (truthy (trim (take idx raw))); [|discriminate]. injection He as <-.
      apply trim_idem.
  - rewrite Htext. cbn [JsString.filter]. rewrite append_empty_r.
    split; [reflexivity|]. split; [apply Hkept|]. split; [discriminate|].
    split; [discriminate|]. split; [now split|].
    intros e He. right. unfold kept in He. destruct (truthy raw); [|discriminate].
    now injection He as <-.
Qed.

(** X11: the address and the observations share out the block that follows the
    number of the property.  Where the label [despesasLabel] first stands in
    the block, in any letter case, the observations are the block from there
    on and the address is what comes before, each trimmed; a block that holds
    the label nowhere is the address, and there are no observations.  The
    address never holds the label, the observations start with it, neither
    is ever an empty string, and together they hold every code unit of the
    block that is not white space, in order. *)
Theorem enderecoObservacoes_partition (enderecoObsRaw : option string) :
  let raw := match enderecoObsRaw with Some s => s | None => EmptyString end in
  let endereco := fst (enderecoObservacoes enderecoObsRaw) in
  let observacoes := snd (enderecoObservacoes enderecoObsRaw) in
  let text := fun v : option string => match v with Some s => s | None => EmptyString end in
  JsString.filter notWhiteSpace (text endereco) ++ JsString.filter notWhiteSpace (text observacoes)
    = JsString.filter notWhiteSpace raw /\
  endereco <> Some EmptyString /\ observacoes <> Some EmptyString /\
  (forall o, observacoes = Some o ->
     despesasAt o = true /\ trim o = o /\ search despesasAt raw <> None) /\
  (search despesasAt raw = None -> observacoes = None /\ endereco = kept raw) /\
  (forall e, endereco = Some e -> trim e = e \/ e = raw) /\
  (forall a l q,
     raw = a ++ l ++ q ->
     sameLetters despesasLabel l = true ->
     (forall p l' q', a ++ l = p ++ l' ++ q' -> sameLetters despesasLabel l' = true ->
                      q' = EmptyString) ->
     endereco = kept (trim a) /\ observacoes = Some (trim (l ++ q))) /\
  ((forall p l q, raw = p ++ l ++ q -> sameLetters despesasLabel l = false) ->
   observacoes = None /\ endereco = kept raw) /\
  (forall e p l q, endereco = Some e -> e = p ++ l ++ q ->
                   sameLetters despesasLabel l = false).
Proof.
  cbv zeta.
  destruct (enderecoObservacoes_shares enderecoObsRaw) as (H1 & H2 & H3 & H4 & H5 & H6).
  split; [exact H1|]. split; [exact H2|]. split; [exact H3|]. split; [exact H4|].
  split; [exact H5|]. split; [exact H6|]. split; [|split].
  - intros a l q Hraw Hl Hfirst. destruct enderecoObsRaw as [raw|].
    + subst raw. now rewrite (enderecoObservacoes_first a l q Hl Hfirst).
    + exfalso. destruct a; [|discriminate]. destruct l; discriminate.
  - intros Hno. destruct enderecoObsRaw as [raw|]; [|now split].
    now rewrite (enderecoObservacoes_no_label raw Hno).
  - intros e p l q. apply endereco_no_label.
Qed.

(** Instance: a block with the label in capitals after the address. *)
Lemma enderecoObservacoes_partition_witness :
  enderecoObservacoes
    (Some (("RUA A, N. 10, CENTRO" ++ String lineFeed " ") ++
           ("DESPESAS DO IM" ++ unit 211 ++ "VEL") ++ ": sob responsabilidade do comprador. "))
  = (kept (trim ("RUA A, N. 10, CENTRO" ++ String lineFeed " ")),
     Some (trim (("DESPESAS DO IM" ++ unit 211 ++ "VEL") ++
                 ": sob responsabilidade do comprador. "))) /\
  kept (trim ("RUA A, N. 10, CENTRO" ++ String lineFeed " ")) = Some "RUA A, N. 10, CENTRO" /\
  trim (("DESPESAS DO IM" ++ unit 211 ++ "VEL") ++ ": sob responsabilidade do comprador. ")
  = ("DESPESAS DO IM" ++ unit 211 ++ "VEL") ++ ": sob responsabilidade do comprador.".
Proof.
  split; [|split; vm_compute; reflexivity].
  destruct (proj1 (proj2 (proj2 (proj2 (proj2 (proj2 (proj2
    (enderecoObservacoes_partition
       (Some (("RUA A, N. 10, CENTRO" ++ String lineFeed " ") ++
              ("DESPESAS DO IM" ++ unit 211 ++ "VEL") ++
              ": sob responsabilidade do comprador. ")))))))))
    ("RUA A, N. 10, CENTRO" ++ String lineFeed " ")
    ("DESPESAS DO IM" ++ unit 211 ++ "VEL")
    ": sob responsabilidade do comprador. " eq_refl eq_refl
    (first_by_search despesasLabel ("RUA A, N. 10, CENTRO" ++ String lineFeed " ")
       ("DESPESAS DO IM" ++ unit 211 ++ "VEL") eq_refl eq_refl)) as [He Ho].
  rewrite (surjective_pairing (enderecoObservacoes _)), He, Ho. reflexivity.
Defined.

End ListFields.

(** ** src/parsers/parseListPage.ts: the type of the property

    [tipoImovel] is read from the first line of the description block with a
    pattern whose dot refuses the line terminators U+2028 and U+2029, which a
    trimmed line may hold: here a line is a sequence of UTF-16 code units. *)

Module FirstLine.
Local Open Scope N_scope.

(** The code units of a text whose code units are below 256. *)
Definition units (s : string) : list N := map N_of_ascii (list_ascii_of_string s).

(** LineTerminator: LF, CR, U+2028 and U+2029. *)
Definition isLineTerminator (c : N) : bool :=
  (c =? 10) || (c =? 13) || (c =? 8232) || (c =? 8233).

(** What [\s] matches and [trim] removes: WhiteSpace (TAB, VT, FF, SP, NBSP,
    U+1680, U+2000 to U+200A, U+202F, U+205F, U+3000, U+FEFF) and
    LineTerminator. *)
Definition isWhiteSpace (c : N) : bool :=
  (c =? 9) || (c =? 11) || (c =? 12) || (c =? 32) || (c =? 160) || (c =? 5760) ||
  ((8192 <=? c) && (c <=? 8202)) || (c =? 8239) || (c =? 8287) || (c =? 12288) ||
  (c =? 65279) || isLineTerminator c.

Definition dash : N := 45.

Fixpoint dropWhile (p : N -> bool) (s : list N) : list N :=
  match s with
  | [] => []
  | c :: r => if p c then dropWhile p r else s
  end.

Definition trimStart (s : list N) : list N := dropWhile isWhiteSpace s.

Fixpoint trimEnd (s : list N) : list N :=
  match s with
  | [] => []
  | c :: r =>
      match trimEnd r with
      | [] => if isWhiteSpace c then [] else [c]
      | r' => c :: r'
      end
  end.

(** [s.trim()] *)
Definition trim (s : list N) : list N := trimEnd (trimStart s).

(** [\s*] before something that is not white space. *)
Definition ws0 (s : list N) : list N := dropWhile isWhiteSpace s.

(** A dash stands at the start of [s]. *)
Definition dashAt (s : list N) : bool :=
  match s with
  | c :: _ => c =? dash
  | [] => false
  end.

(** [firstMatch(text, re)], given the first group of the match of [re]:
    [m?.[1]?.trim() || undefined]. *)
Definition firstMatch (group1 : option (list N)) : option (list N) :=
  match group1 with
  | Some g => match trim g with [] => None | t => Some t end
  | None => None
  end.

(** The rest of the group of [/^(.+?)\s*-\s*/] after its first code unit:
    the group is the shortest one that [\s*-] follows, and the dot takes no
    line terminator. *)
Fixpoint lazyGroup (r : list N) : option (list N) :=
  if dashAt (ws0 r) then Some []
  else match r with
       | [] => None
       | d :: r' => if isLineTerminator d then None else option_map (cons d) (lazyGroup r')
       end.

Definition tipoAt (s : list N) : option (list N) :=
  match s with
  | c :: r => if isLineTerminator c then None else option_map (cons c) (lazyGroup r)
  | [] => None
  end.

(** [firstMatch(firstLine, /^(.+?)\s*-\s*/)] *)
Definition tipoImovel (line : list N) : option (list N) := firstMatch (tipoAt line).

Definition notDash (c : N) : bool := negb (c =? dash).

(** *** Facts *)

Lemma lineTerminator_whiteSpace (c : N) : isLineTerminator c = true -> isWhiteSpace c = true.
Proof. unfold isWhiteSpace. intros ->. now rewrite orb_true_r. Qed.

Lemma dash_not_whiteSpace (c : N) : isWhiteSpace c = true -> notDash c = true.
Proof.
  unfold notDash, dash. destruct (N.eqb_spec c 45) as [->|]; [discriminate | reflexivity].
Qed.

Lemma units_trimEnd_allWs (w : list N) : forallb isWhiteSpace w = true -> trimEnd w = [].
Proof.
  induction w as [|c w IH]; [reflexivity|]. cbn [forallb trimEnd]. intros H.
  apply andb_true_iff in H as [Hc Hw]. now rewrite (IH Hw), Hc.
Qed.

Lemma units_trimEnd_nil (s : list N) : trimEnd s = [] -> forallb isWhiteSpace s = true.
Proof.
  induction s as [|c s IH]; [reflexivity|]. cbn [forallb trimEnd].
  destruct (trimEnd s) as [|d t]; [|discriminate].
  destruct (isWhiteSpace c); [intros _; now apply IH | discriminate].
Qed.

Lemma units_trimEnd_app_ws (s w : list N) :
  forallb isWhiteSpace w = true -> trimEnd (s ++ w) = trimEnd s.
Proof.
  intros Hw. induction s as [|c s IH].
  - cbn [app]. now rewrite (units_trimEnd_allWs _ Hw).
  - cbn [app trimEnd]. now rewrite IH.
Qed.

Lemma units_dropWhile_app (p : N -> bool) (s w : list N) :
  forallb p s = false -> dropWhile p (s ++ w) = dropWhile p s ++ w.
Proof.
  induction s as [|c s IH]; [discriminate|]. cbn [forallb app dropWhile].
  destruct (p c); [exact IH | reflexivity].
Qed.

Lemma units_dropWhile_all (p : N -> bool) (s : list N) :
  forallb p s = true -> dropWhile p s = [].
Proof.
  induction s as [|c s IH]; [reflexivity|]. cbn [forallb dropWhile].
  destruct (p c); [exact IH | discriminate].
Qed.

Lemma units_dropWhile_forallb (p : N -> bool) (s : list N) :
  forallb p (dropWhile p s) = forallb p s.
Proof.
  induction s as [|c s IH]; [reflexivity|]. cbn [dropWhile forallb].
  destruct (p c) eqn:E; [exact IH|]. cbn [forallb]. now rewrite E.
Qed.

Lemma units_trim_app_ws (s w : list N) :
  forallb isWhiteSpace w = true -> trim (s ++ w) = trim s.
Proof.
  intros Hw. unfold trim, trimStart.
  destruct (forallb isWhiteSpace s) eqn:Hs.
  - rewrite (units_dropWhile_all _ _ Hs), units_dropWhile_all; [reflexivity|].
    rewrite forallb_app. now rewrite Hs, Hw.
  - rewrite (units_dropWhile_app _ _ _ Hs). now apply units_trimEnd_app_ws.
Qed.

(** A text has an empty trim exactly when all of it is white space. *)
Lemma units_trim_nil (s : list N) :
  match trim s with [] => true | _ :: _ => false end = forallb isWhiteSpace s.
Proof.
  unfold trim, trimStart. rewrite <- (units_dropWhile_forallb isWhiteSpace s).
  destruct (trimEnd (dropWhile isWhiteSpace s)) as [|d t] eqn:E.
  - symmetry. now apply units_trimEnd_nil.
  - destruct (forallb isWhiteSpace (dropWhile isWhiteSpace s)) eqn:F; [|reflexivity].
    now rewrite (units_trimEnd_allWs _ F) in E.
Qed.

Lemma firstMatch_trim (g : list N) :
  firstMatch (Some g) = if forallb isWhiteSpace g then None else Some (trim g).
Proof.
  unfold firstMatch. rewrite <- units_trim_nil. now destruct (trim g).
Qed.

(** White space that leads to something that is no dash. *)
Lemma dashAt_ws0_app (x rest : list N) :
  forallb notDash x = true ->
  dashAt (ws0 (x ++ rest)) = forallb isWhiteSpace x && dashAt (ws0 rest).
Proof.
  unfold ws0. induction x as [|d x IH]; [reflexivity|]. cbn [forallb app dropWhile].
  intros H. apply andb_true_iff in H as [Hd Hx].
  destruct (isWhiteSpace d); [exact (IH Hx)|].
  cbn [dashAt andb]. unfold notDash in Hd. now apply negb_true_iff in Hd.
Qed.

(** The lazy group before what stops it: a dash, a line terminator or the
    end of the line. *)
Lemma lazyGroup_stop (x rest : list N) :
  forallb notDash x = true ->
  existsb isLineTerminator x = false ->
  lazyGroup rest = (if dashAt (ws0 rest) then Some [] else None) ->
  if dashAt (ws0 rest)
  then exists g w, lazyGroup (x ++ rest) = Some g /\ x = g ++ w /\
                   forallb isWhiteSpace w = true
  else lazyGroup (x ++ rest) = None.
Proof.
  intros Hx Hlt Hrest. induction x as [|d x IH].
  - cbn [app]. rewrite Hrest. destruct (dashAt (ws0 rest)); [|reflexivity].
    now exists [], [].
  - cbn [forallb existsb] in Hx, Hlt.
    pose proof Hx as Hdx. apply andb_true_iff in Hx as [Hd Hx].
    apply orb_false_iff in Hlt as [Hl Hlt]. specialize (IH Hx Hlt).
    cbn [app lazyGroup]. change (d :: x ++ rest) with ((d :: x) ++ rest).
    rewrite (dashAt_ws0_app (d :: x) rest Hdx), Hl.
    destruct (dashAt (ws0 rest)).
    + destruct IH as (g & w & Hg & Hxg & Hw).
      destruct (forallb isWhiteSpace (d :: x)) eqn:Hws; cbn [andb].
      * exists [], (d :: x). now repeat split.
      * rewrite Hg. exists (d :: g), w. cbn [option_map app]. now rewrite <- Hxg.
    + rewrite andb_false_r, IH. reflexivity.
Qed.

Lemma lazyGroup_dash (b : list N) :
  lazyGroup (dash :: b) = (if dashAt (ws0 (dash :: b)) then Some [] else None).
Proof. reflexivity. Qed.

Lemma lazyGroup_end : lazyGroup [] = (if dashAt (ws0 []) then Some [] else None).
Proof. reflexivity. Qed.

Lemma lazyGroup_terminator (t : N) (z : list N) :
  isLineTerminator t = true ->
  lazyGroup (t :: z) = (if dashAt (ws0 (t :: z)) then Some [] else None).
Proof. intros Ht. cbn [lazyGroup]. rewrite Ht. now destruct (dashAt (ws0 (t :: z))). Qed.

(** X9: [tipoImovel], on a first line given as UTF-16 code units, is the text
    before the first dash that follows the first code unit, trimmed, when no
    line terminator (LF, CR, U+2028, U+2029) stands in it; a line of white
    space before the dash, a line with no dash after its first code unit and
    the empty line give none.  When a line terminator comes before any such
    dash, the type is the text before the terminator, trimmed, if only white
    space separates the terminator from a dash, and none otherwise; a line
    that starts with a line terminator gives none. *)
Theorem tipoImovel_before_dash (c : N) (x b : list N) :
  forallb notDash x = true ->
  existsb isLineTerminator (c :: x) = false ->
  tipoImovel (c :: x ++ dash :: b) =
    (if forallb isWhiteSpace (c :: x) then None else Some (trim (c :: x))) /\
  tipoImovel (c :: x) = None /\
  tipoImovel [] = None /\
  (forall t z, isLineTerminator t = true ->
     tipoImovel (c :: x ++ t :: z) =
       if dashAt (ws0 z)
       then (if forallb isWhiteSpace (c :: x) then None else Some (trim (c :: x)))
       else None) /\
  (forall t z, isLineTerminator t = true -> tipoImovel (t :: z) = None).
Proof.
  intros Hx Hlt. cbn [existsb] in Hlt. apply orb_false_iff in Hlt as [Hc Hlt].
  assert (forall g w, x = g ++ w -> forallb isWhiteSpace w = true ->
            firstMatch (Some (c :: g)) =
            if forallb isWhiteSpace (c :: x) then None else Some (trim (c :: x))) as Hgroup.
  { intros g w -> Hw. rewrite firstMatch_trim.
    change (c :: g ++ w) with ((c :: g) ++ w).
    rewrite (units_trim_app_ws _ _ Hw), forallb_app, Hw. now rewrite andb_true_r. }
  split; [|split; [|split; [reflexivity|split]]].
  - pose proof (lazyGroup_stop x (dash :: b) Hx Hlt (lazyGroup_dash b)) as H.
    change (dashAt (ws0 (dash :: b))) with true in H.
    destruct H as (g & w & Hg & Hxg & Hw).
    unfold tipoImovel, tipoAt. rewrite Hc, Hg. cbn [option_map]. exact (Hgroup g w Hxg Hw).
  - pose proof (lazyGroup_stop x [] Hx Hlt lazyGroup_end) as H.
    change (dashAt (ws0 [])) with false in H. rewrite app_nil_r in H.
    unfold tipoImovel, tipoAt. now rewrite Hc, H.
  - intros t z Ht.
    pose proof (lazyGroup_stop x (t :: z) Hx Hlt (lazyGroup_terminator t z Ht)) as H.
    assert (ws0 (t :: z) = ws0 z) as Hws
      by (unfold ws0; cbn [dropWhile]; now rewrite (lineTerminator_whiteSpace t Ht)).
    rewrite Hws in H. unfold tipoImovel, tipoAt. rewrite Hc.
    destruct (dashAt (ws0 z)).
    + destruct H as (g & w & Hg & Hxg & Hw). rewrite Hg. cbn [option_map].
      exact (Hgroup g w Hxg Hw).
    + now rewrite H.
  - intros t z Ht. unfold tipoImovel, tipoAt. now rewrite Ht.
Qed.

(** Instances: a usual first line, one that starts with a dash, and one
    with U+2028 between two words. *)
Lemma tipoImovel_before_dash_witness :
  tipoImovel (units "Apartamento - 58,00 m2, 2 quarto(s), 1 vaga(s) - Venda Online") =
    Some (units "Apartamento") /\
  tipoImovel (units "-Casa - 100 m2") = Some (units "-Casa") /\
  tipoImovel (units "Casa" ++ 8232 :: units "A - 58") = None /\
  tipoImovel (units "Casa" ++ 8232 :: units " - 58") = Some (units "Casa").
Proof.
  split; [|split; [|split]].
  - exact (proj1 (tipoImovel_before_dash 65 (units "partamento ")
                    (units " 58,00 m2, 2 quarto(s), 1 vaga(s) - Venda Online")
                    eq_refl eq_refl)).
  - exact (proj1 (tipoImovel_before_dash 45 (units "Casa ") (units " 100 m2")
                    eq_refl eq_refl)).
  - exact (proj1 (proj2 (proj2 (proj2 (tipoImovel_before_dash 67 (units "asa") []
                    eq_refl eq_refl)))) 8232 (units "A - 58") eq_refl).
  - exact (proj1 (proj2 (proj2 (proj2 (tipoImovel_before_dash 67 (units "asa") []
                    eq_refl eq_refl)))) 8232 (units " - 58") eq_refl).
Defined.

End FirstLine.

(** ** src/parsers/parseDetailPage.ts: the textual fields *)

Module DetailFields.
Import JsString JsNumber Models Dom Latin1.
Local Open Scope string_scope.

(** [cleanText]: [undefined] is [None]. *)
Definition cleanText (raw : option string) : option string :=
  let t := squeeze (match raw with Some s => s | None => EmptyString end) in
  if truthy t then Some t else None.

(** [pickStrongValue($, label)]: the first [span] whose text contains the
    label, the first [strong] below it, its text cleaned. *)
Definition pickStrongValue (doc : node) (label : string) : option string :=
  let spans := find (fun n => hasTag "span" n && containsText label n) doc in
  let strongs := match spans with
                 | span :: _ => find (hasTag "strong") span
                 | [] => []
                 end in
  cleanText (Some (textOfFirst strongs)).

(** [quartos] and [garagem]:
    [const n = raw ? Number(raw) : NaN; return Number.isFinite(n) ? n : undefined]. *)
Definition finiteNumber (raw : option string) : option Num :=
  let n := match raw with
           | Some s => if truthy s then Number s else NaN
           | None => NaN
           end in
  if isFinite n then Some n else None.

Definition quartos (doc : node) : option Num := finiteNumber (pickStrongValue doc "Quartos").

Definition garagem (doc : node) : option Num := finiteNumber (pickStrongValue doc "Garagem").

(** The class [[,\s]]. *)
Definition isSeparator (c : ascii) : bool := Ascii.eqb c "," || isWhiteSpace c.

(** [s.split(/[,\s]+/)]: the pieces between the runs of separators; [inRun]
    tells that the previous code unit was a separator. *)
Fixpoint splitRuns (inRun : bool) (s : string) : list string :=
  match s with
  | EmptyString => [EmptyString]
  | String c r =>
      if isSeparator c
      then (if inRun then splitRuns true r else EmptyString :: splitRuns true r)
      else match splitRuns false r with
           | h :: t => String c h :: t
           | [] => [String c EmptyString]
           end
  end.

(** [matriculas], given what [pickStrongValue] returned for the label of the field. *)
Definition matriculasOf (raw : option string) : option (list string) :=
  match raw with
  | Some s =>
      if truthy s
      then DetailPage.nonEmptyList (List.filter truthy (map trim (splitRuns false s)))
      else None
  | None => None
  end.

Definition matriculas (doc : node) : option (list string) :=
  matriculasOf (pickStrongValue doc ("Matr" ++ iacute ++ "cula")).

Definition notBrazilianChar (c : ascii) : bool := negb (brazilianChar c).

(** [raw?.match(/([\d\.,]+)/)?.[1]]: the leftmost longest run of digits,
    points and commas. *)
Definition firstNumberRun (raw : option string) : option string :=
  match raw with
  | Some s =>
      let r := dropWhile notBrazilianChar s in
      if isEmpty r then None else Some (takeWhile brazilianChar r)
  | None => None
  end.

(** [areaTotalM2] and [areaPrivativaM2], given the cleaned text of the
    [strong]. *)
Definition areaOf (raw : option string) : option Num :=
  match firstNumberRun raw with
  | Some num => if truthy num then parseBrazilianNumber num else None
  | None => None
  end.

(** [cleanText($("span:contains(label) strong").first().text())] *)
Definition strongBelowSpan (doc : node) (label : string) : option string :=
  cleanText (Some (textOfFirst
    (findBelow (fun n => hasTag "span" n && containsText label n) (hasTag "strong") doc))).

Definition areaTotalM2 (doc : node) : option Num :=
  areaOf (strongBelowSpan doc (Aacute ++ "rea total")).

Definition areaPrivativaM2 (doc : node) : option Num :=
  areaOf (strongBelowSpan doc (Aacute ++ "rea privativa")).

(** *** Facts *)

Lemma cleanText_squeeze (raw : option string) :
  cleanText raw =
  let t := squeeze (match raw with Some s => s | None => EmptyString end) in
  if isEmpty t then None else Some t.
Proof. unfold cleanText, truthy. cbv zeta. now destruct (isEmpty _). Qed.

Lemma singleSpaced_spaces (s : string) :
  singleSpaced s = true ->
  JsString.forallb (fun c => negb (isWhiteSpace c) || Ascii.eqb c " ") s = true /\
  includes "  " s = false.
Proof.
  induction s as [|c r IH]; [now split|]. cbn [singleSpaced]. intros H.
  apply andb_true_iff in H as [Hc Hr]. destruct (IH Hr) as [IH1 IH2].
  cbn [JsString.forallb includes]. rewrite IH1, IH2, andb_true_r, orb_false_r.
  apply orb_true_iff in Hc as [Hc|Hc].
  - rewrite Hc. split; [reflexivity|]. cbn [startsWith].
    destruct (Ascii.eqb_spec " " c) as [<-|_]; [discriminate Hc | reflexivity].
  - apply andb_true_iff in Hc as [Hsp Hnext]. rewrite Hsp, orb_true_r.
    split; [reflexivity|]. cbn [startsWith]. destruct r as [|d t]; [now rewrite andb_false_r|].
    destruct (Ascii.eqb_spec " " d) as [<-|_]; [discriminate Hnext|].
    now rewrite andb_false_r.
Qed.

Lemma isSeparator_ws (c : ascii) : isWhiteSpace c = true -> isSeparator c = true.
Proof. intros H. unfold isSeparator. rewrite H. apply orb_true_r. Qed.

Definition notSeparator (c : ascii) : bool := negb (isSeparator c).

(** The pieces of [splitRuns]: no separator inside, none empty but the first
    and the last, and together the text without its separators. *)
Lemma splitRuns_pieces (s : string) :
  forall inRun,
    Forall (fun p => JsString.forallb notSeparator p = true) (splitRuns inRun s) /\
    String.concat "" (splitRuns inRun s) = JsString.filter notSeparator s /\
    splitRuns inRun s <> [].
Proof.
  induction s as [|c r IH]; intros inRun.
  - cbn. repeat split; [repeat constructor | discriminate].
  - cbn [splitRuns JsString.filter]. unfold notSeparator at 2.
    destruct (isSeparator c) eqn:Hc; cbn [negb].
    + destruct (IH true) as (H1 & H2 & H3). destruct inRun.
      * repeat split; assumption.
      * split; [constructor; [reflexivity | assumption]|].
        split; [|discriminate]. rewrite concat_cons. exact H2.
    + destruct (IH false) as (H1 & H2 & H3).
      destruct (splitRuns false r) as [|h t]; [congruence|].
      inversion H1 as [|? ? Hh Ht]; subst.
      split; [constructor; [|assumption]|].
      * cbn [JsString.forallb]. unfold notSeparator at 1. now rewrite Hc, Hh.
      * split; [|discriminate]. rewrite concat_cons in *. cbn [append]. now rewrite H2.
Qed.

Lemma notSeparator_noWs (p : string) :
  JsString.forallb notSeparator p = true -> JsString.existsb isWhiteSpace p = false.
Proof.
  apply forallb_existsb_false. intros c Hc.
  destruct (isWhiteSpace c) eqn:E; [|reflexivity].
  unfold notSeparator in Hc. now rewrite (isSeparator_ws c E) in Hc.
Qed.

Lemma concat_filter_truthy (l : list string) :
  String.concat "" (List.filter truthy l) = String.concat "" l.
Proof.
  induction l as [|x r IH]; [reflexivity|]. cbn [List.filter].
  destruct x as [|c x]; cbn [truthy isEmpty negb].
  - now rewrite concat_cons, IH.
  - now rewrite !concat_cons, IH.
Qed.

Lemma map_trim_pieces (l : list string) :
  Forall (fun p => JsString.forallb notSeparator p = true) l -> map trim l = l.
Proof.
  induction 1 as [|x r Hx Hr IH]; [reflexivity|]. cbn [map].
  now rewrite IH, (trim_noWs x (notSeparator_noWs x Hx)).
Qed.

Lemma firstNumberRun_spec (pre num post : string) :
  JsString.forallb notBrazilianChar pre = true ->
  JsString.forallb brazilianChar num = true ->
  isEmpty num = false ->
  JsString.forallb brazilianChar (take 1 post) = false \/ post = EmptyString ->
  firstNumberRun (Some (pre ++ num ++ post)) = Some num.
Proof.
  intros Hpre Hnum Hne Hpost. unfold firstNumberRun.
  rewrite (dropWhile_app _ _ _ Hpre).
  destruct num as [|c num]; [discriminate|].
  cbn [JsString.forallb] in Hnum. apply andb_true_iff in Hnum as [Hc Hnum].
  cbn [append dropWhile].
  replace (notBrazilianChar c) with false by (unfold notBrazilianChar; now rewrite Hc).
  cbn [isEmpty].
  f_equal. cbn [takeWhile]. rewrite Hc. f_equal.
  rewrite (takeWhile_app _ _ _ Hnum).
  destruct post as [|d post]; [now rewrite append_empty_r|].
  destruct Hpost as [Hpost|Hpost]; [|discriminate].
  cbn [take JsString.forallb] in Hpost. rewrite andb_true_r in Hpost.
  cbn [takeWhile]. rewrite Hpost. apply append_empty_r.
Qed.

(** *** The properties of the fields *)

(** X12: [cleanText] gives nothing exactly for a missing or blank text; what it
    gives is not empty, has no white space at its ends, has single spaces as
    its only white space, and keeps the code units that are not white space,
    in their order; cleaning a cleaned text changes nothing. *)
Theorem cleanText_normal_form (raw : option string) :
  let s := match raw with Some s => s | None => EmptyString end in
  (cleanText raw = None <-> JsString.forallb isWhiteSpace s = true) /\
  (forall t, cleanText raw = Some t ->
     isEmpty t = false /\
     trim t = t /\
     JsString.forallb (fun c => negb (isWhiteSpace c) || Ascii.eqb c " ") t = true /\
     includes "  " t = false /\
     JsString.filter notWhiteSpace t = JsString.filter notWhiteSpace s /\
     cleanText (Some t) = Some t).
Proof.
  cbv zeta. rewrite cleanText_squeeze. cbv zeta.
  set (s := match raw with Some s => s | None => EmptyString end).
  pose proof (squeeze_empty_allWs s) as Hempty.
  split.
  - destruct (isEmpty (squeeze s)); rewrite <- Hempty; split; congruence.
  - intros t Ht. destruct (isEmpty (squeeze s)) eqn:E; [discriminate|].
    injection Ht as <-.
    destruct (singleSpaced_spaces _ (squeeze_singleSpaced s)) as [H1 H2].
    split; [exact E|]. split; [unfold squeeze; apply trim_idem|].
    split; [exact H1|]. split; [exact H2|]. split; [apply filter_squeeze_ws|].
    rewrite cleanText_squeeze. cbv zeta. now rewrite squeeze_idem, E.
Qed.

(** X13: [matriculas], when present, is a non-empty list of non-empty pieces
    without commas or white space which, put together, are the text of the
    field without its commas and white space; it is absent exactly when the
    field is absent or made of separators only. *)
Theorem matriculasOf_pieces (raw : option string) :
  (forall parts, matriculasOf raw = Some parts ->
     exists s, raw = Some s /\
       parts <> [] /\
       Forall (fun p => isEmpty p = false /\ JsString.forallb notSeparator p = true) parts /\
       String.concat "" parts = JsString.filter notSeparator s) /\
  (matriculasOf raw = None <->
   JsString.forallb isSeparator (match raw with Some s => s | None => EmptyString end) = true).
Proof.
  assert (forall s, isEmpty (JsString.filter notSeparator s) = JsString.forallb isSeparator s)
    as Hfilter.
  { induction s as [|c r IH]; [reflexivity|]. cbn [JsString.filter JsString.forallb].
    unfold notSeparator at 1. destruct (isSeparator c); [exact IH | reflexivity]. }
  destruct raw as [s|]; cbn [matriculasOf]; [|split; [discriminate | tauto]].
  destruct (splitRuns_pieces s false) as (Hall & Hcat & _).
  rewrite (map_trim_pieces _ Hall).
  assert (String.concat "" (List.filter truthy (splitRuns false s)) =
          JsString.filter notSeparator s) as Hcat'
    by (now rewrite concat_filter_truthy).
  destruct s as [|c r] eqn:Hs; cbn [truthy isEmpty negb]; [split; [discriminate | tauto]|].
  rewrite <- Hs in *. clear Hs c r.
  destruct (List.filter truthy (splitRuns false s)) as [|p ps] eqn:Hparts;
    cbn [DetailPage.nonEmptyList].
  - split; [discriminate|]. rewrite <- Hfilter, <- Hcat'. tauto.
  - split.
    + intros parts [= <-]. exists s. split; [reflexivity|]. split; [discriminate|].
      split; [|exact Hcat'].
      apply Forall_forall. intros q Hq. rewrite <- Hparts in Hq.
      apply filter_In in Hq as [Hin Hq]. split; [now apply negb_true_iff in Hq|].
      rewrite Forall_forall in Hall. now apply Hall.
    + split; [discriminate|]. rewrite <- Hfilter, <- Hcat'.
      assert (In p (List.filter truthy (splitRuns false s))) as Hin
        by (rewrite Hparts; now left).
      apply filter_In in Hin as [_ Hp]. rewrite concat_cons.
      destruct p; [discriminate Hp | discriminate].
Qed.

(** Instance: two registrations separated by a comma and a space. *)
Lemma matriculasOf_pieces_witness :
  matriculasOf (Some "12.345, 67890") = Some ["12.345"; "67890"] /\
  String.concat "" ["12.345"; "67890"] = JsString.filter notSeparator "12.345, 67890".
Proof.
  split; [reflexivity|].
  destruct (proj1 (matriculasOf_pieces (Some "12.345, 67890")) _ eq_refl)
    as (s & Hs & _ & _ & Hcat).
  injection Hs as <-. exact Hcat.
Defined.

(** X14: [quartos] and [garagem] are what [Number] makes of the cleaned text of
    the field, when that is finite: a run of decimal digits gives its value,
    a text with a code unit foreign to numerals (a letter of a unit, say)
    gives nothing, and they are never NaN or infinite. *)
Theorem finiteNumber_numeral (raw : option string) :
  (raw = None -> finiteNumber raw = None) /\
  (forall t, raw = Some t ->
     JsString.existsb (fun c => negb (numericChar c) && negb (isWhiteSpace c)) t = true ->
     finiteNumber raw = None) /\
  (forall t, raw = Some t -> JsString.forallb isDigit t = true -> isEmpty t = false ->
     finiteNumber raw = finiteOrUndefined (roundDecimal false (digitsValue t) 0)) /\
  (forall n, finiteNumber raw = Some n -> isFinite n = true) /\
  (forall doc, quartos doc = finiteNumber (pickStrongValue doc "Quartos") /\
               garagem doc = finiteNumber (pickStrongValue doc "Garagem")).
Proof.
  split; [intros ->; reflexivity|]. split; [|split; [|split]].
  - intros t -> H. unfold finiteNumber.
    destruct (truthy t); [|reflexivity]. now rewrite (Number_not_numeric t H).
  - intros t -> Hd Hne. unfold finiteNumber, truthy. rewrite Hne. cbn [negb].
    now rewrite (Number_digits t Hd Hne).
  - intros n. unfold finiteNumber.
    destruct (isFinite _) eqn:E; [|discriminate]. now intros [= <-].
  - intros doc. split; reflexivity.
Qed.

(** X15: the areas are read from the leftmost run of digits, points and commas
    of the cleaned text, whatever stands before and after it: for a text
    [pre ++ num ++ post] with such a run [num] they are
    [parseBrazilianNumber num]; a text without a digit, point or comma gives
    nothing. *)
Theorem areaOf_first_run (pre num post : string) :
  JsString.forallb notBrazilianChar pre = true ->
  JsString.forallb brazilianChar num = true ->
  isEmpty num = false ->
  JsString.forallb brazilianChar (take 1 post) = false \/ post = EmptyString ->
  areaOf (Some (pre ++ num ++ post)) = parseBrazilianNumber num /\
  areaOf (Some pre) = None /\
  areaOf None = None.
Proof.
  intros Hpre Hnum Hne Hpost. unfold areaOf.
  rewrite (firstNumberRun_spec pre num post Hpre Hnum Hne Hpost).
  unfold truthy. rewrite Hne. cbn [negb]. split; [reflexivity|]. split; [|reflexivity].
  unfold firstNumberRun. now rewrite (dropWhile_all _ _ Hpre).
Qed.

(** Instances: an area with a unit, and a text whose first number is not the
    area. *)
Lemma areaOf_first_run_witness :
  areaOf (Some "1.234,56 m2") = parseBrazilianNumber "1.234,56" /\
  areaOf (Some "Lote 12 - 45,00 m2") = parseBrazilianNumber "12" /\
  parseBrazilianNumber "12" = Some (ofZ 12).
Proof.
  split; [|split; [|reflexivity]].
  - exact (proj1 (areaOf_first_run "" "1.234,56" " m2" eq_refl eq_refl eq_refl
                    (or_introl eq_refl))).
  - exact (proj1 (areaOf_first_run "Lote " "12" " - 45,00 m2" eq_refl eq_refl eq_refl
                    (or_introl eq_refl))).
Defined.

End DetailFields.

(** ** src/server.ts: the names of the output files and the log of a job *)

Module Server.
Import JsString JsNumber.
Local Open Scope string_scope.

(** [String.prototype.toLowerCase] on a code unit below 256: the letters A-Z
    and the capital letters of Latin-1 (192 to 222, the multiplication sign
    215 apart) move up by 32. *)
Definition toLowerCaseUnit (c : ascii) : ascii :=
  let n := nat_of_ascii c in
  if (((65 <=? n) && (n <=? 90)) || ((192 <=? n) && (n <=? 222) && negb (n =? 215)))%nat
  then ascii_of_nat (n + 32) else c.

Fixpoint toLowerCase (s : string) : string :=
  match s with
  | EmptyString => EmptyString
  | String c r => String (toLowerCaseUnit c) (toLowerCase r)
  end.

Definition slash : ascii := "/".
Definition backslash : ascii := ascii_of_nat 92.

(** [safeOutputFileName]: [null] is [None]. *)
Definition safeOutputFileName (fileName : string) : option string :=
  if includes (String slash EmptyString) fileName
     || includes (String backslash EmptyString) fileName
     || includes ".." fileName
  then None
  else if negb (Dom.endsWith ".csv" (toLowerCase fileName)) then None
  else Some fileName.

(** The class [[a-zA-Z0-9._-]]. *)
Definition isNameChar (c : ascii) : bool :=
  isAlpha c || isDigit c || Ascii.eqb c "." || Ascii.eqb c "_" || Ascii.eqb c "-".

Definition isDash (c : ascii) : bool := Ascii.eqb c "-".

(** [s.replace(/[^a-zA-Z0-9._-]+/g, "-")]: [inRun] tells that the previous
    code unit was outside the class, already replaced. *)
Fixpoint dashFrom (inRun : bool) (s : string) : string :=
  match s with
  | EmptyString => EmptyString
  | String c r =>
      if isNameChar c then String c (dashFrom false r)
      else if inRun then dashFrom true r
      else String "-" (dashFrom true r)
  end.

(** [s.replace(/-+$/, "")] *)
Fixpoint dropTrailingDashes (s : string) : string :=
  match s with
  | EmptyString => EmptyString
  | String c r =>
      let r' := dropTrailingDashes r in
      if isDash c && isEmpty r' then EmptyString else String c r'
  end.

(** The three replacements of [safeOutputCsvPath]. *)
Definition cleanFileBase (fileBase : string) : string :=
  dropTrailingDashes (dropWhile isDash (dashFrom false fileBase)).

(** The name of the file, [`${name}.csv`]; [now] is [Date.now()]. *)
Definition outputFileName (now : Z) (fileBase : string) : string :=
  let cleaned := cleanFileBase fileBase in
  let name := if (String.length cleaned =? 0)%nat
              then "output-" ++ Scrape.showZ now
              else cleaned in
  name ++ ".csv".

Section WithPath.
(** [path.join] of the platform and the directory [OUTPUT_DIR]. *)
Variable path_join : string -> string -> string.
Variable OUTPUT_DIR : string.

Definition safeOutputCsvPath (now : Z) (fileBase : string) : string :=
  path_join OUTPUT_DIR (outputFileName now fileBase).

End WithPath.

(** [pushLog]: the log of a job keeps its last 500 lines. *)
Definition pushLog (logs : list string) (line : string) : list string :=
  let pushed := (logs ++ [line])%list in
  if (500 <? List.length pushed)%nat then List.tl pushed else pushed.

(** The log after the lines given, from the empty log of a new job. *)
Definition logAfter (lines : list string) : list string :=
  fold_left pushLog lines [].

(** *** Facts *)

Lemma includes_unit_split (c : ascii) (s : string) :
  includes (String c EmptyString) s = false <-> split c s = [s].
Proof.
  induction s as [|x r IH].
  - cbn. tauto.
  - cbn [includes startsWith split]. rewrite (Ascii.eqb_sym x c).
    destruct (Ascii.eqb c x) eqn:E.
    + cbn. split; [discriminate|]. intros H. injection H as H _. discriminate.
    + cbn [andb orb]. rewrite IH. split.
      * intros ->. reflexivity.
      * destruct (split c r) as [|h t] eqn:Hs.
        -- destruct r; cbn in Hs; [discriminate|].
           destruct (Ascii.eqb a c); [discriminate|].
           destruct (split c r); discriminate.
        -- intros H. injection H as -> ->. reflexivity.
Qed.

Lemma toLowerCase_app (a b : string) :
  toLowerCase (a ++ b) = toLowerCase a ++ toLowerCase b.
Proof. induction a as [|c r IH]; [reflexivity|]. cbn. now rewrite IH. Qed.

Lemma toLowerCase_length (s : string) : String.length (toLowerCase s) = String.length s.
Proof. induction s as [|c r IH]; [reflexivity|]. cbn. now rewrite IH. Qed.

Lemma endsWith_app (suffix a : string) : Dom.endsWith suffix (a ++ suffix) = true.
Proof.
  induction a as [|c r IH].
  - cbn [append]. destruct suffix; cbn [Dom.endsWith]; now rewrite String.eqb_refl.
  - cbn [append Dom.endsWith]. rewrite IH. apply orb_true_r.
Qed.

Lemma endsWith_length (suffix s : string) :
  Dom.endsWith suffix s = true -> String.length suffix <= String.length s.
Proof.
  induction s as [|c r IH]; cbn [Dom.endsWith].
  - rewrite orb_false_r. intros H. apply String.eqb_eq in H. subst. apply Nat.le_refl.
  - intros H. apply orb_true_iff in H as [H|H].
    + apply String.eqb_eq in H. rewrite H. apply Nat.le_refl.
    + apply IH in H. cbn [String.length]. lia.
Qed.

Lemma includes_forallb (c : ascii) (p : ascii -> bool) (s : string) :
  p c = false -> JsString.forallb p s = true -> includes (String c EmptyString) s = false.
Proof.
  intros Hc. induction s as [|x r IH]; [reflexivity|].
  cbn [JsString.forallb includes startsWith]. intros H.
  apply andb_true_iff in H as [Hx Hr].
  destruct (Ascii.eqb_spec c x) as [->|_]; [congruence|].
  cbn [andb orb]. now apply IH.
Qed.

Lemma dashFrom_chars (s : string) :
  forall inRun, JsString.forallb isNameChar (dashFrom inRun s) = true.
Proof.
  induction s as [|c r IH]; intros inRun; [reflexivity|]. cbn [dashFrom].
  destruct (isNameChar c) eqn:E; cbn [JsString.forallb].
  - now rewrite E, IH.
  - destruct inRun; [apply IH|]. cbn [JsString.forallb]. now rewrite IH.
Qed.

Lemma dropWhile_forallb (p q : ascii -> bool) (s : string) :
  JsString.forallb p s = true -> JsString.forallb p (dropWhile q s) = true.
Proof.
  induction s as [|c r IH]; [reflexivity|]. cbn [dropWhile].
  destruct (q c); [|trivial]. cbn [JsString.forallb]. intros H.
  apply andb_true_iff in H as [_ H]. now apply IH.
Qed.

Lemma dropTrailingDashes_forallb (p : ascii -> bool) (s : string) :
  JsString.forallb p s = true -> JsString.forallb p (dropTrailingDashes s) = true.
Proof.
  induction s as [|c r IH]; [reflexivity|]. cbn [dropTrailingDashes JsString.forallb].
  intros H. apply andb_true_iff in H as [Hc Hr].
  destruct (isDash c && isEmpty (dropTrailingDashes r)); [reflexivity|].
  cbn [JsString.forallb]. now rewrite Hc, IH.
Qed.

Lemma cleanFileBase_chars (s : string) :
  JsString.forallb isNameChar (cleanFileBase s) = true.
Proof.
  unfold cleanFileBase. apply dropTrailingDashes_forallb, dropWhile_forallb, dashFrom_chars.
Qed.

(** What is left of a text without a leading dash has none. *)
Lemma dropTrailingDashes_head (s : string) :
  startsWith "-" s = false -> startsWith "-" (dropTrailingDashes s) = false.
Proof.
  destruct s as [|c r]; [reflexivity|]. cbn [dropTrailingDashes startsWith].
  unfold isDash. rewrite (Ascii.eqb_sym c "-").
  destruct (Ascii.eqb "-" c) eqn:E; [discriminate|]. intros _.
  cbn [andb startsWith]. now rewrite E.
Qed.

Lemma dropWhile_head (s : string) : startsWith "-" (dropWhile isDash s) = false.
Proof.
  induction s as [|c r IH]; [reflexivity|]. cbn [dropWhile].
  destruct (isDash c) eqn:E; [exact IH|]. cbn [startsWith].
  unfold isDash in E. rewrite Ascii.eqb_sym, E. reflexivity.
Qed.

Lemma dropTrailingDashes_last (s : string) :
  Dom.endsWith "-" (dropTrailingDashes s) = false.
Proof.
  induction s as [|c r IH]; [reflexivity|]. cbn [dropTrailingDashes].
  destruct (isDash c && isEmpty (dropTrailingDashes r)) eqn:E; [reflexivity|].
  cbn [Dom.endsWith]. rewrite IH, orb_false_r.
  destruct (dropTrailingDashes r) as [|d t] eqn:Hr.
  - cbn [isEmpty] in E. rewrite andb_true_r in E. unfold isDash in E.
    cbn [String.eqb]. rewrite E. reflexivity.
  - cbn [String.eqb]. destruct (Ascii.eqb c "-"); reflexivity.
Qed.

Lemma dropTrailingDashes_fixed (s : string) :
  Dom.endsWith "-" s = false -> dropTrailingDashes s = s.
Proof.
  induction s as [|c r IH]; [reflexivity|]. cbn [Dom.endsWith dropTrailingDashes].
  intros H. apply orb_false_iff in H as [Hc Hr]. rewrite (IH Hr).
  destruct r as [|d t].
  - cbn [String.eqb] in Hc. cbn [isEmpty]. unfold isDash.
    destruct (Ascii.eqb c "-"); [discriminate | reflexivity].
  - cbn [isEmpty]. now rewrite andb_false_r.
Qed.

Lemma dropWhile_fixed (s : string) :
  startsWith "-" s = false -> dropWhile isDash s = s.
Proof.
  destruct s as [|c r]; [reflexivity|]. cbn [startsWith dropWhile]. unfold isDash.
  rewrite (Ascii.eqb_sym c "-"). destruct (Ascii.eqb "-" c); [discriminate | reflexivity].
Qed.

Lemma dashFrom_fixed (s : string) :
  JsString.forallb isNameChar s = true -> forall inRun, dashFrom inRun s = s.
Proof.
  induction s as [|c r IH]; [reflexivity|]. cbn [JsString.forallb dashFrom].
  intros H inRun. apply andb_true_iff in H as [Hc Hr]. now rewrite Hc, IH.
Qed.

Lemma showUint_chars (d : Decimal.uint) :
  JsString.forallb isNameChar (NilEmpty.string_of_uint d) = true.
Proof. induction d; cbn [NilEmpty.string_of_uint JsString.forallb]; try rewrite IHd; reflexivity. Qed.

Lemma showZ_chars (z : Z) : JsString.forallb isNameChar (Scrape.showZ z) = true.
Proof.
  unfold Scrape.showZ. destruct (Z.to_int z) as [d|d]; cbn [NilEmpty.string_of_int].
  - apply showUint_chars.
  - cbn [JsString.forallb]. now rewrite showUint_chars.
Qed.

Lemma outputFileName_chars (now : Z) (fileBase : string) :
  JsString.forallb isNameChar (outputFileName now fileBase) = true.
Proof.
  unfold outputFileName. rewrite JsString.forallb_app.
  destruct (String.length (cleanFileBase fileBase) =? 0)%nat.
  - rewrite JsString.forallb_app, showZ_chars. reflexivity.
  - now rewrite cleanFileBase_chars.
Qed.

Lemma length_zero_empty (s : string) : (String.length s =? 0)%nat = isEmpty s.
Proof. destruct s; reflexivity. Qed.

Lemma pushLog_length (logs : list string) (line : string) :
  List.length logs <= 500 -> List.length (pushLog logs line) <= 500.
Proof.
  intros H. unfold pushLog. rewrite length_app. cbn [List.length].
  destruct (Nat.ltb_spec 500 (List.length logs + 1)).
  - destruct logs as [|l ls]; cbn [app List.tl List.length] in *; [lia|].
    rewrite length_app. cbn [List.length]. lia.
  - rewrite length_app. cbn [List.length]. lia.
Qed.

Lemma tl_skipn {A : Type} (k : nat) (l : list A) : List.tl (skipn k l) = skipn (S k) l.
Proof.
  revert l. induction k as [|k IH]; intros [|x l]; try reflexivity.
  cbn [skipn] in *. apply IH.
Qed.

Lemma pushLog_skipn (lines : list string) (line : string) :
  pushLog (skipn (List.length lines - 500) lines) line =
  skipn (List.length (lines ++ [line])%list - 500) (lines ++ [line])%list.
Proof.
  unfold pushLog.
  replace (skipn (List.length lines - 500) lines ++ [line])%list
    with (skipn (List.length lines - 500) (lines ++ [line])%list)
    by (rewrite skipn_app; replace (List.length lines - 500 - List.length lines) with 0 by lia;
        reflexivity).
  rewrite length_skipn, !length_app. cbn [List.length].
  destruct (Nat.ltb_spec 500 (List.length lines + 1 - (List.length lines - 500))) as [H|H].
  - rewrite tl_skipn. f_equal. lia.
  - f_equal. lia.
Qed.

Lemma logAfter_from (lines : list string) :
  forall seen,
    fold_left pushLog lines (skipn (List.length seen - 500) seen) =
    skipn (List.length (seen ++ lines)%list - 500) (seen ++ lines)%list.
Proof.
  induction lines as [|l ls IH]; intros seen; cbn [fold_left].
  - now rewrite app_nil_r.
  - rewrite pushLog_skipn, IH, <- app_assoc. reflexivity.
Qed.

(** *** The properties of the names and of the log *)

(** X16: [safeOutputFileName] returns its argument or nothing, and it returns the
    argument exactly for a single path segment (no slash, no backslash)
    without two dots in a row that ends in ".csv" in some letter case. *)
Theorem safeOutputFileName_segment (fileName : string) :
  (safeOutputFileName fileName = None \/ safeOutputFileName fileName = Some fileName) /\
  (safeOutputFileName fileName = Some fileName <->
   split slash fileName = [fileName] /\
   split backslash fileName = [fileName] /\
   includes ".." fileName = false /\
   Dom.endsWith ".csv" (toLowerCase fileName) = true) /\
  (safeOutputFileName fileName = Some fileName ->
   4 <= String.length fileName /\ fileName <> "." /\ fileName <> "..").
Proof.
  assert (safeOutputFileName fileName = Some fileName <->
          split slash fileName = [fileName] /\
          split backslash fileName = [fileName] /\
          includes ".." fileName = false /\
          Dom.endsWith ".csv" (toLowerCase fileName) = true) as Hiff.
  { unfold safeOutputFileName. rewrite <- !includes_unit_split.
    destruct (includes (String slash "") fileName);
      [cbn [orb]; split; [discriminate | intros (H & _); discriminate]|].
    destruct (includes (String backslash "") fileName);
      [cbn [orb]; split; [discriminate | intros (_ & H & _); discriminate]|].
    destruct (includes ".." fileName);
      [cbn [orb]; split; [discriminate | intros (_ & _ & H & _); discriminate]|].
    cbn [orb].
    destruct (Dom.endsWith ".csv" (toLowerCase fileName)); cbn [negb].
    - tauto.
    - split; [discriminate | intros (_ & _ & _ & H); discriminate]. }
  split; [|split; [exact Hiff|]].
  - unfold safeOutputFileName.
    destruct (includes (String slash "") fileName || includes (String backslash "") fileName
              || includes ".." fileName); [now left|].
    destruct (negb (Dom.endsWith ".csv" (toLowerCase fileName))); [now left | now right].
  - intros H. apply Hiff in H as (_ & _ & _ & H).
    apply endsWith_length in H. rewrite toLowerCase_length in H. cbn [String.length] in H.
    split; [exact H|]. split; intros ->; cbn in H; lia.
Qed.

(** X17: the file name [safeOutputCsvPath] joins to the output directory is made
    of letters, digits, dots, underscores and dashes only, and so is a single
    path segment; it is the cleaned base followed by ".csv", and the cleaned
    base neither starts nor ends with a dash; an empty cleaned base is
    replaced by "output-" and the clock reading.  Cleaning a cleaned base
    changes nothing. *)
Theorem safeOutputCsvPath_name (path_join : string -> string -> string)
    (OUTPUT_DIR : string) (now : Z) (fileBase : string) :
  let cleaned := cleanFileBase fileBase in
  let file := outputFileName now fileBase in
  safeOutputCsvPath path_join OUTPUT_DIR now fileBase = path_join OUTPUT_DIR file /\
  JsString.forallb isNameChar file = true /\
  split slash file = [file] /\
  split backslash file = [file] /\
  file = ((if isEmpty cleaned then "output-" ++ Scrape.showZ now else cleaned) ++ ".csv") /\
  JsString.forallb isNameChar cleaned = true /\
  startsWith "-" cleaned = false /\
  Dom.endsWith "-" cleaned = false /\
  cleanFileBase cleaned = cleaned.
Proof.
  cbv zeta. pose proof (outputFileName_chars now fileBase) as Hchars.
  split; [reflexivity|]. split; [exact Hchars|].
  split; [apply includes_unit_split, (includes_forallb _ isNameChar); [reflexivity|exact Hchars]|].
  split; [apply includes_unit_split, (includes_forallb _ isNameChar); [reflexivity|exact Hchars]|].
  split; [unfold outputFileName; now rewrite length_zero_empty|].
  assert (startsWith "-" (cleanFileBase fileBase) = false) as Hhead
    by (unfold cleanFileBase; apply dropTrailingDashes_head, dropWhile_head).
  assert (Dom.endsWith "-" (cleanFileBase fileBase) = false) as Hlast
    by (unfold cleanFileBase; apply dropTrailingDashes_last).
  split; [apply cleanFileBase_chars|]. split; [exact Hhead|]. split; [exact Hlast|].
  unfold cleanFileBase at 1.
  rewrite (dashFrom_fixed _ (cleanFileBase_chars fileBase)).
  rewrite (dropWhile_fixed _ Hhead). now apply dropTrailingDashes_fixed.
Qed.

(** X18: the download route accepts the name of a file a job writes exactly when
    the name has no two dots in a row: a base whose cleaned form ends with a
    dot, or holds two dots in a row, gives a file that [safeOutputFileName]
    refuses. *)
Theorem safeOutputFileName_outputFileName (now : Z) (fileBase : string) :
  let file := outputFileName now fileBase in
  (safeOutputFileName file = Some file <-> includes ".." file = false) /\
  (includes ".." (cleanFileBase fileBase) = true \/
   Dom.endsWith "." (cleanFileBase fileBase) = true ->
   safeOutputFileName file = None).
Proof.
  cbv zeta. pose proof (outputFileName_chars now fileBase) as Hchars.
  assert (includes (String slash "") (outputFileName now fileBase) = false) as Hs
    by (apply (includes_forallb _ isNameChar); [reflexivity | exact Hchars]).
  assert (includes (String backslash "") (outputFileName now fileBase) = false) as Hb
    by (apply (includes_forallb _ isNameChar); [reflexivity | exact Hchars]).
  assert (Dom.endsWith ".csv" (toLowerCase (outputFileName now fileBase)) = true) as He.
  { unfold outputFileName. rewrite toLowerCase_app. apply endsWith_app. }
  assert (safeOutputFileName (outputFileName now fileBase) =
          if includes ".." (outputFileName now fileBase)
          then None else Some (outputFileName now fileBase)) as Hsafe.
  { unfold safeOutputFileName. rewrite Hs, Hb, He. cbn [orb negb].
    destruct (includes ".." (outputFileName now fileBase)); reflexivity. }
  split.
  - rewrite Hsafe. destruct (includes ".." (outputFileName now fileBase));
      split; congruence.
  - intros H. rewrite Hsafe.
    assert (includes ".." (outputFileName now fileBase) = true) as ->; [|reflexivity].
    unfold outputFileName. rewrite length_zero_empty.
    destruct (cleanFileBase fileBase) as [|c r] eqn:Hc.
    + destruct H as [H|H]; discriminate.
    + cbn [isEmpty]. revert H. generalize (String c r) as s. clear.
      induction s as [|x t IH]; [intros [H|H]; discriminate|].
      intros [H|H].
      * cbn [includes] in H. apply orb_true_iff in H as [H|H].
        -- cbn [append includes]. apply orb_true_iff. left.
           destruct t as [|y t]; cbn [startsWith] in H |- *;
             [now rewrite andb_false_r in H|].
           cbn [append startsWith]. exact H.
        -- cbn [append includes]. apply orb_true_iff. right. apply IH. now left.
      * cbn [Dom.endsWith] in H. apply orb_true_iff in H as [H|H].
        -- apply String.eqb_eq in H. injection H as -> ->. reflexivity.
        -- cbn [append includes]. apply orb_true_iff. right. apply IH. now right.
Qed.

(** X19: the log of a job never holds more than 500 lines: after any sequence of
    calls of [pushLog] on a new job it is the last 500 of the lines pushed,
    in their order. *)
Theorem pushLog_last_500 (lines : list string) :
  logAfter lines = skipn (List.length lines - 500) lines /\
  List.length (logAfter lines) = Nat.min 500 (List.length lines).
Proof.
  assert (logAfter lines = skipn (List.length lines - 500) lines) as H
    by exact (logAfter_from lines []).
  split; [exact H|]. rewrite H, length_skipn. lia.
Qed.

End Server.
